(** * The IPv4 FIB trie of net/ipv4/fib_trie.c

    A shallow embedding of the level- and path-compressed trie that stores
    IPv4 routes, and the properties its specification states about it.

    Conventions of the embedding.
    - [t_key] is a 32-bit unsigned integer, kept as a [Z] in [0, 2^32);
      [unsigned long] is 64 bits wide ([BITS_PER_LONG = 64]); [pos], [bits]
      and [slen] are [unsigned char].  Wrap-around is written out where the
      C arithmetic can wrap.
    - A [struct key_vector] together with the [struct tyesde] that holds it
      is one value of [key_vector]: a leaf with its alias list, or an
      internal node with its child array.  The trie root [t->kv] is the
      key vector with [pos = KEYLENGTH], [bits = 0] and the single slot
      [tyesde[0]].
    - A pointer to a node is the list of child indices that leads to it,
      deepest index first: the root is [[]], and [yesde_parent] of
      [i :: p] is [p].  Writing through a pointer rebuilds the spine above
      it; parent pointers are therefore implicit and [update_children],
      [NODE_INIT_PARENT] and [yesde_set_parent] have nothing to do.
    - A pointer to an alias inside a leaf's hlist is its position in the
      list.
    - Allocation ([kmem_cache_alloc], [kzalloc], [vzalloc]) consults an
      oracle, the list [kmem] of future outcomes carried in the state.
    - [BUG_ON] and an exhausted iteration bound of the embedding give no
      result ([None]).
    - RCU publication, deferred freeing, statistics, tracing and netlink
      messages do not change what the trie holds and are left out. *)

From Stdlib Require Import ZArith Lia Bool List Sorted.
From stdpp Require Import base tactics option list numbers sorting.

Local Open Scope Z_scope.

(** ** Machine integers and constants *)

Definition KEYLENGTH : Z := 32.
Definition BITS_PER_LONG : Z := 64.
Definition KEY_MAX : Z := 2 ^ 32 - 1.

Definition u8 (x : Z) : Z := x mod 2 ^ 8.
Definition u32 (x : Z) : Z := x mod 2 ^ 32.
Definition ulong (x : Z) : Z := x mod 2 ^ 64.

(** Values of <linux/errno.h>, <linux/netlink.h> and <linux/rtnetlink.h>,
    which the file includes. *)
Definition ENOENT : Z := 2.
Definition ESRCH : Z := 3.
Definition EAGAIN : Z := 11.
Definition ENOMEM : Z := 12.
Definition EEXIST : Z := 17.
Definition EINVAL : Z := 22.
Definition ENOBUFS : Z := 105.

Definition NLM_F_REPLACE : Z := 256.
Definition NLM_F_EXCL : Z := 512.
Definition NLM_F_CREATE : Z := 1024.
Definition NLM_F_APPEND : Z := 2048.

Definition RTNH_F_DEAD : Z := 1.
Definition RTNH_F_LINKDOWN : Z := 16.
Definition RTN_BLACKHOLE : Z := 6.
Definition RT_SCOPE_NOWHERE : Z := 255.
Definition FA_S_ACCESSED : Z := 1.
Definition FIB_LOOKUP_IGNORE_LINKSTATE : Z := 2.
Definition FLOWI_FLAG_SKIP_NH_OIF : Z := 4.

Definition MAX_WORK : nat := 10.

Definition halve_threshold : Z := 25.
Definition inflate_threshold : Z := 50.
Definition halve_threshold_root : Z := 15.
Definition inflate_threshold_root : Z := 30.

(** [flag_set x f] is the C test [x & f]. *)
Definition flag_set (x f : Z) : bool := negb (Z.land x f =? 0).

(** ** Data model *)

(** The part of [struct fib_nh_common] that the lookup reads;
    [nhc_igyesre_linkdown] is [ip_igyesre_linkdown(nhc->nhc_dev)]. *)
Record fib_nh_common := {
  nhc_flags : Z;
  nhc_oif : Z;
  nhc_igyesre_linkdown : bool
}.

(** The part of [struct fib_info] that the trie reads.  [fi_ref] stands for
    the address of the object: two infos are the same object when the
    records are equal.  [fib_nh_blackhole] is
    [fi->nh && nexthop_is_blackhole(fi->nh)]. *)
Record fib_info := {
  fi_ref : Z;
  fib_priority : Z;
  fib_scope : Z;
  fib_dead : bool;
  fib_flags : Z;
  fib_prefsrc : Z;
  fib_protocol : Z;
  fib_nh_blackhole : bool;
  fib_nhs : list fib_nh_common
}.

Record fib_alias := {
  fa_info : fib_info;
  fa_tos : Z;
  fa_type : Z;
  fa_state : Z;
  fa_slen : Z;
  tb_id : Z;
  fa_default : Z
}.

#[global] Instance fib_nh_common_eq_dec : EqDecision fib_nh_common.
Proof. solve_decision. Defined.
#[global] Instance fib_info_eq_dec : EqDecision fib_info.
Proof. solve_decision. Defined.
#[global] Instance fib_alias_eq_dec : EqDecision fib_alias.
Proof. solve_decision. Defined.

(** [struct key_vector] inside its [struct tyesde].  A leaf has
    [pos = bits = 0] and owns the hlist [leaf]; an internal node owns the
    child array [tyesde] and the two counters of its [struct tyesde]. *)
#[warnings="-register-all"]
Inductive key_vector : Type :=
| Leaf (key : Z) (slen : Z) (leaf : list fib_alias)
| Tyesde (key : Z) (pos bits : Z) (slen : Z)
         (empty_children full_children : Z)
         (tyesde : list (option key_vector)).

Definition kv_key (n : key_vector) : Z :=
  match n with Leaf k _ _ => k | Tyesde k _ _ _ _ _ _ => k end.
Definition kv_pos (n : key_vector) : Z :=
  match n with Leaf _ _ _ => 0 | Tyesde _ p _ _ _ _ _ => p end.
Definition kv_bits (n : key_vector) : Z :=
  match n with Leaf _ _ _ => 0 | Tyesde _ _ b _ _ _ _ => b end.
Definition kv_slen (n : key_vector) : Z :=
  match n with Leaf _ s _ => s | Tyesde _ _ _ s _ _ _ => s end.
Definition kv_leaf (n : key_vector) : list fib_alias :=
  match n with Leaf _ _ l => l | Tyesde _ _ _ _ _ _ _ => [] end.
Definition kv_tyesde (n : key_vector) : list (option key_vector) :=
  match n with Leaf _ _ _ => [] | Tyesde _ _ _ _ _ _ c => c end.
Definition kv_empty_children (n : key_vector) : Z :=
  match n with Leaf _ _ _ => 0 | Tyesde _ _ _ _ e _ _ => e end.
Definition kv_full_children (n : key_vector) : Z :=
  match n with Leaf _ _ _ => 0 | Tyesde _ _ _ _ _ f _ => f end.

Definition set_slen (s : Z) (n : key_vector) : key_vector :=
  match n with
  | Leaf k _ l => Leaf k s l
  | Tyesde k p b _ e f c => Tyesde k p b s e f c
  end.

Definition set_leaf (l : list fib_alias) (n : key_vector) : key_vector :=
  match n with
  | Leaf k s _ => Leaf k s l
  | Tyesde _ _ _ _ _ _ _ => n
  end.

Definition IS_TRIE (n : key_vector) : bool := KEYLENGTH <=? kv_pos n.
Definition IS_TNODE (n : key_vector) : bool := negb (kv_bits n =? 0).
Definition IS_LEAF (n : key_vector) : bool := kv_bits n =? 0.

(** The root of an empty table, as [fib_trie_table] sets it up. *)
Definition trie_empty : key_vector :=
  Tyesde 0 KEYLENGTH 0 KEYLENGTH 0 0 [None].

(** [(1ul << tn->bits) & ~(1ul)] *)
Definition child_length (tn : key_vector) : Z :=
  if kv_bits tn =? 0 then 0 else 2 ^ kv_bits tn.

(** [get_child(tn, i)]: the child pointer in slot [i]. *)
Definition get_child (tn : key_vector) (i : Z) : option key_vector :=
  if i <? 0 then None
  else match kv_tyesde tn !! Z.to_nat i with
       | Some c => c
       | None => None
       end.

(** [#define get_cindex(key, kv) (((key) ^ (kv)->key) >> (kv)->pos)] *)
Definition get_cindex (key : Z) (kv : key_vector) : Z :=
  Z.shiftr (Z.lxor key (kv_key kv)) (kv_pos kv).

(** With [BITS_PER_LONG = 64] the guard on [KEYLENGTH == kv->pos] is never
    taken and the 64-bit shift by 32 gives 0 at the root. *)
Definition get_index (key : Z) (kv : key_vector) : Z :=
  let index := Z.lxor key (kv_key kv) in
  if (BITS_PER_LONG <=? KEYLENGTH) && (KEYLENGTH =? kv_pos kv) then 0
  else Z.shiftr index (kv_pos kv).

(** ** Pointers and the mutable state *)

(** A pointer to a node: the child indices from the node up to the root. *)
Definition ptr : Type := list Z.

(** The state a writer works on: the allocator's future answers
    ([true]: the allocation succeeds; an empty list: every allocation
    succeeds) and the trie root [t->kv]. *)
Record world := World {
  kmem : list bool;
  kv : key_vector
}.

Definition M (A : Type) : Type := world -> option (A * world).

Definition ret {A} (a : A) : M A := fun w => Some (a, w).
Definition bind {A B} (m : M A) (k : A -> M B) : M B :=
  fun w => match m w with
           | Some (a, w') => k a w'
           | None => None
           end.
(** [BUG()], a NULL dereference, or the iteration bound of the embedding. *)
Definition oops {A} : M A := fun _ => None.

Declare Scope kernel_scope.
Delimit Scope kernel_scope with K.
Notation "x <- m ;; k" := (bind m (fun x => k))
  (at level 100, m at next level, right associativity) : kernel_scope.
Notation "m ;;; k" := (bind m (fun _ => k))
  (at level 100, right associativity) : kernel_scope.
Local Open Scope kernel_scope.

Definition lift {A} (o : option A) : M A :=
  match o with Some a => ret a | None => oops end.

(** One allocation: [true] when memory was granted. *)
Definition kalloc : M bool := fun w =>
  match kmem w with
  | [] => Some (true, w)
  | b :: k => Some (b, World k (kv w))
  end.

Fixpoint get_yesde (r : key_vector) (p : ptr) : option key_vector :=
  match p with
  | [] => Some r
  | i :: p' => match get_yesde r p' with
               | Some tn => get_child tn i
               | None => None
               end
  end.

(** [rcu_assign_pointer(tn->tyesde[i], n)] *)
Definition set_child (tn : key_vector) (i : Z) (n : option key_vector)
  : key_vector :=
  match tn with
  | Leaf _ _ _ => tn
  | Tyesde k p b s e f c =>
      if i <? 0 then tn else Tyesde k p b s e f (<[Z.to_nat i := n]> c)
  end.

(** The object behind pointer [p] takes the value [n]. *)
Fixpoint set_yesde (r : key_vector) (p : ptr) (n : key_vector)
  : option key_vector :=
  match p with
  | [] => Some n
  | i :: p' => match get_yesde r p' with
               | Some tp => set_yesde r p' (set_child tp i (Some n))
               | None => None
               end
  end.

(** The root [t->kv]. *)
Definition get_trie : M key_vector := fun w => Some (kv w, w).

(** Dereference a pointer. *)
Definition deref (p : ptr) : M key_vector :=
  fun w => match get_yesde (kv w) p with
           | Some n => Some (n, w)
           | None => None
           end.

(** Store through a pointer. *)
Definition store (p : ptr) (n : key_vector) : M unit :=
  fun w => match set_yesde (kv w) p n with
           | Some r => Some (tt, World (kmem w) r)
           | None => None
           end.

(** ** Node allocation and child slots *)

(** [ilog2((SIZE_MAX - TNODE_SIZE(0)) / sizeof(struct key_vector * ))] on a
    64-bit machine. *)
Definition TNODE_VMALLOC_MAX : Z := 60.

Definition tyesde_alloc (bits : Z) : M bool :=
  if TNODE_VMALLOC_MAX <? bits then ret false else kalloc.

Definition leaf_new (key : Z) (fa : fib_alias) : M (option key_vector) :=
  ok <- kalloc ;;
  if ok then ret (Some (Leaf key (fa_slen fa) [fa])) else ret None.

Definition tyesde_new (key pos bits : Z) : M (option key_vector) :=
  let shift := u32 (pos + bits) in
  if (bits =? 0) || (KEYLENGTH <? shift) then oops
  else
    ok <- tyesde_alloc bits ;;
    if negb ok then ret None
    else
      let e := if bits =? KEYLENGTH then 0 else 2 ^ bits in
      let f := if bits =? KEYLENGTH then 1 else 0 in
      let k := if shift <? KEYLENGTH
               then u32 (Z.shiftl (Z.shiftr key shift) shift) else 0 in
      ret (Some (Tyesde k (u8 pos) (u8 bits) (u8 pos) e f
                        (replicate (Z.to_nat (2 ^ bits)) None))).

Definition empty_child_inc (n : key_vector) : key_vector :=
  match n with
  | Leaf _ _ _ => n
  | Tyesde k p b s e f c =>
      let e' := u32 (e + 1) in
      Tyesde k p b s e' (if e' =? 0 then u32 (f + 1) else f) c
  end.

Definition empty_child_dec (n : key_vector) : key_vector :=
  match n with
  | Leaf _ _ _ => n
  | Tyesde k p b s e f c =>
      Tyesde k p b s (u32 (e - 1)) (if e =? 0 then u32 (f - 1) else f) c
  end.

Definition full_children_add (d : Z) (n : key_vector) : key_vector :=
  match n with
  | Leaf _ _ _ => n
  | Tyesde k p b s e f c => Tyesde k p b s e (u32 (f + d)) c
  end.

(** [n && ((n->pos + n->bits) == tn->pos) && IS_TNODE(n)] *)
Definition tyesde_full (tn : key_vector) (n : option key_vector) : bool :=
  match n with
  | None => false
  | Some n => (kv_pos n + kv_bits n =? kv_pos tn) && IS_TNODE n
  end.

Definition put_child (tn : key_vector) (i : Z) (n : option key_vector)
  : option key_vector :=
  let chi := get_child tn i in
  if (i <? 0) || (child_length tn <=? i) then None
  else
    let tn := if negb (bool_decide (is_Some n)) && bool_decide (is_Some chi)
              then empty_child_inc tn else tn in
    let tn := if bool_decide (is_Some n) && negb (bool_decide (is_Some chi))
              then empty_child_dec tn else tn in
    let wasfull := tyesde_full tn chi in
    let isfull := tyesde_full tn n in
    let tn := if wasfull && negb isfull then full_children_add (-1) tn
              else if negb wasfull && isfull then full_children_add 1 tn
              else tn in
    let tn := match n with
              | Some c => if kv_slen tn <? kv_slen c
                          then set_slen (kv_slen c) tn else tn
              | None => tn
              end in
    Some (set_child tn i n).

(** [put_child_root(tp, key, n)] on the node behind [tp]. *)
Definition put_child_root (tp : ptr) (key : Z) (n : option key_vector)
  : M unit :=
  tpn <- deref tp ;;
  if IS_TRIE tpn then store tp (set_child tpn 0 n)
  else tpn' <- lift (put_child tpn (get_index key tpn) n) ;; store tp tpn'.

(** ** Suffix lengths *)

(** The scan of [update_suffix]: [fuel] bounds the iterations, and
    [child_length tn] of them are enough while [stride] does not overflow
    to 0 (the C loop would then spin). *)
Fixpoint update_suffix_scan (fuel : nat) (tn : key_vector)
    (slen_max i stride slen : Z) : option Z :=
  if child_length tn <=? i then Some slen
  else match fuel with
       | O => None
       | S fuel' =>
           match get_child tn i with
           | None =>
               update_suffix_scan fuel' tn slen_max (ulong (i + stride))
                                  stride slen
           | Some n =>
               if kv_slen n <=? slen
               then update_suffix_scan fuel' tn slen_max (ulong (i + stride))
                                       stride slen
               else
                 let stride' := ulong (Z.shiftl stride (kv_slen n - slen)) in
                 let slen' := kv_slen n in
                 let i' := Z.land i (Z.lnot (stride' - 1)) in
                 if slen_max <=? slen' then Some slen'
                 else update_suffix_scan fuel' tn slen_max
                                         (ulong (i' + stride')) stride' slen'
           end
       end.

(** [update_suffix(tn)]: the new node and the suffix length returned. *)
Definition update_suffix (tn : key_vector) : option (key_vector * Z) :=
  let slen_max := Z.min (u8 (kv_pos tn + kv_bits tn - 1)) (kv_slen tn) in
  match update_suffix_scan (Z.to_nat (child_length tn)) tn slen_max 0 2
                           (kv_pos tn) with
  | Some slen => Some (set_slen slen tn, slen)
  | None => None
  end.

(** ** Resizing *)

Definition should_inflate (tp tn : key_vector) : bool :=
  let used := child_length tn in
  let threshold :=
    ulong (used * (if IS_TRIE tp then inflate_threshold_root
                   else inflate_threshold)) in
  let used := ulong (used - kv_empty_children tn) in
  let used := ulong (used + kv_full_children tn) in
  (1 <? used) && negb (kv_pos tn =? 0) && (threshold <=? ulong (50 * used)).

Definition should_halve (tp tn : key_vector) : bool :=
  let used := child_length tn in
  let threshold :=
    ulong (used * (if IS_TRIE tp then halve_threshold_root
                   else halve_threshold)) in
  let used := ulong (used - kv_empty_children tn) in
  (1 <? used) && (1 <? kv_bits tn) && (ulong (100 * used) <? threshold).

Definition should_collapse (tn : key_vector) : bool :=
  let used := child_length tn in
  let used := ulong (used - kv_empty_children tn) in
  let used := if (kv_bits tn =? KEYLENGTH)
                 && negb (kv_full_children tn =? 0)
              then ulong (used - KEY_MAX) else used in
  used <? 2.

(** The inner loop of [inflate] that deals the children of [iyesde] out to
    [yesde0] and [yesde1]; [j] and [k] are the C variables, and one step is
    one pass through the body (which is unrolled twice in the source). *)
Fixpoint inflate_split (j : nat) (k : Z) (iyesde yesde0 yesde1 : key_vector)
  : option (key_vector * key_vector) :=
  match j with
  | O => Some (yesde0, yesde1)
  | S (S j') =>
      let j1 := Z.of_nat (S j') in
      let j2 := Z.of_nat j' in
      yesde1 ← put_child yesde1 j1 (get_child iyesde (k - 1));
      yesde0 ← put_child yesde0 j1 (get_child iyesde j1);
      yesde1 ← put_child yesde1 j2 (get_child iyesde (k - 2));
      yesde0 ← put_child yesde0 j2 (get_child iyesde j2);
      inflate_split j' (k - 2) iyesde yesde0 yesde1
  | S O => None
  end.

(** The outer loop of [inflate], over the children of [oldtyesde] from the
    last to the first.  The result is [None] at the label [yesmem]. *)
Fixpoint inflate_loop (i : nat) (oldtyesde tn : key_vector)
  : M (option key_vector) :=
  match i with
  | O => ret (Some tn)
  | S i' =>
      let i := Z.of_nat i' in
      let m := u32 (Z.shiftl 1 (kv_pos tn)) in
      match get_child oldtyesde i with
      | None => inflate_loop i' oldtyesde tn
      | Some iyesde =>
          if negb (tyesde_full oldtyesde (Some iyesde)) then
            tn' <- lift (put_child tn (get_index (kv_key iyesde) tn)
                                   (Some iyesde)) ;;
            inflate_loop i' oldtyesde tn'
          else if kv_bits iyesde =? 1 then
            tn' <- lift (put_child tn (2 * i + 1) (get_child iyesde 1)) ;;
            tn' <- lift (put_child tn' (2 * i) (get_child iyesde 0)) ;;
            inflate_loop i' oldtyesde tn'
          else
            yesde1 <- tyesde_new (Z.lor (kv_key iyesde) m) (kv_pos iyesde)
                                 (kv_bits iyesde - 1) ;;
            match yesde1 with
            | None => ret None
            | Some yesde1 =>
                yesde0 <- tyesde_new (kv_key iyesde) (kv_pos iyesde)
                                     (kv_bits iyesde - 1) ;;
                match yesde0 with
                | None => ret None
                | Some yesde0 =>
                    let k := child_length iyesde in
                    halves <- lift (inflate_split (Z.to_nat (k / 2)) k
                                                  iyesde yesde0 yesde1) ;;
                    let '(yesde0, yesde1) := halves in
                    tn' <- lift (put_child tn (2 * i + 1) (Some yesde1)) ;;
                    tn' <- lift (put_child tn' (2 * i) (Some yesde0)) ;;
                    inflate_loop i' oldtyesde tn'
                end
            end
      end
  end.

(** The loop of [halve], over the pairs of children of [oldtyesde];
    [i] counts the pairs still to do. *)
Fixpoint halve_loop (i : nat) (oldtyesde tn : key_vector)
  : M (option key_vector) :=
  match i with
  | O => ret (Some tn)
  | S i' =>
      let i1 := 2 * Z.of_nat i' + 1 in
      let i0 := 2 * Z.of_nat i' in
      let yesde1 := get_child oldtyesde i1 in
      let yesde0 := get_child oldtyesde i0 in
      match yesde1, yesde0 with
      | Some n1, Some n0 =>
          iyesde <- tyesde_new (kv_key n0) (kv_pos oldtyesde) 1 ;;
          match iyesde with
          | None => ret None
          | Some iyesde =>
              iyesde <- lift (put_child iyesde 1 yesde1) ;;
              iyesde <- lift (put_child iyesde 0 yesde0) ;;
              tn' <- lift (put_child tn (i0 / 2) (Some iyesde)) ;;
              halve_loop i' oldtyesde tn'
          end
      | _, _ =>
          tn' <- lift (put_child tn (i0 / 2)
                         (if bool_decide (is_Some yesde1) then yesde1
                          else yesde0)) ;;
          halve_loop i' oldtyesde tn'
      end
  end.

(** [collapse]: the scan for the child that might still exist, from the
    last slot down. *)
Fixpoint collapse_scan (i : nat) (oldtyesde : key_vector)
  : option key_vector :=
  match i with
  | O => None
  | S i' => match get_child oldtyesde (Z.of_nat i') with
            | Some n => Some n
            | None => collapse_scan i' oldtyesde
            end
  end.

Definition collapse (oldtyesde : ptr) : M unit :=
  old <- deref oldtyesde ;;
  let n := collapse_scan (Z.to_nat (child_length old)) old in
  match oldtyesde with
  | [] => oops
  | _ :: tp => put_child_root tp (kv_key old) n
  end.

Section Resize.
(** [resize] as called from [replace]. *)
Variable resize : ptr -> M unit.

(** The last loop of [replace]: resize the full children of the node
    behind [tn]. *)
Fixpoint replace_loop (i : nat) (tn : ptr) : M unit :=
  match i with
  | O => ret tt
  | S i' =>
      tnn <- deref tn ;;
      let iyesde := get_child tnn (Z.of_nat i') in
      (if tyesde_full tnn iyesde then resize (Z.of_nat i' :: tn)
       else ret tt) ;;;
      replace_loop i' tn
  end.

(** [replace(t, oldtyesde, tn)]; [tn] is the node just built. *)
Definition replace (oldtyesde : ptr) (tn : key_vector) : M unit :=
  match oldtyesde with
  | [] => oops
  | _ :: tp =>
      tpn <- deref tp ;;
      put_child_root tp (kv_key tn) (Some tn) ;;;
      let here := (if IS_TRIE tpn then 0 else get_index (kv_key tn) tpn)
                  :: tp in
      replace_loop (Z.to_nat (child_length tn)) here
  end.

(** [inflate]: [true] when a parent pointer is returned, [false] for
    NULL. *)
Definition inflate (oldtyesde : ptr) : M bool :=
  old <- deref oldtyesde ;;
  tn <- tyesde_new (kv_key old) (kv_pos old - 1) (kv_bits old + 1) ;;
  match tn with
  | None => ret false
  | Some tn =>
      tn <- inflate_loop (Z.to_nat (child_length old)) old tn ;;
      match tn with
      | None => ret false
      | Some tn => replace oldtyesde tn ;;; ret true
      end
  end.

Definition halve (oldtyesde : ptr) : M bool :=
  old <- deref oldtyesde ;;
  tn <- tyesde_new (kv_key old) (kv_pos old + 1) (kv_bits old - 1) ;;
  match tn with
  | None => ret false
  | Some tn =>
      tn <- halve_loop (Z.to_nat (child_length old / 2)) old tn ;;
      match tn with
      | None => ret false
      | Some tn => replace oldtyesde tn ;;; ret true
      end
  end.

(** [while (should_inflate(tp, tn) && max_work)]: the work left. *)
Fixpoint resize_inflate (max_work : nat) (tp tn : ptr) : M nat :=
  tpn <- deref tp ;;
  tnn <- deref tn ;;
  match max_work with
  | O => ret O
  | S max_work' =>
      if should_inflate tpn tnn then
        ok <- inflate tn ;;
        if ok then resize_inflate max_work' tp tn else ret max_work
      else ret max_work
  end.

(** [while (should_halve(tp, tn) && max_work)]: the work left, and
    whether the loop was left with [tp == NULL], by the [break]. *)
Fixpoint resize_halve (max_work : nat) (tp tn : ptr) : M (nat * bool) :=
  tpn <- deref tp ;;
  tnn <- deref tn ;;
  match max_work with
  | O => ret (O, false)
  | S max_work' =>
      if should_halve tpn tnn then
        ok <- halve tn ;;
        if ok then resize_halve max_work' tp tn else ret (max_work, true)
      else ret (max_work, false)
  end.

Definition resize_body (tn : ptr) : M unit :=
  match tn with
  | [] => oops
  | c :: tp =>
      tpn <- deref tp ;;
      tnn <- deref tn ;;
      let cindex := get_index (kv_key tnn) tpn in
      if negb (c =? cindex) then oops
      else
        let tn := cindex :: tp in
        max_work <- resize_inflate MAX_WORK tp tn ;;
        if negb (Nat.eqb max_work MAX_WORK) then ret tt
        else
          resize_halve max_work tp tn ;;;
          tnn <- deref tn ;;
          if should_collapse tnn then collapse tn else ret tt
  end.
End Resize.

(** [resize(t, tn)].  The pointer it returns is always the parent of [tn].
    [depth] bounds the nesting of [resize] inside [replace]; each nested
    call is on a full child, whose [pos + bits] is smaller. *)
Fixpoint resize_depth (depth : nat) (tn : ptr) : M unit :=
  match depth with
  | O => oops
  | S depth' => resize_body (resize_depth depth') tn
  end.

Definition resize (tn : ptr) : M unit :=
  resize_depth (S (Z.to_nat KEYLENGTH)) tn.

(** [yesde_pull_suffix(tn, slen)] *)
Fixpoint yesde_pull_suffix (tn : ptr) (slen : Z) : M unit :=
  n <- deref tn ;;
  let yesde_slen := kv_slen n in
  if (kv_pos n <? yesde_slen) && (slen <? yesde_slen) then
    r <- lift (update_suffix n) ;;
    let '(n', slen') := r in
    store tn n' ;;;
    if yesde_slen =? slen' then ret tt
    else match tn with
         | [] => oops
         | _ :: tp => yesde_pull_suffix tp slen'
         end
  else ret tt.

(** [yesde_push_suffix(tn, slen)] *)
Fixpoint yesde_push_suffix (tn : ptr) (slen : Z) : M unit :=
  n <- deref tn ;;
  if kv_slen n <? slen then
    store tn (set_slen slen n) ;;;
    match tn with
    | [] => oops
    | _ :: tp => yesde_push_suffix tp slen
    end
  else ret tt.

(** ** Finding a leaf and an alias *)

(** The number of levels below a node; it bounds every descent. *)
Fixpoint height (n : key_vector) : nat :=
  match n with
  | Leaf _ _ _ => O
  | Tyesde _ _ _ _ _ _ c =>
      S (foldr Nat.max O
           (map (fun o => match o with Some x => height x | None => O end) c))
  end.

(** The [do ... while] loop of [fib_find_yesde]: [n] is the pointer held
    in the variable [n] at the top of the body and [index] the child to
    take.  The result is [*tp] and the leaf returned. *)
Fixpoint fib_find_yesde_loop (fuel : nat) (t : key_vector) (n : ptr)
    (index key : Z) : option (ptr * option ptr) :=
  match fuel with
  | O => None
  | S fuel' =>
      let pn := n in
      match get_yesde t (index :: n) with
      | None => Some (pn, None)
      | Some c =>
          let index' := get_cindex key c in
          if 2 ^ kv_bits c <=? index' then Some (pn, None)
          else if IS_TNODE c
               then fib_find_yesde_loop fuel' t (index :: n) index' key
               else Some (pn, Some (index :: n))
      end
  end.

Definition fib_find_yesde (t : key_vector) (key : Z)
  : option (ptr * option ptr) :=
  fib_find_yesde_loop (S (height t)) t [] 0 key.

(** [fib_find_alias]: the position of the alias returned, [i] being the
    position of the head of [fah]. *)
Fixpoint fib_find_alias_from (i : nat) (fah : list fib_alias)
    (slen tos prio tb : Z) : option nat :=
  match fah with
  | [] => None
  | fa :: rest =>
      if fa_slen fa <? slen then
        fib_find_alias_from (S i) rest slen tos prio tb
      else if negb (fa_slen fa =? slen) then None
      else if tb <? tb_id fa then
        fib_find_alias_from (S i) rest slen tos prio tb
      else if negb (tb_id fa =? tb) then None
      else if tos <? fa_tos fa then
        fib_find_alias_from (S i) rest slen tos prio tb
      else if (prio <=? fib_priority (fa_info fa)) || (fa_tos fa <? tos)
      then Some i
      else fib_find_alias_from (S i) rest slen tos prio tb
  end.

Definition fib_find_alias (fah : list fib_alias) (slen tos prio tb : Z)
  : option nat :=
  fib_find_alias_from O fah slen tos prio tb.

(** ** Insertion *)

Fixpoint trie_rebalance (tn : ptr) : M unit :=
  n <- deref tn ;;
  if IS_TRIE n then ret tt
  else
    resize tn ;;;
    match tn with
    | [] => oops
    | _ :: tp => trie_rebalance tp
    end.

(** [__fls(x)]: the index of the most significant set bit. *)
Definition __fls (x : Z) : Z := Z.log2 x.

(** [fib_insert_yesde]: 0 or [-ENOMEM]. *)
Definition fib_insert_yesde (tp : ptr) (new : fib_alias) (key : Z) : M Z :=
  l <- leaf_new key new ;;
  match l with
  | None => ret (- ENOMEM)
  | Some l =>
      tpn <- deref tp ;;
      let n := get_child tpn (get_index key tpn) in
      tp' <-
        match n with
        | Some nn =>
            tn <- tyesde_new key (__fls (Z.lxor key (kv_key nn))) 1 ;;
            match tn with
            | None => ret None
            | Some tn =>
                tn <- lift (put_child tn (Z.lxor (get_index key tn) 1) n) ;;
                put_child_root tp key (Some tn) ;;;
                ret (Some ((if IS_TRIE tpn then 0 else get_index key tpn)
                           :: tp))
            end
        | None => ret (Some tp)
        end ;;
      match tp' with
      | None => ret (- ENOMEM)
      | Some tp =>
          yesde_push_suffix tp (fa_slen new) ;;;
          put_child_root tp key (Some l) ;;;
          trie_rebalance tp ;;;
          ret 0
      end
  end.

(** The scan of [fib_insert_alias] for the alias to add [new] behind:
    the number of aliases passed before the loop breaks. *)
Fixpoint fib_insert_alias_scan (new : fib_alias) (l : list fib_alias)
  : nat :=
  match l with
  | [] => O
  | last :: rest =>
      if fa_slen new <? fa_slen last then O
      else if (fa_slen new =? fa_slen last) && (tb_id last <? tb_id new)
      then O
      else S (fib_insert_alias_scan new rest)
  end.

(** [hlist_add_before_rcu], [hlist_add_behind_rcu] and
    [hlist_add_head_rcu]: [new] becomes the alias at position [i]. *)
Definition hlist_add_at (i : nat) (new : fib_alias) (l : list fib_alias)
  : list fib_alias :=
  take i l ++ new :: drop i l.

(** The list part of [fib_insert_alias] for an existing leaf. *)
Definition fib_insert_alias_list (new : fib_alias) (fa : option nat)
    (l : list fib_alias) : list fib_alias :=
  match fa with
  | Some i => hlist_add_at i new l
  | None => hlist_add_at (fib_insert_alias_scan new l) new l
  end.

Definition fib_insert_alias (tp : ptr) (l : option ptr) (new : fib_alias)
    (fa : option nat) (key : Z) : M Z :=
  match l with
  | None => fib_insert_yesde tp new key
  | Some l =>
      ln <- deref l ;;
      let ln' := set_leaf (fib_insert_alias_list new fa (kv_leaf ln)) ln in
      store l ln' ;;;
      (if kv_slen ln' <? fa_slen new then
         store l (set_slen (fa_slen new) ln') ;;;
         yesde_push_suffix tp (fa_slen new)
       else ret tt) ;;;
      ret 0
  end.

Definition fib_valid_key_len (key plen : Z) : bool :=
  if KEYLENGTH <? plen then false
  else if (plen <? KEYLENGTH) && negb (u32 (Z.shiftl key plen) =? 0)
  then false
  else true.

(** ** The table operations *)

Inductive fib_event_type : Type :=
| FIB_EVENT_ENTRY_REPLACE
| FIB_EVENT_ENTRY_APPEND
| FIB_EVENT_ENTRY_ADD
| FIB_EVENT_ENTRY_DEL.

(** The part of [struct fib_config] the trie reads.  [fc_dst] is kept in
    host byte order, so [ntohl] and [htonl] are the identity (a big-endian
    host).  [fc_rest] stands for the fields that only [fib_create_info],
    [fib_nh_match] and [fib_metrics_match] read. *)
Record fib_config := {
  fc_dst : Z;
  fc_dst_len : Z;
  fc_tos : Z;
  fc_type : Z;
  fc_scope : Z;
  fc_prefsrc : Z;
  fc_protocol : Z;
  fc_nlflags : Z;
  fc_rest : Z
}.

(** [struct fib_table]: its id and default-route counter; [tb_data] is the
    trie of the state. *)
Record fib_table := {
  tb_tb_id : Z;
  tb_num_default : Z
}.

(** The collaborators of the trie that live outside this file:
    [fib_create_info] (an error code or the info), the notifier chain
    behind [call_fib4_yestifiers], [fib_props[type].error], and the two
    matchers used by delete ([0] and [true] when they match). *)
Record collaborators := {
  fib_create_info : fib_config -> Z + fib_info;
  call_fib4_yestifiers : fib_event_type -> Z -> Z -> fib_alias -> Z;
  fib_props_error : Z -> Z;
  fib_nh_match : fib_config -> fib_info -> Z;
  fib_metrics_match : fib_config -> fib_info -> bool
}.

Section Table.
Variable net : collaborators.

Definition call_fib_entry_yestifiers (event_type : fib_event_type)
    (dst dst_len : Z) (fa : fib_alias) : Z :=
  call_fib4_yestifiers net event_type dst dst_len fa.

(** The loop [hlist_for_each_entry_from(fa, fa_list)] of
    [fib_table_insert], entered at position [i]: the exact match found
    and the value of [fa] when the loop is left. *)
Fixpoint fib_insert_match_from (i : nat) (l : list fib_alias)
    (slen tb tos : Z) (fi : fib_info) (type : Z)
  : option nat * option nat :=
  match l with
  | [] => (None, None)
  | fa :: rest =>
      if negb (fa_slen fa =? slen) || negb (tb_id fa =? tb)
         || negb (fa_tos fa =? tos)
      then (None, Some i)
      else if negb (fib_priority (fa_info fa) =? fib_priority fi)
      then (None, Some i)
      else if (fa_type fa =? type) && bool_decide (fa_info fa = fi)
      then (Some i, Some i)
      else fib_insert_match_from (S i) rest slen tb tos fi type
  end.

(** [hlist_replace_rcu(&fa->fa_list, &new_fa->fa_list)] *)
Definition hlist_replace (i : nat) (new_fa : fib_alias)
    (l : list fib_alias) : list fib_alias := <[i := new_fa]> l.

(** The tail of [fib_table_insert] that every path creating an alias
    shares, from [err = -ENOENT] to the end; [fa] is the alias to insert
    before. *)
Definition fib_table_insert_new (tb : fib_table) (cfg : fib_config)
    (fi : fib_info) (tp : ptr) (l : option ptr)
    (event : fib_event_type) (fa : option nat) : M (Z * fib_table) :=
  let plen := fc_dst_len cfg in
  let slen := u8 (KEYLENGTH - plen) in
  let key := fc_dst cfg in
  if negb (flag_set (fc_nlflags cfg) NLM_F_CREATE)
  then ret (- ENOENT, tb)
  else
    ok <- kalloc ;;
    if negb ok then ret (- ENOBUFS, tb)
    else
      let new_fa := {| fa_info := fi; fa_tos := fc_tos cfg;
                       fa_type := fc_type cfg; fa_state := 0;
                       fa_slen := slen; tb_id := tb_tb_id tb;
                       fa_default := -1 |} in
      let err := call_fib_entry_yestifiers event key plen new_fa in
      if negb (err =? 0) then ret (err, tb)
      else
        err <- fib_insert_alias tp l new_fa fa key ;;
        if negb (err =? 0) then
          let _ := call_fib_entry_yestifiers FIB_EVENT_ENTRY_DEL
                                             key plen new_fa in
          ret (err, tb)
        else
          ret (0, if plen =? 0
                  then {| tb_tb_id := tb_tb_id tb;
                          tb_num_default := tb_num_default tb + 1 |}
                  else tb).

(** The branch of [fib_table_insert] under [NLM_F_REPLACE]: [fa_first]
    is the alias at position [i] of the leaf behind [l]. *)
Definition fib_table_insert_replace (tb : fib_table) (cfg : fib_config)
    (fi : fib_info) (l : ptr) (i : nat) (fa_first : fib_alias)
    (fa_match : option nat) : M (Z * fib_table) :=
  match fa_match with
  | Some m => ret (if Nat.eqb i m then 0 else - EEXIST, tb)
  | None =>
      ok <- kalloc ;;
      if negb ok then ret (- ENOBUFS, tb)
      else
        let state := fa_state fa_first in
        let new_fa := {| fa_info := fi;
                         fa_tos := fa_tos fa_first;
                         fa_type := fc_type cfg;
                         fa_state := Z.land state (Z.lnot FA_S_ACCESSED);
                         fa_slen := fa_slen fa_first;
                         tb_id := tb_tb_id tb;
                         fa_default := -1 |} in
        let err := call_fib_entry_yestifiers FIB_EVENT_ENTRY_REPLACE
                     (fc_dst cfg) (fc_dst_len cfg) new_fa in
        if negb (err =? 0) then ret (err, tb)
        else
          ln <- deref l ;;
          store l (set_leaf (hlist_replace i new_fa (kv_leaf ln)) ln) ;;;
          ret (0, tb)
  end.

(** [fib_table_insert]: the value returned and the table afterwards. *)
Definition fib_table_insert (tb : fib_table) (cfg : fib_config)
  : M (Z * fib_table) :=
  let plen := fc_dst_len cfg in
  let slen := u8 (KEYLENGTH - plen) in
  let tos := fc_tos cfg in
  let key := fc_dst cfg in
  if negb (fib_valid_key_len key plen) then ret (- EINVAL, tb)
  else
    match fib_create_info net cfg with
    | inl err => ret (err, tb)
    | inr fi =>
        t <- get_trie ;;
        found <- lift (fib_find_yesde t key) ;;
        let '(tp, l) := found in
        match l with
        | None =>
            fib_table_insert_new tb cfg fi tp None FIB_EVENT_ENTRY_ADD None
        | Some lp =>
            ln <- deref lp ;;
            let lf := kv_leaf ln in
            match fib_find_alias lf slen tos (fib_priority fi)
                                 (tb_tb_id tb) with
            | None =>
                fib_table_insert_new tb cfg fi tp l FIB_EVENT_ENTRY_ADD
                                     None
            | Some i =>
                fa_first <- lift (lf !! i) ;;
                if (fa_tos fa_first =? tos)
                   && (fib_priority (fa_info fa_first) =? fib_priority fi)
                then
                  if flag_set (fc_nlflags cfg) NLM_F_EXCL
                  then ret (- EEXIST, tb)
                  else
                    let '(fa_match, fa_exit) :=
                      fib_insert_match_from i (drop i lf) slen
                        (tb_tb_id tb) tos fi (fc_type cfg) in
                    if flag_set (fc_nlflags cfg) NLM_F_REPLACE then
                      fib_table_insert_replace tb cfg fi lp i fa_first
                                               fa_match
                    else
                      match fa_match with
                      | Some _ => ret (- EEXIST, tb)
                      | None =>
                          if flag_set (fc_nlflags cfg) NLM_F_APPEND
                          then fib_table_insert_new tb cfg fi tp l
                                 FIB_EVENT_ENTRY_APPEND fa_exit
                          else fib_table_insert_new tb cfg fi tp l
                                 FIB_EVENT_ENTRY_ADD (Some i)
                      end
                else fib_table_insert_new tb cfg fi tp l
                       FIB_EVENT_ENTRY_ADD (Some i)
            end
        end
    end.
End Table.

(** ** Lookup *)

(** The part of [struct flowi4] the lookup reads; [daddr] in host byte
    order. *)
Record flowi4 := {
  daddr : Z;
  flowi4_tos : Z;
  flowi4_scope : Z;
  flowi4_oif : Z;
  flowi4_flags : Z
}.

(** [struct fib_result] without the back pointers [table] and
    [fa_head]; the field [x] of the source is [res_x]. *)
Record fib_result := {
  res_prefix : Z;
  res_prefixlen : Z;
  res_nh_sel : Z;
  res_nhc : fib_nh_common;
  res_type : Z;
  res_scope : Z;
  res_fi : fib_info
}.

Definition prefix_mismatch (key : Z) (n : key_vector) : Z :=
  let prefix := kv_key n in
  Z.land (Z.lxor key prefix) (Z.lor prefix (u32 (- prefix))).

(** What the lookup holds at the head of each of its loops: [n], and the
    bookmark [pn], [cindex]. *)
Inductive lookup_state : Type :=
| Descend (n pn : ptr) (cindex : Z)     (* top of the loop of step 1 *)
| Inspect (n pn : ptr) (cindex : Z)     (* top of the loop of step 2 *)
| Backtrace (pn : ptr) (cindex : Z)     (* the label backtrace *)
| Found (n pn : ptr) (cindex : Z).      (* the label found *)

Section Lookup.
Variable net : collaborators.
Variable t : key_vector.
Variable flp : flowi4.
Variable lookup_flags : Z.

(** The loop over the nexthops of one alias: the first usable one. *)
Fixpoint lookup_nh (nhsel : Z) (nhs : list fib_nh_common)
  : option (Z * fib_nh_common) :=
  match nhs with
  | [] => None
  | nhc :: rest =>
      if flag_set (nhc_flags nhc) RTNH_F_DEAD then lookup_nh (nhsel + 1) rest
      else if nhc_igyesre_linkdown nhc
              && flag_set (nhc_flags nhc) RTNH_F_LINKDOWN
              && negb (flag_set lookup_flags FIB_LOOKUP_IGNORE_LINKSTATE)
      then lookup_nh (nhsel + 1) rest
      else if negb (flag_set (flowi4_flags flp) FLOWI_FLAG_SKIP_NH_OIF)
              && negb (flowi4_oif flp =? 0)
              && negb (flowi4_oif flp =? nhc_oif nhc)
      then lookup_nh (nhsel + 1) rest
      else Some (nhsel, nhc)
  end.

(** Step 3: the scan of the aliases of leaf [n]; [None] when the scan
    falls through to [goto backtrace]. *)
Fixpoint lookup_leaf (n : key_vector) (index : Z) (l : list fib_alias)
  : option (Z * option fib_result) :=
  match l with
  | [] => None
  | fa :: rest =>
      let fi := fa_info fa in
      if ((KEYLENGTH <? BITS_PER_LONG) || (fa_slen fa <? KEYLENGTH))
         && (2 ^ fa_slen fa <=? index)
      then lookup_leaf n index rest
      else if negb (fa_tos fa =? 0) && negb (fa_tos fa =? flowi4_tos flp)
      then lookup_leaf n index rest
      else if fib_dead fi then lookup_leaf n index rest
      else if fib_scope fi <? flowi4_scope flp then lookup_leaf n index rest
      else
        let err := fib_props_error net (fa_type fa) in
        if err <? 0 then Some (err, None)
        else if flag_set (fib_flags fi) RTNH_F_DEAD
        then lookup_leaf n index rest
        else if fib_nh_blackhole fi
        then Some (fib_props_error net RTN_BLACKHOLE, None)
        else match lookup_nh 0 (fib_nhs fi) with
             | Some (nhsel, nhc) =>
                 Some (err, Some {| res_prefix := kv_key n;
                                    res_prefixlen := KEYLENGTH - fa_slen fa;
                                    res_nh_sel := nhsel;
                                    res_nhc := nhc;
                                    res_type := fa_type fa;
                                    res_scope := fib_scope fi;
                                    res_fi := fi |})
             | None => lookup_leaf n index rest
             end
  end.

(** One pass from a loop head or label to the next. *)
Definition lookup_step (s : lookup_state)
  : option (lookup_state + Z * option fib_result) :=
  let key := daddr flp in
  match s with
  | Descend n pn cindex =>
      nn ← get_yesde t n;
      let index := get_cindex key nn in
      if 2 ^ kv_bits nn <=? index then Some (inl (Inspect n pn cindex))
      else if IS_LEAF nn then Some (inl (Found n pn cindex))
      else
        let '(pn, cindex) := if kv_pos nn <? kv_slen nn
                             then (n, u32 index) else (pn, cindex) in
        match get_child nn index with
        | Some _ => Some (inl (Descend (index :: n) pn cindex))
        | None => Some (inl (Backtrace pn cindex))
        end
  | Inspect n pn cindex =>
      nn ← get_yesde t n;
      if negb (prefix_mismatch key nn =? 0) || (kv_slen nn =? kv_pos nn)
      then Some (inl (Backtrace pn cindex))
      else if IS_LEAF nn then Some (inl (Found n pn cindex))
      else match get_child nn 0 with
           | Some _ => Some (inl (Inspect (0 :: n) pn cindex))
           | None => Some (inl (Backtrace pn cindex))
           end
  | Backtrace pn cindex =>
      pnn ← get_yesde t pn;
      if cindex =? 0 then
        let pkey := kv_key pnn in
        if IS_TRIE pnn then Some (inr (- EAGAIN, None))
        else match pn with
             | [] => None
             | _ :: pp =>
                 ppn ← get_yesde t pp;
                 Some (inl (Backtrace pp (u32 (get_index pkey ppn))))
             end
      else
        let cindex := Z.land cindex (cindex - 1) in
        match get_child pnn cindex with
        | Some _ => Some (inl (Inspect (cindex :: pn) pn cindex))
        | None => Some (inl (Backtrace pn cindex))
        end
  | Found n pn cindex =>
      nn ← get_yesde t n;
      let index := Z.lxor key (kv_key nn) in
      match lookup_leaf nn index (kv_leaf nn) with
      | Some r => Some (inr r)
      | None => Some (inl (Backtrace pn cindex))
      end
  end.

Fixpoint lookup_run (fuel : nat) (s : lookup_state)
  : option (Z * option fib_result) :=
  match fuel with
  | O => None
  | S fuel' =>
      match lookup_step s with
      | Some (inl s') => lookup_run fuel' s'
      | Some (inr r) => Some r
      | None => None
      end
  end.

(** The passes a lookup can need: at most [height t] ancestors to climb,
    33 bits to strip at each, and a descent after each strip. *)
Definition lookup_fuel : nat :=
  (height t + 2) * (34 * (height t + 2)).

(** [fib_table_lookup]: the value returned and, on a match, [*res]. *)
Definition fib_table_lookup : option (Z * option fib_result) :=
  match get_child t 0 with
  | None => Some (- EAGAIN, None)
  | Some _ => lookup_run lookup_fuel (Descend [0] [] 0)
  end.
End Lookup.

(** ** Deletion *)

(** [fib_remove_alias]; [old] is the position of the alias in the list of
    the leaf behind [l]. *)
Definition fib_remove_alias (tp l : ptr) (old : nat) : M unit :=
  ln <- deref l ;;
  let lst := delete old (kv_leaf ln) in
  store l (set_leaf lst ln) ;;;
  match lst with
  | [] =>
      tpn <- deref tp ;;
      (if kv_slen tpn =? kv_slen ln
       then yesde_pull_suffix tp (kv_pos tpn) else ret tt) ;;;
      put_child_root tp (kv_key ln) None ;;;
      trie_rebalance tp
  | _ :: _ =>
      if (old <? length lst)%nat then ret tt
      else match lst !! pred old with
           | None => oops
           | Some fa =>
               store l (set_slen (fa_slen fa) (set_leaf lst ln)) ;;;
               yesde_pull_suffix tp (fa_slen fa)
           end
  end.

Section Delete.
Variable net : collaborators.

(** The loop [hlist_for_each_entry_from(fa, fa_list)] of
    [fib_table_delete], entered at position [i]: [fa_to_delete]. *)
Fixpoint fib_delete_match_from (i : nat) (l : list fib_alias)
    (slen tb tos : Z) (cfg : fib_config) : option nat :=
  match l with
  | [] => None
  | fa :: rest =>
      let fi := fa_info fa in
      if negb (fa_slen fa =? slen) || negb (tb_id fa =? tb)
         || negb (fa_tos fa =? tos)
      then None
      else if ((fc_type cfg =? 0) || (fa_type fa =? fc_type cfg))
              && ((fc_scope cfg =? RT_SCOPE_NOWHERE)
                  || (fib_scope fi =? fc_scope cfg))
              && ((fc_prefsrc cfg =? 0)
                  || (fib_prefsrc fi =? fc_prefsrc cfg))
              && ((fc_protocol cfg =? 0)
                  || (fib_protocol fi =? fc_protocol cfg))
              && (fib_nh_match net cfg fi =? 0)
              && fib_metrics_match net cfg fi
      then Some i
      else fib_delete_match_from (S i) rest slen tb tos cfg
  end.

Definition fib_table_delete (tb : fib_table) (cfg : fib_config)
  : M (Z * fib_table) :=
  let plen := fc_dst_len cfg in
  let slen := u8 (KEYLENGTH - plen) in
  let tos := fc_tos cfg in
  let key := fc_dst cfg in
  if negb (fib_valid_key_len key plen) then ret (- EINVAL, tb)
  else
    t <- get_trie ;;
    found <- lift (fib_find_yesde t key) ;;
    let '(tp, l) := found in
    match l with
    | None => ret (- ESRCH, tb)
    | Some l =>
        ln <- deref l ;;
        match fib_find_alias (kv_leaf ln) slen tos 0 (tb_tb_id tb) with
        | None => ret (- ESRCH, tb)
        | Some i =>
            match fib_delete_match_from i (drop i (kv_leaf ln)) slen
                    (tb_tb_id tb) tos cfg with
            | None => ret (- ESRCH, tb)
            | Some fa_to_delete =>
                let tb' := if plen =? 0
                           then {| tb_tb_id := tb_tb_id tb;
                                   tb_num_default := tb_num_default tb - 1 |}
                           else tb in
                fib_remove_alias tp l fa_to_delete ;;;
                ret (0, tb')
            end
        end
    end.
End Delete.

(** ** Walking the leaves *)

(** What [leaf_walk_rcu] holds at the head of its two loops. *)
Inductive walk_state : Type :=
| Seek (n : ptr)                     (* the loop that looks for the key *)
| Scan (pn : ptr) (cindex : Z).      (* the loop that takes the next leaf *)

Section Walk.
Variable t : key_vector.
Variable key : Z.

(** One pass through a loop body: the next state, or [*tn] and the leaf
    returned. *)
Definition leaf_walk_step (s : walk_state)
  : option (walk_state + ptr * option ptr) :=
  match s with
  | Seek n =>
      let pn := n in
      pnn ← get_yesde t pn;
      let cindex := if kv_key pnn <? key then get_index key pnn else 0 in
      if negb (Z.shiftr cindex (kv_bits pnn) =? 0)
      then Some (inl (Scan pn cindex))
      else match get_child pnn cindex with
           | None => Some (inl (Scan pn (cindex + 1)))
           | Some c =>
               if IS_LEAF c && (key <=? kv_key c)
               then Some (inr (pn, Some (cindex :: pn)))
               else if IS_TNODE c then Some (inl (Seek (cindex :: pn)))
               else Some (inl (Scan pn (cindex + 1)))
           end
  | Scan pn cindex =>
      pnn ← get_yesde t pn;
      if IS_TRIE pnn then Some (inr (pn, None))
      else if 2 ^ kv_bits pnn <=? cindex then
        match pn with
        | [] => None
        | _ :: pp =>
            ppn ← get_yesde t pp;
            Some (inl (Scan pp (get_index (kv_key pnn) ppn + 1)))
        end
      else match get_child pnn cindex with
           | None => Some (inl (Scan pn (cindex + 1)))
           | Some c =>
               if IS_LEAF c then Some (inr (pn, Some (cindex :: pn)))
               else Some (inl (Scan (cindex :: pn) 0))
           end
  end.

Fixpoint leaf_walk_run (fuel : nat) (s : walk_state)
  : option (ptr * option ptr) :=
  match fuel with
  | O => None
  | S fuel' =>
      match leaf_walk_step s with
      | Some (inl s') => leaf_walk_run fuel' s'
      | Some (inr r) => Some r
      | None => None
      end
  end.
End Walk.

(** The number of child slots below a node, itself included. *)
Fixpoint slots (n : key_vector) : nat :=
  match n with
  | Leaf _ _ _ => 1%nat
  | Tyesde _ _ _ _ _ _ c =>
      S (foldr Nat.add O
           (map (fun o => match o with Some x => slots x | None => 1%nat end)
                c))
  end.

(** [leaf_walk_rcu(&tn, key)]: the new [*tn] and the leaf returned.  Every
    pass either moves down, moves to the next slot, or leaves a node for
    good, so twice the slots of the trie bound the passes. *)
Definition leaf_walk_rcu (t : key_vector) (tn : ptr) (key : Z)
  : option (ptr * option ptr) :=
  leaf_walk_run t key (2 * slots t + 2) (Seek tn).

(** [fib_table_dump] with [fn_trie_dump_leaf] as the parameter
    [dump_leaf] (negative: the message is full): the leaves handed to
    [dump_leaf], in order, and the value returned ([0] stands for
    [skb->len]); [fuel] bounds the turns of the loop. *)
Fixpoint fib_table_dump_loop (dump_leaf : key_vector -> Z) (fuel : nat)
    (t : key_vector) (tp : ptr) (key : Z) : option (list key_vector * Z) :=
  match fuel with
  | O => None
  | S fuel' =>
      r ← leaf_walk_rcu t tp key;
      match r with
      | (tp', None) => Some ([], 0)
      | (tp', Some l) =>
          ln ← get_yesde t l;
          let err := dump_leaf ln in
          if err <? 0 then Some ([ln], err)
          else
            let key' := u32 (kv_key ln + 1) in
            if key' <? kv_key ln then Some ([ln], 0)
            else
              rest ← fib_table_dump_loop dump_leaf fuel' t tp' key';
              Some (ln :: rest.1, rest.2)
      end
  end.

Definition fib_table_dump (dump_leaf : key_vector -> Z) (t : key_vector)
    (key : Z) : option (list key_vector * Z) :=
  fib_table_dump_loop dump_leaf (S (slots t)) t [] key.


(** * Specification vocabulary *)

(** ** Fill ratios of the resize tests *)

Definition inflate_threshold_of (tp : key_vector) : Z :=
  if IS_TRIE tp then inflate_threshold_root else inflate_threshold.

(** The non-NULL children of a node. *)
Definition occupied (tn : key_vector) : Z :=
  child_length tn - kv_empty_children tn.

(** The node's counters are in range: what [put_child] maintains. *)
Definition counters_in_range (tn : key_vector) : Prop :=
  1 <= kv_bits tn <= KEYLENGTH /\ 0 <= kv_pos tn /\
  0 <= kv_empty_children tn <= child_length tn /\
  0 <= kv_full_children tn <= occupied tn.

(** [(occupied + full_children) / capacity] reaches the threshold, in
    percent. *)
Definition ratio_reaches_capacity (tp tn : key_vector) : Prop :=
  inflate_threshold_of tp * child_length tn
  <= 100 * (occupied tn + kv_full_children tn).

(** The same ratio taken over the capacity of the doubled node. *)
Definition ratio_reaches_doubled (tp tn : key_vector) : Prop :=
  inflate_threshold_of tp * (2 * child_length tn)
  <= 100 * (occupied tn + kv_full_children tn).

(** ** Fixtures for the examples *)

Definition example_nh : fib_nh_common :=
  {| nhc_flags := 0; nhc_oif := 1; nhc_igyesre_linkdown := false |}.

(** An info with one live nexthop; [fc_rest] of the request is taken as
    the priority. *)
Definition example_fi (prio : Z) : fib_info :=
  {| fi_ref := prio; fib_priority := prio; fib_scope := 0;
     fib_dead := false; fib_flags := 0; fib_prefsrc := 0;
     fib_protocol := 0; fib_nh_blackhole := false;
     fib_nhs := [example_nh] |}.

(** Collaborators that never object. *)
Definition example_net : collaborators :=
  {| fib_create_info := fun cfg => inr (example_fi (fc_rest cfg));
     call_fib4_yestifiers := fun _ _ _ _ => 0;
     fib_props_error := fun _ => 0;
     fib_nh_match := fun _ _ => 0;
     fib_metrics_match := fun _ _ => true |}.

Definition ipv4 (a b c d : Z) : Z := ((a * 256 + b) * 256 + c) * 256 + d.

(** A request for [dst/plen] with the given tos, priority and netlink
    flags. *)
Definition example_route (dst plen tos prio flags : Z) : fib_config :=
  {| fc_dst := dst; fc_dst_len := plen; fc_tos := tos; fc_type := 1;
     fc_scope := 0; fc_prefsrc := 0; fc_protocol := 0;
     fc_nlflags := flags; fc_rest := prio |}.

Definition example_table (id : Z) : fib_table :=
  {| tb_tb_id := id; tb_num_default := 0 |}.

Definition example_flow (dst tos : Z) : flowi4 :=
  {| daddr := dst; flowi4_tos := tos; flowi4_scope := 0; flowi4_oif := 0;
     flowi4_flags := 0 |}.

(** A writer's request to a table. *)
Inductive request : Type :=
| Insert (tb : Z) (cfg : fib_config)
| Delete (tb : Z) (cfg : fib_config).

(** Run requests one after the other on the tables sharing the trie of the
    state; the values returned, oldest first. *)
Fixpoint run_requests (net : collaborators) (rs : list request) : M (list Z) :=
  match rs with
  | [] => ret []
  | r :: rs' =>
      e <- match r with
           | Insert tb cfg =>
               r <- fib_table_insert net (example_table tb) cfg ;; ret r.1
           | Delete tb cfg =>
               r <- fib_table_delete net (example_table tb) cfg ;; ret r.1
           end ;;
      es <- run_requests net rs' ;;
      ret (e :: es)
  end.

(** The empty table with an allocator that never fails. *)
Definition world_empty : world := World [] trie_empty.

(** ** Invalid keys *)


(** ** The order of a leaf's aliases *)

(** The order the leaves keep: ascending suffix length (the longest prefix
    first), then descending table id. *)
Definition alias_before (a b : fib_alias) : Prop :=
  fa_slen a < fa_slen b \/ (fa_slen a = fa_slen b /\ tb_id b <= tb_id a).

(** Descending suffix length, then ascending table id. *)
Definition alias_before_descending (a b : fib_alias) : Prop :=
  fa_slen b < fa_slen a \/ (fa_slen a = fa_slen b /\ tb_id a <= tb_id b).

(** Within one suffix length and table: descending tos, then ascending
    priority. *)
Definition alias_order (a b : fib_alias) : Prop :=
  fa_slen a < fa_slen b \/
  (fa_slen a = fa_slen b /\
   (tb_id b < tb_id a \/
    (tb_id a = tb_id b /\
     (fa_tos b < fa_tos a \/
      (fa_tos a = fa_tos b /\
       fib_priority (fa_info a) <= fib_priority (fa_info b)))))).

#[global] Instance alias_before_dec a b : Decision (alias_before a b).
Proof. unfold alias_before. apply _. Defined.
#[global] Instance alias_before_descending_dec a b :
  Decision (alias_before_descending a b).
Proof. unfold alias_before_descending. apply _. Defined.
#[global] Instance alias_order_dec a b : Decision (alias_order a b).
Proof. unfold alias_order. apply _. Defined.

(** Same suffix length and table. *)
Definition alias_same_section (a b : fib_alias) : Prop :=
  fa_slen a = fa_slen b /\ tb_id a = tb_id b.

(** ** Induction over nodes *)

Section key_vector_induction.
Variable P : key_vector -> Prop.
Hypothesis Hleaf : forall k s l, P (Leaf k s l).
Hypothesis Htyesde : forall k p b s e f c,
  Forall (from_option P True) c -> P (Tyesde k p b s e f c).

Fixpoint key_vector_ind' (n : key_vector) : P n :=
  match n with
  | Leaf k s l => Hleaf k s l
  | Tyesde k p b s e f c =>
      Htyesde k p b s e f c
        ((fix go (c : list (option key_vector))
            : Forall (from_option P True) c :=
            match c with
            | [] => @ListDef.Forall_nil _ (from_option P True)
            | o :: c' =>
                @ListDef.Forall_cons _ (from_option P True) o c'
                  (match o return from_option P True o with
                   | Some x => key_vector_ind' x
                   | None => I
                   end)
                  (go c')
            end) c)
  end.
End key_vector_induction.

(** ** Tries that differ in suffix lengths only *)

(** [slen_related R t t']: [t'] is [t] with the [slen] of each node
    replaced by one that [R] relates to it; nothing else differs. *)
Fixpoint slen_related (R : Z -> Z -> Prop) (t t' : key_vector) : Prop :=
  match t, t' with
  | Leaf k s l, Leaf k' s' l' => k = k' /\ l = l' /\ R s s'
  | Tyesde k p b s e f c, Tyesde k' p' b' s' e' f' c' =>
      k = k' /\ p = p' /\ b = b' /\ e = e' /\ f = f' /\ R s s' /\
      (fix go (c c' : list (option key_vector)) : Prop :=
         match c, c' with
         | [], [] => True
         | o :: c, o' :: c' =>
             match o, o' with
             | None, None => True
             | Some x, Some x' => slen_related R x x'
             | _, _ => False
             end /\ go c c'
         | _, _ => False
         end) c c'
  | _, _ => False
  end.

(** ** Well-formed tries *)

(** An alias of a leaf with key [k] and suffix length [s]. *)
Definition alias_ok (k s : Z) (fa : fib_alias) : bool :=
  (0 <=? fa_slen fa) && (fa_slen fa <=? s)
  && (k mod 2 ^ fa_slen fa =? 0).

(** The child [x] in slot [i] of a node with key [k], position [p] and
    suffix length [s]: it lies below [p], its key selects slot [i] and
    agrees with [k] above, and its suffix length is covered. *)
Definition child_ok (k p s i : Z) (x : key_vector) : bool :=
  (kv_pos x + kv_bits x <=? p)
  && (Z.shiftr (Z.lxor (kv_key x) k) p =? i)
  && (kv_slen x <=? s).

(** [wf_yesde n]: the node and everything below it is well formed. *)
Fixpoint wf_yesde (n : key_vector) : bool :=
  match n with
  | Leaf k s l =>
      (0 <=? k) && (k <? 2 ^ 32) && (s <=? KEYLENGTH)
      && negb (bool_decide (l = [])) && forallb (alias_ok k s) l
      && bool_decide (StronglySorted alias_order l)
  | Tyesde k p b s e f c =>
      (1 <=? b) && (0 <=? p) && (p + b <=? KEYLENGTH)
      && (0 <=? k) && (k <? 2 ^ 32) && (k mod 2 ^ (p + b) =? 0)
      && (Z.of_nat (length c) =? 2 ^ b)
      && (p <=? s) && (s <=? KEYLENGTH)
      && (fix go (i : Z) (c : list (option key_vector)) : bool :=
            match c with
            | [] => true
            | None :: c' => go (i + 1) c'
            | Some x :: c' => child_ok k p s i x && wf_yesde x
                              && go (i + 1) c'
            end) 0 c
  end.

(** [wf_trie t]: [t] is the root of a table and what it holds is well
    formed. *)
Definition wf_trie (t : key_vector) : bool :=
  match t with
  | Tyesde k p b s _ _ [c] =>
      (k =? 0) && (p =? KEYLENGTH) && (b =? 0) && (s =? KEYLENGTH)
      && match c with Some x => wf_yesde x | None => true end
  | _ => false
  end.

(** ** Suffix lengths covered by the parent *)

(** The suffix length of [n] covers that of its children, and the fields
    the scan of [update_suffix] computes with are in range. *)
Definition suffix_covered (n : key_vector) : Prop :=
  0 <= kv_pos n /\ kv_bits n <= KEYLENGTH /\ kv_slen n <= KEYLENGTH /\
  forall i c, get_child n i = Some c -> kv_slen c <= kv_slen n.

(** Every node from [tn] up to the root is covered. *)
Definition chain_covered (t : key_vector) (tn : ptr) : Prop :=
  forall q a n, tn = q ++ a -> get_yesde t a = Some n -> suffix_covered n.

(** The state after the requests [rs] on an empty table. *)
Definition world_after (rs : list request) : world :=
  match run_requests example_net rs world_empty with
  | Some (_, w) => w
  | None => world_empty
  end.

(** 10.0.0.0/8 and 10.1.0.0/16 in table 254. *)
Definition example_two_routes : list request :=
  [Insert 254 (example_route (ipv4 10 0 0 0) 8 0 1 NLM_F_CREATE);
   Insert 254 (example_route (ipv4 10 1 0 0) 16 0 2 NLM_F_CREATE)].

(** ** The search path of a key *)

(** The test of [fib_find_yesde] on the node it has stepped to: the key
    lies under the prefix of [n]. *)
Definition key_matches (key : Z) (n : key_vector) : bool :=
  get_cindex key n <? 2 ^ kv_bits n.

(** [on_path t key p]: the internal node behind [p] is one the search
    for [key] steps through.  The root is; below a node on the path,
    the child in the slot of [key] is when it is an internal node whose
    prefix [key] lies under. *)
Fixpoint on_path (t : key_vector) (key : Z) (p : ptr) : Prop :=
  match p with
  | [] => True
  | i :: q =>
      on_path t key q /\
      exists nq n, get_yesde t q = Some nq /\ i = get_index key nq /\
                   get_child nq i = Some n /\
                   key_matches key n = true /\ IS_TNODE n = true
  end.

(** ** Requests that leave a halving pending *)

(** Five /8 routes, two of them deleted again, and one route in the upper
    half of the address space. *)
Definition example_pending_halve : list request :=
  [Insert 254 (example_route (ipv4 1 0 0 0) 8 0 1 NLM_F_CREATE);
   Insert 254 (example_route (ipv4 2 0 0 0) 8 0 2 NLM_F_CREATE);
   Insert 254 (example_route (ipv4 3 0 0 0) 8 0 3 NLM_F_CREATE);
   Insert 254 (example_route (ipv4 4 0 0 0) 8 0 4 NLM_F_CREATE);
   Insert 254 (example_route (ipv4 5 0 0 0) 8 0 5 NLM_F_CREATE);
   Delete 254 (example_route (ipv4 4 0 0 0) 8 0 4 0);
   Delete 254 (example_route (ipv4 5 0 0 0) 8 0 5 0);
   Insert 254 (example_route (ipv4 128 0 0 0) 8 0 1 NLM_F_CREATE)].

(** ** The keys below a node *)

(** The keys under the prefix of [n] run from [kv_key n] up to
    [range_end n]; those of slot [i] start at [slot_start n i]. *)
Definition range_end (n : key_vector) : Z :=
  kv_key n + 2 ^ (kv_pos n + kv_bits n).

Definition slot_start (n : key_vector) (i : Z) : Z :=
  kv_key n + i * 2 ^ kv_pos n.

(** [is_leaf_key t k]: the trie holds a leaf with key [k]. *)
Definition is_leaf_key (t : key_vector) (k : Z) : Prop :=
  exists p s l, get_yesde t p = Some (Leaf k s l).

(** What the walks rely on at a node: its fields are in range and its
    key is a multiple of the size of its range. *)
Definition node_ok (n : key_vector) : Prop :=
  0 <= kv_pos n /\ 0 <= kv_bits n /\ kv_pos n + kv_bits n <= KEYLENGTH /\
  0 <= kv_key n /\ kv_key n mod 2 ^ (kv_pos n + kv_bits n) = 0 /\
  range_end n <= 2 ^ KEYLENGTH.

(** The end of the slot a node hangs in; for the root, the end of the
    key space. *)
Definition slot_end_of (t : key_vector) (pn : ptr) : Z :=
  match pn with
  | [] => 2 ^ KEYLENGTH
  | i :: pp => match get_yesde t pp with
               | Some ppn => slot_start ppn (i + 1)
               | None => 0
               end
  end.

(** ** The passes of [leaf_walk_rcu] *)

(** A bound on the passes of the scanning loop through a subtree. *)
Fixpoint walk_cost (n : key_vector) : nat :=
  match n with
  | Leaf _ _ _ => 1
  | Tyesde _ _ _ _ _ _ c =>
      2 + foldr Nat.add O
            (map (fun o => match o with Some x => walk_cost x | None => 1 end)
                 c)
  end%nat.

Definition slot_cost (o : option key_vector) : nat :=
  match o with Some x => walk_cost x | None => 1%nat end.

(** The passes from slot [cindex] of [n] until [n] is left. *)
Definition rem_from (n : key_vector) (cindex : Z) : nat :=
  (1 + foldr Nat.add O
         (map slot_cost (drop (Z.to_nat cindex) (kv_tyesde n))))%nat.

(** The passes from slot [cindex] of the node behind [pn] to the end of
    the walk. *)
Fixpoint scan_cost (t : key_vector) (pn : ptr) (cindex : Z) : nat :=
  match get_yesde t pn with
  | None => O
  | Some pnn =>
      (rem_from pnn cindex +
       match pn with
       | [] => 1
       | i :: pp => scan_cost t pp (i + 1)
       end)%nat
  end.

Definition state_cost (t : key_vector) (s : walk_state) : nat :=
  match s with
  | Seek n => S (scan_cost t n 0)
  | Scan pn cindex => scan_cost t pn cindex
  end.

(** What holds at the head of the loops of [leaf_walk_rcu] looking for
    [key]: no leaf with a key from [key] on lies before the place the
    walk has reached. *)
Definition walk_inv (t : key_vector) (key : Z) (s : walk_state) : Prop :=
  match s with
  | Seek n =>
      exists nn, get_yesde t n = Some nn /\
        (n = [] \/ IS_TNODE nn = true) /\
        (forall k, is_leaf_key t k -> k < kv_key nn -> k < key) /\
        key <= slot_end_of t n
  | Scan pn cindex =>
      exists pnn, get_yesde t pn = Some pnn /\
        (pn = [] \/ IS_TNODE pnn = true) /\
        0 <= cindex /\ (pn = [] -> 1 <= cindex) /\
        let reached := if cindex <? 2 ^ kv_bits pnn
                       then slot_start pnn cindex else slot_end_of t pn in
        key <= reached /\
        forall k, is_leaf_key t k -> k < reached -> k < key
  end.

(** What [leaf_walk_rcu] is to return for [key]: the leaf with the
    smallest key from [key] on, as a child of [*tn], or NULL when there
    is none. *)
Definition walk_post (t : key_vector) (key : Z) (r : ptr * option ptr)
  : Prop :=
  match r with
  | (tp, Some lp) =>
      exists i k s l, lp = i :: tp /\ get_yesde t lp = Some (Leaf k s l) /\
        key <= k /\ forall k', is_leaf_key t k' -> key <= k' -> k <= k'
  | (tp, None) => forall k, is_leaf_key t k -> k < key
  end.

(** The keys of the leaves below a node, slot by slot. *)
Fixpoint leaf_keys (n : key_vector) : list Z :=
  match n with
  | Leaf k _ _ => [k]
  | Tyesde _ _ _ _ _ _ c =>
      concat (map (fun o => match o with
                            | Some x => leaf_keys x
                            | None => []
                            end) c)
  end.

(** The leaves a dump from [key] on has still to visit. *)
Definition leaves_from (t : key_vector) (key : Z) : list Z :=
  filter (fun k => key <= k) (leaf_keys t).


(** * Machine arithmetic *)

Lemma ulong_small x : 0 <= x < 2 ^ 64 -> ulong x = x.
Proof. intros; unfold ulong; apply Z.mod_small; lia. Qed.

Lemma u32_small x : 0 <= x < 2 ^ 32 -> u32 x = x.
Proof. intros; unfold u32; apply Z.mod_small; lia. Qed.

Lemma u8_small x : 0 <= x < 2 ^ 8 -> u8 x = x.
Proof. intros; unfold u8; apply Z.mod_small; lia. Qed.

Lemma pow2_le_mono a b : 0 <= a <= b -> 2 ^ a <= 2 ^ b.
Proof. intros. apply Z.pow_le_mono_r; lia. Qed.

Lemma pow2_pos a : 0 <= a -> 0 < 2 ^ a.
Proof. intros. apply Z.pow_pos_nonneg; lia. Qed.

Lemma land_lnot_pow2 i k :
  0 <= i -> 0 <= k -> Z.land i (Z.lnot (2 ^ k - 1)) = i - i mod 2 ^ k.
Proof.
  intros Hi Hk.
  replace (2 ^ k - 1) with (Z.ones k) by (rewrite Z.ones_equiv; lia).
  rewrite <- Z.ldiff_land, Z.ldiff_ones_r by done.
  rewrite Z.shiftr_div_pow2, Z.shiftl_mul_pow2 by done.
  pose proof (Z.div_mod i (2 ^ k)) as H.
  assert (0 < 2 ^ k) by (apply Z.pow_pos_nonneg; lia). lia.
Qed.


(** * Reasoning about the state monad *)

Lemma bind_Some {A B} (m : M A) (k : A -> M B) w b w' :
  bind m k w = Some (b, w') <->
  exists a w1, m w = Some (a, w1) /\ k a w1 = Some (b, w').
Proof.
  unfold bind. split.
  - destruct (m w) as [[a w1]|]; [eauto | discriminate].
  - intros (a & w1 & -> & H). exact H.
Qed.

Lemma ret_Some {A} (a b : A) w w' :
  ret a w = Some (b, w') <-> a = b /\ w = w'.
Proof. unfold ret. split; [intros [= -> ->]; done | intros [-> ->]; done]. Qed.

Lemma oops_Some {A} w (r : A * world) : @oops A w = Some r <-> False.
Proof. unfold oops. split; [discriminate | tauto]. Qed.

Lemma lift_Some {A} (o : option A) w a w' :
  lift o w = Some (a, w') <-> o = Some a /\ w = w'.
Proof.
  destruct o; simpl.
  - rewrite ret_Some. split; intros [H1 H2]; split; congruence.
  - rewrite oops_Some. split; [tauto | intros [? _]; discriminate].
Qed.

Lemma deref_Some p w n w' :
  deref p w = Some (n, w') <-> get_yesde (kv w) p = Some n /\ w = w'.
Proof.
  unfold deref. destruct (get_yesde (kv w) p); split.
  - intros [= -> ->]. done.
  - intros [[= ->] ->]. done.
  - discriminate.
  - intros [? _]. discriminate.
Qed.

Lemma get_trie_Some w t w' :
  get_trie w = Some (t, w') <-> t = kv w /\ w = w'.
Proof. unfold get_trie. split; [intros [= <- <-]; done | intros [-> ->]; done]. Qed.

Lemma store_Some p n w u w' :
  store p n w = Some (u, w') <->
  exists r, set_yesde (kv w) p n = Some r /\ w' = World (kmem w) r.
Proof.
  unfold store. destruct (set_yesde (kv w) p n); split.
  - intros [= <- <-]. eauto.
  - intros (r & [= ->] & ->). by destruct u.
  - discriminate.
  - intros (r & ? & _). discriminate.
Qed.

Lemma kalloc_Some w b w' :
  kalloc w = Some (b, w') -> kv w' = kv w.
Proof.
  unfold kalloc. destruct (kmem w); intros [= <- <-]; done.
Qed.

Lemma kalloc_total w : exists b w', kalloc w = Some (b, w').
Proof. unfold kalloc. destruct (kmem w); eauto. Qed.

(** With an oracle that always grants, allocation succeeds and the oracle
    stays as it is. *)
Lemma kalloc_granted w : kmem w = [] -> kalloc w = Some (true, w).
Proof. unfold kalloc. intros ->. done. Qed.

(** Peel one monadic step off a hypothesis [_ = Some _]. *)
Ltac inv_M1 :=
  match goal with
  | H : bind _ _ _ = Some _ |- _ =>
      apply bind_Some in H; destruct H as (? & ? & ? & H)
  | H : ret _ _ = Some _ |- _ =>
      apply ret_Some in H; destruct H as [? ?]
  | H : @oops _ _ = Some _ |- _ => apply oops_Some in H; destruct H
  | H : lift _ _ = Some _ |- _ =>
      apply lift_Some in H; destruct H as [? ?]
  | H : deref _ _ = Some _ |- _ =>
      apply deref_Some in H; destruct H as [? ?]
  | H : get_trie _ = Some _ |- _ =>
      apply get_trie_Some in H; destruct H as [? ?]
  | H : store _ _ _ = Some _ |- _ =>
      apply store_Some in H; destruct H as (? & ? & ?)
  end.

Ltac inv_M := simpl in *; repeat (inv_M1; simplify_eq/=).


(** * Reading and writing through pointers *)

Lemma get_child_Some tn i c :
  get_child tn i = Some c ->
  0 <= i /\ kv_tyesde tn !! Z.to_nat i = Some (Some c).
Proof.
  unfold get_child. destruct (Z.ltb_spec i 0); [discriminate |].
  destruct (kv_tyesde tn !! Z.to_nat i) as [[c'|]|]; intros [=]; subst; done.
Qed.

Lemma get_child_leaf k s l i : get_child (Leaf k s l) i = None.
Proof. unfold get_child. simpl. by destruct (i <? 0). Qed.

Lemma get_child_tyesde_inv tn i c :
  get_child tn i = Some c ->
  exists k p b s e f cs, tn = Tyesde k p b s e f cs.
Proof.
  destruct tn; [by rewrite get_child_leaf | eauto 10].
Qed.

Lemma get_child_of_nat tn (i : nat) :
  get_child tn (Z.of_nat i) = mjoin (kv_tyesde tn !! i).
Proof.
  unfold get_child.
  destruct (Z.ltb_spec (Z.of_nat i) 0); [lia |].
  rewrite Nat2Z.id. by destruct (kv_tyesde tn !! i) as [[?|]|].
Qed.

Lemma get_child_set_child_eq tn i old n :
  get_child tn i = Some old -> get_child (set_child tn i n) i = n.
Proof.
  intros [Hi Hl]%get_child_Some. unfold get_child, set_child.
  destruct tn as [|k p b s e f c]; [done |]. simpl in *.
  destruct (Z.ltb_spec i 0); [lia |]. simpl.
  destruct (Z.ltb_spec i 0); [lia |].
  rewrite list_lookup_insert_eq; [by destruct n |].
  by eapply lookup_lt_Some.
Qed.

Lemma get_child_set_child_ne tn i j n :
  i <> j -> get_child (set_child tn i n) j = get_child tn j.
Proof.
  intros Hij. unfold get_child, set_child.
  destruct tn as [|k p b s e f c]; [done |]. simpl.
  destruct (Z.ltb_spec i 0); [done |]. simpl.
  destruct (Z.ltb_spec j 0); [done |].
  rewrite list_lookup_insert_ne; [done | lia].
Qed.

Lemma get_yesde_cons r i p :
  get_yesde r (i :: p) = get_yesde r p ≫= fun tn => get_child tn i.
Proof. simpl. by destruct (get_yesde r p). Qed.

Lemma get_yesde_app r q p :
  get_yesde r (q ++ p) = get_yesde r p ≫= fun n => get_yesde n q.
Proof.
  induction q as [|i q IH]; simpl.
  - by destruct (get_yesde r p).
  - rewrite IH. destruct (get_yesde r p) as [n|]; simpl; [| done].
    by destruct (get_yesde n q).
Qed.

Lemma set_yesde_cons r i p n :
  set_yesde r (i :: p) n =
  get_yesde r p ≫= fun tp => set_yesde r p (set_child tp i (Some n)).
Proof. simpl. by destruct (get_yesde r p). Qed.

Lemma set_yesde_app r q p n m :
  get_yesde r p = Some m ->
  set_yesde r (q ++ p) n = set_yesde m q n ≫= fun m' => set_yesde r p m'.
Proof.
  intros Hm. revert n. induction q as [|i q IH]; intros n.
  - done.
  - rewrite <- app_comm_cons, !set_yesde_cons, get_yesde_app, Hm. simpl.
    destruct (get_yesde m q) as [tp|]; simpl; [apply IH | done].
Qed.

(** A write through a valid pointer succeeds, and is read back. *)
Lemma set_yesde_valid r p old n :
  get_yesde r p = Some old ->
  exists r', set_yesde r p n = Some r' /\ get_yesde r' p = Some n.
Proof.
  revert old n. induction p as [|i p IH]; intros old n H.
  - exists n. done.
  - rewrite get_yesde_cons in H.
    destruct (get_yesde r p) as [tp|] eqn:Htp; simpl in H; [| done].
    destruct (IH tp (set_child tp i (Some n)) eq_refl) as (r' & Hs & Hg).
    exists r'. split.
    + rewrite set_yesde_cons, Htp. exact Hs.
    + rewrite get_yesde_cons, Hg. simpl.
      by eapply get_child_set_child_eq.
Qed.

Lemma get_set_same r p old n r' :
  get_yesde r p = Some old -> set_yesde r p n = Some r' ->
  get_yesde r' p = Some n.
Proof.
  intros H Hs. destruct (set_yesde_valid r p old n H) as (r'' & Hs' & Hg).
  congruence.
Qed.

(** At and below the pointer written: the new value. *)
Lemma get_set_below r a old n r' q :
  get_yesde r a = Some old -> set_yesde r a n = Some r' ->
  get_yesde r' (q ++ a) = get_yesde n q.
Proof.
  intros H Hs. rewrite get_yesde_app.
  by rewrite (get_set_same _ _ _ _ _ H Hs).
Qed.

(** Above the pointer written: the old node with the write made inside
    it. *)
Lemma get_set_above r q p old n r' :
  get_yesde r (q ++ p) = Some old -> set_yesde r (q ++ p) n = Some r' ->
  exists m m', get_yesde r p = Some m /\ set_yesde m q n = Some m' /\
               get_yesde r' p = Some m'.
Proof.
  intros H Hs. rewrite get_yesde_app in H.
  destruct (get_yesde r p) as [m|] eqn:Hm; simpl in H; [| done].
  rewrite (set_yesde_app _ _ _ _ _ Hm) in Hs.
  destruct (set_yesde m q n) as [m'|] eqn:Hm'; simpl in Hs; [| done].
  exists m, m'. repeat split; [done |].
  by eapply get_set_same.
Qed.

(** Beside the pointer written: no change. *)
Lemma get_set_beside r qa i qp j c old n r' :
  i <> j ->
  get_yesde r (qa ++ i :: c) = Some old ->
  set_yesde r (qa ++ i :: c) n = Some r' ->
  get_yesde r' (qp ++ j :: c) = get_yesde r (qp ++ j :: c).
Proof.
  intros Hij H Hs.
  replace (qa ++ i :: c) with ((qa ++ [i]) ++ c) in * by by rewrite <- app_assoc.
  replace (qp ++ j :: c) with ((qp ++ [j]) ++ c) by by rewrite <- app_assoc.
  destruct (get_set_above _ _ _ _ _ _ H Hs) as (m & m' & Hm & Hm' & Hg).
  rewrite !(get_yesde_app _ (qp ++ [j])), Hg, Hm. simpl.
  rewrite !(get_yesde_app _ qp [j]). f_equal.
  rewrite get_yesde_app, Hm in H. simpl in H.
  rewrite get_yesde_app in H.
  destruct (get_yesde m [i]) as [x|] eqn:Hx; simpl in H; [| done].
  rewrite (set_yesde_app _ _ _ _ _ Hx) in Hm'.
  destruct (set_yesde x qa n) as [x'|]; simpl in Hm'; [| done].
  simpl in *. injection Hm' as <-.
  by apply get_child_set_child_ne.
Qed.

(** The fields of a node that a write below it leaves alone. *)
Definition same_header (n n' : key_vector) : Prop :=
  kv_key n = kv_key n' /\ kv_pos n = kv_pos n' /\ kv_bits n = kv_bits n' /\
  kv_slen n = kv_slen n' /\ kv_leaf n = kv_leaf n' /\
  kv_empty_children n = kv_empty_children n' /\
  kv_full_children n = kv_full_children n' /\
  length (kv_tyesde n) = length (kv_tyesde n').

Lemma same_header_refl n : same_header n n.
Proof. by repeat split. Qed.

Lemma same_header_set_child tn i n : same_header tn (set_child tn i n).
Proof.
  destruct tn as [|k p b s e f c]; simpl; [apply same_header_refl |].
  destruct (i <? 0); [apply same_header_refl |].
  repeat split. simpl. by rewrite length_insert.
Qed.

Lemma set_yesde_same_header m q old n m' :
  q <> [] -> get_yesde m q = Some old -> set_yesde m q n = Some m' ->
  same_header m m'.
Proof.
  revert n old. induction q as [|i q IH]; intros n old Hq H Hs; [done |].
  rewrite get_yesde_cons in H. rewrite set_yesde_cons in Hs.
  destruct (get_yesde m q) as [tp|] eqn:Htp; simpl in *; [| done].
  destruct q as [|j q].
  - simpl in *. injection Htp as <-. injection Hs as <-.
    apply same_header_set_child.
  - eapply IH; [done | reflexivity | exact Hs].
Qed.


(** * The inflate test *)

Lemma child_length_tyesde tn :
  1 <= kv_bits tn -> child_length tn = 2 ^ kv_bits tn.
Proof.
  intros H; unfold child_length.
  destruct (Z.eqb_spec (kv_bits tn) 0); [lia | done].
Qed.

Lemma pow2_bits_bounds b : 1 <= b <= 32 -> 2 <= 2 ^ b <= 2 ^ 32.
Proof.
  intros [H1 H2]; split.
  - change 2 with (2 ^ 1) at 1. apply Z.pow_le_mono_r; lia.
  - apply Z.pow_le_mono_r; lia.
Qed.

(** C4, as the code has it: [should_inflate] holds exactly when the node is
    not at position 0 and the occupied children plus the full children
    reach the inflate threshold (50 percent, 30 percent below the root) of
    the capacity of the doubled node. *)
Theorem should_inflate_iff_doubled (tp tn : key_vector) :
  counters_in_range tn ->
  should_inflate tp tn = true <->
  0 < kv_pos tn /\ ratio_reaches_doubled tp tn.
Proof.
  intros (Hb & Hp & He & Hf).
  unfold should_inflate, ratio_reaches_doubled, inflate_threshold_of,
    occupied in *.
  unfold KEYLENGTH in Hb.
  rewrite child_length_tyesde in * by lia.
  pose proof (pow2_bits_bounds _ Hb) as Hpow.
  assert (Hthr : 30 <= (if IS_TRIE tp then inflate_threshold_root
                        else inflate_threshold) <= 50)
    by (unfold inflate_threshold_root, inflate_threshold;
        destruct (IS_TRIE tp); lia).
  set (thr := if IS_TRIE tp then inflate_threshold_root
              else inflate_threshold) in *.
  set (len := 2 ^ kv_bits tn) in *.
  set (e := kv_empty_children tn) in *.
  set (f := kv_full_children tn) in *.
  change (2 ^ 32) with 4294967296 in Hpow.
  rewrite (ulong_small (len * thr)) by (change (2 ^ 64) with 18446744073709551616; nia).
  rewrite (ulong_small (len - e)) by (change (2 ^ 64) with 18446744073709551616; lia).
  rewrite (ulong_small (len - e + f)) by (change (2 ^ 64) with 18446744073709551616; lia).
  rewrite (ulong_small (50 * _)) by (change (2 ^ 64) with 18446744073709551616; lia).
  rewrite !andb_true_iff, negb_true_iff, Z.ltb_lt, Z.eqb_neq, Z.leb_le.
  split.
  - intros [[H1 H2] H3]. split; [lia | nia].
  - intros [H1 H2]. repeat split; [nia | lia | nia].
Qed.

(** A node that witnesses the hypothesis of the theorem: four slots, two
    of them taken by leaves, below a parent that is not the root. *)
Definition inflate_example_parent : key_vector :=
  Tyesde 0 8 1 8 1 0 [None; None].
Definition inflate_example_yesde : key_vector :=
  Tyesde 0 2 2 2 2 0 [Some (Leaf 0 0 []); Some (Leaf 4 0 []); None; None].

Lemma should_inflate_iff_doubled_witness :
  counters_in_range inflate_example_yesde /\
  (should_inflate inflate_example_parent inflate_example_yesde = true <->
   0 < kv_pos inflate_example_yesde /\
   ratio_reaches_doubled inflate_example_parent inflate_example_yesde).
Proof.
  assert (H : counters_in_range inflate_example_yesde)
    by (unfold counters_in_range; vm_compute; intuition congruence).
  split; [exact H | exact (should_inflate_iff_doubled _ _ H)].
Defined.

(** C4 as stated fails: this node is half full and not at position 0, so
    the ratio over its own capacity reaches 50 percent, yet
    [should_inflate] is false. *)
Lemma should_inflate_capacity_counterexample :
  ~ (should_inflate inflate_example_parent inflate_example_yesde = true <->
     0 < kv_pos inflate_example_yesde /\
     ratio_reaches_capacity inflate_example_parent inflate_example_yesde).
Proof.
  intros [_ H].
  assert (Hf : should_inflate inflate_example_parent inflate_example_yesde
               = false) by reflexivity.
  rewrite H in Hf; [discriminate |].
  split; [reflexivity | vm_compute; discriminate].
Qed.


(** * Error returns of insert and delete *)

Lemma leaf_new_kv key fa w r w' :
  leaf_new key fa w = Some (r, w') -> kv w' = kv w.
Proof.
  unfold leaf_new. intros H. inv_M.
  match goal with H : kalloc _ = Some _ |- _ => apply kalloc_Some in H end.
  destruct x; inv_M; done.
Qed.

Lemma tyesde_alloc_kv bits w r w' :
  tyesde_alloc bits w = Some (r, w') -> kv w' = kv w.
Proof.
  unfold tyesde_alloc. destruct (_ <? _); intros H.
  - inv_M. done.
  - by apply kalloc_Some in H.
Qed.

Lemma tyesde_new_kv key pos bits w r w' :
  tyesde_new key pos bits w = Some (r, w') -> kv w' = kv w.
Proof.
  unfold tyesde_new. destruct (_ || _); intros H; inv_M.
  match goal with H : tyesde_alloc _ _ = Some _ |- _ =>
    apply tyesde_alloc_kv in H end.
  destruct x; inv_M; done.
Qed.

(** [fib_insert_yesde] returns 0, or [-ENOMEM] with the trie as it was. *)
Lemma fib_insert_yesde_returns tp new key w e w' :
  fib_insert_yesde tp new key w = Some (e, w') ->
  e = 0 \/ (e = - ENOMEM /\ kv w' = kv w).
Proof.
  unfold fib_insert_yesde. intros H. inv_M.
  match goal with H : leaf_new _ _ _ = Some _ |- _ =>
    apply leaf_new_kv in H; rename H into Hl end.
  destruct x as [l|]; inv_M; [| right; split; [done | congruence]].
  destruct x2 as [tp'|]; inv_M; [left; done | right; split; [done|]].
  destruct (get_child _ _) as [nn|] eqn:Hn; inv_M.
  match goal with H : tyesde_new _ _ _ _ = Some _ |- _ =>
      apply tyesde_new_kv in H; rename H into Ht end.
  destruct x0; inv_M. congruence.
Qed.

Lemma fib_insert_alias_returns tp l new fa key w e w' :
  fib_insert_alias tp l new fa key w = Some (e, w') ->
  e = 0 \/ (e = - ENOMEM /\ kv w' = kv w).
Proof.
  destruct l as [l|]; simpl.
  - intros H. inv_M. left; done.
  - apply fib_insert_yesde_returns.
Qed.

(** Every way [fib_table_insert] can return. *)
Inductive insert_return (net : collaborators) (cfg : fib_config) (e : Z)
  : Prop :=
| insert_ok : e = 0 -> insert_return net cfg e
| insert_einval :
    fib_valid_key_len (fc_dst cfg) (fc_dst_len cfg) = false ->
    e = - EINVAL -> insert_return net cfg e
| insert_info :
    fib_valid_key_len (fc_dst cfg) (fc_dst_len cfg) = true ->
    fib_create_info net cfg = inl e -> insert_return net cfg e
| insert_yestifier event dst dst_len fa :
    fib_valid_key_len (fc_dst cfg) (fc_dst_len cfg) = true ->
    e = call_fib4_yestifiers net event dst dst_len fa ->
    insert_return net cfg e
| insert_other :
    fib_valid_key_len (fc_dst cfg) (fc_dst_len cfg) = true ->
    e = - EEXIST \/ e = - ENOBUFS \/ e = - ENOENT \/ e = - ENOMEM ->
    insert_return net cfg e.

Lemma fib_table_insert_new_returns net tb cfg fi tp l event fa w e tb' w' :
  fib_valid_key_len (fc_dst cfg) (fc_dst_len cfg) = true ->
  fib_table_insert_new net tb cfg fi tp l event fa w = Some ((e, tb'), w') ->
  insert_return net cfg e /\ (e <> 0 -> kv w' = kv w /\ tb' = tb).
Proof.
  intros Hv. unfold fib_table_insert_new, call_fib_entry_yestifiers.
  destruct (negb (flag_set _ _)); intros H; inv_M.
  { split; [apply insert_other; auto | done]. }
  match goal with H : kalloc _ = Some _ |- _ =>
    apply kalloc_Some in H; rename H into Hk end.
  destruct x; inv_M.
  2:{ split; [apply insert_other; auto | split; congruence]. }
  destruct (negb (_ =? 0)) eqn:Hn; inv_M.
  { split; [eapply insert_yestifier; eauto | split; congruence]. }
  match goal with H : fib_insert_alias _ _ _ _ _ _ = Some _ |- _ =>
    apply fib_insert_alias_returns in H; rename H into Hi end.
  destruct Hi as [-> | [-> Hkv]]; inv_M.
  - split; [by apply insert_ok | done].
  - split; [apply insert_other; auto | split; congruence].
Qed.

Lemma fib_table_insert_replace_returns net tb cfg fi l i fa_first fa_match
    w e tb' w' :
  fib_valid_key_len (fc_dst cfg) (fc_dst_len cfg) = true ->
  fib_table_insert_replace net tb cfg fi l i fa_first fa_match w
  = Some ((e, tb'), w') ->
  insert_return net cfg e /\ (e <> 0 -> kv w' = kv w /\ tb' = tb).
Proof.
  intros Hv. unfold fib_table_insert_replace, call_fib_entry_yestifiers.
  destruct fa_match as [m|]; intros H; inv_M.
  { destruct (Nat.eqb i m).
    - split; [by apply insert_ok | done].
    - split; [apply insert_other; auto | done]. }
  match goal with H : kalloc _ = Some _ |- _ =>
    apply kalloc_Some in H; rename H into Hk end.
  destruct x; inv_M.
  2:{ split; [apply insert_other; auto | split; congruence]. }
  destruct (negb (_ =? 0)) eqn:Hn; inv_M.
  { split; [eapply insert_yestifier; eauto | split; congruence]. }
  split; [by apply insert_ok | done].
Qed.

Lemma fib_table_insert_returns net tb cfg w e tb' w' :
  fib_table_insert net tb cfg w = Some ((e, tb'), w') ->
  insert_return net cfg e /\ (e <> 0 -> kv w' = kv w /\ tb' = tb).
Proof.
  unfold fib_table_insert.
  destruct (fib_valid_key_len _ _) eqn:Hv; simpl; intros H.
  2:{ inv_M. split; [by apply insert_einval | done]. }
  destruct (fib_create_info net cfg) as [err|fi] eqn:Hci.
  { inv_M. split; [by apply insert_info | done]. }
  inv_M. destruct x1 as [tp [lp|]].
  2:{ by eapply fib_table_insert_new_returns. }
  inv_M.
  destruct (fib_find_alias _ _ _ _ _) as [i|];
    [| by eapply fib_table_insert_new_returns].
  inv_M.
  destruct (_ && _); [| by eapply fib_table_insert_new_returns].
  destruct (flag_set (fc_nlflags cfg) NLM_F_EXCL).
  { inv_M. split; [apply insert_other; auto | done]. }
  destruct (fib_insert_match_from _ _ _ _ _ _ _) as [fa_match fa_exit].
  destruct (flag_set (fc_nlflags cfg) NLM_F_REPLACE).
  { by eapply fib_table_insert_replace_returns. }
  destruct fa_match as [m|].
  - inv_M. split; [apply insert_other; auto | done].
  - destruct (flag_set (fc_nlflags cfg) NLM_F_APPEND);
      by eapply fib_table_insert_new_returns.
Qed.


(** The bits cut off by [key << plen] are the bits of the key below the
    prefix. *)
Lemma key_shift_nonzero key plen :
  0 <= key < 2 ^ 32 -> 0 <= plen < 32 ->
  u32 (Z.shiftl key plen) <> 0 <-> key mod 2 ^ (32 - plen) <> 0.
Proof.
  intros Hk Hp. unfold u32.
  rewrite Z.shiftl_mul_pow2 by lia.
  replace (2 ^ 32) with (2 ^ (32 - plen) * 2 ^ plen)
    by (rewrite <- Z.pow_add_r by lia; f_equal; lia).
  rewrite Z.mul_mod_distr_r by (apply Z.pow_nonzero; lia).
  assert (0 < 2 ^ plen) by (apply Z.pow_pos_nonneg; lia).
  nia.
Qed.







(** When the allocation of the leaf fails, [fib_insert_yesde] returns
    [-ENOMEM] at once. *)
Lemma fib_insert_yesde_yesleaf tp new key k t :
  fib_insert_yesde tp new key (World (false :: k) t)
  = Some (- ENOMEM, World k t).
Proof. reflexivity. Qed.

(** C6: a structural insert that fails for lack of memory returns
    [-ENOMEM] and leaves the trie exactly as it was; [fib_table_insert]
    hands the error on -- it returns the value of [fib_insert_yesde] --
    and, whenever it returns an error, the table and the trie are as
    before the call. *)
Theorem failed_insert_is_atomic (net : collaborators) (tb : fib_table)
    (cfg : fib_config) (fi : fib_info) (tp : ptr)
    (event : fib_event_type) (fa : option nat) (w : world) :
  (forall new key e w',
     fib_insert_yesde tp new key w = Some (e, w') -> e <> 0 ->
     e = - ENOMEM /\ kv w' = kv w) /\
  (forall new w1 w',
     (* the structural insert is reached and fails *)
     flag_set (fc_nlflags cfg) NLM_F_CREATE = true ->
     kalloc w = Some (true, w1) ->
     new = {| fa_info := fi; fa_tos := fc_tos cfg; fa_type := fc_type cfg;
              fa_state := 0; fa_slen := u8 (KEYLENGTH - fc_dst_len cfg);
              tb_id := tb_tb_id tb; fa_default := -1 |} ->
     call_fib4_yestifiers net event (fc_dst cfg) (fc_dst_len cfg) new = 0 ->
     fib_insert_yesde tp new (fc_dst cfg) w1 = Some (- ENOMEM, w') ->
     fib_table_insert_new net tb cfg fi tp None event fa w
     = Some ((- ENOMEM, tb), w') /\ kv w' = kv w) /\
  (forall e tb' w',
     fib_table_insert net tb cfg w = Some ((e, tb'), w') -> e <> 0 ->
     kv w' = kv w /\ tb' = tb).
Proof.
  split; [| split].
  - intros new key e w' H He.
    apply fib_insert_yesde_returns in H as [-> | H]; done.
  - intros new w1 w' Hc Hk -> Hn Hi.
    unfold fib_table_insert_new, call_fib_entry_yestifiers.
    rewrite Hc. simpl. unfold bind at 1. rewrite Hk. simpl.
    rewrite Hn. simpl. unfold bind. rewrite Hi. simpl.
    split; [done |].
    apply fib_insert_yesde_returns in Hi as [Hi | [_ Hi]]; [done |].
    apply kalloc_Some in Hk. congruence.
  - intros e tb' w' H He.
    apply fib_table_insert_returns in H as [_ H]. by apply H.
Qed.

(** The first route of a table, with no memory for its leaf. *)
Lemma failed_insert_is_atomic_witness :
  fib_table_insert example_net (example_table 254)
    (example_route (ipv4 10 0 0 0) 8 0 0 NLM_F_CREATE)
    (World [true; false] trie_empty)
  = Some ((- ENOMEM, example_table 254), World [] trie_empty) /\
  kv (World [] trie_empty) = kv (World [true; false] trie_empty).
Proof.
  assert (H : fib_table_insert example_net (example_table 254)
                (example_route (ipv4 10 0 0 0) 8 0 0 NLM_F_CREATE)
                (World [true; false] trie_empty)
              = Some ((- ENOMEM, example_table 254), World [] trie_empty))
    by (vm_compute; reflexivity).
  split; [exact H |].
  apply (proj2 (proj2 (failed_insert_is_atomic example_net (example_table 254)
           (example_route (ipv4 10 0 0 0) 8 0 0 NLM_F_CREATE)
           (example_fi 0) [] FIB_EVENT_ENTRY_ADD None
           (World [true; false] trie_empty))) _ _ _ H).
  vm_compute. discriminate.
Defined.


(** * The alias list of a leaf *)

#[global] Instance alias_before_trans : Transitive alias_before.
Proof. unfold alias_before. intros a b c ? ?. lia. Qed.

Lemma alias_before_refl a : alias_before a a.
Proof. unfold alias_before. lia. Qed.

Lemma alias_same_section_before a b :
  alias_same_section a b -> alias_before a b /\ alias_before b a.
Proof. unfold alias_same_section, alias_before. lia. Qed.

Lemma hlist_add_at_length i new l :
  length (hlist_add_at i new l) = S (length l).
Proof.
  unfold hlist_add_at. rewrite length_app. simpl.
  rewrite length_take, length_drop. lia.
Qed.

(** Adding [new] at a position whose left neighbours come before it and
    whose right neighbours come after it. *)
Lemma sorted_hlist_add_at i new l :
  StronglySorted alias_before l ->
  Forall (fun x => alias_before x new) (take i l) ->
  Forall (alias_before new) (drop i l) ->
  StronglySorted alias_before (hlist_add_at i new l).
Proof.
  intros Hs Hl Hr. unfold hlist_add_at.
  rewrite <- (take_drop i l) in Hs.
  apply StronglySorted_app in Hs as (H12 & Hs1 & Hs2).
  apply StronglySorted_app. split; [| split; [done |]].
  - intros x1 x2 Hx1 [->|Hx2]%elem_of_cons.
    + by eapply Forall_forall in Hl.
    + by apply H12.
  - by constructor.
Qed.

(** The scan of [fib_insert_alias] ends where [new] belongs. *)
Lemma fib_insert_alias_scan_sorted new l :
  StronglySorted alias_before l ->
  StronglySorted alias_before
    (hlist_add_at (fib_insert_alias_scan new l) new l).
Proof.
  intros Hs. apply sorted_hlist_add_at; [done | |].
  - clear Hs. induction l as [|last rest IH]; simpl; [constructor |].
    destruct (Z.ltb_spec (fa_slen new) (fa_slen last)); [constructor |].
    destruct (Z.eqb_spec (fa_slen new) (fa_slen last));
      destruct (Z.ltb_spec (tb_id last) (tb_id new)); simpl;
      try constructor; try done; unfold alias_before; lia.
  - induction Hs as [|last rest Hs IH Hall]; simpl; [constructor |].
    assert (Hstop : alias_before new last ->
                    Forall (alias_before new) (last :: rest)).
    { intros Hb. constructor; [done |].
      eapply Forall_impl; [exact Hall |]. intros x Hx. by etrans. }
    destruct (Z.ltb_spec (fa_slen new) (fa_slen last)).
    { apply Hstop. unfold alias_before. lia. }
    destruct (Z.eqb_spec (fa_slen new) (fa_slen last));
      destruct (Z.ltb_spec (tb_id last) (tb_id new)); simpl; try done.
    apply Hstop. unfold alias_before. lia.
Qed.

(** What [fib_find_alias] returns lies in the section asked for. *)
Lemma fib_find_alias_from_section j fah slen tos prio tb i :
  fib_find_alias_from j fah slen tos prio tb = Some i ->
  exists fa, (j <= i)%nat /\ fah !! (i - j)%nat = Some fa /\
             fa_slen fa = slen /\ tb_id fa = tb.
Proof.
  revert j. induction fah as [|fa rest IH]; intros j; simpl; [done |].
  intros H.
  assert (Hrec : fib_find_alias_from (S j) rest slen tos prio tb = Some i ->
                 exists fa0, (j <= i)%nat /\
                   (fa :: rest) !! (i - j)%nat = Some fa0 /\
                   fa_slen fa0 = slen /\ tb_id fa0 = tb).
  { intros (fa0 & Hle & Hl & Hf)%IH. exists fa0. split; [lia |].
    split; [| done].
    replace (i - j)%nat with (S (i - S j)) by lia. done. }
  destruct (Z.ltb_spec (fa_slen fa) slen); [by apply Hrec |].
  destruct (Z.eqb_spec (fa_slen fa) slen); simpl in H; [| done].
  destruct (Z.ltb_spec tb (tb_id fa)); [by apply Hrec |].
  destruct (Z.eqb_spec (tb_id fa) tb); simpl in H; [| done].
  destruct (Z.ltb_spec tos (fa_tos fa)); [by apply Hrec |].
  destruct (_ || _); [| by apply Hrec].
  injection H as <-. exists fa. rewrite Nat.sub_diag. done.
Qed.

Lemma fib_find_alias_section fah slen tos prio tb i :
  fib_find_alias fah slen tos prio tb = Some i ->
  exists fa, fah !! i = Some fa /\ fa_slen fa = slen /\ tb_id fa = tb.
Proof.
  intros (fa & _ & Hl & Hf)%fib_find_alias_from_section.
  rewrite Nat.sub_0_r in Hl. eauto.
Qed.

(** Adding [new] next to an alias of its own section. *)
Lemma sorted_add_before_same i new fa l :
  StronglySorted alias_before l -> l !! i = Some fa ->
  alias_same_section new fa ->
  StronglySorted alias_before (hlist_add_at i new l).
Proof.
  intros Hs Hi [Hnf Hfn]%alias_same_section_before.
  pose proof Hs as Hs'.
  rewrite <- (take_drop i l) in Hs'.
  apply StronglySorted_app in Hs' as (H12 & _ & Hs2).
  assert (Hd : drop i l = fa :: drop (S i) l) by by apply drop_S.
  apply sorted_hlist_add_at; [done | |].
  - apply Forall_forall. intros x Hx. etrans; [| exact Hfn].
    apply H12; [done |]. rewrite Hd. left.
  - rewrite Hd in *. apply StronglySorted_inv in Hs2 as [_ Hall].
    constructor; [done |].
    eapply Forall_impl; [exact Hall |]. intros x Hx. by etrans.
Qed.

Lemma sorted_add_behind_same i new fa l :
  StronglySorted alias_before l -> l !! i = Some fa ->
  alias_same_section new fa ->
  StronglySorted alias_before (hlist_add_at (S i) new l).
Proof.
  intros Hs Hi [Hnf Hfn]%alias_same_section_before.
  pose proof Hs as Hs'.
  rewrite <- (take_drop (S i) l) in Hs'.
  apply StronglySorted_app in Hs' as (H12 & Hs1 & _).
  assert (Ht : take (S i) l = take i l ++ [fa]) by by apply take_S_r.
  apply sorted_hlist_add_at; [done | |].
  - rewrite Ht in *. apply Forall_app. split.
    + apply StronglySorted_app in Hs1 as (H1 & _ & _).
      apply Forall_forall. intros x Hx. etrans; [| exact Hfn].
      apply H1; [done | left].
    + constructor; [done | constructor].
  - apply Forall_forall. intros x Hx. etrans; [exact Hnf |].
    apply H12; [| done]. rewrite Ht. apply elem_of_app. right. left.
Qed.

Lemma sorted_hlist_replace i new fa l :
  StronglySorted alias_before l -> l !! i = Some fa ->
  alias_same_section new fa ->
  StronglySorted alias_before (hlist_replace i new l).
Proof.
  intros Hs Hi Hsame. unfold hlist_replace.
  pose proof (sorted_add_before_same i new fa l Hs Hi Hsame) as H.
  unfold hlist_add_at in H.
  rewrite (drop_S _ _ _ Hi) in H.
  assert (Hlen : (i < length l)%nat) by by eapply lookup_lt_Some.
  rewrite insert_take_drop by done.
  apply StronglySorted_app in H as (H12 & H1 & H2).
  apply StronglySorted_app. split; [| split; [done |]].
  - intros x1 x2 Hx1 Hx2. apply H12; [done |].
    apply elem_of_cons in Hx2 as [->|Hx2]; [left | right; by right].
  - apply StronglySorted_inv in H2 as [H2 Hall].
    apply StronglySorted_inv in H2 as [H2 _].
    constructor; [done |]. by apply Forall_cons in Hall as [_ ?].
Qed.

Lemma sorted_delete i l :
  StronglySorted alias_before l ->
  StronglySorted alias_before (delete i l).
Proof.
  intros Hs. revert i. induction Hs as [|a l Hs IH Hall]; intros i.
  - destruct i; constructor.
  - destruct i as [|i]; simpl; [done |].
    constructor; [apply IH |].
    apply Forall_forall. intros x Hx.
    eapply Forall_forall in Hall; [done |].
    by eapply list_elem_of_delete_inv.
Qed.


(** * Suffix lengths *)

Section slen_related.
Context (R : Z -> Z -> Prop).

Lemma slen_related_children c c' :
  (fix go (c c' : list (option key_vector)) : Prop :=
     match c, c' with
     | [], [] => True
     | o :: c, o' :: c' =>
         match o, o' with
         | None, None => True
         | Some x, Some x' => slen_related R x x'
         | _, _ => False
         end /\ go c c'
     | _, _ => False
     end) c c' <->
  Forall2 (option_Forall2 (slen_related R)) c c'.
Proof.
  revert c'. induction c as [|o c IH]; intros [|o' c']; split;
    try done; try (by inversion 1).
  - intros [Ho Hc]. constructor; [| by apply IH].
    destruct o, o'; try done; by constructor.
  - inversion 1 as [|? ? ? ? Ho Hc]; subst. split; [| by apply IH].
    by destruct Ho.
Qed.

Lemma slen_related_leaf k s l t' :
  slen_related R (Leaf k s l) t' <-> exists s', t' = Leaf k s' l /\ R s s'.
Proof.
  destruct t' as [k' s' l'|]; simpl; split.
  - intros (-> & -> & H). eauto.
  - intros (s'' & [= -> -> ->] & H). done.
  - done.
  - intros (? & [=] & _).
Qed.

Lemma slen_related_tyesde k p b s e f c t' :
  slen_related R (Tyesde k p b s e f c) t' <->
  exists s' c', t' = Tyesde k p b s' e f c' /\ R s s' /\
                Forall2 (option_Forall2 (slen_related R)) c c'.
Proof.
  destruct t' as [|k' p' b' s' e' f' c']; simpl.
  - split; [done | intros (? & ? & [=] & _)].
  - rewrite slen_related_children. split.
    + intros (-> & -> & -> & -> & -> & H & Hc). eauto.
    + intros (s'' & c'' & [= -> -> -> -> -> -> ->] & H & Hc). done.
Qed.

Lemma slen_related_refl `{!Reflexive R} t : slen_related R t t.
Proof.
  induction t as [k s l | k p b s e f c IH] using key_vector_ind'.
  - simpl. done.
  - apply slen_related_tyesde. exists s, c. split; [done |]. split; [done |].
    induction IH as [|o c Ho Hc IHc]; constructor; [| done].
    destruct o; by constructor.
Qed.


Lemma slen_related_get_child t t' i :
  slen_related R t t' ->
  option_Forall2 (slen_related R) (get_child t i) (get_child t' i).
Proof.
  destruct t.
  - intros (s' & -> & H)%slen_related_leaf. unfold get_child. simpl.
    destruct (i <? 0); constructor.
  - intros (s' & c' & -> & H & Hc)%slen_related_tyesde.
    unfold get_child. simpl. destruct (i <? 0); [constructor |].
    destruct (tyesde !! Z.to_nat i) as [o|] eqn:Ho.
    + destruct (Forall2_lookup_l _ _ _ _ _ Hc Ho) as (o' & -> & Hoo). done.
    + rewrite (proj2 (lookup_ge_None c' (Z.to_nat i))); [constructor |].
      apply lookup_ge_None in Ho. by rewrite <- (Forall2_length _ _ _ Hc).
Qed.

Lemma slen_related_get t t' p :
  slen_related R t t' ->
  option_Forall2 (slen_related R) (get_yesde t p) (get_yesde t' p).
Proof.
  intros H. induction p as [|i p IH]; simpl.
  - by constructor.
  - destruct IH as [n n' Hn|]; [| constructor].
    by apply slen_related_get_child.
Qed.

Lemma slen_related_set_child `{!Reflexive R} tp i n n' :
  get_child tp i = Some n -> slen_related R n n' ->
  slen_related R tp (set_child tp i (Some n')).
Proof.
  intros [Hi Hl]%get_child_Some Hn.
  destruct tp as [|k p b s e f c]; [simpl in Hl; done |].
  simpl in Hl. unfold set_child.
  destruct (Z.ltb_spec i 0); [lia |].
  apply slen_related_tyesde. eexists _, _. split; [done |].
  split; [done |].
  apply Forall2_same_length_lookup. split; [by rewrite length_insert |].
  intros j o o' Ho Ho'.
  destruct (decide (j = Z.to_nat i)) as [->|Hne].
  - rewrite list_lookup_insert_eq in Ho' by by eapply lookup_lt_Some.
    simplify_eq. by constructor.
  - rewrite list_lookup_insert_ne in Ho' by done. simplify_eq.
    destruct o; constructor. apply slen_related_refl.
Qed.

Lemma slen_related_set `{!Reflexive R} r a n n' r' :
  get_yesde r a = Some n -> slen_related R n n' ->
  set_yesde r a n' = Some r' -> slen_related R r r'.
Proof.
  revert n n'. induction a as [|i a IH]; intros n n' Hg Hn Hs.
  - simpl in *. by simplify_eq.
  - rewrite get_yesde_cons in Hg. rewrite set_yesde_cons in Hs.
    destruct (get_yesde r a) as [tp|] eqn:Htp; simpl in Hg, Hs; [| done].
    eapply IH; [done | | exact Hs].
    by eapply slen_related_set_child.
Qed.

Lemma slen_related_trans `{!Transitive R} t1 t2 t3 :
  slen_related R t1 t2 -> slen_related R t2 t3 -> slen_related R t1 t3.
Proof.
  revert t2 t3.
  induction t1 as [k s l | k p b s e f c IH] using key_vector_ind';
    intros t2 t3.
  - intros (s2 & -> & H12)%slen_related_leaf (s3 & -> & H23)%slen_related_leaf.
    apply slen_related_leaf. exists s3. split; [done | by etrans].
  - intros (s2 & c2 & -> & H12 & Hc12)%slen_related_tyesde
           (s3 & c3 & -> & H23 & Hc23)%slen_related_tyesde.
    apply slen_related_tyesde. exists s3, c3. split; [done |].
    split; [by etrans |].
    clear -IH Hc12 Hc23. revert c3 Hc23.
    induction Hc12 as [|o1 o2 c1 c2 Ho Hc IHc]; intros c3 Hc23.
    + by inversion Hc23.
    + inversion Hc23 as [|? o3 ? c3' Ho' Hc']; subst.
      apply Forall_cons in IH as [IHo IHl].
      constructor; [| by apply IHc].
      destruct Ho; inversion Ho'; subst; constructor. by eapply IHo.
Qed.
End slen_related.

Lemma slen_related_set_slen (R : Z -> Z -> Prop) `{!Reflexive R} n s :
  R (kv_slen n) s -> slen_related R n (set_slen s n).
Proof.
  intros H. destruct n as [k s0 l|k p b s0 e f c].
  - simpl in *. done.
  - simpl in H. unfold set_slen.
    pose proof (slen_related_refl R (Tyesde k p b s0 e f c)) as Hr.
    apply slen_related_tyesde in Hr as (? & ? & [= <- <-] & _ & Hc).
    apply (slen_related_tyesde R k p b s0 e f c). eauto.
Qed.

#[global] Instance Z_ge_refl : Reflexive Z.ge.
Proof. intros x. lia. Qed.
#[global] Instance Z_ge_trans : Transitive Z.ge.
Proof. intros x y z. lia. Qed.

(** ** Pushing a suffix length up *)

Lemma yesde_push_suffix_unfold tn slen :
  yesde_push_suffix tn slen =
  (n <- deref tn ;;
   if kv_slen n <? slen then
     store tn (set_slen slen n) ;;;
     match tn with
     | [] => oops
     | _ :: tp => yesde_push_suffix tp slen
     end
   else ret tt).
Proof. by destruct tn. Qed.

Lemma store_slen_related (R : Z -> Z -> Prop) `{!Reflexive R} tn n s w u w' :
  get_yesde (kv w) tn = Some n -> R (kv_slen n) s ->
  store tn (set_slen s n) w = Some (u, w') ->
  slen_related R (kv w) (kv w') /\ kmem w' = kmem w.
Proof.
  intros Hn HR (r & Hs & ->)%store_Some. split; [| done].
  eapply slen_related_set; [done | done | | done].
  by apply slen_related_set_slen.
Qed.

Lemma yesde_push_suffix_inv tn slen w u w' :
  yesde_push_suffix tn slen w = Some (u, w') ->
  exists n, get_yesde (kv w) tn = Some n /\
    ((slen <= kv_slen n /\ w' = w) \/
     (kv_slen n < slen /\
      exists i tp r, tn = i :: tp /\
        set_yesde (kv w) tn (set_slen slen n) = Some r /\
        yesde_push_suffix tp slen (World (kmem w) r) = Some (u, w'))).
Proof.
  rewrite yesde_push_suffix_unfold. intros H.
  apply bind_Some in H as (n & w1 & [Hn <-]%deref_Some & H).
  exists n. split; [done |].
  destruct (Z.ltb_spec (kv_slen n) slen) as [Hlt|Hge].
  - right. split; [done |].
    apply bind_Some in H as ([] & w2 & (r & Hs & ->)%store_Some & H).
    destruct tn as [|i tp]; [by apply oops_Some in H |].
    by exists i, tp, r.
  - left. apply ret_Some in H as [_ <-]. done.
Qed.

(** Pushing only raises suffix lengths, and changes nothing else. *)
Lemma yesde_push_suffix_related tn slen w u w' :
  yesde_push_suffix tn slen w = Some (u, w') ->
  slen_related Z.le (kv w) (kv w') /\ kmem w' = kmem w.
Proof.
  revert w. induction tn as [|i tp IH]; intros w H;
    apply yesde_push_suffix_inv in H
      as (n & Hn & [[Hle ->] | (Hlt & j & tp' & r & Heq & Hs & H)]);
    try (split; [apply slen_related_refl; apply _ | done]); try done.
  injection Heq as <- <-.
  apply IH in H as [H1 H2]. simpl in H1, H2. split; [| done].
  eapply slen_related_trans; [apply _ | | exact H1].
  eapply slen_related_set; [apply _ | exact Hn | | exact Hs].
  apply slen_related_set_slen; [apply _ | lia].
Qed.



(** ** Recomputing a suffix length *)



(** ** Pulling a suffix length down *)

Lemma yesde_pull_suffix_unfold tn slen :
  yesde_pull_suffix tn slen =
  (n <- deref tn ;;
   let yesde_slen := kv_slen n in
   if (kv_pos n <? yesde_slen) && (slen <? yesde_slen) then
     r <- lift (update_suffix n) ;;
     let '(n', slen') := r in
     store tn n' ;;;
     if yesde_slen =? slen' then ret tt
     else match tn with
          | [] => oops
          | _ :: tp => yesde_pull_suffix tp slen'
          end
   else ret tt).
Proof. by destruct tn. Qed.


Lemma chain_covered_tail t i tp : chain_covered t (i :: tp) -> chain_covered t tp.
Proof.
  intros H q a n -> Hn. apply (H (i :: q) a n); done.
Qed.



(** * Well-formed tries *)

Lemma wf_children_spec (k p s : Z) (c : list (option key_vector)) (i : Z) :
  (fix go (i : Z) (c : list (option key_vector)) : bool :=
     match c with
     | [] => true
     | None :: c' => go (i + 1) c'
     | Some x :: c' => child_ok k p s i x && wf_yesde x && go (i + 1) c'
     end) i c = true <->
  forall (j : nat) x, c !! j = Some (Some x) ->
    child_ok k p s (i + Z.of_nat j) x = true /\ wf_yesde x = true.
Proof.
  revert i. induction c as [|o c IH]; intros i.
  - split; [intros _ j x H; done | done].
  - destruct o as [x|].
    + rewrite !andb_true_iff, IH. split.
      * intros [[H1 H2] H3] [|j] y Hj; simpl in Hj.
        -- simplify_eq. by rewrite Z.add_0_r.
        -- replace (i + Z.of_nat (S j)) with (i + 1 + Z.of_nat j) by lia.
           by apply H3.
      * intros H. split; [split |].
        -- specialize (H O x eq_refl). rewrite Z.add_0_r in H. tauto.
        -- by apply (H O x eq_refl).
        -- intros j y Hj.
           replace (i + 1 + Z.of_nat j) with (i + Z.of_nat (S j)) by lia.
           by apply H.
    + rewrite IH. split.
      * intros H [|j] y Hj; simpl in Hj; [done |].
        replace (i + Z.of_nat (S j)) with (i + 1 + Z.of_nat j) by lia.
        by apply H.
      * intros H j y Hj.
        replace (i + 1 + Z.of_nat j) with (i + Z.of_nat (S j)) by lia.
        by apply H.
Qed.

(** What [wf_yesde] says of an internal node. *)
Record wf_tyesde_fields (k p b s : Z) (c : list (option key_vector))
  : Prop := {
  wf_bits : 1 <= b;
  wf_pos : 0 <= p;
  wf_top : p + b <= KEYLENGTH;
  wf_key : 0 <= k < 2 ^ 32;
  wf_key_low : k mod 2 ^ (p + b) = 0;
  wf_length : Z.of_nat (length c) = 2 ^ b;
  wf_slen : p <= s <= KEYLENGTH
}.

Lemma wf_yesde_tyesde k p b s e f c :
  wf_yesde (Tyesde k p b s e f c) = true <->
  wf_tyesde_fields k p b s c /\
  forall i x, get_child (Tyesde k p b s e f c) i = Some x ->
    child_ok k p s i x = true /\ wf_yesde x = true.
Proof.
  simpl wf_yesde. rewrite !andb_true_iff, wf_children_spec.
  rewrite !Z.leb_le, !Z.ltb_lt, !Z.eqb_eq. split.
  - intros (((((((((H1 & H2) & H3) & H4) & H5) & H6) & H7) & H8) & H9) & Hc).
    split; [constructor; lia |].
    intros i x [Hi Hx]%get_child_Some. simpl in Hx.
    apply Hc in Hx. rewrite Z.add_0_l, Z2Nat.id in Hx by done. done.
  - intros [[Hb Hp Ht Hk Hkl Hl Hs] Hc]. split; [lia |].
    intros j x Hj. rewrite Z.add_0_l. apply Hc.
    rewrite get_child_of_nat. simpl. by rewrite Hj.
Qed.

(** What [wf_yesde] says of a leaf. *)
Lemma wf_yesde_leaf k s l :
  wf_yesde (Leaf k s l) = true <->
  0 <= k < 2 ^ 32 /\ s <= KEYLENGTH /\ l <> [] /\
  (forall fa, fa ∈ l ->
     0 <= fa_slen fa <= s /\ k mod 2 ^ fa_slen fa = 0) /\
  StronglySorted alias_order l.
Proof.
  simpl. rewrite !andb_true_iff, negb_true_iff, bool_decide_eq_false,
    bool_decide_eq_true, !Z.leb_le, !Z.ltb_lt, forallb_forall. split.
  - intros (((((H1 & H2) & H3) & H4) & H5) & H6).
    repeat split; try done.
    all: intros; apply list_elem_of_In, H5 in H;
      unfold alias_ok in H;
      rewrite !andb_true_iff, !Z.leb_le, Z.eqb_eq in H; tauto.
  - intros (H1 & H2 & H3 & H4 & H5). repeat split; try done; try lia.
    intros fa Hfa%list_elem_of_In. apply H4 in Hfa.
    unfold alias_ok. rewrite !andb_true_iff, !Z.leb_le, Z.eqb_eq. tauto.
Qed.

Lemma wf_yesde_slen n : wf_yesde n = true -> kv_slen n <= KEYLENGTH.
Proof.
  destruct n.
  - intros (_ & H & _)%wf_yesde_leaf. done.
  - intros [[] _]%wf_yesde_tyesde. simpl. lia.
Qed.

Lemma wf_yesde_pos_bits n :
  wf_yesde n = true ->
  0 <= kv_pos n /\ 0 <= kv_bits n /\ kv_pos n + kv_bits n <= KEYLENGTH.
Proof.
  destruct n.
  - intros _. simpl. unfold KEYLENGTH. lia.
  - intros [[] _]%wf_yesde_tyesde. simpl. lia.
Qed.

Lemma child_ok_spec k p s i x :
  child_ok k p s i x = true <->
  kv_pos x + kv_bits x <= p /\
  Z.shiftr (Z.lxor (kv_key x) k) p = i /\ kv_slen x <= s.
Proof.
  unfold child_ok. rewrite !andb_true_iff, !Z.leb_le, Z.eqb_eq. tauto.
Qed.

(** The root of a well-formed trie. *)
Lemma wf_trie_root t :
  wf_trie t = true ->
  exists e f c, t = Tyesde 0 32 0 32 e f [c] /\
                forall x, c = Some x -> wf_yesde x = true.
Proof.
  unfold wf_trie. intros H.
  destruct t as [|k p b s e f [|c [|]]]; try done.
  rewrite !andb_true_iff, !Z.eqb_eq in H.
  destruct H as ((((-> & ->) & ->) & ->) & H).
  exists e, f, c. split; [done |]. by intros x ->.
Qed.

Lemma wf_trie_empty : wf_trie trie_empty = true.
Proof. reflexivity. Qed.

(** Below the root of a well-formed trie every node is well formed, and
    [pos + bits] shrinks by at least one per level. *)
Lemma wf_trie_get t p n :
  wf_trie t = true -> get_yesde t p = Some n -> p <> [] ->
  wf_yesde n = true /\
  kv_pos n + kv_bits n <= KEYLENGTH + 1 - Z.of_nat (length p).
Proof.
  intros (e & f & c & -> & Hc)%wf_trie_root. revert n.
  induction p as [|i p IH]; intros n Hn Hp; [done |].
  rewrite get_yesde_cons in Hn.
  destruct (get_yesde _ p) as [m|] eqn:Hm; simpl in Hn; [| done].
  destruct p as [|j p].
  - simpl in Hm. injection Hm as <-.
    apply get_child_Some in Hn as [Hi Hn]. simpl in Hn.
    destruct (Z.to_nat i) as [|?]; simpl in Hn; [| done].
    injection Hn as ->. split; [by apply Hc |].
    pose proof (wf_yesde_pos_bits n (Hc _ eq_refl)). simpl. lia.
  - destruct (IH m eq_refl) as [Hwf Hd]; [done |].
    destruct m as [|k pm b s e' f' cm]; [by rewrite get_child_leaf in Hn |].
    apply wf_yesde_tyesde in Hwf as [[] Hch].
    destruct (Hch _ _ Hn) as [(H1 & _)%child_ok_spec Hx].
    split; [done |]. simpl in Hd. simpl length in *. lia.
Qed.


Lemma wf_yesde_covered n : wf_yesde n = true -> suffix_covered n.
Proof.
  intros Hwf. pose proof (wf_yesde_pos_bits n Hwf) as (H1 & H2 & H3).
  pose proof (wf_yesde_slen n Hwf) as H4.
  repeat split; try lia.
  intros i c Hc.
  destruct n as [|k p b s e f cs]; [by rewrite get_child_leaf in Hc |].
  apply wf_yesde_tyesde in Hwf as [_ Hch].
  destruct (Hch _ _ Hc) as [(_ & _ & H)%child_ok_spec _]. done.
Qed.

Lemma wf_trie_covered t p n :
  wf_trie t = true -> get_yesde t p = Some n -> suffix_covered n.
Proof.
  intros Hwf Hn. destruct p as [|i p].
  - simpl in Hn. injection Hn as <-.
    apply wf_trie_root in Hwf as (e & f & c & -> & Hc).
    repeat split; simpl; unfold KEYLENGTH; try lia.
    intros i x [Hi Hx]%get_child_Some. simpl in Hx.
    destruct (Z.to_nat i); simpl in Hx; [| done]. injection Hx as ->.
    apply (wf_yesde_slen x). by apply Hc.
  - apply wf_yesde_covered. by eapply (wf_trie_get t (i :: p)).
Qed.




(** * Suffix-length maintenance *)





(** * Inserting into an existing leaf *)

(** What [fib_find_yesde] returns as the leaf is a child of what it
    returns as [*tp]. *)
Lemma fib_find_yesde_loop_child fuel t n index key tp lp :
  fib_find_yesde_loop fuel t n index key = Some (tp, Some lp) ->
  exists i, lp = i :: tp.
Proof.
  revert n index. induction fuel as [|fuel IH]; intros n index; simpl;
    [done |].
  destruct (get_yesde t n) as [nn|]; [| done].
  destruct (get_child nn index) as [c|]; [| done].
  destruct (_ <=? _); [done |].
  destruct (IS_TNODE c); [apply IH |].
  intros [= <- <-]. eauto.
Qed.

Lemma fib_find_yesde_child t key tp lp :
  fib_find_yesde t key = Some (tp, Some lp) -> exists i, lp = i :: tp.
Proof. apply fib_find_yesde_loop_child. Qed.

(** The leaf behind [l] after [fib_insert_alias]: its list with [new]
    added, its key as before. *)
Lemma fib_insert_alias_leaf tp i new fa key w e w' k s l :
  get_yesde (kv w) (i :: tp) = Some (Leaf k s l) ->
  fib_insert_alias tp (Some (i :: tp)) new fa key w = Some (e, w') ->
  e = 0 /\
  exists s', get_yesde (kv w') (i :: tp)
             = Some (Leaf k s' (fib_insert_alias_list new fa l)).
Proof.
  intros Hl H. unfold fib_insert_alias in H.
  apply bind_Some in H as (ln & w0 & [Hln <-]%deref_Some & H).
  rewrite Hl in Hln. injection Hln as <-. simpl in H.
  apply bind_Some in H as ([] & w1 & (t1 & Hs1 & ->)%store_Some & H).
  pose proof (get_set_same _ _ _ _ _ Hl Hs1) as Hg1.
  apply bind_Some in H as ([] & w2 & H & [<- <-]%ret_Some).
  split; [done |].
  destruct (s <? fa_slen new).
  - apply bind_Some in H as ([] & w3 & (t2 & Hs2 & ->)%store_Some & H).
    simpl in Hs2.
    pose proof (get_set_same _ _ _ _ _ Hg1 Hs2) as Hg2.
    apply yesde_push_suffix_related in H as [Hr _]. simpl in Hr.
    pose proof (slen_related_get Z.le _ _ (i :: tp) Hr) as Hg.
    rewrite Hg2 in Hg. inversion Hg as [? n' Hn' |]; subst.
    apply slen_related_leaf in Hn' as (s' & -> & _). eauto.
  - apply ret_Some in H as [_ <-]. simpl. eauto.
Qed.

Lemma fib_insert_match_from_exit i l slen tb tos fi type j :
  fib_insert_match_from i l slen tb tos fi type = (None, Some j) ->
  (i <= j)%nat /\
  forall k, (i <= k < j)%nat ->
    exists fa, l !! (k - i)%nat = Some fa /\
               fa_slen fa = slen /\ tb_id fa = tb /\ fa_tos fa = tos /\
               fib_priority (fa_info fa) = fib_priority fi.
Proof.
  revert i. induction l as [|fa rest IH]; intros i; simpl; [done |].
  destruct (Z.eqb_spec (fa_slen fa) slen); simpl;
    [| intros [= <-]; split; [lia | intros; lia]].
  destruct (Z.eqb_spec (tb_id fa) tb); simpl;
    [| intros [= <-]; split; [lia | intros; lia]].
  destruct (Z.eqb_spec (fa_tos fa) tos); simpl;
    [| intros [= <-]; split; [lia | intros; lia]].
  destruct (Z.eqb_spec (fib_priority (fa_info fa)) (fib_priority fi)); simpl;
    [| intros [= <-]; split; [lia | intros; lia]].
  destruct (_ && _); [done |].
  intros [Hle Hk]%IH. split; [lia |].
  intros k Hik. destruct (decide (k = i)) as [->|Hne].
  - rewrite Nat.sub_diag. exists fa. done.
  - destruct (Hk k) as (fa' & Hfa' & Hp); [lia |].
    exists fa'. split; [| done].
    replace (k - i)%nat with (S (k - S i)) by lia. done.
Qed.

(** Entered at an alias that passes the tests of the loop, the loop is
    left behind it. *)
Lemma fib_insert_match_from_behind i fa rest slen tb tos fi type j :
  fa_slen fa = slen -> tb_id fa = tb -> fa_tos fa = tos ->
  fib_priority (fa_info fa) = fib_priority fi ->
  fib_insert_match_from i (fa :: rest) slen tb tos fi type = (None, Some j) ->
  (i < j)%nat.
Proof.
  intros Hs Ht Ho Hp. simpl. rewrite Hs, Ht, Ho, Hp, !Z.eqb_refl. simpl.
  destruct (_ && _); [done |].
  intros [H _]%fib_insert_match_from_exit. lia.
Qed.

Section insert_order.
Context (net : collaborators) (tb : fib_table) (cfg : fib_config).

Let slen := u8 (KEYLENGTH - fc_dst_len cfg).

(** The alias list after [fib_table_insert_new] on an existing leaf. *)
Lemma fib_table_insert_new_leaf fi tp i event fa w e tb' w' k s l :
  get_yesde (kv w) (i :: tp) = Some (Leaf k s l) ->
  fib_table_insert_new net tb cfg fi tp (Some (i :: tp)) event fa w
  = Some ((e, tb'), w') ->
  exists s' l', get_yesde (kv w') (i :: tp) = Some (Leaf k s' l') /\
    (l' = l \/
     exists new, fa_slen new = slen /\ tb_id new = tb_tb_id tb /\
                 l' = fib_insert_alias_list new fa l).
Proof.
  intros Hl. unfold fib_table_insert_new.
  destruct (negb (flag_set _ _)); intros H.
  { apply ret_Some in H as [_ <-]. eauto. }
  apply bind_Some in H as (ok & w1 & Hk & H).
  assert (Hl1 : get_yesde (kv w1) (i :: tp) = Some (Leaf k s l)).
  { by rewrite (kalloc_Some _ _ _ Hk). }
  destruct ok; cbn [negb] in H.
  2:{ apply ret_Some in H as [_ <-]. eauto. }
  destruct (negb (_ =? 0)).
  { apply ret_Some in H as [_ <-]. eauto. }
  apply bind_Some in H as (err & w2 & Hi & H).
  apply (fib_insert_alias_leaf _ _ _ _ _ _ _ _ _ _ _ Hl1) in Hi
    as [-> (s' & Hg)].
  simpl in H. apply ret_Some in H as [_ <-].
  eexists _, _. split; [exact Hg |]. right.
  eexists. split; [| split; [| reflexivity]]; reflexivity.
Qed.

(** C2, in the order the code keeps: a leaf's alias list is sorted by
    ascending suffix length (descending prefix length) and then by
    descending table id, and [fib_table_insert] into an existing leaf --
    whether it adds an alias through [fib_insert_alias] at the position
    it has computed, replaces one in place under [NLM_F_REPLACE], or
    fails -- leaves the list of that leaf sorted in this order. *)
Theorem insert_keeps_alias_order (w : world) (e : Z) (tb' : fib_table)
    (w' : world) (tp lp : ptr) (k s : Z) (l : list fib_alias) :
  fib_find_yesde (kv w) (fc_dst cfg) = Some (tp, Some lp) ->
  get_yesde (kv w) lp = Some (Leaf k s l) ->
  StronglySorted alias_before l ->
  fib_table_insert net tb cfg w = Some ((e, tb'), w') ->
  exists s' l', get_yesde (kv w') lp = Some (Leaf k s' l') /\
                StronglySorted alias_before l'.
Proof.
  intros Hfind Hl Hsorted.
  destruct (fib_find_yesde_child _ _ _ _ Hfind) as (i & ->).
  assert (Hnew : forall fi event fa w0 e tb' w',
    kv w0 = kv w ->
    (forall new, fa_slen new = slen -> tb_id new = tb_tb_id tb ->
       StronglySorted alias_before (fib_insert_alias_list new fa l)) ->
    fib_table_insert_new net tb cfg fi tp (Some (i :: tp)) event fa w0
    = Some ((e, tb'), w') ->
    exists s' l', get_yesde (kv w') (i :: tp) = Some (Leaf k s' l') /\
                  StronglySorted alias_before l').
  { intros fi event fa w0 e0 tb0 w0' Hw0 Hfa H.
    eapply fib_table_insert_new_leaf in H as (s' & l' & Hg & Hl');
      [| by rewrite Hw0].
    exists s', l'. split; [done |].
    destruct Hl' as [-> | (new & Hs & Ht & ->)]; [done | by apply Hfa]. }
  unfold fib_table_insert.
  destruct (negb (fib_valid_key_len _ _)); intros H.
  { apply ret_Some in H as [_ <-]. eauto. }
  destruct (fib_create_info net cfg) as [err|fi].
  { apply ret_Some in H as [_ <-]. eauto. }
  apply bind_Some in H as (t & w0 & [-> <-]%get_trie_Some & H).
  apply bind_Some in H as (found & w0 & [Hf <-]%lift_Some & H).
  rewrite Hfind in Hf. injection Hf as <-.
  apply bind_Some in H as (ln & w0 & [Hln <-]%deref_Some & H).
  rewrite Hl in Hln. injection Hln as <-. cbn [kv_leaf] in H.
  fold slen in H.
  destruct (fib_find_alias l slen (fc_tos cfg) (fib_priority fi)
              (tb_tb_id tb)) as [j|] eqn:Hfa.
  2:{ eapply Hnew; [done | | exact H].
      intros new _ _. by apply fib_insert_alias_scan_sorted. }
  destruct (fib_find_alias_section _ _ _ _ _ _ Hfa)
    as (fa_first & Hj & Hfs & Hft).
  apply bind_Some in H as (fa1 & w0 & [Hf <-]%lift_Some & H).
  rewrite Hj in Hf. injection Hf as <-.
  assert (Hbefore : forall new, fa_slen new = slen ->
            tb_id new = tb_tb_id tb ->
            StronglySorted alias_before
              (fib_insert_alias_list new (Some j) l)).
  { intros new Hs Ht. eapply sorted_add_before_same; [done | done |].
    split; congruence. }
  destruct (_ && _) eqn:Hsame; [| eapply Hnew; [done | done | exact H]].
  destruct (flag_set (fc_nlflags cfg) NLM_F_EXCL).
  { apply ret_Some in H as [_ <-]. eauto. }
  destruct (fib_insert_match_from _ _ _ _ _ _ _) as [fa_match fa_exit]
    eqn:Hmatch.
  destruct (flag_set (fc_nlflags cfg) NLM_F_REPLACE).
  - (* replace in place *)
    unfold fib_table_insert_replace in H.
    destruct fa_match as [m|].
    { apply ret_Some in H as [_ <-]. eauto. }
    apply bind_Some in H as (ok & w1 & Hk & H).
    assert (Hl1 : get_yesde (kv w1) (i :: tp) = Some (Leaf k s l)).
    { by rewrite (kalloc_Some _ _ _ Hk). }
    destruct ok; simpl in H.
    2:{ apply ret_Some in H as [_ <-]. eauto. }
    destruct (negb (_ =? 0)).
    { apply ret_Some in H as [_ <-]. eauto. }
    apply bind_Some in H as (ln & w2 & [Hln <-]%deref_Some & H).
    rewrite Hl1 in Hln. injection Hln as <-.
    apply bind_Some in H as ([] & w2 & (t2 & Hs2 & ->)%store_Some & H).
    apply ret_Some in H as [_ <-].
    eexists _, _. split; [by eapply get_set_same |].
    simpl. eapply sorted_hlist_replace; [done | done |].
    split; simpl; congruence.
  - destruct fa_match as [m|].
    { apply ret_Some in H as [_ <-]. eauto. }
    destruct (flag_set (fc_nlflags cfg) NLM_F_APPEND);
      [| eapply Hnew; [done | done | exact H]].
    (* append: behind the aliases with the same tos and priority *)
    eapply Hnew; [done | | exact H].
    intros new Hs Ht. destruct fa_exit as [x|];
      [| by apply fib_insert_alias_scan_sorted].
    apply andb_true_iff in Hsame as [Ht1%Z.eqb_eq Hp1%Z.eqb_eq].
    rewrite (drop_S _ _ _ Hj) in Hmatch.
    pose proof (fib_insert_match_from_behind _ _ _ _ _ _ _ _ _
                  Hfs Hft Ht1 Hp1 Hmatch) as Hx.
    apply fib_insert_match_from_exit in Hmatch as [_ Hk].
    destruct (Hk (x - 1)%nat) as (fa & Hfa' & Hs' & Ht' & _); [lia |].
    rewrite <- (drop_S _ _ _ Hj), lookup_drop in Hfa'.
    replace (j + (x - 1 - j))%nat with (x - 1)%nat in Hfa' by lia.
    simpl. replace x with (S (x - 1)) by lia.
    eapply sorted_add_behind_same; [done | exact Hfa' |].
    split; congruence.
Qed.
End insert_order.

(** 10.0.0.0/24, then 10.0.0.0/8 into the same leaf. *)
Definition example_same_key : list request :=
  [Insert 254 (example_route (ipv4 10 0 0 0) 24 0 1 NLM_F_CREATE)].

Lemma insert_keeps_alias_order_witness :
  exists w' s' l',
    fib_table_insert example_net (example_table 254)
      (example_route (ipv4 10 0 0 0) 8 0 1 NLM_F_CREATE)
      (world_after example_same_key)
    = Some ((0, example_table 254), w') /\
    get_yesde (kv w') [0] = Some (Leaf (ipv4 10 0 0 0) s' l') /\
    StronglySorted alias_before l'.
Proof.
  set (w := world_after example_same_key).
  set (cfg := example_route (ipv4 10 0 0 0) 8 0 1 NLM_F_CREATE).
  assert (Hfind : fib_find_yesde (kv w) (fc_dst cfg) = Some ([], Some [0]))
    by (vm_compute; reflexivity).
  assert (Hl : exists a, get_yesde (kv w) [0]
                         = Some (Leaf (ipv4 10 0 0 0) 8 [a]))
    by (vm_compute; eexists; reflexivity).
  assert (Hi : exists w', fib_table_insert example_net (example_table 254)
                            cfg w = Some ((0, example_table 254), w'))
    by (vm_compute; eexists; reflexivity).
  clearbody w. destruct Hl as [a Hl]. destruct Hi as [w' Hi].
  destruct (insert_keeps_alias_order example_net (example_table 254) cfg
              w 0 (example_table 254) w' [] [0] (ipv4 10 0 0 0) 8 [a]
              Hfind Hl) as (s' & l' & Hg & Hs).
  - constructor; constructor.
  - exact Hi.
  - exists w', s', l'. split; [exact Hi |]. split; [exact Hg | exact Hs].
Defined.

(** C2 as stated fails: 10.0.0.0/8 added to the leaf that holds
    10.0.0.0/24 goes behind it, so the list reads suffix length 8, then
    24 -- ascending, not descending. *)
Lemma descending_order_counterexample :
  exists a w' b c s',
    get_yesde (kv (world_after example_same_key)) [0]
    = Some (Leaf (ipv4 10 0 0 0) 8 [a]) /\
    StronglySorted alias_before_descending [a] /\
    fib_table_insert example_net (example_table 254)
      (example_route (ipv4 10 0 0 0) 8 0 1 NLM_F_CREATE)
      (world_after example_same_key)
    = Some ((0, example_table 254), w') /\
    get_yesde (kv w') [0] = Some (Leaf (ipv4 10 0 0 0) s' [b; c]) /\
    fa_slen b = 8 /\ fa_slen c = 24 /\
    ~ StronglySorted alias_before_descending [b; c].
Proof.
  set (w := world_after example_same_key).
  set (cfg := example_route (ipv4 10 0 0 0) 8 0 1 NLM_F_CREATE).
  assert (Hl : exists a, get_yesde (kv w) [0]
                         = Some (Leaf (ipv4 10 0 0 0) 8 [a]))
    by (vm_compute; eexists; reflexivity).
  assert (Hi : exists w' b c s',
            fib_table_insert example_net (example_table 254) cfg w
            = Some ((0, example_table 254), w') /\
            get_yesde (kv w') [0] = Some (Leaf (ipv4 10 0 0 0) s' [b; c]) /\
            fa_slen b = 8 /\ fa_slen c = 24).
  { vm_compute. eexists _, _, _, _.
    split; [reflexivity |]. split; [reflexivity |]. split; reflexivity. }
  clearbody w cfg. destruct Hl as [a Hl].
  destruct Hi as (w' & b & c & s' & Hi & Hg & Hb & Hc).
  exists a, w', b, c, s'. repeat (split; [done || (repeat constructor) |]).
  intros [_ Hall]%StronglySorted_inv.
  apply Forall_cons in Hall as [Hbc _].
  unfold alias_before_descending in Hbc. lia.
Qed.


(** * Inserting a route that is there *)

(** What identifies a route within its leaf: suffix length, table, tos
    and priority. *)
Definition alias_route (fa : fib_alias) : Z * Z * Z * Z :=
  (fa_slen fa, tb_id fa, fa_tos fa, fib_priority (fa_info fa)).

Lemma bind_eq {A B} (m : M A) (k : A -> M B) w a w' :
  m w = Some (a, w') -> bind m k w = k a w'.
Proof. unfold bind. by intros ->. Qed.

Lemma get_trie_eq w : get_trie w = Some (kv w, w).
Proof. done. Qed.

Lemma lift_eq {A} (o : option A) (a : A) w :
  o = Some a -> lift o w = Some (a, w).
Proof. by intros ->. Qed.

Lemma deref_eq p n w : get_yesde (kv w) p = Some n -> deref p w = Some (n, w).
Proof. intros H. by apply deref_Some. Qed.

Lemma store_eq p n r w :
  set_yesde (kv w) p n = Some r -> store p n w = Some (tt, World (kmem w) r).
Proof. intros H. apply store_Some. eauto. Qed.

(** Run the first action of the program in the goal, [H] saying what it
    returns. *)
Ltac bind_step H :=
  match goal with
  | |- context [bind ?m ?k ?w] => rewrite (bind_eq m k w _ _ H)
  end.

(** In a list in the order of [alias_order], [fib_find_alias] finds an
    alias of the route asked for when there is one. *)
Lemma fib_find_alias_from_finds j l slen tos prio tb a :
  StronglySorted alias_order l -> a ∈ l ->
  alias_route a = (slen, tb, tos, prio) ->
  exists i fa, fib_find_alias_from j l slen tos prio tb = Some i /\
               (j <= i)%nat /\ l !! (i - j)%nat = Some fa /\
               alias_route fa = (slen, tb, tos, prio).
Proof.
  intros Hs Ha Hr. revert j.
  induction Hs as [|fa rest Hs IH Hall]; intros j; [by inversion Ha |].
  assert (Hfa : alias_order fa a).
  { apply elem_of_cons in Ha as [-> | Hin].
    - unfold alias_order. lia.
    - by eapply Forall_forall in Hall. }
  assert (Hstep :
    (fib_find_alias_from j (fa :: rest) slen tos prio tb = Some j /\
     alias_route fa = (slen, tb, tos, prio)) \/
    (fib_find_alias_from j (fa :: rest) slen tos prio tb
     = fib_find_alias_from (S j) rest slen tos prio tb /\
     alias_route fa <> (slen, tb, tos, prio))).
  { injection Hr as Hslen Htb Htos Hprio.
    unfold alias_order in Hfa. unfold alias_route. simpl.
    destruct (Z.ltb_spec (fa_slen fa) slen);
      [right; split; [done | intros [=]; lia] |].
    destruct (Z.eqb_spec (fa_slen fa) slen); [| lia]. simpl.
    destruct (Z.ltb_spec tb (tb_id fa));
      [right; split; [done | intros [=]; lia] |].
    destruct (Z.eqb_spec (tb_id fa) tb); [| lia]. simpl.
    destruct (Z.ltb_spec tos (fa_tos fa));
      [right; split; [done | intros [=]; lia] |].
    destruct (Z.leb_spec prio (fib_priority (fa_info fa))); simpl.
    - left. split; [done |]. f_equal; [f_equal; [f_equal |] |]; lia.
    - destruct (Z.ltb_spec (fa_tos fa) tos); [lia |].
      right. split; [done | intros [=]; lia]. }
  destruct Hstep as [[Hj Hrfa] | [Hj Hne]].
  - exists j, fa. rewrite Nat.sub_diag. done.
  - apply elem_of_cons in Ha as [-> | Hin]; [done |].
    destruct (IH Hin (S j)) as (i & fa0 & Hi & Hle & Hl & Hr0).
    exists i, fa0. split; [congruence |]. split; [lia |]. split; [| done].
    replace (i - j)%nat with (S (i - S j)) by lia. done.
Qed.

Lemma fib_find_alias_finds l slen tos prio tb a :
  StronglySorted alias_order l -> a ∈ l ->
  alias_route a = (slen, tb, tos, prio) ->
  exists i fa, fib_find_alias l slen tos prio tb = Some i /\
               l !! i = Some fa /\ alias_route fa = (slen, tb, tos, prio).
Proof.
  intros Hs Ha Hr.
  destruct (fib_find_alias_from_finds 0 _ _ _ _ _ _ Hs Ha Hr)
    as (i & fa & H & _ & Hl & Hfa).
  rewrite Nat.sub_0_r in Hl. eauto.
Qed.

(** The loop of [fib_table_insert] entered at an alias with the type and
    the info of the request ends there. *)
Lemma fib_insert_match_from_first i fa rest slen tb tos fi type :
  alias_route fa = (slen, tb, tos, fib_priority fi) ->
  fa_type fa = type -> fa_info fa = fi ->
  fib_insert_match_from i (fa :: rest) slen tb tos fi type
  = (Some i, Some i).
Proof.
  intros [= Hs Ht Ho Hp] Hy Hi. simpl.
  rewrite Hs, Ht, Ho, Hp, Hy, !Z.eqb_refl. simpl.
  by rewrite bool_decide_eq_true_2.
Qed.

Lemma map_hlist_replace_route i new fa l :
  l !! i = Some fa -> alias_route new = alias_route fa ->
  map alias_route (hlist_replace i new l) = map alias_route l.
Proof.
  intros Hi Hr. unfold hlist_replace.
  change (map alias_route) with (fmap (M := list) alias_route).
  rewrite list_fmap_insert, Hr. apply list_insert_id.
  by rewrite list_lookup_fmap, Hi.
Qed.

(** A match of [fib_insert_match_from] lies at or behind the position
    the loop is entered at; a match at that position is the alias
    there. *)
Lemma fib_insert_match_from_ge i l slen tb tos fi type m x :
  fib_insert_match_from i l slen tb tos fi type = (Some m, x) ->
  (i <= m)%nat.
Proof.
  revert i. induction l as [|fa rest IH]; intros i; simpl; [done |].
  destruct (negb (fa_slen fa =? slen) || negb (tb_id fa =? tb)
            || negb (fa_tos fa =? tos)); [done |].
  destruct (negb (fib_priority (fa_info fa) =? fib_priority fi)); [done |].
  destruct ((fa_type fa =? type) && bool_decide (fa_info fa = fi)).
  - intros [= <- _]. lia.
  - intros H%IH. lia.
Qed.

Lemma fib_insert_match_from_head i fa rest slen tb tos fi type x :
  fib_insert_match_from i (fa :: rest) slen tb tos fi type = (Some i, x) ->
  fa_type fa = type /\ fa_info fa = fi.
Proof.
  simpl.
  destruct (negb (fa_slen fa =? slen) || negb (tb_id fa =? tb)
            || negb (fa_tos fa =? tos)); [done |].
  destruct (negb (fib_priority (fa_info fa) =? fib_priority fi)); [done |].
  destruct (Z.eqb_spec (fa_type fa) type) as [Ht|]; simpl.
  - destruct (bool_decide_reflect (fa_info fa = fi)) as [Hi|]; [done |].
    intros H%fib_insert_match_from_ge. lia.
  - intros H%fib_insert_match_from_ge. lia.
Qed.

Section replace.
Context (net : collaborators) (tb : fib_table) (cfg : fib_config).
Context (fi : fib_info).

(** The route of the request. *)
Let route : Z * Z * Z * Z :=
  (u8 (KEYLENGTH - fc_dst_len cfg), tb_tb_id tb, fc_tos cfg,
   fib_priority fi).

(** The alias that the branch under [NLM_F_REPLACE] puts in the place of
    [old]: the info and the type of the request, the tos and the suffix
    length of [old], and its state less [FA_S_ACCESSED]. *)
Definition replacing_alias (old : fib_alias) : fib_alias :=
  {| fa_info := fi; fa_tos := fa_tos old; fa_type := fc_type cfg;
     fa_state := Z.land (fa_state old) (Z.lnot FA_S_ACCESSED);
     fa_slen := fa_slen old; tb_id := tb_tb_id tb; fa_default := -1 |}.

(** C7: when the leaf of the key holds an alias of the route -- as it
    does after a first insert -- inserting the route again under
    [NLM_F_REPLACE] returns, and leaves in the leaf a list of the same
    routes at the same positions: no second entry is added, so exactly
    one alias of the route stays exactly one.  When the insert returns
    0, the first alias of the route, at position [i], has been replaced
    in place: the list is the old one with an alias at [i] that carries
    the info and the type of the request -- the alias built from the
    request, or the old alias itself, nothing being written, when it
    carried them already.  When it returns an error, the trie and the
    list are as they were. *)
Theorem replace_insert_idempotent (w : world) (tp lp : ptr) (k s : Z)
    (l : list fib_alias) (a : fib_alias) :
  flag_set (fc_nlflags cfg) NLM_F_REPLACE = true ->
  flag_set (fc_nlflags cfg) NLM_F_EXCL = false ->
  fib_valid_key_len (fc_dst cfg) (fc_dst_len cfg) = true ->
  fib_create_info net cfg = inr fi ->
  fib_find_yesde (kv w) (fc_dst cfg) = Some (tp, Some lp) ->
  get_yesde (kv w) lp = Some (Leaf k s l) ->
  StronglySorted alias_order l ->
  a ∈ l -> alias_route a = route ->
  exists e w' l' i old,
    fib_table_insert net tb cfg w = Some ((e, tb), w') /\
    get_yesde (kv w') lp = Some (Leaf k s l') /\
    map alias_route l' = map alias_route l /\
    length l' = length l /\
    fib_find_alias l (u8 (KEYLENGTH - fc_dst_len cfg)) (fc_tos cfg)
      (fib_priority fi) (tb_tb_id tb) = Some i /\
    l !! i = Some old /\ alias_route old = route /\
    (e = 0 ->
     exists new,
       l' = <[i := new]> l /\ alias_route new = route /\
       fa_info new = fi /\ fa_type new = fc_type cfg /\
       ((new = old /\ w' = w) \/ new = replacing_alias old)) /\
    (e <> 0 -> kv w' = kv w /\ l' = l) /\
    ((forall b, b ∈ l -> alias_route b = route -> b = a) ->
     fa_type a = fc_type cfg -> fa_info a = fi ->
     e = 0 /\ w' = w).
Proof.
  intros Hrepl Hexcl Hvalid Hcreate Hfind Hl Hs Ha Hr.
  destruct (fib_find_alias_finds _ _ _ _ _ _ Hs Ha Hr)
    as (i & fa_first & Hfa & Hi & Hrf).
  pose proof Hrf as [= Hfs Hft Hfo Hfp].
  unfold fib_table_insert. rewrite Hvalid, Hcreate. cbn [negb].
  bind_step (get_trie_eq w). bind_step (lift_eq _ _ w Hfind).
  bind_step (deref_eq _ _ _ Hl). cbn [kv_leaf]. rewrite Hfa.
  bind_step (lift_eq _ _ w Hi).
  rewrite Hfo, Hfp, !Z.eqb_refl, Hexcl. cbn [andb].
  rewrite (drop_S _ _ _ Hi).
  destruct (fib_insert_match_from _ _ _ _ _ _ _) as [fa_match fa_exit]
    eqn:Hmatch.
  rewrite Hrepl. unfold fib_table_insert_replace.
  destruct fa_match as [m|].
  { (* an alias with the type and the info of the request is there *)
    eexists _, w, l, i, fa_first. split; [reflexivity |]. split; [done |].
    split; [done |]. split; [done |]. split; [done |]. split; [done |].
    split; [done |].
    split; [| split].
    - destruct (Nat.eqb_spec i m) as [<-|]; [| done]. intros _.
      destruct (fib_insert_match_from_head _ _ _ _ _ _ _ _ _ Hmatch)
        as [Hty Hinfo].
      exists fa_first. split; [by rewrite list_insert_id |].
      split; [done |]. split; [done |]. split; [done |]. by left.
    - done.
    - intros Huniq Hty Hinfo.
      assert (fa_first = a) as ->
        by (apply Huniq; [by eapply list_elem_of_lookup_2 | done]).
      rewrite fib_insert_match_from_first in Hmatch by done.
      injection Hmatch as <- _. by rewrite Nat.eqb_refl. }
  destruct (kalloc_total w) as (ok & w1 & Hk).
  bind_step Hk.
  pose proof (kalloc_Some _ _ _ Hk) as Hkv1.
  assert (Hl1 : get_yesde (kv w1) lp = Some (Leaf k s l)).
  { by rewrite Hkv1. }
  assert (Hsame : (forall b, b ∈ l -> alias_route b = route -> b = a) ->
                  fa_type a = fc_type cfg -> fa_info a = fi -> False).
  { intros Huniq Hty Hinfo.
    assert (fa_first = a) as ->
      by (apply Huniq; [by eapply list_elem_of_lookup_2 | done]).
    rewrite fib_insert_match_from_first in Hmatch by done. done. }
  destruct ok; cbn [negb].
  2:{ eexists _, w1, l, i, fa_first. split; [reflexivity |].
      split; [done |]. split; [done |]. split; [done |]. split; [done |].
      split; [done |]. split; [done |].
      split; [| split].
      - unfold ENOBUFS. intros [=].
      - done.
      - intros. exfalso. by eapply Hsame. }
  fold (replacing_alias fa_first).
  destruct (Z.eqb_spec (call_fib_entry_yestifiers net FIB_EVENT_ENTRY_REPLACE
                          (fc_dst cfg) (fc_dst_len cfg)
                          (replacing_alias fa_first)) 0) as [_|Herr];
    cbn [negb].
  2:{ eexists _, w1, l, i, fa_first. split; [reflexivity |].
      split; [done |]. split; [done |]. split; [done |]. split; [done |].
      split; [done |]. split; [done |].
      split; [| split].
      - done.
      - done.
      - intros. exfalso. by eapply Hsame. }
  bind_step (deref_eq _ _ _ Hl1). cbn [kv_leaf].
  destruct (set_yesde_valid _ _ _ (set_leaf (hlist_replace i
     (replacing_alias fa_first) l) (Leaf k s l)) Hl1) as (t2 & Hs2).
  destruct Hs2 as [Hs2 Hg2]. bind_step (store_eq _ _ _ _ Hs2).
  eexists _, _, _, i, fa_first. split; [reflexivity |].
  split; [exact Hg2 |].
  assert (Hroute : alias_route (replacing_alias fa_first) = route).
  { transitivity (alias_route fa_first); [| done].
    unfold alias_route, replacing_alias. simpl. congruence. }
  split; [| split; [| split; [| split; [| split; [| split; [| split]]]]]].
  - eapply map_hlist_replace_route; [done |]. by rewrite Hroute.
  - unfold hlist_replace. apply length_insert.
  - done.
  - done.
  - done.
  - intros _. exists (replacing_alias fa_first).
    split; [done |]. split; [done |]. split; [done |]. split; [done |].
    by right.
  - done.
  - intros. exfalso. by eapply Hsame.
Qed.
End replace.

(** 10.0.0.0/8 asked for twice with [NLM_F_REPLACE | NLM_F_CREATE], the
    second time with another type. *)
Definition example_replace : fib_config :=
  example_route (ipv4 10 0 0 0) 8 0 1 (NLM_F_REPLACE + NLM_F_CREATE).

Definition example_replace_type : fib_config :=
  {| fc_dst := ipv4 10 0 0 0; fc_dst_len := 8; fc_tos := 0; fc_type := 2;
     fc_scope := 0; fc_prefsrc := 0; fc_protocol := 0;
     fc_nlflags := NLM_F_REPLACE + NLM_F_CREATE; fc_rest := 1 |}.

Lemma replace_insert_idempotent_witness :
  exists w' new,
    fib_table_insert example_net (example_table 254) example_replace_type
      (world_after [Insert 254 example_replace])
    = Some ((0, example_table 254), w') /\
    get_yesde (kv w') [0] = Some (Leaf (ipv4 10 0 0 0) 24 [new]) /\
    fa_info new = example_fi 1 /\ fa_type new = 2.
Proof.
  set (w := world_after [Insert 254 example_replace]).
  pose (a := {| fa_info := example_fi 1; fa_tos := 0; fa_type := 1;
                fa_state := 0; fa_slen := 24; tb_id := 254;
                fa_default := -1 |}).
  assert (Hfind : fib_find_yesde (kv w) (fc_dst example_replace_type)
                  = Some ([], Some [0])) by (vm_compute; reflexivity).
  assert (Hl : get_yesde (kv w) [0] = Some (Leaf (ipv4 10 0 0 0) 24 [a]))
    by (vm_compute; reflexivity).
  assert (Hrun : exists w1,
            fib_table_insert example_net (example_table 254)
              example_replace_type w
            = Some ((0, example_table 254), w1))
    by (vm_compute; eexists; reflexivity).
  clearbody w. destruct Hrun as (w1 & Hrun).
  destruct (replace_insert_idempotent example_net (example_table 254)
              example_replace_type (example_fi 1) w [] [0] (ipv4 10 0 0 0) 24
              [a] a)
    as (e & w' & l' & i & old & Hi & Hg & _ & _ & _ & Hold & _ & Hok & _);
    try reflexivity; try done.
  - constructor; constructor.
  - left.
  - rewrite Hrun in Hi. injection Hi as <- <-.
    destruct (Hok eq_refl) as (new & -> & _ & Hinfo & Htype & _).
    destruct i as [|i]; [| discriminate Hold].
    exists w1, new. split; [exact Hrun |]. split; [exact Hg |].
    split; [exact Hinfo | exact Htype].
Defined.



(** * Keys that agree above a bit position *)

Lemma shiftr_zero_mono x m m' :
  Z.shiftr x m = 0 -> 0 <= m <= m' -> Z.shiftr x m' = 0.
Proof.
  intros H Hm. replace m' with (m + (m' - m)) by lia.
  rewrite <- Z.shiftr_shiftr by lia. rewrite H. apply Z.shiftr_0_l.
Qed.

Lemma lxor_split a b c : Z.lxor a c = Z.lxor (Z.lxor a b) (Z.lxor b c).
Proof.
  rewrite Z.lxor_assoc, <- (Z.lxor_assoc b b c), Z.lxor_nilpotent.
  by rewrite Z.lxor_0_l.
Qed.

(** Keys that agree above [m] select the same slot at every position
    from [m] on. *)
Lemma shiftr_lxor_agree a b c m p :
  Z.shiftr (Z.lxor a b) m = 0 -> 0 <= m <= p ->
  Z.shiftr (Z.lxor a c) p = Z.shiftr (Z.lxor b c) p.
Proof.
  intros H Hm. rewrite (lxor_split a b c), Z.shiftr_lxor.
  rewrite (shiftr_zero_mono _ m p) by done. apply Z.lxor_0_l.
Qed.

(** An index below [2 ^ b] at position [p] leaves nothing above
    [p + b]. *)
Lemma shiftr_index_zero x p b :
  0 <= Z.shiftr x p < 2 ^ b -> 0 <= p -> 0 <= b -> Z.shiftr x (p + b) = 0.
Proof.
  intros Hi Hp Hb. rewrite <- Z.shiftr_shiftr by done.
  rewrite Z.shiftr_div_pow2 by done. apply Z.div_small. done.
Qed.

Lemma shiftr_index_small x p b :
  0 <= x -> Z.shiftr x (p + b) = 0 -> 0 <= p -> 0 <= b ->
  0 <= Z.shiftr x p < 2 ^ b.
Proof.
  intros Hx H Hp Hb. rewrite <- Z.shiftr_shiftr in H by done.
  assert (0 <= Z.shiftr x p) by by apply Z.shiftr_nonneg.
  rewrite (Z.shiftr_div_pow2 _ b) in H by done.
  split; [done |].
  apply Z.div_small_iff in H as [H | H]; [lia | | ].
  - pose proof (pow2_pos b Hb). lia.
  - pose proof (pow2_pos b Hb). lia.
Qed.

Lemma lxor_nonneg_2 a b : 0 <= a -> 0 <= b -> 0 <= Z.lxor a b.
Proof. intros. by apply Z.lxor_nonneg. Qed.

Lemma get_cindex_nonneg key n :
  0 <= key -> 0 <= kv_key n -> 0 <= get_cindex key n.
Proof.
  intros. unfold get_cindex. apply Z.shiftr_nonneg. by apply lxor_nonneg_2.
Qed.


(** * Finding the leaf of a key *)

Lemma get_index_cindex key n : get_index key n = get_cindex key n.
Proof. reflexivity. Qed.

Lemma height_child n i c : get_child n i = Some c -> (height c < height n)%nat.
Proof.
  intros [Hi Hc]%get_child_Some.
  destruct n as [|k p b s e f cs]; [done |]. simpl in *.
  revert Hc. generalize (Z.to_nat i). clear.
  induction cs as [|o cs IH]; intros j Hj; [done |].
  destruct j as [|j]; simpl in *.
  - injection Hj as ->. lia.
  - specialize (IH _ Hj). lia.
Qed.

Lemma get_child_bound k p b s e f cs i x :
  Z.of_nat (length cs) = 2 ^ b ->
  get_child (Tyesde k p b s e f cs) i = Some x -> 0 <= i < 2 ^ b.
Proof.
  intros Hlen [Hi Hx]%get_child_Some. simpl in Hx.
  apply lookup_lt_Some in Hx. lia.
Qed.

(** Below a well-formed node: every descendant is well formed, lies
    below the position of the node, and its key selects in the node the
    slot it hangs under. *)
Lemma wf_yesde_below c q x :
  wf_yesde c = true -> get_yesde c q = Some x -> q <> [] ->
  wf_yesde x = true /\ kv_pos x + kv_bits x <= kv_pos c /\
  exists j q', q = q' ++ [j] /\ 0 <= j < 2 ^ kv_bits c /\
               Z.shiftr (Z.lxor (kv_key x) (kv_key c)) (kv_pos c) = j.
Proof.
  intros Hc. revert x. induction q as [|i q0 IH]; intros x Hx Hq; [done |].
  rewrite get_yesde_cons in Hx.
  destruct (get_yesde c q0) as [m|] eqn:Hm; simpl in Hx; [| done].
  destruct (decide (q0 = [])) as [-> | Hq0].
  - simpl in Hm. injection Hm as <-.
    destruct c as [|k p b s e f cs]; [by rewrite get_child_leaf in Hx |].
    apply wf_yesde_tyesde in Hc as [[] Hch].
    destruct (Hch _ _ Hx) as [(H1 & H2 & _)%child_ok_spec Hwx].
    split; [done |]. split; [done |]. exists i, []. split; [done |].
    split; [by eapply get_child_bound | done].
  - destruct (IH m eq_refl Hq0) as (Hwm & Hpm & j & q' & -> & Hj & Hkey).
    destruct m as [|k p b s e f cs]; [by rewrite get_child_leaf in Hx |].
    pose proof Hwm as [[Hb1 Hp1 Ht1 Hk1 Hkl1 Hlen1 Hs1] Hch]%wf_yesde_tyesde.
    destruct (Hch _ _ Hx) as [(H1 & H2 & _)%child_ok_spec Hwx].
    pose proof (get_child_bound _ _ _ _ _ _ _ _ _ Hlen1 Hx) as Hi.
    simpl in *. split; [done |]. split; [lia |].
    exists j, (i :: q'). split; [done |]. split; [done |].
    rewrite <- Hkey. apply (shiftr_lxor_agree _ _ _ (p + b)); [| lia].
    apply shiftr_index_zero; lia.
Qed.

(** A leaf has nothing below it. *)
Lemma get_yesde_leaf k s l q x :
  get_yesde (Leaf k s l) q = Some x -> q = [].
Proof.
  revert x. induction q as [|i q IH]; intros x; [done |].
  rewrite get_yesde_cons.
  destruct (get_yesde _ q) as [m|] eqn:Hm; simpl; [| done].
  rewrite (IH m eq_refl) in Hm. injection Hm as <-.
  by rewrite get_child_leaf.
Qed.

Lemma wf_yesde_key n : wf_yesde n = true -> 0 <= kv_key n < 2 ^ 32.
Proof.
  destruct n.
  - intros (H & _)%wf_yesde_leaf. done.
  - intros [[] _]%wf_yesde_tyesde. done.
Qed.

Lemma wf_yesde_is_leaf n :
  wf_yesde n = true -> IS_TNODE n = false ->
  exists s l, n = Leaf (kv_key n) s l.
Proof.
  destruct n; [eauto |].
  intros [[] _]%wf_yesde_tyesde. unfold IS_TNODE. simpl.
  intros H%negb_false_iff%Z.eqb_eq. lia.
Qed.

(** The loop of [fib_find_yesde], entered at a node on the search path
    with the slot of the key, when every leaf of the key hangs under
    that slot. *)
Lemma fib_find_yesde_loop_spec t key :
  wf_trie t = true -> 0 <= key < 2 ^ 32 ->
  forall fuel n index nn,
    get_yesde t n = Some nn -> index = get_index key nn ->
    (height nn < fuel)%nat -> on_path t key n ->
    (forall p s l, get_yesde t p = Some (Leaf key s l) ->
                   exists q', p = q' ++ index :: n) ->
    exists tp r,
      fib_find_yesde_loop fuel t n index key = Some (tp, r) /\
      (forall lp, r = Some lp ->
         exists i s l, lp = i :: tp /\
                       get_yesde t lp = Some (Leaf key s l)) /\
      (forall p s l, get_yesde t p = Some (Leaf key s l) -> r = Some p) /\
      on_path t key tp /\ (forall j, ~ on_path t key (j :: tp)).
Proof.
  intros Hwf Hkey. induction fuel as [|fuel IH];
    intros n index nn Hn Hindex Hfuel Hpath Hleaves; [lia |].
  cbn [fib_find_yesde_loop]. rewrite get_yesde_cons, Hn. simpl.
  destruct (get_child nn index) as [c|] eqn:Hc.
  2:{ (* an empty slot *)
    exists n, None. split; [done |]. split; [done |]. split; [| split].
    - intros p s l Hp. destruct (Hleaves _ _ _ Hp) as (q' & ->).
      rewrite get_yesde_app, get_yesde_cons, Hn in Hp. simpl in Hp.
      by rewrite Hc in Hp.
    - done.
    - intros j (_ & nq & n' & Hnq & -> & Hn' & _).
      rewrite Hn in Hnq. injection Hnq as <-. congruence. }
  assert (Hgc : get_yesde t (index :: n) = Some c).
  { by rewrite get_yesde_cons, Hn. }
  destruct (wf_trie_get t (index :: n) c Hwf Hgc) as [Hwc _]; [done |].
  pose proof (wf_yesde_key c Hwc) as Hck.
  pose proof (wf_yesde_pos_bits c Hwc) as (Hp0 & Hb0 & _).
  assert (Hbelow : forall q' s l, q' <> [] ->
            get_yesde c q' = Some (Leaf key s l) ->
            exists q'', q' = q'' ++ [get_cindex key c] /\
                        get_cindex key c < 2 ^ kv_bits c).
  { intros q' s l Hq' Hl.
    destruct (wf_yesde_below c q' _ Hwc Hl Hq')
      as (_ & _ & j & q'' & -> & Hj & Hs).
    simpl in Hs. unfold get_cindex. rewrite Hs.
    exists q''. split; [done | lia]. }
  destruct (Z.leb_spec (2 ^ kv_bits c) (get_cindex key c)) as [Hmis | Hmat].
  { (* the key does not lie under the prefix of [c] *)
    exists n, None. split; [done |]. split; [done |]. split; [| split].
    - intros p s l Hp. destruct (Hleaves _ _ _ Hp) as (q' & ->).
      rewrite get_yesde_app, Hgc in Hp. simpl in Hp.
      destruct (decide (q' = [])) as [-> | Hq'].
      + simpl in Hp. injection Hp as ->.
        unfold get_cindex in Hmis. simpl in Hmis.
        rewrite Z.lxor_nilpotent, Z.shiftr_0_l in Hmis.
        change (2 ^ 0) with 1 in Hmis. lia.
      + destruct (Hbelow _ _ _ Hq' Hp) as (_ & _ & H). lia.
    - done.
    - intros j (_ & nq & n' & Hnq & -> & Hn' & Hm & _).
      rewrite Hn in Hnq. injection Hnq as <-. rewrite <- Hindex, Hc in Hn'.
      injection Hn' as <-. unfold key_matches in Hm.
      apply Z.ltb_lt in Hm. lia. }
  destruct (IS_TNODE c) eqn:Htn.
  - (* step to [c] *)
    apply (IH (index :: n) (get_cindex key c) c); try done.
    + apply height_child in Hc. lia.
    + split; [done |]. exists nn, c. unfold key_matches.
      rewrite (proj2 (Z.ltb_lt _ _) Hmat). subst index. done.
    + intros p s l Hp. destruct (Hleaves _ _ _ Hp) as (q' & ->).
      rewrite get_yesde_app, Hgc in Hp. simpl in Hp.
      destruct (decide (q' = [])) as [-> | Hq'].
      { simpl in Hp. injection Hp as ->. done. }
      destruct (Hbelow _ _ _ Hq' Hp) as (q'' & -> & _).
      exists q''. by rewrite <- app_assoc.
  - (* a leaf: its key is the key searched *)
    destruct (wf_yesde_is_leaf c Hwc Htn) as (s & l & Hleaf).
    assert (Hk : kv_key c = key).
    { rewrite Hleaf in Hmat. unfold get_cindex in Hmat. simpl in Hmat.
      rewrite Z.shiftr_0_r in Hmat.
      pose proof (lxor_nonneg_2 key (kv_key c)).
      symmetry. apply Z.lxor_eq. lia. }
    rewrite Hk in Hleaf.
    exists n, (Some (index :: n)). split; [done |]. split; [| split; [| split]].
    + intros lp [= <-]. exists index, s, l. by rewrite Hgc, Hleaf.
    + intros p s' l' Hp. destruct (Hleaves _ _ _ Hp) as (q' & ->).
      rewrite get_yesde_app, Hgc in Hp. simpl in Hp. rewrite Hleaf in Hp.
      apply get_yesde_leaf in Hp as ->. done.
    + done.
    + intros j (_ & nq & n' & Hnq & -> & Hn' & _ & Ht).
      rewrite Hn in Hnq. injection Hnq as <-. rewrite <- Hindex, Hc in Hn'.
      injection Hn' as <-. congruence.
Qed.

(** The search path is a chain. *)
Lemma on_path_tail t key q p : on_path t key (q ++ p) -> on_path t key p.
Proof. induction q as [|i q IH]; [done |]. intros [H _]. by apply IH. Qed.

Lemma on_path_same_length t key p1 p2 :
  on_path t key p1 -> on_path t key p2 -> length p1 = length p2 -> p1 = p2.
Proof.
  revert p2. induction p1 as [|i1 q1 IH]; intros [|i2 q2]; try done.
  intros [H1 (n1 & _ & Hn1 & -> & _)] [H2 (n2 & _ & Hn2 & -> & _)] [= Hlen].
  rewrite (IH q2 H1 H2 Hlen) in *. congruence.
Qed.

Lemma on_path_suffix t key q tp :
  on_path t key tp -> (forall j, ~ on_path t key (j :: tp)) ->
  on_path t key q -> q `suffix_of` tp.
Proof.
  intros Htp Hdeep Hq.
  destruct (decide (length q <= length tp)%nat) as [Hle | Hgt].
  - exists (take (length tp - length q) tp).
    rewrite <- (take_drop (length tp - length q) tp) in Htp.
    apply on_path_tail in Htp.
    rewrite (on_path_same_length _ _ _ _ Hq Htp) at 2.
    + by rewrite take_drop.
    + rewrite length_drop. lia.
  - exfalso.
    assert (Hsplit : exists k j q', q = k ++ j :: q' /\ length q' = length tp).
    { exists (take (length q - length tp - 1) q).
      destruct (drop (length q - length tp - 1) q) as [|j q'] eqn:Hd.
      - apply (f_equal length) in Hd. rewrite length_drop in Hd.
        simpl in Hd. lia.
      - exists j, q'. rewrite <- Hd, take_drop. split; [done |].
        apply (f_equal length) in Hd. rewrite length_drop in Hd.
        simpl in Hd. lia. }
    destruct Hsplit as (k & j & q' & -> & Hlen).
    apply on_path_tail in Hq. pose proof Hq as [Hq' _].
    rewrite (on_path_same_length _ _ _ _ Hq' Htp Hlen) in Hq.
    by eapply Hdeep.
Qed.

(** C9: on a well-formed trie [fib_find_yesde] returns for every 32-bit
    key; a leaf it returns is a child of [*tp] and holds exactly the key
    searched; a leaf with the key searched, wherever it is in the trie,
    is the one returned, so NULL is returned only when there is none;
    and [*tp] is the deepest node of the search path: it is on the path
    and every node on the path is [*tp] or above it. *)
Theorem fib_find_yesde_exact (t : key_vector) (key : Z) :
  wf_trie t = true -> 0 <= key < 2 ^ 32 ->
  exists tp r,
    fib_find_yesde t key = Some (tp, r) /\
    (forall lp, r = Some lp ->
       exists i s l, lp = i :: tp /\ get_yesde t lp = Some (Leaf key s l)) /\
    (forall p s l, get_yesde t p = Some (Leaf key s l) -> r = Some p) /\
    (r = None -> forall p s l, get_yesde t p <> Some (Leaf key s l)) /\
    on_path t key tp /\
    (forall q, on_path t key q -> q `suffix_of` tp).
Proof.
  intros Hwf Hkey.
  pose proof Hwf as (e & f & c & Ht & Hc)%wf_trie_root.
  destruct (fib_find_yesde_loop_spec t key Hwf Hkey (S (height t)) [] 0 t)
    as (tp & r & Hfind & Hleaf & Hall & Hpath & Hdeep); try done.
  - rewrite Ht. unfold get_index. simpl.
    rewrite Z.lxor_0_r, Z.shiftr_div_pow2 by lia.
    symmetry. apply Z.div_small. lia.
  - lia.
  - intros p s l Hp.
    destruct p as [|i p] using rev_ind; [by rewrite Ht in Hp |].
    exists p. rewrite get_yesde_app in Hp. simpl in Hp.
    destruct (get_child t i) as [x|] eqn:Hx; [| done].
    rewrite Ht in Hx. apply get_child_Some in Hx as [Hi Hx]. simpl in Hx.
    destruct (Z.to_nat i) as [|?] eqn:Hz; [| done].
    by replace i with 0 by lia.
  - exists tp, r. split; [done |]. split; [done |]. split; [done |].
    split; [| split; [done |]].
    + intros -> p s l Hp. by specialize (Hall _ _ _ Hp).
    + intros q Hq. by eapply on_path_suffix.
Qed.

(** The leaf of 10.1.0.0 in the table of the two example routes. *)
Lemma fib_find_yesde_exact_witness :
  wf_trie (kv (world_after example_two_routes)) = true /\
  exists tp lp i s l,
    fib_find_yesde (kv (world_after example_two_routes)) (ipv4 10 1 0 0)
    = Some (tp, Some lp) /\
    lp = i :: tp /\
    get_yesde (kv (world_after example_two_routes)) lp
    = Some (Leaf (ipv4 10 1 0 0) s l).
Proof.
  set (w := world_after example_two_routes).
  assert (Hwf : wf_trie (kv w) = true) by (vm_compute; reflexivity).
  assert (Hsome : exists tp lp, fib_find_yesde (kv w) (ipv4 10 1 0 0)
                                = Some (tp, Some lp))
    by (vm_compute; eexists _, _; reflexivity).
  clearbody w. split; [exact Hwf |].
  destruct Hsome as (tp & lp & Hfind).
  destruct (fib_find_yesde_exact (kv w) (ipv4 10 1 0 0) Hwf)
    as (tp' & r & Hfind' & Hleaf & _); [by vm_compute |].
  rewrite Hfind in Hfind'. injection Hfind' as <- <-.
  destruct (Hleaf lp eq_refl) as (i & s & l & Hlp & Hg).
  exists tp, lp, i, s, l. split; [exact Hfind |]. split; [exact Hlp | exact Hg].
Defined.


(** * What [resize] leaves behind *)

(** C3 as stated fails: the eight requests all complete, and the
    node with 16 slots they leave under the new root child holds three
    leaves -- enough under the root (15 percent), too few under an
    internal node (25 percent); nothing visits it again. *)
Lemma pending_halve_counterexample :
  exists rets w tp tn,
    run_requests example_net example_pending_halve world_empty
    = Some (rets, w) /\
    Forall (fun e => e = 0) rets /\
    get_yesde (kv w) [0] = Some tp /\ get_yesde (kv w) [0; 0] = Some tn /\
    IS_TNODE tn = true /\ should_halve tp tn = true.
Proof.
  assert (H :
    match run_requests example_net example_pending_halve world_empty with
    | Some (rets, w) =>
        forallb (Z.eqb 0) rets &&
        match get_yesde (kv w) [0], get_yesde (kv w) [0; 0] with
        | Some tp, Some tn => IS_TNODE tn && should_halve tp tn
        | _, _ => false
        end
    | None => false
    end = true) by (vm_compute; reflexivity).
  destruct (run_requests _ _ _) as [[rets w]|]; cbv beta iota in H; [| done].
  apply andb_true_iff in H as [Hall H].
  destruct (get_yesde (kv w) [0]) as [tp|] eqn:Htp;
    cbv beta iota in H; [| done].
  destruct (get_yesde (kv w) [0; 0]) as [tn|] eqn:Htn0;
    cbv beta iota in H; [| done].
  apply andb_true_iff in H as [Htn Hsh].
  exists rets, w, tp, tn. split; [done |].
  split; [| done].
  apply Forall_forall. intros e He%list_elem_of_In.
  rewrite forallb_forall in Hall. specialize (Hall e He).
  by apply Z.eqb_eq in Hall.
Qed.

Section resize_exit.
Variable R : ptr -> M unit.

(** How the halving loop of [resize] is left: by the [break] after a
    failed [halve], with the work used up, or at a node that is not to
    be halved. *)
Lemma resize_halve_exit max_work tp tn w mw' failed w' :
  resize_halve R max_work tp tn w = Some ((mw', failed), w') ->
  failed = true \/ mw' = O \/
  exists tpn tnn, get_yesde (kv w') tp = Some tpn /\
                  get_yesde (kv w') tn = Some tnn /\
                  should_halve tpn tnn = false.
Proof.
  revert w. induction max_work as [|max_work IH]; intros w H; simpl in H.
  - apply bind_Some in H as (tpn & w1 & [Htp <-]%deref_Some & H).
    apply bind_Some in H as (tnn & w1 & [Htn <-]%deref_Some & H).
    apply ret_Some in H as [[= <- <-] <-]. right. by left.
  - apply bind_Some in H as (tpn & w1 & [Htp <-]%deref_Some & H).
    apply bind_Some in H as (tnn & w1 & [Htn <-]%deref_Some & H).
    destruct (should_halve tpn tnn) eqn:Hsh.
    + apply bind_Some in H as (ok & w1 & Hhalve & H). destruct ok.
      * by eapply IH.
      * apply ret_Some in H as [[= <- <-] <-]. by left.
    + apply ret_Some in H as [[= <- <-] <-]. right. right. eauto.
Qed.
End resize_exit.

(** C3, as far as the code goes: [resize] on an internal node returns at
    once when an inflate has run.  Otherwise it halves while the test
    asks for it; when that loop was left neither by a failed [halve]
    nor with the work used up, the node is then not to be halved, and
    it is collapsed if it is to be collapsed: what [resize] returns
    from then has no work pending at this node. *)
Theorem resize_leaves_no_work (c : Z) (tp : ptr) (w w' : world) :
  resize (c :: tp) w = Some (tt, w') ->
  let R := resize_depth (Z.to_nat KEYLENGTH) in
  let tn := c :: tp in
  exists mw w1,
    resize_inflate R MAX_WORK tp tn w = Some (mw, w1) /\
    (mw <> MAX_WORK /\ w' = w1 \/
     mw = MAX_WORK /\
     exists mw' failed w2 tpn tnn,
       resize_halve R MAX_WORK tp tn w1 = Some ((mw', failed), w2) /\
       get_yesde (kv w2) tp = Some tpn /\ get_yesde (kv w2) tn = Some tnn /\
       (should_collapse tnn = true /\ collapse tn w2 = Some (tt, w') \/
        should_collapse tnn = false /\ w' = w2 /\
        (failed = true \/ mw' = O \/ should_halve tpn tnn = false))).
Proof.
  intros H R tn. unfold resize in H. cbn [resize_depth] in H.
  fold R in H. unfold resize_body in H.
  apply bind_Some in H as (tpn & w0 & [Htp <-]%deref_Some & H).
  apply bind_Some in H as (tnn & w0 & [Htn <-]%deref_Some & H).
  destruct (Z.eqb_spec c (get_index (kv_key tnn) tpn)) as [Hc | Hc];
    [| done]. cbn [negb] in H. rewrite <- Hc in H. fold tn in H.
  apply bind_Some in H as (mw & w1 & Hinf & H).
  exists mw, w1. split; [exact Hinf |].
  destruct (Nat.eqb_spec mw MAX_WORK) as [-> | Hmw]; cbn [negb] in H.
  2:{ apply ret_Some in H as [_ <-]. by left. }
  right. split; [done |].
  apply bind_Some in H as ([mw' failed] & w2 & Hhalve & H).
  apply bind_Some in H as (tnn2 & w3 & [Htn2 <-]%deref_Some & H).
  assert (Htp2 : exists tpn2, get_yesde (kv w2) tp = Some tpn2).
  { unfold tn in Htn2. rewrite get_yesde_cons in Htn2.
    destruct (get_yesde (kv w2) tp); [eauto | done]. }
  destruct Htp2 as (tpn2 & Htp2).
  exists mw', failed, w2, tpn2, tnn2. split; [exact Hhalve |].
  split; [exact Htp2 |]. split; [exact Htn2 |].
  destruct (should_collapse tnn2) eqn:Hcol.
  - left. split; [done |].
    destruct (collapse tn w2) as [[[] ?]|]; [| done]. exact H.
  - right. apply ret_Some in H as [_ <-]. split; [done |]. split; [done |].
    apply resize_halve_exit in Hhalve
      as [Hf | [Hz | (tpn3 & tnn3 & Htp3 & Htn3 & Hsh)]].
    + by left.
    + right. by left.
    + right. right. congruence.
Qed.

(** The root child of the table of the two example routes, resized once
    more: nothing inflates, nothing is halved, nothing collapses. *)
Lemma resize_leaves_no_work_witness :
  exists tpn tnn,
    resize [0] (world_after example_two_routes)
    = Some (tt, world_after example_two_routes) /\
    get_yesde (kv (world_after example_two_routes)) [] = Some tpn /\
    get_yesde (kv (world_after example_two_routes)) [0] = Some tnn /\
    should_collapse tnn = false /\ should_halve tpn tnn = false.
Proof.
  set (w := world_after example_two_routes).
  assert (Hres : resize [0] w = Some (tt, w)) by (vm_compute; reflexivity).
  assert (Hinf : resize_inflate (resize_depth (Z.to_nat KEYLENGTH)) MAX_WORK
                   [] [0] w = Some (MAX_WORK, w))
    by (vm_compute; reflexivity).
  assert (Hhalve : resize_halve (resize_depth (Z.to_nat KEYLENGTH)) MAX_WORK
                     [] [0] w = Some ((MAX_WORK, false), w))
    by (vm_compute; reflexivity).
  assert (Hcol : match get_yesde (kv w) [0] with
                 | Some tnn => should_collapse tnn
                 | None => true
                 end = false) by (vm_compute; reflexivity).
  clearbody w.
  destruct (resize_leaves_no_work 0 [] w w Hres)
    as (mw & w1 & Hinf' & [[Hne _] | [_ H]]).
  { rewrite Hinf in Hinf'. by injection Hinf' as <- _. }
  rewrite Hinf in Hinf'. injection Hinf' as _ <-.
  destruct H as (mw' & failed & w2 & tpn & tnn & Hhalve' & Htp & Htn & H).
  rewrite Hhalve in Hhalve'. injection Hhalve' as <- <- <-.
  exists tpn, tnn. split; [exact Hres |]. split; [exact Htp |].
  split; [exact Htn |].
  destruct H as [[Hc _] | (Hc & _ & [Hf | [Hz | Hsh]])].
  - rewrite Htn in Hcol. congruence.
  - done.
  - done.
  - done.
Defined.


(** * Prefixes as ranges of keys *)

(** Below a multiple of [2 ^ m], adding less than [2 ^ m] sets no bit
    twice. *)
Lemma land_aligned_small base r m :
  0 <= m -> base mod 2 ^ m = 0 -> 0 <= r < 2 ^ m -> Z.land base r = 0.
Proof.
  intros Hm Hbase Hr. apply Z.bits_inj'. intros n Hn.
  rewrite Z.land_spec, Z.bits_0.
  destruct (Z.lt_ge_cases n m) as [Hlt | Hge].
  - rewrite <- (Z.mod_pow2_bits_low base m n) by lia.
    by rewrite Hbase, Z.bits_0.
  - rewrite <- (Z.mod_small r (2 ^ m)) by done.
    rewrite Z.mod_pow2_bits_high by lia. apply andb_false_r.
Qed.

Lemma lxor_aligned base k m :
  0 <= m -> base mod 2 ^ m = 0 -> base <= k < base + 2 ^ m ->
  Z.lxor k base = k - base.
Proof.
  intros Hm Hbase Hk.
  pose proof (land_aligned_small base (k - base) m Hm Hbase) as Hland.
  replace k with (base + (k - base)) at 1 by lia.
  rewrite Z.add_nocarry_lxor by (apply Hland; lia).
  rewrite (Z.lxor_comm base), Z.lxor_assoc, Z.lxor_nilpotent.
  apply Z.lxor_0_r.
Qed.

(** The keys that agree with [base] from bit [m] on are those of the
    range of [2 ^ m] keys that starts at [base]. *)
Lemma shiftr_lxor_range base k m :
  0 <= m -> 0 <= base -> 0 <= k -> base mod 2 ^ m = 0 ->
  Z.shiftr (Z.lxor k base) m = 0 <-> base <= k < base + 2 ^ m.
Proof.
  intros Hm Hb Hk Hbase. pose proof (pow2_pos m Hm) as Hpow. split.
  - intros H. rewrite Z.shiftr_lxor in H. apply Z.lxor_eq in H.
    rewrite !Z.shiftr_div_pow2 in H by done.
    pose proof (Z.div_mod k (2 ^ m)) as Hk1.
    pose proof (Z.div_mod base (2 ^ m)) as Hb1.
    pose proof (Z.mod_pos_bound k (2 ^ m) Hpow). nia.
  - intros H. rewrite (lxor_aligned base k m) by done.
    rewrite Z.shiftr_div_pow2 by done. apply Z.div_small. lia.
Qed.

(** The keys that select slot [j] of a node at [base] with position [p]
    are those of the [j]-th range of [2 ^ p] keys from [base] on. *)
Lemma shiftr_lxor_slot base k p b j :
  0 <= p -> 0 <= b -> 0 <= base -> 0 <= k ->
  base mod 2 ^ (p + b) = 0 -> 0 <= j < 2 ^ b ->
  Z.shiftr (Z.lxor k base) p = j <->
  base + j * 2 ^ p <= k < base + (j + 1) * 2 ^ p.
Proof.
  intros Hp Hb Hbase Hk Hal Hj.
  pose proof (pow2_pos p Hp) as Hpp. pose proof (pow2_pos b Hb) as Hpb.
  assert (Hpow : 2 ^ (p + b) = 2 ^ p * 2 ^ b) by (apply Z.pow_add_r; lia).
  assert (Hin : base <= k < base + 2 ^ (p + b) ->
                (Z.shiftr (Z.lxor k base) p = j <->
                 base + j * 2 ^ p <= k < base + (j + 1) * 2 ^ p)).
  { intros Hr. rewrite (lxor_aligned base k (p + b)) by (done || lia).
    rewrite Z.shiftr_div_pow2 by done. split.
    - intros <-. pose proof (Z.div_mod (k - base) (2 ^ p)).
      pose proof (Z.mod_pos_bound (k - base) (2 ^ p) Hpp). lia.
    - intros H. symmetry. apply (Z.div_unique _ _ _ (k - base - j * 2 ^ p)); lia. }
  split.
  - intros H. apply Hin; [| done].
    apply shiftr_lxor_range; try done; try lia.
    apply shiftr_index_zero; try done. lia.
  - intros H. apply Hin; [| done]. nia.
Qed.

(** ** Nodes of a well-formed trie and their ranges *)

Lemma aligned_next a c d :
  0 < d -> a mod d = 0 -> c mod d = 0 -> a < c -> a + d <= c.
Proof.
  intros Hd Ha Hc Hlt.
  apply Z.mod_divide in Ha; [| lia]. apply Z.mod_divide in Hc; [| lia].
  destruct Ha as [x ->], Hc as [y ->].
  assert (x < y) by nia. assert (x + 1 <= y) by lia. nia.
Qed.

Lemma pow2_mod_pow2 a b : 0 <= b <= a -> 2 ^ a mod 2 ^ b = 0.
Proof.
  intros H. replace a with ((a - b) + b) by lia.
  rewrite Z.pow_add_r by lia. apply Z.mod_mul.
  pose proof (pow2_pos b). lia.
Qed.

Lemma mod_pow2_weaken x a b : 0 <= b <= a -> x mod 2 ^ a = 0 -> x mod 2 ^ b = 0.
Proof.
  intros H Hx. pose proof (pow2_pos a). pose proof (pow2_pos b).
  apply Z.mod_divide in Hx; [| lia]. destruct Hx as [y ->].
  replace a with ((a - b) + b) by lia. rewrite Z.pow_add_r by lia.
  rewrite Z.mul_assoc. apply Z.mod_mul. lia.
Qed.

Lemma wf_yesde_node_ok n : wf_yesde n = true -> node_ok n.
Proof.
  intros Hwf. pose proof (wf_yesde_key n Hwf) as Hk.
  pose proof (wf_yesde_pos_bits n Hwf) as (Hp & Hb & Hpb).
  assert (Hal : kv_key n mod 2 ^ (kv_pos n + kv_bits n) = 0).
  { destruct n.
    - simpl. apply Z.mod_1_r.
    - apply wf_yesde_tyesde in Hwf as [[Hb1 Hp1 Ht1 Hk1 Hkl1 Hlen1 Hs1] _].
      done. }
  unfold node_ok, range_end, KEYLENGTH in *.
  repeat split; try lia.
  apply aligned_next; try done; try lia;
    first [apply pow2_pos | apply pow2_mod_pow2]; lia.
Qed.

Lemma wf_trie_node_ok t p n :
  wf_trie t = true -> get_yesde t p = Some n -> node_ok n.
Proof.
  intros Hwf Hn. destruct p as [|i p].
  - apply wf_trie_root in Hwf as (e & f & c & -> & _).
    injection Hn as <-. unfold node_ok, range_end, KEYLENGTH. simpl.
    repeat split; try lia. 
  - apply wf_yesde_node_ok. by eapply (wf_trie_get t (i :: p)).
Qed.

(** Every pointer of a table but the root ends in slot 0 of the root. *)
Lemma wf_trie_ptr_root t p x :
  wf_trie t = true -> get_yesde t p = Some x -> p <> [] ->
  exists q, p = q ++ [0].
Proof.
  intros (e & f & c & -> & _)%wf_trie_root Hp Hne.
  destruct p as [|i p] using rev_ind; [done |].
  exists p. rewrite get_yesde_app in Hp. simpl in Hp.
  destruct (get_child _ i) as [y|] eqn:Hy; [| done].
  apply get_child_Some in Hy as [Hi Hy]. simpl in Hy.
  destruct (Z.to_nat i) as [|?] eqn:Hz; [| done].
  by replace i with 0 by lia.
Qed.

(** [wf_yesde_below] from any node of a table, the root included. *)
Lemma wf_trie_below t pn pnn q x :
  wf_trie t = true -> get_yesde t pn = Some pnn ->
  get_yesde t (q ++ pn) = Some x -> q <> [] ->
  wf_yesde x = true /\
  exists j q', q = q' ++ [j] /\ 0 <= j < 2 ^ kv_bits pnn /\
               Z.shiftr (Z.lxor (kv_key x) (kv_key pnn)) (kv_pos pnn) = j.
Proof.
  intros Hwf Hpn Hx Hq.
  assert (Hwx : wf_yesde x = true).
  { apply (wf_trie_get t (q ++ pn) x Hwf Hx). by destruct q. }
  split; [done |].
  destruct pn as [|i pp].
  - rewrite app_nil_r in Hx.
    destruct (wf_trie_ptr_root t q x Hwf Hx Hq) as (q' & ->).
    pose proof Hwf as (e & f & c & -> & _)%wf_trie_root.
    injection Hpn as <-. exists 0, q'. split; [done |]. simpl.
    split; [lia |]. rewrite Z.lxor_0_r, Z.shiftr_div_pow2 by lia.
    apply Z.div_small. apply (wf_yesde_key x Hwx).
  - rewrite get_yesde_app, Hpn in Hx. simpl in Hx.
    destruct (wf_trie_get t (i :: pp) pnn Hwf Hpn) as [Hwn _]; [done |].
    destruct (wf_yesde_below pnn q x Hwn Hx Hq) as (_ & _ & H). exact H.
Qed.

(** What hangs under slot [j] of a node lies in the range of that
    slot. *)
Lemma wf_trie_in_slot t pn pnn q j x :
  wf_trie t = true -> get_yesde t pn = Some pnn ->
  get_yesde t (q ++ j :: pn) = Some x ->
  0 <= j < 2 ^ kv_bits pnn /\
  slot_start pnn j <= kv_key x /\ range_end x <= slot_start pnn (j + 1).
Proof.
  intros Hwf Hpn Hx.
  destruct (wf_trie_below t pn pnn (q ++ [j]) x Hwf Hpn)
    as (Hwx & j' & q' & Heq & Hj & Hs).
  { by rewrite <- app_assoc. }
  { by destruct q. }
  apply app_inj_tail in Heq as [_ <-].
  pose proof (wf_trie_node_ok t pn pnn Hwf Hpn) as (Hp & Hb & Hpb & Hk & Hal & _).
  pose proof (wf_yesde_node_ok x Hwx) as (Hxp & Hxb & Hxpb & Hxk & Hxal & _).
  split; [done |].
  apply (shiftr_lxor_slot _ _ _ (kv_bits pnn)) in Hs; try done.
  unfold slot_start, range_end. split; [lia |].
  assert (Hbelow : kv_pos x + kv_bits x <= kv_pos pnn).
  { destruct pn as [|i pp].
    - pose proof Hwf as (e & f & c & -> & _)%wf_trie_root.
      injection Hpn as <-. simpl. unfold KEYLENGTH in *. lia.
    - rewrite get_yesde_app in Hx.
      change (get_yesde t (j :: i :: pp)) with
        (get_yesde t ([j] ++ i :: pp)) in Hx.
      rewrite get_yesde_app, Hpn in Hx. simpl in Hx.
      destruct (wf_trie_get t (i :: pp) pnn Hwf Hpn) as [Hwn _]; [done |].
      destruct (get_child pnn j) as [y|] eqn:Hy; simpl in Hx; [| done].
      destruct pnn as [|k p b s e f cs]; [by rewrite get_child_leaf in Hy |].
      apply wf_yesde_tyesde in Hwn as [_ Hch].
      destruct (Hch _ _ Hy) as [(H1 & _)%child_ok_spec Hwy].
      destruct (decide (q = [])) as [-> | Hq].
      + simpl in Hx. injection Hx as <-. done.
      + destruct (wf_yesde_below y q x Hwy Hx Hq) as (_ & H2 & _).
        pose proof (wf_yesde_pos_bits y Hwy). simpl in *. lia. }
  pose proof (pow2_pos (kv_pos x + kv_bits x)) as Hpx.
  apply aligned_next; try lia.
  rewrite <- Z.add_mod_idemp_l by lia.
  rewrite (mod_pow2_weaken (kv_key pnn) (kv_pos pnn + kv_bits pnn)
             (kv_pos x + kv_bits x) ltac:(lia) Hal), Z.add_0_l.
  replace (kv_pos pnn) with ((kv_pos pnn - (kv_pos x + kv_bits x))
                             + (kv_pos x + kv_bits x)) by lia.
  rewrite Z.pow_add_r, Z.mul_assoc by lia. apply Z.mod_mul. lia.
Qed.

Lemma slot_start_0 n : slot_start n 0 = kv_key n.
Proof. unfold slot_start. lia. Qed.

Lemma slot_start_step n i :
  slot_start n (i + 1) = slot_start n i + 2 ^ kv_pos n.
Proof. unfold slot_start. lia. Qed.

Lemma slot_start_end n :
  0 <= kv_pos n -> 0 <= kv_bits n ->
  slot_start n (2 ^ kv_bits n) = range_end n.
Proof.
  intros. unfold slot_start, range_end. rewrite Z.pow_add_r by done. lia.
Qed.

Lemma slot_start_mono n i j :
  0 <= kv_pos n -> i <= j -> slot_start n i <= slot_start n j.
Proof.
  intros Hp Hij. unfold slot_start. pose proof (pow2_pos _ Hp). nia.
Qed.

(** A node with a child is the root or an internal node. *)
Lemma wf_trie_parent_internal t pp ppn i c :
  wf_trie t = true -> get_yesde t pp = Some ppn ->
  get_child ppn i = Some c -> pp = [] \/ IS_TNODE ppn = true.
Proof.
  intros Hwf Hpp Hc. destruct pp as [|j pp]; [by left | right].
  destruct (wf_trie_get t (j :: pp) ppn Hwf Hpp) as [Hw _]; [done |].
  destruct ppn as [|k p b s e f cs]; [by rewrite get_child_leaf in Hc |].
  apply wf_yesde_tyesde in Hw as [[Hb1 Hp1 Ht1 Hk1 Hkl1 Hlen1 Hs1] _].
  unfold IS_TNODE. simpl. apply negb_true_iff, Z.eqb_neq. lia.
Qed.

(** A leaf whose key lies in the range of a node hangs under that
    node, in the slot its key selects. *)
Lemma wf_trie_under_range t pn pnn p k s l :
  wf_trie t = true -> get_yesde t pn = Some pnn ->
  pn = [] \/ IS_TNODE pnn = true ->
  get_yesde t p = Some (Leaf k s l) ->
  kv_key pnn <= k < range_end pnn ->
  exists j q, p = q ++ j :: pn /\
              Z.shiftr (Z.lxor k (kv_key pnn)) (kv_pos pnn) = j.
Proof.
  intros Hwf. revert pnn. induction pn as [|i pp IH];
    intros pnn Hpn Hint Hp Hk.
  - destruct (wf_trie_below t [] pnn p (Leaf k s l) Hwf Hpn)
      as (_ & j & q & -> & _ & Hs).
    { by rewrite app_nil_r. }
    { intros ->. pose proof Hwf as (e & f & c & -> & _)%wf_trie_root.
      done. }
    exists j, q. done.
  - destruct Hint as [| Hint]; [done |].
    pose proof Hpn as Hpn'. rewrite get_yesde_cons in Hpn'.
    destruct (get_yesde t pp) as [ppn|] eqn:Hpp; simpl in Hpn'; [| done].
    destruct (wf_trie_in_slot t pp ppn [] i pnn Hwf Hpp Hpn)
      as (Hi & Hlo & Hhi).
    pose proof (wf_trie_node_ok t pp ppn Hwf Hpp)
      as (Hp0 & Hb0 & Hpb & Hk0 & Hal & _).
    pose proof (slot_start_mono ppn 0 i Hp0 ltac:(lia)) as H1.
    pose proof (slot_start_mono ppn (i + 1) (2 ^ kv_bits ppn) Hp0 ltac:(lia))
      as H2.
    rewrite slot_start_0 in H1. rewrite slot_start_end in H2 by done.
    destruct (IH ppn eq_refl) as (j & q & -> & Hs); [| done | lia |].
    { by eapply wf_trie_parent_internal. }
    assert (Hji : j = i).
    { rewrite <- Hs. apply (shiftr_lxor_slot _ _ _ (kv_bits ppn)); try done;
        unfold slot_start in *; lia. }
    clear Hs. subst j.
    destruct (wf_trie_below t (i :: pp) pnn q (Leaf k s l) Hwf Hpn Hp)
      as (_ & j & q' & -> & _ & Hs').
    { intros ->. cbn [app] in Hp. rewrite Hpn in Hp. injection Hp as ->.
      done. }
    exists j, q'. by rewrite <- app_assoc.
Qed.

Lemma wf_trie_under_slot t pn pnn p k s l j :
  wf_trie t = true -> get_yesde t pn = Some pnn ->
  pn = [] \/ IS_TNODE pnn = true ->
  get_yesde t p = Some (Leaf k s l) ->
  0 <= j < 2 ^ kv_bits pnn ->
  slot_start pnn j <= k < slot_start pnn (j + 1) ->
  exists q, p = q ++ j :: pn.
Proof.
  intros Hwf Hpn Hint Hp Hj Hk.
  pose proof (wf_trie_node_ok t pn pnn Hwf Hpn)
    as (Hp0 & Hb0 & Hpb & Hk0 & Hal & _).
  pose proof (slot_start_mono pnn 0 j Hp0 ltac:(lia)) as H1.
  pose proof (slot_start_mono pnn (j + 1) (2 ^ kv_bits pnn) Hp0 ltac:(lia))
    as H2.
  rewrite slot_start_0 in H1. rewrite slot_start_end in H2 by done.
  destruct (wf_trie_under_range t pn pnn p k s l Hwf Hpn Hint Hp)
    as (j' & q & -> & Hs); [lia |].
  exists q. replace j with j'; [done |].
  rewrite <- Hs. apply (shiftr_lxor_slot _ _ _ (kv_bits pnn)); try done;
    unfold slot_start in *; lia.
Qed.


(** * Walking the leaves in the order of their keys *)

Section slots.
Context (t : key_vector) (Hwf : wf_trie t = true).
Context (pn : ptr) (pnn : key_vector).
Context (Hpn : get_yesde t pn = Some pnn).
Context (Hint : pn = [] \/ IS_TNODE pnn = true).

Lemma child_ptr c x : get_child pnn c = Some x -> get_yesde t (c :: pn) = Some x.
Proof. intros Hx. by rewrite get_yesde_cons, Hpn. Qed.

(** The child in slot [c] lies in the range of the slot. *)
Lemma child_in_slot c x :
  get_child pnn c = Some x ->
  0 <= c < 2 ^ kv_bits pnn /\
  slot_start pnn c <= kv_key x /\ range_end x <= slot_start pnn (c + 1).
Proof.
  intros Hx%child_ptr. by apply (wf_trie_in_slot t pn pnn [] c x).
Qed.

(** A leaf with a key of slot [c] is there. *)
Lemma leaf_in_slot c k :
  is_leaf_key t k -> 0 <= c < 2 ^ kv_bits pnn ->
  slot_start pnn c <= k < slot_start pnn (c + 1) ->
  exists x, get_child pnn c = Some x /\ kv_key x <= k < range_end x /\
            (IS_TNODE x = false -> kv_key x = k).
Proof.
  intros (p & s & l & Hp) Hc Hk.
  destruct (wf_trie_under_slot t pn pnn p k s l c Hwf Hpn Hint Hp Hc Hk)
    as (q & ->).
  pose proof Hp as Hp'.
  rewrite get_yesde_app, get_yesde_cons, Hpn in Hp'. simpl in Hp'.
  destruct (get_child pnn c) as [x|] eqn:Hx; simpl in Hp'; [| done].
  exists x. split; [done |].
  destruct (decide (q = [])) as [-> | Hq].
  - simpl in Hp'. injection Hp' as ->. unfold range_end. simpl.
    change (2 ^ (0 + 0)) with 1. split; [lia | done].
  - pose proof (child_ptr _ _ Hx) as Hcx.
    assert (Hwx : wf_yesde x = true).
    { by apply (wf_trie_get t (c :: pn) x Hwf Hcx). }
    destruct q as [|j q] using rev_ind; [done |]. clear IHq.
    rewrite <- app_assoc in Hp. simpl in Hp.
    destruct (wf_trie_in_slot t (c :: pn) x q j _ Hwf Hcx Hp)
      as (Hj & Hlo & Hhi).
    pose proof (wf_yesde_node_ok x Hwx) as (Hp0 & Hb0 & _).
    pose proof (slot_start_mono x 0 j Hp0 ltac:(lia)) as H1.
    pose proof (slot_start_mono x (j + 1) (2 ^ kv_bits x) Hp0 ltac:(lia))
      as H2.
    rewrite slot_start_0 in H1. rewrite slot_start_end in H2 by done.
    unfold range_end in Hhi at 1. simpl in Hhi, Hlo.
    change (2 ^ (0 + 0)) with 1 in Hhi.
    split; [lia |].
    intros Hleaf. destruct (wf_yesde_is_leaf x Hwx Hleaf) as (s' & l' & Hxl).
    rewrite Hxl in Hp'. apply get_yesde_leaf in Hp'.
    by destruct q.
Qed.

(** The range of a node ends where its slot ends, or before; no leaf
    lies between. *)
Lemma range_end_slot_end : range_end pnn <= slot_end_of t pn.
Proof.
  destruct pn as [|i pp].
  - simpl. by apply (wf_trie_node_ok t [] pnn Hwf Hpn).
  - simpl. pose proof Hpn as Hpn'. rewrite get_yesde_cons in Hpn'.
    destruct (get_yesde t pp) as [ppn|] eqn:Hpp; simpl in Hpn'; [| done].
    by apply (wf_trie_in_slot t pp ppn [] i pnn).
Qed.

Lemma leaf_before_slot_end k :
  is_leaf_key t k -> k < slot_end_of t pn -> k < range_end pnn.
Proof.
  intros Hk Hlt. destruct pn as [|i pp] eqn:Epn.
  - pose proof Hwf as (e & f & c & Ht & _)%wf_trie_root.
    rewrite Ht in Hpn. injection Hpn as <-. unfold range_end. simpl in *.
    unfold KEYLENGTH in *. lia.
  - destruct Hint as [| Hint']; [done |].
    simpl in Hlt. pose proof Hpn as Hpn'. rewrite get_yesde_cons in Hpn'.
    destruct (get_yesde t pp) as [ppn|] eqn:Hpp; simpl in Hpn'; [| done].
    destruct (wf_trie_in_slot t pp ppn [] i pnn Hwf Hpp Hpn)
      as (Hi & Hlo & Hhi).
    destruct (Z.lt_ge_cases k (range_end pnn)) as [| Hge]; [done |].
    exfalso.
    pose proof (wf_trie_node_ok t _ pnn Hwf Hpn) as (Hp0 & Hb0 & _).
    assert (Hkey : kv_key pnn <= range_end pnn).
    { unfold range_end. pose proof (pow2_pos (kv_pos pnn + kv_bits pnn)).
      lia. }
    destruct Hk as (p & s & l & Hp).
    destruct (wf_trie_under_slot t pp ppn p k s l i Hwf Hpp) as (q & ->);
      try done; try lia.
    { by eapply wf_trie_parent_internal. }
    destruct (decide (q = [])) as [-> | Hq].
    + cbn [app] in Hp. rewrite Hpn in Hp. injection Hp as ->. done.
    + destruct q as [|j q] using rev_ind; [done |]. clear IHq.
      rewrite <- app_assoc in Hp. simpl in Hp.
      destruct (wf_trie_in_slot t (i :: pp) pnn q j _ Hwf Hpn Hp)
        as (Hj & Hlo' & Hhi').
      pose proof (slot_start_mono pnn (j + 1) (2 ^ kv_bits pnn) Hp0
                    ltac:(lia)) as H2.
      rewrite slot_start_end in H2 by done.
      unfold range_end in Hhi' at 1. simpl in Hhi', Hlo'.
      change (2 ^ (0 + 0)) with 1 in Hhi'. lia.
Qed.
End slots.

(** ** The cost of the passes that remain *)

Lemma rem_from_pos n c : (1 <= rem_from n c)%nat.
Proof. unfold rem_from. lia. Qed.

Lemma rem_from_step n c o :
  0 <= c -> kv_tyesde n !! Z.to_nat c = Some o ->
  rem_from n c = (slot_cost o + rem_from n (c + 1))%nat.
Proof.
  intros Hc Ho. unfold rem_from.
  rewrite (drop_S _ _ _ Ho). replace (Z.to_nat (c + 1)) with (S (Z.to_nat c))
    by lia. simpl. lia.
Qed.

Lemma sum_drop_le (f : option key_vector -> nat) k l :
  (foldr Nat.add O (map f (drop k l)) <= foldr Nat.add O (map f l))%nat.
Proof.
  revert k. induction l as [|o l IH]; intros [|k]; simpl; try lia.
  specialize (IH k). lia.
Qed.

Lemma rem_from_mono n c c' :
  0 <= c <= c' -> (rem_from n c' <= rem_from n c)%nat.
Proof.
  intros Hc. unfold rem_from.
  replace (Z.to_nat c') with (Z.to_nat c + Z.to_nat (c' - c))%nat by lia.
  rewrite <- drop_drop.
  pose proof (sum_drop_le slot_cost (Z.to_nat (c' - c))
                (drop (Z.to_nat c) (kv_tyesde n))). lia.
Qed.

Lemma walk_cost_tyesde x :
  IS_TNODE x = true -> walk_cost x = S (rem_from x 0).
Proof. destruct x; [done |]. intros _. reflexivity. Qed.

Lemma scan_cost_eq t pn pnn c :
  get_yesde t pn = Some pnn ->
  scan_cost t pn c =
  (rem_from pnn c + match pn with
                    | [] => 1
                    | i :: pp => scan_cost t pp (i + 1)
                    end)%nat.
Proof. intros Hpn. destruct pn; cbn [scan_cost]; by rewrite Hpn. Qed.

Lemma scan_cost_mono t pn c c' :
  0 <= c <= c' -> (scan_cost t pn c' <= scan_cost t pn c)%nat.
Proof.
  intros Hc. destruct (get_yesde t pn) as [pnn|] eqn:Hpn.
  - rewrite !(scan_cost_eq t pn pnn) by done.
    pose proof (rem_from_mono pnn c c' Hc). lia.
  - destruct pn; cbn [scan_cost]; by rewrite Hpn.
Qed.

(** The children of the root and of an internal node fill its slots. *)
Lemma wf_trie_length t pn pnn :
  wf_trie t = true -> get_yesde t pn = Some pnn ->
  pn = [] \/ IS_TNODE pnn = true ->
  Z.of_nat (length (kv_tyesde pnn)) = 2 ^ kv_bits pnn.
Proof.
  intros Hwf Hpn Hint. destruct pn as [|i pp].
  - apply wf_trie_root in Hwf as (e & f & c & -> & _).
    by injection Hpn as <-.
  - destruct Hint as [| Hint]; [done |].
    destruct (wf_trie_get t (i :: pp) pnn Hwf Hpn) as [Hw _]; [done |].
    destruct pnn as [|k p b s e f cs]; [done |].
    by apply wf_yesde_tyesde in Hw as [[Hb1 Hp1 Ht1 Hk1 Hkl1 Hlen1 Hs1] _].
Qed.

Lemma get_child_slot pnn c :
  0 <= c -> (Z.to_nat c < length (kv_tyesde pnn))%nat ->
  kv_tyesde pnn !! Z.to_nat c = Some (get_child pnn c).
Proof.
  intros Hc Hlen. unfold get_child.
  destruct (Z.ltb_spec c 0); [lia |].
  destruct (lookup_lt_is_Some_2 _ _ Hlen) as [o ->]. by destruct o.
Qed.

Lemma shiftr_eq0_iff c b :
  0 <= c -> 0 <= b -> Z.shiftr c b = 0 <-> c < 2 ^ b.
Proof.
  intros Hc Hb. rewrite Z.shiftr_div_pow2 by done.
  pose proof (pow2_pos b Hb). rewrite Z.div_small_iff by lia. lia.
Qed.

Lemma range_end_gt n : node_ok n -> kv_key n < range_end n.
Proof.
  intros (Hp & Hb & _). unfold range_end.
  pose proof (pow2_pos (kv_pos n + kv_bits n)). lia.
Qed.

(** ** The passes keep the invariant *)

Section walk.
Context (t : key_vector) (key : Z).
Context (Hwf : wf_trie t = true) (Hkey : 0 <= key < 2 ^ 32).

Lemma scan_inv_intro pn pnn c :
  get_yesde t pn = Some pnn -> pn = [] \/ IS_TNODE pnn = true ->
  0 <= c <= 2 ^ kv_bits pnn -> (pn = [] -> 1 <= c) ->
  key <= slot_start pnn c ->
  (forall k, is_leaf_key t k -> k < slot_start pnn c -> k < key) ->
  walk_inv t key (Scan pn c).
Proof.
  intros Hpn Hint Hc Hroot Hk Hleaves. exists pnn.
  split; [done |]. split; [done |]. split; [lia |]. split; [done |].
  pose proof (wf_trie_node_ok t pn pnn Hwf Hpn) as (Hp0 & Hb0 & _).
  destruct (Z.ltb_spec c (2 ^ kv_bits pnn)) as [Hlt | Hge]; [done |].
  assert (c = 2 ^ kv_bits pnn) as -> by lia.
  rewrite slot_start_end in * by done.
  pose proof (range_end_slot_end t Hwf pn pnn Hpn Hint).
  split; [lia |]. intros k Hlk Hlt. apply Hleaves; [done |].
  by apply (leaf_before_slot_end t Hwf pn pnn).
Qed.

Lemma wf_trie_leaf_key_bound k : is_leaf_key t k -> 0 <= k < 2 ^ 32.
Proof.
  intros (p & s & l & Hp).
  destruct (decide (p = [])) as [-> | Hne].
  - pose proof Hwf as (e & f & c & Ht & _)%wf_trie_root.
    rewrite Ht in Hp. done.
  - destruct (wf_trie_get t p _ Hwf Hp Hne) as [Hw _].
    by apply wf_yesde_key in Hw.
Qed.

(** Only the root has [pos >= KEYLENGTH]. *)
Lemma wf_trie_is_trie pn pnn :
  get_yesde t pn = Some pnn -> pn = [] \/ IS_TNODE pnn = true ->
  IS_TRIE pnn = true <-> pn = [].
Proof.
  intros Hpn Hint. split.
  - intros Htrie. destruct pn as [|i pp]; [done |]. exfalso.
    destruct Hint as [| Hint]; [done |].
    destruct (wf_trie_get t (i :: pp) pnn Hwf Hpn) as [Hw Hd]; [done |].
    pose proof (wf_yesde_pos_bits pnn Hw) as (_ & Hb & _).
    unfold IS_TRIE in Htrie. apply Z.leb_le in Htrie.
    unfold IS_TNODE in Hint. apply negb_true_iff, Z.eqb_neq in Hint.
    simpl length in Hd. unfold KEYLENGTH in *. lia.
  - intros ->. pose proof Hwf as (e & f & c & Ht & _)%wf_trie_root.
    rewrite Ht in Hpn. by injection Hpn as <-.
Qed.

(** The notation of progress: a pass leads to a state that keeps the
    invariant at a smaller cost, or returns what is asked for. *)
Definition walk_progress (s : walk_state) : Prop :=
  (exists s', leaf_walk_step t key s = Some (inl s') /\
              walk_inv t key s' /\
              (state_cost t s' < state_cost t s)%nat) \/
  (exists r, leaf_walk_step t key s = Some (inr r) /\ walk_post t key r).

Lemma scan_step pn c : walk_inv t key (Scan pn c) -> walk_progress (Scan pn c).
Proof.
  intros (pnn & Hpn & Hint & Hc0 & Hroot & Hk & Hleaves).
  pose proof (wf_trie_node_ok t pn pnn Hwf Hpn) as (Hp0 & Hb0 & _).
  pose proof (wf_trie_is_trie pn pnn Hpn Hint) as Htrie.
  unfold walk_progress. cbn [leaf_walk_step]. rewrite Hpn.
  cbn [mbind option_bind].
  destruct (IS_TRIE pnn).
  { (* back at the root: no leaf is left *)
    right. exists (pn, None). split; [done |].
    rewrite (proj1 Htrie eq_refl) in *.
    pose proof Hwf as (e & f & c' & Ht & _)%wf_trie_root.
    rewrite Ht in Hpn. injection Hpn as <-. simpl in Hleaves, Hk.
    specialize (Hroot eq_refl).
    destruct (Z.ltb_spec c (2 ^ 0)) as [Hlt | _]; [simpl in Hlt; lia |].
    intros k Hlk. apply Hleaves; [done |].
    apply wf_trie_leaf_key_bound in Hlk. unfold KEYLENGTH. lia. }
  destruct pn as [|i pp]; [by destruct Htrie as [_ Htrie]; discriminate Htrie |].
  destruct Hint as [| Hint]; [done |].
  pose proof Hpn as Hpn'. rewrite get_yesde_cons in Hpn'.
  destruct (get_yesde t pp) as [ppn|] eqn:Hpp; simpl in Hpn'; [| done].
  pose proof (wf_trie_length t _ pnn Hwf Hpn (or_intror Hint)) as Hlen.
  destruct (Z.leb_spec (2 ^ kv_bits pnn) c) as [Hex | Hin].
  { (* the node is exhausted: climb *)
    left. simpl in Hk, Hleaves. rewrite Hpp in Hk, Hleaves.
    destruct (Z.ltb_spec c (2 ^ kv_bits pnn)) as [| _]; [lia |].
    assert (Hidx : get_index (kv_key pnn) ppn = i).
    { destruct (wf_trie_below t pp ppn [i] pnn Hwf Hpp Hpn)
        as (_ & j & q' & Heq & _ & Hs); [done |].
      apply (app_inj_tail [] q' i j) in Heq as [_ <-]. exact Hs. }
    cbn [mbind option_bind]. rewrite Hidx. exists (Scan pp (i + 1)). split; [done |].
    pose proof (wf_trie_parent_internal t pp ppn i pnn Hwf Hpp Hpn') as Hpint.
    destruct (child_in_slot t Hwf pp ppn Hpp i pnn Hpn') as (Hi & _).
    split.
    - apply (scan_inv_intro pp ppn); try done; lia.
    - cbn [state_cost]. rewrite (scan_cost_eq t (i :: pp) pnn) by done.
      pose proof (rem_from_pos pnn c). lia. }
  simpl in Hk, Hleaves.
  destruct (Z.ltb_spec c (2 ^ kv_bits pnn)) as [_ |]; [| lia].
  assert (Hslot : kv_tyesde pnn !! Z.to_nat c = Some (get_child pnn c)).
  { apply get_child_slot; lia. }
  pose proof (slot_start_mono pnn c (c + 1) Hp0 ltac:(lia)) as Hmono.
  destruct (get_child pnn c) as [x|] eqn:Hx.
  2:{ (* an empty slot: on to the next *)
    left. exists (Scan (i :: pp) (c + 1)). split; [done |]. split.
    - apply (scan_inv_intro _ pnn); try done; try lia; [by right |].
      intros k Hlk Hlt.
      destruct (Z.lt_ge_cases k (slot_start pnn c)) as [| Hge];
        [by apply Hleaves |].
      destruct (leaf_in_slot t Hwf _ pnn Hpn (or_intror Hint) c k Hlk)
        as (x & Hx' & _); [lia | lia | congruence].
    - cbn [state_cost]. rewrite !(scan_cost_eq t (i :: pp) pnn) by done.
      rewrite (rem_from_step pnn c None) by (done || lia).
      cbn [slot_cost]. lia. }
  destruct (child_in_slot t Hwf _ pnn Hpn c x Hx) as (_ & Hxlo & Hxhi).
  pose proof (child_ptr t _ pnn Hpn c x Hx) as Hcx.
  assert (Hwx : wf_yesde x = true).
  { by apply (wf_trie_get t (c :: i :: pp) x Hwf Hcx). }
  pose proof (range_end_gt x (wf_yesde_node_ok x Hwx)) as Hxr.
  unfold IS_LEAF. destruct (Z.eqb_spec (kv_bits x) 0) as [Hb | Hb].
  - (* the next leaf *)
    right. exists (i :: pp, Some (c :: i :: pp)). split; [done |].
    destruct (wf_yesde_is_leaf x Hwx) as (s & l & Hxl).
    { unfold IS_TNODE. rewrite Hb. done. }
    exists c, (kv_key x), s, l. split; [done |].
    split; [by rewrite Hcx, Hxl at 1 |]. split; [lia |].
    intros k' Hlk' Hk'.
    destruct (Z.lt_ge_cases k' (kv_key x)) as [Hlt |]; [| lia]. exfalso.
    destruct (Z.lt_ge_cases k' (slot_start pnn c)) as [Hlt' | Hge].
    { specialize (Hleaves k' Hlk' Hlt'). lia. }
    destruct (leaf_in_slot t Hwf _ pnn Hpn (or_intror Hint) c k' Hlk')
      as (x' & Hx' & _ & Heq); [lia | lia |].
    rewrite Hx in Hx'. injection Hx' as <-.
    rewrite Heq in Hlt; [lia |]. unfold IS_TNODE. by rewrite Hb.
  - (* an internal node: scan it from its first slot *)
    assert (Htx : IS_TNODE x = true).
    { unfold IS_TNODE. by apply negb_true_iff, Z.eqb_neq. }
    left. exists (Scan (c :: i :: pp) 0). split; [done |]. split.
    + pose proof (wf_yesde_node_ok x Hwx) as (Hxp & Hxb & _).
      apply (scan_inv_intro _ x); try done.
      * by right.
      * pose proof (pow2_pos (kv_bits x) Hxb). lia.
      * rewrite slot_start_0. lia.
      * rewrite slot_start_0. intros k Hlk Hlt.
        destruct (Z.lt_ge_cases k (slot_start pnn c)) as [| Hge];
          [by apply Hleaves |].
        destruct (leaf_in_slot t Hwf _ pnn Hpn (or_intror Hint) c k Hlk)
          as (x' & Hx' & Hr & _); [lia | lia |].
        rewrite Hx in Hx'. injection Hx' as <-. lia.
    + cbn [state_cost].
      rewrite (scan_cost_eq t (c :: i :: pp) x) by done.
      rewrite (scan_cost_eq t (i :: pp) pnn c) by done.
      rewrite (scan_cost_eq t (i :: pp) pnn (c + 1)) by done.
      rewrite (rem_from_step pnn c (Some x)) by (done || lia).
      cbn [slot_cost]. rewrite (walk_cost_tyesde x Htx). lia.
Qed.

Lemma seek_step n : walk_inv t key (Seek n) -> walk_progress (Seek n).
Proof.
  intros (nn & Hn & Hint & HJ & HK).
  pose proof (wf_trie_node_ok t n nn Hwf Hn) as (Hp0 & Hb0 & Hpb & Hk0 & Hal & _).
  pose proof (wf_trie_length t n nn Hwf Hn Hint) as Hlen.
  pose proof (pow2_pos (kv_bits nn) Hb0) as Hpow.
  unfold walk_progress. cbn [leaf_walk_step]. rewrite Hn.
  cbn [mbind option_bind].
  assert (Hfacts : forall c,
    c = (if kv_key nn <? key then get_index key nn else 0) ->
    0 <= c /\
    (2 ^ kv_bits nn <= c -> range_end nn <= key) /\
    (c < 2 ^ kv_bits nn ->
     key < slot_start nn (c + 1) /\
     forall k, is_leaf_key t k -> k < slot_start nn c -> k < key)).
  { intros c ->. destruct (Z.ltb_spec (kv_key nn) key) as [Hlt | Hge].
    - rewrite get_index_cindex. unfold get_cindex.
      assert (Hnn : 0 <= Z.shiftr (Z.lxor key (kv_key nn)) (kv_pos nn)).
      { apply Z.shiftr_nonneg, lxor_nonneg_2; lia. }
      split; [done |]. split.
      + intros Hbig.
        destruct (Z.lt_ge_cases key (range_end nn)) as [Hin |]; [| done].
        exfalso.
        assert (Hz : Z.shiftr (Z.lxor key (kv_key nn))
                       (kv_pos nn + kv_bits nn) = 0).
        { apply shiftr_lxor_range; try done; try lia.
          unfold range_end in Hin. lia. }
        apply shiftr_index_small in Hz; try done; [lia |].
        apply lxor_nonneg_2; lia.
      + intros Hsmall.
        pose proof (proj1 (shiftr_lxor_slot (kv_key nn) key (kv_pos nn)
                      (kv_bits nn) _ Hp0 Hb0 Hk0 ltac:(lia) Hal
                      (conj Hnn Hsmall)) eq_refl) as Hslot.
        fold (slot_start nn (Z.shiftr (Z.lxor key (kv_key nn)) (kv_pos nn)))
          in Hslot.
        fold (slot_start nn
                (Z.shiftr (Z.lxor key (kv_key nn)) (kv_pos nn) + 1))
          in Hslot.
        split; [lia |]. intros k _ Hk. lia.
    - split; [done |]. split; [lia |]. intros _.
      rewrite slot_start_0. unfold slot_start.
      pose proof (pow2_pos (kv_pos nn) Hp0). split; [lia |].
      intros k Hlk Hk. apply HJ; [done | lia]. }
  destruct (Hfacts _ eq_refl) as (Hc0 & Hbig & Hsmall). clear Hfacts.
  revert Hc0 Hbig Hsmall.
  generalize (if kv_key nn <? key then get_index key nn else 0).
  intros c Hc0 Hbig Hsmall.
  pose proof (scan_cost_mono t n 0 c ltac:(lia)) as Hcost.
  pose proof (scan_cost_mono t n c (c + 1) ltac:(lia)) as Hcost1.
  destruct (Z.eqb_spec (Z.shiftr c (kv_bits nn)) 0) as [Hz | Hnz];
    cbn [negb].
  2:{ (* the key lies behind the node *)
    assert (Hge : 2 ^ kv_bits nn <= c).
    { destruct (Z.lt_ge_cases c (2 ^ kv_bits nn)) as [Hlt |]; [| done].
      by apply shiftr_eq0_iff in Hlt. }
    left. exists (Scan n c). split; [done |]. split.
    - exists nn. split; [done |]. split; [done |]. split; [done |].
      split; [lia |]. cbv zeta.
      destruct (Z.ltb_spec c (2 ^ kv_bits nn)) as [| _]; [lia |].
      split; [done |]. intros k Hlk Hk.
      pose proof (leaf_before_slot_end t Hwf n nn Hn Hint k Hlk Hk). lia.
    - cbn [state_cost]. lia. }
  apply shiftr_eq0_iff in Hz; [| done | done].
  destruct (Hsmall Hz) as [HU1 HU2].
  pose proof (slot_start_mono nn c (c + 1) Hp0 ltac:(lia)) as Hmono.
  assert (Hnext : (forall k, is_leaf_key t k ->
                     slot_start nn c <= k < slot_start nn (c + 1) -> k < key) ->
                  walk_inv t key (Scan n (c + 1))).
  { intros Hin. apply (scan_inv_intro n nn); try done; try lia.
    intros k Hlk Hk.
    destruct (Z.lt_ge_cases k (slot_start nn c)) as [| Hge];
      [by apply HU2 |]. apply Hin; [done | lia]. }
  destruct (get_child nn c) as [x|] eqn:Hx.
  2:{ (* an empty slot *)
    left. exists (Scan n (c + 1)). split; [done |]. split.
    - apply Hnext. intros k Hlk Hk.
      destruct (leaf_in_slot t Hwf n nn Hn Hint c k Hlk)
        as (x & Hx' & _); [lia | lia | congruence].
    - cbn [state_cost]. lia. }
  destruct (child_in_slot t Hwf n nn Hn c x Hx) as (_ & Hxlo & Hxhi).
  pose proof (child_ptr t n nn Hn c x Hx) as Hcx.
  assert (Hwx : wf_yesde x = true).
  { by apply (wf_trie_get t (c :: n) x Hwf Hcx). }
  pose proof (range_end_gt x (wf_yesde_node_ok x Hwx)) as Hxr.
  assert (Hsame : forall k, is_leaf_key t k ->
            slot_start nn c <= k < slot_start nn (c + 1) ->
            kv_key x <= k < range_end x /\
            (IS_TNODE x = false -> kv_key x = k)).
  { intros k Hlk Hk.
    destruct (leaf_in_slot t Hwf n nn Hn Hint c k Hlk)
      as (x' & Hx' & Hr); [lia | lia |].
    rewrite Hx in Hx'. by injection Hx' as <-. }
  unfold IS_LEAF, IS_TNODE.
  destruct (Z.eqb_spec (kv_bits x) 0) as [Hb | Hb]; cbn [andb negb].
  - assert (Htx : IS_TNODE x = false) by (unfold IS_TNODE; by rewrite Hb).
    destruct (Z.leb_spec key (kv_key x)) as [Hle | Hgt].
    + (* the leaf of the key, or the first one behind it *)
      right. exists (n, Some (c :: n)). split; [done |].
      destruct (wf_yesde_is_leaf x Hwx Htx) as (s & l & Hxl).
      exists c, (kv_key x), s, l. split; [done |].
      split; [by rewrite Hcx, Hxl at 1 |]. split; [done |].
      intros k' Hlk' Hk'.
      destruct (Z.lt_ge_cases k' (kv_key x)) as [Hlt |]; [| lia]. exfalso.
      destruct (Z.lt_ge_cases k' (slot_start nn c)) as [Hlt' | Hge].
      { specialize (HU2 k' Hlk' Hlt'). lia. }
      destruct (Hsame k' Hlk') as [_ Heq]; [lia |].
      specialize (Heq Htx). lia.
    + (* a leaf before the key: the next leaf is wanted *)
      left. exists (Scan n (c + 1)). split; [done |]. split.
      * apply Hnext. intros k Hlk Hk.
        destruct (Hsame k Hlk Hk) as [_ Heq]. specialize (Heq Htx). lia.
      * cbn [state_cost]. lia.
  - (* an internal node: look for the key there *)
    assert (Htx : IS_TNODE x = true).
    { unfold IS_TNODE. by apply negb_true_iff, Z.eqb_neq. }
    replace (IS_LEAF x && (key <=? kv_key x)) with false.
    2:{ unfold IS_LEAF. by rewrite (proj2 (Z.eqb_neq _ _) Hb). }
    left. exists (Seek (c :: n)). split; [done |]. split.
    + exists x. split; [done |]. split; [by right |]. split.
      * intros k Hlk Hk.
        destruct (Z.lt_ge_cases k (slot_start nn c)) as [| Hge];
          [by apply HU2 |].
        destruct (Hsame k Hlk) as [Hr _]; lia.
      * cbn [slot_end_of]. rewrite Hn. lia.
    + cbn [state_cost].
      assert (Hslot : kv_tyesde nn !! Z.to_nat c = Some (Some x)).
      { rewrite <- Hx. apply get_child_slot; lia. }
      rewrite (scan_cost_eq t (c :: n) x) by done.
      rewrite (scan_cost_eq t n nn c) in Hcost by done.
      rewrite (rem_from_step nn c (Some x)) in Hcost by (done || lia).
      cbn [slot_cost] in Hcost. rewrite (walk_cost_tyesde x Htx) in Hcost.
      rewrite (scan_cost_eq t n nn (c + 1)) by done. lia.
Qed.

Lemma walk_step s : walk_inv t key s -> walk_progress s.
Proof. destruct s; [apply seek_step | apply scan_step]. Qed.

(** With fuel for the cost of the state, the walk returns. *)
Lemma leaf_walk_run_spec fuel s :
  walk_inv t key s -> (state_cost t s <= fuel)%nat ->
  exists r, leaf_walk_run t key fuel s = Some r /\ walk_post t key r.
Proof.
  revert s. induction fuel as [|fuel IH]; intros s Hinv Hcost.
  - exfalso. destruct s as [n | pn c]; [cbn [state_cost] in Hcost; lia |].
    destruct Hinv as (pnn & Hpn & _). cbn [state_cost] in Hcost.
    rewrite (scan_cost_eq t pn pnn) in Hcost by done.
    pose proof (rem_from_pos pnn c). lia.
  - cbn [leaf_walk_run].
    destruct (walk_step s Hinv) as [(s' & -> & Hinv' & Hlt) | (r & -> & Hr)].
    + apply IH; [done | lia].
    + eauto.
Qed.
End walk.

(** ** Fuel for the walk *)

Lemma walk_cost_slots n : (walk_cost n <= 2 * slots n)%nat.
Proof.
  induction n as [k s l | k p b s e f c IH] using key_vector_ind';
    [simpl; lia |].
  cbn [walk_cost slots].
  assert (H : (foldr Nat.add O
                 (map (fun o => match o with
                                | Some x => walk_cost x
                                | None => 1
                                end) c)
               <= 2 * foldr Nat.add O
                      (map (fun o => match o with
                                     | Some x => slots x
                                     | None => 1
                                     end) c))%nat).
  { induction IH as [|o c Ho Hc IHc]; simpl; [lia |].
    destruct o as [x|]; simpl in Ho; lia. }
  lia.
Qed.

Lemma seek_cost_bound t tn tnn :
  wf_trie t = true -> get_yesde t tn = Some tnn ->
  tn = [] \/ IS_TNODE tnn = true ->
  (state_cost t (Seek tn) <= S (walk_cost t))%nat.
Proof.
  intros Hwf. revert tnn. induction tn as [|c n IH]; intros tnn Htn Hint.
  - cbn [state_cost]. rewrite (scan_cost_eq t [] tnn) by done.
    injection Htn as <-.
    pose proof Hwf as (e & f & c & -> & _)%wf_trie_root.
    cbn [walk_cost]. unfold rem_from, slot_cost. simpl. lia.
  - destruct Hint as [| Hint]; [done |].
    pose proof Htn as Htn'. rewrite get_yesde_cons in Htn'.
    destruct (get_yesde t n) as [nn|] eqn:Hn; simpl in Htn'; [| done].
    pose proof (wf_trie_parent_internal t n nn c tnn Hwf Hn Htn') as Hpint.
    specialize (IH nn eq_refl Hpint).
    destruct (child_in_slot t Hwf n nn Hn c tnn Htn') as (Hc & _).
    pose proof (wf_trie_length t n nn Hwf Hn Hpint) as Hlen.
    assert (Hslot : kv_tyesde nn !! Z.to_nat c = Some (Some tnn)).
    { rewrite <- Htn'. apply get_child_slot; lia. }
    pose proof (scan_cost_mono t n 0 c ltac:(lia)) as Hcost.
    cbn [state_cost] in *.
    rewrite (scan_cost_eq t (c :: n) tnn) by done.
    rewrite (scan_cost_eq t n nn c) in Hcost by done.
    rewrite (rem_from_step nn c (Some tnn)) in Hcost by (done || lia).
    cbn [slot_cost] in Hcost. rewrite (walk_cost_tyesde tnn Hint) in Hcost.
    rewrite (scan_cost_eq t n nn (c + 1)) by done. lia.
Qed.

(** [leaf_walk_rcu] from a state that keeps the invariant. *)
Lemma leaf_walk_rcu_spec t tn key :
  wf_trie t = true -> 0 <= key < 2 ^ 32 -> walk_inv t key (Seek tn) ->
  exists r, leaf_walk_rcu t tn key = Some r /\ walk_post t key r.
Proof.
  intros Hwf Hkey Hinv. unfold leaf_walk_rcu.
  apply leaf_walk_run_spec; try done.
  destruct Hinv as (tnn & Htn & Hint & _).
  pose proof (seek_cost_bound t tn tnn Hwf Htn Hint).
  pose proof (walk_cost_slots t). lia.
Qed.

Lemma walk_inv_root t key :
  wf_trie t = true -> 0 <= key < 2 ^ 32 -> walk_inv t key (Seek []).
Proof.
  intros Hwf Hkey. exists t. split; [done |]. split; [by left |].
  pose proof Hwf as (e & f & c & -> & _)%wf_trie_root. split.
  - intros k Hlk%wf_trie_leaf_key_bound; [| done]. simpl. lia.
  - simpl. unfold KEYLENGTH. lia.
Qed.


(** * The dump of a table *)

(** [leaf_keys] lists the keys of the leaves. *)
Lemma get_yesde_snoc n q j :
  get_yesde n (q ++ [j]) = get_child n j ≫= fun x => get_yesde x q.
Proof. by rewrite get_yesde_app. Qed.

Lemma leaf_keys_spec n k :
  k ∈ leaf_keys n <-> exists p s l, get_yesde n p = Some (Leaf k s l).
Proof.
  induction n as [k' s' l' | k' p' b s' e f c IH] using key_vector_ind'.
  - simpl. rewrite list_elem_of_singleton. split.
    + intros ->. by exists [], s', l'.
    + intros (p & s & l & Hp). pose proof (get_yesde_leaf _ _ _ _ _ Hp) as ->.
      simpl in Hp. by injection Hp.
  - cbn [leaf_keys]. rewrite list_elem_of_In, in_concat. split.
    + intros (ks & Hks & Hk). apply in_map_iff in Hks as (o & <- & Ho).
      destruct o as [x|]; [| done].
      apply list_elem_of_In, list_elem_of_lookup in Ho as (j & Hj).
      rewrite Forall_lookup in IH. specialize (IH j _ Hj). simpl in IH.
      apply list_elem_of_In, IH in Hk as (q & s & l & Hq).
      exists (q ++ [Z.of_nat j]), s, l.
      rewrite get_yesde_snoc, get_child_of_nat. simpl. by rewrite Hj.
    + intros (p & s & l & Hp).
      destruct p as [|j q _] using rev_ind; [done |].
      rewrite get_yesde_snoc in Hp.
      destruct (get_child _ j) as [x|] eqn:Hx; simpl in Hp; [| done].
      apply get_child_Some in Hx as [Hj Hx]. simpl in Hx.
      rewrite Forall_lookup in IH. pose proof (IH _ _ Hx) as IHx.
      simpl in IHx. exists (leaf_keys x). split.
      * apply in_map_iff. exists (Some x). split; [done |].
        apply list_elem_of_In. by eapply list_elem_of_lookup_2.
      * apply list_elem_of_In, IHx. eauto.
Qed.

Lemma is_leaf_key_spec t k : is_leaf_key t k <-> k ∈ leaf_keys t.
Proof. symmetry. apply leaf_keys_spec. Qed.

Lemma leaf_keys_slots n : (length (leaf_keys n) <= slots n)%nat.
Proof.
  induction n as [k s l | k p b s e f c IH] using key_vector_ind';
    [simpl; lia |].
  cbn [leaf_keys slots].
  assert (H : (length (concat (map (fun o => match o with
                                             | Some x => leaf_keys x
                                             | None => []
                                             end) c))
               <= foldr Nat.add O
                    (map (fun o => match o with
                                   | Some x => slots x
                                   | None => 1%nat
                                   end) c))%nat).
  { induction IH as [|o c Ho Hc IHc]; simpl; [lia |].
    rewrite length_app. destruct o as [x|]; simpl in *; lia. }
  lia.
Qed.

(** A dump that has visited the leaf of [k] has fewer leaves to
    visit. *)
Lemma leaves_from_next t key k :
  k ∈ leaf_keys t -> key <= k ->
  (length (leaves_from t (k + 1)) < length (leaves_from t key))%nat.
Proof.
  unfold leaves_from. generalize (leaf_keys t). intros ks Hk Hle.
  induction ks as [|a ks IH]; [by apply elem_of_nil in Hk |].
  assert (Hmono : (length (filter (fun x => (k + 1 <= x)%Z) ks)
                   <= length (filter (fun x => (key <= x)%Z) ks))%nat).
  { clear IH Hk. induction ks as [|b ks IH]; [done |].
    rewrite !filter_cons.
    destruct (decide (k + 1 <= b)), (decide (key <= b)); simpl; lia. }
  rewrite !filter_cons.
  apply elem_of_cons in Hk as [<- | Hk].
  - destruct (decide (k + 1 <= k)); [lia |].
    destruct (decide (key <= k)); [simpl; lia | lia].
  - specialize (IH Hk).
    destruct (decide (k + 1 <= a)), (decide (key <= a)); simpl; lia.
Qed.

(** The parent of a leaf is where the walk for the next key may
    start. *)
Lemma walk_inv_restart t tp i k s l :
  wf_trie t = true -> get_yesde t (i :: tp) = Some (Leaf k s l) ->
  walk_inv t (k + 1) (Seek tp).
Proof.
  intros Hwf Hl. pose proof Hl as Hl'. rewrite get_yesde_cons in Hl'.
  destruct (get_yesde t tp) as [tpn|] eqn:Htp; simpl in Hl'; [| done].
  pose proof (wf_trie_parent_internal t tp tpn i _ Hwf Htp Hl') as Hint.
  pose proof (wf_trie_node_ok t tp tpn Hwf Htp) as (Hp0 & Hb0 & _).
  destruct (child_in_slot t Hwf tp tpn Htp i _ Hl') as (Hi & Hlo & Hhi).
  pose proof (slot_start_mono tpn 0 i Hp0 ltac:(lia)) as H1.
  pose proof (slot_start_mono tpn (i + 1) (2 ^ kv_bits tpn) Hp0 ltac:(lia))
    as H2.
  rewrite slot_start_0 in H1. rewrite slot_start_end in H2 by done.
  pose proof (range_end_slot_end t Hwf tp tpn Htp Hint) as H3.
  unfold range_end in Hhi at 1. simpl in Hhi, Hlo.
  change (2 ^ (0 + 0)) with 1 in Hhi.
  exists tpn. split; [done |]. split; [done |]. split; [| lia].
  intros k0 _ Hk0. lia.
Qed.

Section dump.
Context (dump_leaf : key_vector -> Z) (t : key_vector).
Context (Hwf : wf_trie t = true).
Context (Hroom : forall ln, 0 <= dump_leaf ln).

(** The loop of [fib_table_dump] from [key] on, when the message never
    is full. *)
Lemma fib_table_dump_loop_spec fuel tp key :
  0 <= key < 2 ^ 32 -> walk_inv t key (Seek tp) ->
  (length (leaves_from t key) < fuel)%nat ->
  exists ls,
    fib_table_dump_loop dump_leaf fuel t tp key = Some (ls, 0) /\
    StronglySorted Z.lt (map kv_key ls) /\
    (forall ln, ln ∈ ls ->
       exists p k s l, get_yesde t p = Some ln /\ ln = Leaf k s l) /\
    (forall k, k ∈ map kv_key ls <-> is_leaf_key t k /\ key <= k).
Proof.
  revert tp key. induction fuel as [|fuel IH]; intros tp key Hkey Hinv Hfuel;
    [lia |].
  cbn [fib_table_dump_loop].
  destruct (leaf_walk_rcu_spec t tp key Hwf Hkey Hinv) as ([tp' r] & -> & Hpost).
  cbn [mbind option_bind]. destruct r as [lp|].
  2:{ (* no leaf is left *)
    exists []. split; [done |]. split; [constructor |].
    split; [by intros ln Hln%elem_of_nil |].
    intros k. simpl. split; [by intros Hk%elem_of_nil |].
    intros [Hlk Hk]. specialize (Hpost k Hlk). lia. }
  destruct Hpost as (i & k & s & l & -> & Hl & Hk & Hmin).
  rewrite Hl. cbn [mbind option_bind].
  assert (Hlk : is_leaf_key t k) by (by exists (i :: tp'), s, l).
  pose proof (wf_trie_leaf_key_bound t Hwf k Hlk) as Hkb.
  destruct (Z.ltb_spec (dump_leaf (Leaf k s l)) 0) as [Hneg |];
    [specialize (Hroom (Leaf k s l)); lia |].
  cbn [kv_key].
  assert (Hone : forall k', k' ∈ [k] <-> k' = k)
    by (intros; apply list_elem_of_singleton).
  assert (Hhere : exists p k0 s0 l0, get_yesde t p = Some (Leaf k s l) /\
                                     Leaf k s l = Leaf k0 s0 l0)
    by (by exists (i :: tp'), k, s, l).
  destruct (Z.eq_dec (k + 1) (2 ^ 32)) as [Hlast | Hmore].
  - (* the key space ends here *)
    rewrite Hlast. change (u32 (2 ^ 32)) with 0.
    destruct (Z.ltb_spec 0 k) as [_ |]; [| lia].
    exists [Leaf k s l]. split; [done |].
    split; [repeat constructor |]. split.
    + by intros ln ->%list_elem_of_singleton.
    + intros k'. simpl. rewrite Hone. split.
      * by intros ->.
      * intros [Hlk' Hk']. specialize (Hmin k' Hlk' Hk').
        apply wf_trie_leaf_key_bound in Hlk'; [lia | done].
  - rewrite u32_small by lia.
    destruct (Z.ltb_spec (k + 1) k) as [| _]; [lia |].
    destruct (IH tp' (k + 1)) as (ls & -> & Hsorted & Hleaves & Hall).
    + lia.
    + by eapply walk_inv_restart.
    + pose proof (leaves_from_next t key k (proj1 (is_leaf_key_spec t k) Hlk)
                    Hk). lia.
    + cbn [mbind option_bind fst snd].
      exists (Leaf k s l :: ls). split; [done |]. split; [| split].
      * simpl. constructor; [done |]. apply Forall_forall.
        intros k' [_ Hk']%Hall. lia.
      * intros ln [-> | Hln]%elem_of_cons; [done | by apply Hleaves].
      * intros k'. simpl. rewrite elem_of_cons, Hall. split.
        -- intros [-> | [Hlk' Hk']]; [done |]. split; [done | lia].
        -- intros [Hlk' Hk']. specialize (Hmin k' Hlk' Hk').
           destruct (Z.eq_dec k' k); [by left |]. right. split; [done | lia].
Qed.
End dump.

(** C10: on a well-formed trie [leaf_walk_rcu] from the root returns,
    for every 32-bit key, the leaf with the smallest key from that key
    on (as a child of the new [*tn]), or NULL when no leaf has such a
    key; and [fib_table_dump] from key 0, when the message never is
    full, hands every leaf of the trie once to [fn_trie_dump_leaf], in
    the strictly increasing order of the keys. *)
Theorem leaf_walk_in_key_order (t : key_vector) :
  wf_trie t = true ->
  (forall key, 0 <= key < 2 ^ 32 ->
     exists r, leaf_walk_rcu t [] key = Some r /\ walk_post t key r) /\
  (forall dump_leaf, (forall ln, 0 <= dump_leaf ln) ->
     exists ls,
       fib_table_dump dump_leaf t 0 = Some (ls, 0) /\
       StronglySorted Z.lt (map kv_key ls) /\
       (forall ln, ln ∈ ls ->
          exists p k s l, get_yesde t p = Some ln /\ ln = Leaf k s l) /\
       (forall k, is_leaf_key t k <-> k ∈ map kv_key ls)).
Proof.
  intros Hwf. split.
  - intros key Hkey. apply leaf_walk_rcu_spec; [done | done |].
    by apply walk_inv_root.
  - intros dump_leaf Hroom. unfold fib_table_dump.
    destruct (fib_table_dump_loop_spec dump_leaf t Hwf Hroom
                (S (slots t)) [] 0) as (ls & Hdump & Hsorted & Hleaves & Hall).
    + lia.
    + apply walk_inv_root; [done | lia].
    + unfold leaves_from. pose proof (leaf_keys_slots t).
      pose proof (length_filter (fun k => 0 <= k) (leaf_keys t)). lia.
    + exists ls. split; [done |]. split; [done |]. split; [done |].
      intros k. rewrite Hall. split; [| by intros [? _]].
      intros Hlk. split; [done |].
      apply wf_trie_leaf_key_bound in Hlk; [lia | done].
Qed.

(** The walk from 10.0.0.1 in the table of the two example routes, and
    the dump of that table. *)
Lemma leaf_walk_in_key_order_witness :
  wf_trie (kv (world_after example_two_routes)) = true /\
  (exists r, leaf_walk_rcu (kv (world_after example_two_routes)) []
               (ipv4 10 0 0 1) = Some r /\
             walk_post (kv (world_after example_two_routes))
               (ipv4 10 0 0 1) r) /\
  exists ls, fib_table_dump (fun _ => 0)
               (kv (world_after example_two_routes)) 0 = Some (ls, 0) /\
             StronglySorted Z.lt (map kv_key ls).
Proof.
  set (w := world_after example_two_routes).
  assert (Hwf : wf_trie (kv w) = true) by (vm_compute; reflexivity).
  clearbody w. split; [exact Hwf |].
  destruct (leaf_walk_in_key_order (kv w) Hwf) as [Hwalk Hdump]. split.
  - apply Hwalk. unfold ipv4. lia.
  - destruct (Hdump (fun _ => 0)) as (ls & Hls & Hsorted & _); [done |].
    exists ls. split; [exact Hls | exact Hsorted].
Defined.


(** * The child counters of a node *)

(** The slots of [c] that satisfy [P]. *)
Fixpoint count_slots (P : option key_vector -> bool)
    (c : list (option key_vector)) : Z :=
  match c with
  | [] => 0
  | o :: c' => (if P o then 1 else 0) + count_slots P c'
  end.

Definition slot_null (o : option key_vector) : bool :=
  match o with None => true | Some _ => false end.

(** The NULL slots, the children and the full children of a node. *)
Definition null_slots (tn : key_vector) : Z :=
  count_slots slot_null (kv_tyesde tn).

Definition child_count (tn : key_vector) : Z :=
  count_slots (fun o => negb (slot_null o)) (kv_tyesde tn).

Definition full_slots (tn : key_vector) : Z :=
  count_slots (tyesde_full tn) (kv_tyesde tn).

(** [counters_ok tn]: [empty_children] counts the NULL slots and
    [full_children] the full children; when all [2 ^ 32] slots of a node
    with 32 bits are NULL, [empty_children] has wrapped to 0 and the
    carry [x] sits in [full_children]. *)
Definition counters_ok (tn : key_vector) : Prop :=
  0 <= kv_empty_children tn < 2 ^ 32 /\
  exists x, (x = 0 \/ x = 1) /\
            null_slots tn = kv_empty_children tn + 2 ^ 32 * x /\
            kv_full_children tn = full_slots tn + x.

(** The fields of a node that [put_child] reads are those of an
    object of the kernel. *)
Definition fields_ok (n : key_vector) : Prop :=
  0 <= kv_pos n /\ 0 <= kv_bits n.

Lemma count_slots_nonneg P c : 0 <= count_slots P c.
Proof. induction c as [|o c IH]; simpl; [done |]. destruct (P o); lia. Qed.

Lemma count_slots_length P c : count_slots P c <= Z.of_nat (length c).
Proof. induction c as [|o c IH]; simpl; [done |]. destruct (P o); lia. Qed.

Lemma count_slots_split c :
  count_slots slot_null c + count_slots (fun o => negb (slot_null o)) c
  = Z.of_nat (length c).
Proof.
  induction c as [|o c IH]; simpl; [done |]. destruct (slot_null o); simpl; lia.
Qed.

Lemma count_slots_insert P c i a x :
  c !! i = Some a ->
  count_slots P (<[i := x]> c)
  = count_slots P c - (if P a then 1 else 0) + (if P x then 1 else 0).
Proof.
  revert i. induction c as [|o c IH]; intros [|i] Hi; simplify_eq/=.
  - lia.
  - rewrite (IH i Hi). lia.
Qed.

Lemma count_slots_ext P Q c :
  (forall o, P o = Q o) -> count_slots P c = count_slots Q c.
Proof. intros H. induction c as [|o c IH]; simpl; [done |]. by rewrite H, IH. Qed.

Lemma count_slots_le P Q c :
  (forall o, P o = true -> Q o = true) -> count_slots P c <= count_slots Q c.
Proof.
  intros H. induction c as [|o c IH]; simpl; [done |].
  destruct (P o) eqn:HP; [rewrite (H _ HP); lia |]. destruct (Q o); lia.
Qed.

Lemma count_slots_replicate P o n :
  count_slots P (replicate n o) = if P o then Z.of_nat n else 0.
Proof.
  induction n as [|n IH]; simpl; [by destruct (P o) |].
  rewrite IH. destruct (P o); lia.
Qed.

Lemma u32_inc e :
  0 <= e < 2 ^ 32 -> u32 (e + 1) = if e =? 2 ^ 32 - 1 then 0 else e + 1.
Proof.
  intros He. unfold u32. destruct (Z.eqb_spec e (2 ^ 32 - 1)) as [-> | Hne].
  - reflexivity.
  - apply Z.mod_small. lia.
Qed.

Lemma u32_dec e :
  0 <= e < 2 ^ 32 -> u32 (e - 1) = if e =? 0 then 2 ^ 32 - 1 else e - 1.
Proof.
  intros He. unfold u32. destruct (Z.eqb_spec e 0) as [-> | Hne].
  - reflexivity.
  - apply Z.mod_small. lia.
Qed.

Lemma tyesde_full_pos tn tn' o :
  kv_pos tn' = kv_pos tn -> tyesde_full tn' o = tyesde_full tn o.
Proof. intros H. destruct o; simpl; [by rewrite H | done]. Qed.

(** A full child of a node at position 0 would have fields out of
    range. *)
Lemma tyesde_full_fields tn c :
  fields_ok c -> kv_pos tn = 0 -> tyesde_full tn (Some c) = false.
Proof.
  intros [Hp Hb] Hpos. simpl. unfold IS_TNODE. rewrite Hpos.
  destruct (Z.eqb_spec (kv_pos c + kv_bits c) 0) as [H0 |]; [| done].
  simpl. apply negb_false_iff, Z.eqb_eq. lia.
Qed.

Lemma count_slots_lookup P c i a :
  c !! i = Some a -> P a = true -> 1 <= count_slots P c.
Proof.
  revert i. induction c as [|o c IH]; intros [|i] Hi HP; simplify_eq/=.
  - rewrite HP. pose proof (count_slots_nonneg P c). lia.
  - specialize (IH i Hi HP). destruct (P o); lia.
Qed.

Lemma full_slots_children tn c :
  count_slots (tyesde_full tn) c
  <= count_slots (fun o => negb (slot_null o)) c.
Proof. apply count_slots_le. by intros [x|]. Qed.

(** The counters after [put_child], from the counters before and from
    what the old and the new occupant of the slot are. *)
Definition put_child_counters (e f : Z) (new_null old_null wasfull isfull : bool)
  : Z * Z :=
  let '(e, f) := if new_null && negb old_null
                 then (u32 (e + 1), if u32 (e + 1) =? 0 then u32 (f + 1) else f)
                 else (e, f) in
  let '(e, f) := if negb new_null && old_null
                 then (u32 (e - 1), if e =? 0 then u32 (f - 1) else f)
                 else (e, f) in
  (e, if wasfull && negb isfull then u32 (f + -1)
      else if negb wasfull && isfull then u32 (f + 1) else f).

Lemma put_child_eq k p b s e f c i n a :
  c !! Z.to_nat i = Some a -> 0 <= i < 2 ^ b -> b <> 0 ->
  let tn := Tyesde k p b s e f c in
  let ef := put_child_counters e f (slot_null n) (slot_null a)
              (tyesde_full tn a) (tyesde_full tn n) in
  put_child tn i n
  = Some (Tyesde k p b
            (match n with
             | Some cn => if s <? kv_slen cn then kv_slen cn else s
             | None => s
             end) ef.1 ef.2 (<[Z.to_nat i := n]> c)).
Proof.
  intros Ha Hi Hb tn ef. subst tn ef.
  assert (Hchi : get_child (Tyesde k p b s e f c) i = a).
  { unfold get_child. simpl. destruct (Z.ltb_spec i 0); [lia |].
    by rewrite Ha. }
  unfold put_child. rewrite Hchi. unfold child_length. simpl.
  destruct (Z.eqb_spec b 0); [lia |].
  destruct (Z.ltb_spec i 0); [lia |].
  destruct (Z.leb_spec (2 ^ b) i); [lia |]. simpl.
  unfold put_child_counters.
  destruct n as [cn|], a as [ca|]; simpl.
  - destruct ((kv_pos ca + kv_bits ca =? p) && IS_TNODE ca),
      ((kv_pos cn + kv_bits cn =? p) && IS_TNODE cn); simpl;
      destruct (s <? kv_slen cn); simpl;
      by destruct (Z.ltb_spec i 0); [lia |].
  - destruct ((kv_pos cn + kv_bits cn =? p) && IS_TNODE cn); simpl;
      destruct (s <? kv_slen cn); simpl;
      by destruct (Z.ltb_spec i 0); [lia |].
  - destruct ((kv_pos ca + kv_bits ca =? p) && IS_TNODE ca); simpl;
      by destruct (Z.ltb_spec i 0); [lia |].
  - by destruct (Z.ltb_spec i 0); [lia |].
Qed.

Lemma put_child_counters_ok (L e f x N F : Z) (nn an wasfull isfull : bool) :
  2 <= L <= 2 ^ 32 -> (isfull = true -> L <= 2 ^ 31) ->
  0 <= e < 2 ^ 32 -> x = 0 \/ x = 1 ->
  N = e + 2 ^ 32 * x -> f = F + x -> 0 <= F -> N + F <= L ->
  (an = true -> wasfull = false) -> (nn = true -> isfull = false) ->
  Z.b2z an <= N -> Z.b2z wasfull <= F ->
  N - Z.b2z an + Z.b2z nn + (F - Z.b2z wasfull + Z.b2z isfull) <= L ->
  let ef := put_child_counters e f nn an wasfull isfull in
  0 <= ef.1 < 2 ^ 32 /\
  exists x', (x' = 0 \/ x' = 1) /\
             N - Z.b2z an + Z.b2z nn = ef.1 + 2 ^ 32 * x' /\
             ef.2 = F - Z.b2z wasfull + Z.b2z isfull + x'.
Proof.
  intros HL Hfull He Hx HN Hf HF HNF Han Hnn HaN HwF Hnew.
  unfold put_child_counters.
  destruct nn, an, wasfull, isfull; simpl in *;
    try (specialize (Han eq_refl)); try (specialize (Hnn eq_refl));
    try (specialize (Hfull eq_refl)); try done.
  all: rewrite ?u32_inc, ?u32_dec by lia.
  all: repeat match goal with
       | |- context [?a =? ?b] => destruct (Z.eqb_spec a b)
       end; simpl.
  all: unfold u32; destruct Hx as [-> | ->].
  all: repeat match goal with
       | |- context [?a mod 2 ^ 32] => rewrite (Z.mod_small a (2 ^ 32)) by lia
       end.
  all: split; [lia |].
  all: first [ exists 0; lia | exists 1; lia ].
Qed.

Lemma b2z_if (b : bool) : (if b then 1 else 0) = Z.b2z b.
Proof. by destruct b. Qed.

(** What [put_child] does on a node whose counters are right. *)
Lemma put_child_spec (tn : key_vector) (i : Z)
    (n : option key_vector) :
  1 <= kv_bits tn -> 0 <= kv_pos tn ->
  kv_pos tn + kv_bits tn <= KEYLENGTH ->
  Z.of_nat (length (kv_tyesde tn)) = 2 ^ kv_bits tn ->
  counters_ok tn ->
  (forall c, n = Some c -> fields_ok c) ->
  (~ 0 <= i < 2 ^ kv_bits tn -> put_child tn i n = None) /\
  (0 <= i < 2 ^ kv_bits tn ->
   exists tn',
     put_child tn i n = Some tn' /\
     kv_tyesde tn' = <[Z.to_nat i := n]> (kv_tyesde tn) /\
     counters_ok tn' /\
     kv_key tn' = kv_key tn /\ kv_pos tn' = kv_pos tn /\
     kv_bits tn' = kv_bits tn /\
     kv_slen tn' = match n with
                   | Some c => Z.max (kv_slen tn) (kv_slen c)
                   | None => kv_slen tn
                   end).
Proof.
  intros Hb Hp Hpb Hlen (He & x & Hx & Hnull & Hfull) Hn.
  destruct tn as [|k p b s e f c]; [simpl in Hb; lia |].
  cbn [kv_bits kv_pos kv_tyesde kv_key kv_slen kv_empty_children
       kv_full_children] in *.
  split.
  { intros Hi. unfold put_child, child_length. simpl.
    destruct (Z.eqb_spec b 0); [lia |].
    destruct (Z.ltb_spec i 0); [done |].
    destruct (Z.leb_spec (2 ^ b) i); [done | lia]. }
  intros Hi.
  destruct (lookup_lt_is_Some_2 c (Z.to_nat i)) as [a Ha]; [lia |].
  rewrite (put_child_eq k p b s e f c i n a Ha Hi) by lia.
  set (tn := Tyesde k p b s e f c) in *.
  set (ef := put_child_counters _ _ _ _ _ _).
  eexists. split; [reflexivity |]. cbn [kv_bits kv_pos kv_tyesde kv_key kv_slen].
  split; [done |].
  split; [| split; [done |]; split; [done |]; split; [done |];
            destruct n as [cn|]; [destruct (Z.ltb_spec s (kv_slen cn)); lia
                                 | done]].
  unfold null_slots, full_slots in *. cbn [kv_tyesde] in *.
  assert (Hpow : 2 ^ 1 <= 2 ^ b <= 2 ^ 32)
    by (split; apply pow2_le_mono; unfold KEYLENGTH in *; lia).
  assert (Hcount : forall s' e' f' c',
            count_slots (tyesde_full (Tyesde k p b s' e' f' c'))
              (<[Z.to_nat i := n]> c)
            = count_slots (tyesde_full tn) (<[Z.to_nat i := n]> c)).
  { intros. apply count_slots_ext. intros o. by apply tyesde_full_pos. }
  pose proof (count_slots_split c) as Hsplit.
  pose proof (count_slots_split (<[Z.to_nat i := n]> c)) as Hsplit'.
  rewrite length_insert in Hsplit'.
  pose proof (full_slots_children tn c) as Hfc.
  pose proof (full_slots_children tn (<[Z.to_nat i := n]> c)) as Hfc'.
  pose proof (count_slots_nonneg (tyesde_full tn) c) as Hf0.
  pose proof (count_slots_insert slot_null c _ a n Ha) as Hnull'.
  pose proof (count_slots_insert (tyesde_full tn) c _ a n Ha) as Hfull'.
  rewrite !b2z_if in Hnull', Hfull'.
  destruct (put_child_counters_ok (2 ^ b) e f x
              (count_slots slot_null c) (count_slots (tyesde_full tn) c)
              (slot_null n) (slot_null a) (tyesde_full tn a) (tyesde_full tn n))
    as (He' & x' & Hx' & Hn' & Hf'); try done; try lia.
  - intros Hisfull.
    destruct (Z.le_gt_cases b 31) as [Hle | Hgt];
      [apply pow2_le_mono; lia |].
    destruct n as [cn|]; [| done].
    rewrite tyesde_full_fields in Hisfull; [done | by apply Hn |].
    subst tn. simpl. unfold KEYLENGTH in *. lia.
  - by destruct a.
  - by destruct n.
  - destruct (slot_null a) eqn:Hna; simpl; [| apply count_slots_nonneg].
    by eapply count_slots_lookup.
  - destruct (tyesde_full tn a) eqn:Hfa; simpl; [| done].
    by eapply count_slots_lookup.
  - fold ef in He', Hn', Hf'. split; [done |]. exists x'.
    unfold null_slots, full_slots. cbn [kv_tyesde kv_empty_children
      kv_full_children]. rewrite Hcount. split; [done |]. split; lia.
Qed.

(** X1: [put_child(tn, i, n)] on a node whose counters are right -- the
    BUG_ON does not fire exactly for a slot of the node; then slot [i]
    holds [n], the other slots, the key, the position and the bits are
    as before, [slen] is raised to that of [n] if it was smaller, and
    [empty_children] and [full_children] again count the NULL slots and
    the full children. *)
Theorem put_child_keeps_counters (tn : key_vector) (i : Z)
    (n : option key_vector) :
  1 <= kv_bits tn -> 0 <= kv_pos tn ->
  kv_pos tn + kv_bits tn <= KEYLENGTH ->
  Z.of_nat (length (kv_tyesde tn)) = 2 ^ kv_bits tn ->
  counters_ok tn ->
  (forall c, n = Some c -> fields_ok c) ->
  (~ 0 <= i < 2 ^ kv_bits tn -> put_child tn i n = None) /\
  (0 <= i < 2 ^ kv_bits tn ->
   exists tn',
     put_child tn i n = Some tn' /\
     kv_tyesde tn' = <[Z.to_nat i := n]> (kv_tyesde tn) /\
     counters_ok tn' /\
     kv_key tn' = kv_key tn /\ kv_pos tn' = kv_pos tn /\
     kv_bits tn' = kv_bits tn /\
     kv_slen tn' = match n with
                   | Some c => Z.max (kv_slen tn) (kv_slen c)
                   | None => kv_slen tn
                   end).
Proof. exact (put_child_spec tn i n). Qed.

(** A node with two slots and no child yet, as [tyesde_new(0, 1, 1)]
    makes it. *)
Definition example_pair : key_vector := Tyesde 0 1 1 1 2 0 [None; None].

Lemma put_child_keeps_counters_witness :
  counters_ok example_pair /\
  exists tn', put_child example_pair 1 (Some (Leaf 2 0 [])) = Some tn' /\
              kv_tyesde tn' = [None; Some (Leaf 2 0 [])] /\
              counters_ok tn'.
Proof.
  assert (Hok : counters_ok example_pair).
  { split; [simpl; lia |]. exists 0. split; [by left |]. done. }
  split; [exact Hok |].
  destruct (put_child_keeps_counters example_pair 1 (Some (Leaf 2 0 [])))
    as [_ H]; try done.
  - intros c [= <-]. split; simpl; lia.
  - destruct H as (tn' & Hput & Hc & Hok' & _); [simpl; lia |].
    exists tn'. split; [exact Hput |]. split; [exact Hc | exact Hok'].
Defined.

(** ** The tests of [resize] in numbers of children *)

Definition halve_threshold_of (tp : key_vector) : Z :=
  if IS_TRIE tp then halve_threshold_root else halve_threshold.

(** What the tests need of a node: its fields and those of its children
    are in range, it has a slot per index, and its counters are right. *)
Definition countable (tn : key_vector) : Prop :=
  1 <= kv_bits tn /\ 0 <= kv_pos tn /\
  kv_pos tn + kv_bits tn <= KEYLENGTH /\
  Z.of_nat (length (kv_tyesde tn)) = 2 ^ kv_bits tn /\
  Forall (from_option fields_ok True) (kv_tyesde tn) /\
  counters_ok tn.

Lemma full_slots_pos_0 tn :
  kv_pos tn = 0 -> Forall (from_option fields_ok True) (kv_tyesde tn) ->
  full_slots tn = 0.
Proof.
  intros Hp Hall. unfold full_slots.
  induction Hall as [|o c Ho Hc IH]; simpl; [done |].
  rewrite IH. destruct o as [x|]; [| done].
  by rewrite (tyesde_full_fields tn x Ho Hp).
Qed.

(** What the tests compute as [used] before they compare it. *)
Lemma countable_used tn :
  countable tn ->
  let e := kv_empty_children tn in
  0 <= child_count tn <= 2 ^ kv_bits tn /\ 2 ^ kv_bits tn <= 2 ^ 32 /\
  0 <= e < 2 ^ 32 /\
  (child_count tn = 2 ^ kv_bits tn - e /\
   (kv_bits tn = KEYLENGTH -> kv_full_children tn = 0) \/
   child_count tn = 0 /\ kv_bits tn = KEYLENGTH /\ e = 0 /\
   kv_full_children tn = 1).
Proof.
  intros (Hb & Hp & Hpb & Hlen & Hall & He & x & Hx & Hnull & Hfull). simpl.
  unfold child_count, null_slots in *.
  pose proof (count_slots_split (kv_tyesde tn)) as Hsplit.
  pose proof (count_slots_nonneg slot_null (kv_tyesde tn)).
  pose proof (count_slots_nonneg (fun o => negb (slot_null o)) (kv_tyesde tn)).
  assert (Hpow : 2 ^ kv_bits tn <= 2 ^ 32)
    by (apply pow2_le_mono; unfold KEYLENGTH in *; lia).
  split; [lia |]. split; [done |]. split; [done |].
  destruct Hx as [-> | ->].
  - left. split; [lia |]. intros Hb32. rewrite Hfull, full_slots_pos_0; try done.
    lia.
  - right. unfold KEYLENGTH in *.
    assert (kv_bits tn = 32).
    { destruct (Z.le_gt_cases (kv_bits tn) 31) as [Hle |]; [| lia].
      pose proof (pow2_le_mono (kv_bits tn) 31 ltac:(lia)). lia. }
    rewrite Hfull, full_slots_pos_0; try done; lia.
Qed.

(** [should_collapse] in numbers of children. *)
Lemma should_collapse_spec (tn : key_vector) :
  countable tn -> should_collapse tn = true <-> child_count tn < 2.
Proof.
  intros Hc. pose proof (countable_used tn Hc) as (Hcc & Hpow & He & Hcase).
  destruct Hc as (Hb & _). simpl in *.
  unfold should_collapse, child_length, KEY_MAX, KEYLENGTH in *.
  destruct (Z.eqb_spec (kv_bits tn) 0); [lia |].
  destruct Hcase as [[Hcount Hf] | (Hcount & Hb32 & He0 & Hf)].
  - rewrite (ulong_small (2 ^ kv_bits tn - kv_empty_children tn)) by lia.
    destruct (Z.eqb_spec (kv_bits tn) 32) as [Hb32 |]; simpl.
    + rewrite (Hf Hb32). simpl. rewrite Z.ltb_lt. lia.
    + rewrite Z.ltb_lt. lia.
  - rewrite Hb32, He0, Hf in *. simpl. split; [lia | done].
Qed.

(** X2: for a node whose counters are right, [should_collapse] holds
    exactly when the node has fewer than two children -- also for a node
    with 32 bits, whose [empty_children] wraps when all slots are
    NULL. *)
Theorem should_collapse_iff_children (tn : key_vector) :
  countable tn -> should_collapse tn = true <-> child_count tn < 2.
Proof. exact (should_collapse_spec tn). Qed.

(** X3: for a node whose counters are right, [should_halve] holds
    exactly when the node has more than one child and more than one
    bit, and its children fill less than 25 percent of its slots -- 15
    percent under the root. *)
Theorem should_halve_iff_children (tp tn : key_vector) :
  countable tn ->
  should_halve tp tn = true <->
  1 < child_count tn /\ 1 < kv_bits tn /\
  100 * child_count tn < halve_threshold_of tp * 2 ^ kv_bits tn.
Proof.
  intros Hc. pose proof (countable_used tn Hc) as (Hcc & Hpow & He & Hcase).
  destruct Hc as (Hb & _). simpl in *.
  unfold should_halve, child_length, halve_threshold_of, halve_threshold_root,
    halve_threshold, KEYLENGTH in *.
  destruct (Z.eqb_spec (kv_bits tn) 0); [lia |].
  assert (Hthr : forall thr, 0 <= thr <= 25 ->
            ulong (2 ^ kv_bits tn * thr) = thr * 2 ^ kv_bits tn).
  { intros thr Hthr. rewrite ulong_small; [lia |].
    change (2 ^ 64) with (2 ^ 32 * 2 ^ 32). nia. }
  rewrite !andb_true_iff, !Z.ltb_lt.
  destruct Hcase as [[Hcount Hf] | (Hcount & Hb32 & He0 & Hf)].
  - rewrite (ulong_small (2 ^ kv_bits tn - kv_empty_children tn)) by lia.
    rewrite (ulong_small (100 * _))
      by (change (2 ^ 64) with (2 ^ 32 * 2 ^ 32); nia).
    rewrite <- Hcount. destruct (IS_TRIE tp); rewrite Hthr by lia; tauto.
  - rewrite Hb32, He0, Hcount in *.
    destruct (IS_TRIE tp); rewrite Hthr by lia; simpl; intuition lia.
Qed.

Lemma countable_example_pair : countable example_pair.
Proof.
  unfold countable, counters_ok, KEYLENGTH. simpl.
  repeat split; try lia; try (repeat constructor).
  exists 0. split; [by left |]. done.
Qed.

Lemma should_collapse_iff_children_witness :
  countable example_pair /\ should_collapse example_pair = true.
Proof.
  split; [exact countable_example_pair |].
  apply (should_collapse_iff_children example_pair countable_example_pair).
  reflexivity.
Defined.

(** Sixteen slots, two of them taken. *)
Definition example_sparse : key_vector :=
  Tyesde 0 0 4 0 14 0
    (Some (Leaf 0 0 []) :: Some (Leaf 1 0 []) :: replicate 14 None).

Lemma should_halve_iff_children_witness :
  countable example_sparse /\
  should_halve example_pair example_sparse = true.
Proof.
  assert (Hc : countable example_sparse).
  { unfold countable, counters_ok, KEYLENGTH. simpl.
    repeat split; try lia; try (repeat constructor; simpl; lia).
    exists 0. split; [by left |]. done. }
  split; [exact Hc |].
  apply (should_halve_iff_children example_pair example_sparse Hc).
  vm_compute. repeat split.
Defined.


(** * Deleting what is not there *)

(** [fib_find_yesde] on a well-formed trie: it returns, and it returns a
    leaf exactly when the trie has a leaf of the key. *)
Lemma fib_find_yesde_spec t key :
  wf_trie t = true -> 0 <= key < 2 ^ 32 ->
  exists tp r,
    fib_find_yesde t key = Some (tp, r) /\
    (forall lp, r = Some lp ->
       exists i s l, lp = i :: tp /\ get_yesde t lp = Some (Leaf key s l)) /\
    (forall p s l, get_yesde t p = Some (Leaf key s l) -> r = Some p).
Proof.
  intros Hwf Hkey.
  pose proof Hwf as (e & f & c & Ht & Hc)%wf_trie_root.
  destruct (fib_find_yesde_loop_spec t key Hwf Hkey (S (height t)) [] 0 t)
    as (tp & r & Hfind & Hleaf & Hall & _); try done.
  - rewrite Ht. unfold get_index. simpl.
    rewrite Z.lxor_0_r, Z.shiftr_div_pow2 by lia.
    symmetry. apply Z.div_small. lia.
  - lia.
  - intros p s l Hp.
    destruct (wf_trie_ptr_root t p _ Hwf Hp) as (q & ->); [| by exists q].
    intros ->. by rewrite Ht in Hp.
  - by exists tp, r.
Qed.

Lemma fib_delete_match_from_section net i l slen tb tos cfg d :
  fib_delete_match_from net i l slen tb tos cfg = Some d ->
  exists fa, (i <= d)%nat /\ l !! (d - i)%nat = Some fa /\
             fa_slen fa = slen /\ tb_id fa = tb /\ fa_tos fa = tos.
Proof.
  revert i. induction l as [|fa rest IH]; intros i; simpl; [done |].
  destruct (Z.eqb_spec (fa_slen fa) slen); simpl; [| done].
  destruct (Z.eqb_spec (tb_id fa) tb); simpl; [| done].
  destruct (Z.eqb_spec (fa_tos fa) tos); simpl; [| done].
  match goal with |- context [if ?c then _ else _] => destruct c end.
  - intros [= <-]. exists fa. rewrite Nat.sub_diag. done.
  - intros (fa0 & Hle & Hl & Hf)%IH. exists fa0. split; [lia |].
    split; [| done].
    replace (d - i)%nat with (S (d - S i)) by lia. done.
Qed.

(** X4: on a well-formed trie, [fib_table_delete] that does not return 0
    leaves the table and the trie as they were, and when it returns 0 the
    leaf of the key held an alias of the suffix length, table and tos
    asked for.  For a valid key whose leaf, if there is one, holds no
    such alias, it returns [-ESRCH]. *)
Theorem delete_of_missing_route (net : collaborators) (tb : fib_table)
    (cfg : fib_config) (w : world) :
  wf_trie (kv w) = true -> 0 <= fc_dst cfg < 2 ^ 32 ->
  (forall e tb' w',
     fib_table_delete net tb cfg w = Some ((e, tb'), w') ->
     (e <> 0 -> w' = w /\ tb' = tb) /\
     (e = 0 ->
      exists lp s l fa,
        get_yesde (kv w) lp = Some (Leaf (fc_dst cfg) s l) /\
        fa ∈ l /\ fa_slen fa = u8 (KEYLENGTH - fc_dst_len cfg) /\
        tb_id fa = tb_tb_id tb /\ fa_tos fa = fc_tos cfg)) /\
  (fib_valid_key_len (fc_dst cfg) (fc_dst_len cfg) = true ->
   (forall lp s l fa,
      get_yesde (kv w) lp = Some (Leaf (fc_dst cfg) s l) -> fa ∈ l ->
      ~ (fa_slen fa = u8 (KEYLENGTH - fc_dst_len cfg) /\
         tb_id fa = tb_tb_id tb /\ fa_tos fa = fc_tos cfg)) ->
   fib_table_delete net tb cfg w = Some ((- ESRCH, tb), w)).
Proof.
  intros Hwf Hkey.
  destruct (fib_find_yesde_spec _ _ Hwf Hkey) as (tp & r & Hfind & Hr & _).
  assert (Hmatch : forall lp s l,
    get_yesde (kv w) lp = Some (Leaf (fc_dst cfg) s l) -> forall d,
    match fib_find_alias l (u8 (KEYLENGTH - fc_dst_len cfg)) (fc_tos cfg) 0
            (tb_tb_id tb) with
    | Some i => fib_delete_match_from net i (drop i l)
                  (u8 (KEYLENGTH - fc_dst_len cfg)) (tb_tb_id tb)
                  (fc_tos cfg) cfg
    | None => None
    end = Some d ->
    exists fa, fa ∈ l /\ fa_slen fa = u8 (KEYLENGTH - fc_dst_len cfg) /\
               tb_id fa = tb_tb_id tb /\ fa_tos fa = fc_tos cfg).
  { intros lp s l _ d H.
    destruct (fib_find_alias _ _ _ _ _) as [i|]; [| done].
    apply fib_delete_match_from_section in H as (fa & _ & Hl & Hf).
    exists fa. split; [| done].
    rewrite lookup_drop in Hl. by eapply list_elem_of_lookup_2. }
  split.
  - intros e tb' w'. unfold fib_table_delete.
    destruct (negb (fib_valid_key_len _ _)); intros H.
    { apply ret_Some in H as [[= <- <-] <-]. split; [done |].
      unfold EINVAL. lia. }
    apply bind_Some in H as (t & w0 & [-> <-]%get_trie_Some & H).
    apply bind_Some in H as ([tp0 r0] & w0 & [Hfind0 <-]%lift_Some & H).
    rewrite Hfind in Hfind0. injection Hfind0 as <- <-.
    destruct r as [lp|].
    2:{ apply ret_Some in H as [[= <- <-] <-]. split; [done |].
        unfold ESRCH. lia. }
    destruct (Hr lp eq_refl) as (i0 & s & l & -> & Hlp).
    apply bind_Some in H as (ln & w0 & [Hln <-]%deref_Some & H).
    rewrite Hlp in Hln. injection Hln as <-. cbn [kv_leaf] in H.
    specialize (Hmatch _ _ _ Hlp).
    destruct (fib_find_alias _ _ _ _ _) as [i|].
    2:{ apply ret_Some in H as [[= <- <-] <-]. split; [done |].
        unfold ESRCH. lia. }
    destruct (fib_delete_match_from _ _ _ _ _ _ _) as [d|].
    2:{ apply ret_Some in H as [[= <- <-] <-]. split; [done |].
        unfold ESRCH. lia. }
    apply bind_Some in H as ([] & w1 & Hrem & H).
    apply ret_Some in H as [[= <- <-] <-]. split; [done |]. intros _.
    destruct (Hmatch d eq_refl) as (fa & Hfa). by exists (i0 :: tp), s, l, fa.
  - intros Hvalid Hnone. unfold fib_table_delete. rewrite Hvalid. simpl.
    bind_step (get_trie_eq w). bind_step (lift_eq _ _ w Hfind).
    destruct r as [lp|]; [| done].
    destruct (Hr lp eq_refl) as (i0 & s & l & -> & Hlp).
    bind_step (deref_eq _ _ _ Hlp). cbn [kv_leaf].
    specialize (Hmatch _ _ _ Hlp).
    destruct (fib_find_alias _ _ _ _ _) as [i|]; [| done].
    destruct (fib_delete_match_from _ _ _ _ _ _ _) as [d|]; [| done].
    destruct (Hmatch d eq_refl) as (fa & Hin & Hfa).
    by destruct (Hnone _ _ _ _ Hlp Hin).
Qed.

(** Deleting 10.1.0.0/24 from the table of the two example routes, which
    holds 10.1.0.0/16 only. *)
Lemma delete_of_missing_route_witness :
  fib_table_delete example_net (example_table 254)
    (example_route (ipv4 10 1 0 0) 24 0 0 0)
    (world_after example_two_routes)
  = Some ((- ESRCH, example_table 254), world_after example_two_routes).
Proof.
  set (w := world_after example_two_routes).
  assert (Hwf : wf_trie (kv w) = true) by (vm_compute; reflexivity).
  assert (Hfind : fib_find_yesde (kv w) (ipv4 10 1 0 0)
                  = Some ([0], Some [2; 0])) by (vm_compute; reflexivity).
  assert (Hchk : match get_yesde (kv w) [2; 0] with
                 | Some n => forallb (fun fa => negb (fa_slen fa =? 8))
                               (kv_leaf n)
                 | None => false
                 end = true) by (vm_compute; reflexivity).
  clearbody w.
  assert (Hkey : 0 <= ipv4 10 1 0 0 < 2 ^ 32) by by vm_compute.
  apply (delete_of_missing_route example_net (example_table 254)
           (example_route (ipv4 10 1 0 0) 24 0 0 0) w Hwf Hkey);
    [by vm_compute |].
  intros lp s l fa Hlp Hin (Hslen & _).
  destruct (fib_find_yesde_spec _ _ Hwf Hkey) as (tp & r & Hfind' & _ & Hall).
  cbn [fc_dst example_route] in Hlp.
  rewrite Hfind in Hfind'. injection Hfind' as <- <-.
  specialize (Hall _ _ _ Hlp). injection Hall as <-.
  rewrite Hlp in Hchk. cbn [kv_leaf] in Hchk.
  rewrite forallb_forall in Hchk. apply list_elem_of_In, Hchk in Hin.
  cbn [fc_dst_len example_route] in Hslen. rewrite Hslen in Hin.
  by vm_compute in Hin.
Defined.


(** * Running out of memory while resizing *)

(** Building the replacement node touches nothing of the trie. *)
Lemma inflate_loop_kv i old tn w r w' :
  inflate_loop i old tn w = Some (r, w') -> kv w' = kv w.
Proof.
  revert tn w. induction i as [|i IH]; intros tn w; cbn [inflate_loop].
  { by intros [_ <-]%ret_Some. }
  destruct (get_child old (Z.of_nat i)) as [iyesde|]; [| apply IH].
  destruct (negb (tyesde_full old (Some iyesde))).
  { intros (tn' & w0 & [_ <-]%lift_Some & H)%bind_Some. by eapply IH. }
  destruct (kv_bits iyesde =? 1).
  { intros (tn' & w0 & [_ <-]%lift_Some & H)%bind_Some.
    apply bind_Some in H as (tn2 & w0 & [_ <-]%lift_Some & H).
    by eapply IH. }
  intros (n1 & w1 & H1%tyesde_new_kv & H)%bind_Some.
  destruct n1 as [n1|]; [| apply ret_Some in H as [_ <-]; done].
  apply bind_Some in H as (n0 & w2 & H2%tyesde_new_kv & H).
  destruct n0 as [n0|]; [| apply ret_Some in H as [_ <-]; congruence].
  apply bind_Some in H as ([y0 y1] & w3 & [_ <-]%lift_Some & H).
  apply bind_Some in H as (tn1 & w3 & [_ <-]%lift_Some & H).
  apply bind_Some in H as (tn2 & w3 & [_ <-]%lift_Some & H).
  apply IH in H. congruence.
Qed.

Lemma halve_loop_kv i old tn w r w' :
  halve_loop i old tn w = Some (r, w') -> kv w' = kv w.
Proof.
  revert tn w. induction i as [|i IH]; intros tn w; cbn [halve_loop].
  { by intros [_ <-]%ret_Some. }
  assert (Hone : forall c,
    (tn' <- lift (put_child tn (2 * Z.of_nat i / 2) c) ;;
     halve_loop i old tn') w = Some (r, w') -> kv w' = kv w).
  { intros c (tn' & w0 & [_ <-]%lift_Some & H)%bind_Some. by eapply IH. }
  destruct (get_child old (2 * Z.of_nat i + 1)) as [n1|];
    [| by apply Hone].
  destruct (get_child old (2 * Z.of_nat i)) as [n0|]; [| by apply Hone].
  intros (n & w1 & H1%tyesde_new_kv & H)%bind_Some.
  destruct n as [n|]; [| apply ret_Some in H as [_ <-]; done].
  apply bind_Some in H as (n2 & w2 & [_ <-]%lift_Some & H).
  apply bind_Some in H as (n3 & w2 & [_ <-]%lift_Some & H).
  apply bind_Some in H as (n4 & w2 & [_ <-]%lift_Some & H).
  apply IH in H. congruence.
Qed.

(** X5: [inflate] and [halve] that give up for want of memory (the label
    [yesmem], the NULL they return) have changed nothing of the trie:
    the node they were building was never linked in. *)
Theorem failed_inflate_and_halve_change_nothing (resize : ptr -> M unit)
    (oldtyesde : ptr) (w w' : world) :
  (inflate resize oldtyesde w = Some (false, w') -> kv w' = kv w) /\
  (halve resize oldtyesde w = Some (false, w') -> kv w' = kv w).
Proof.
  split; intros H.
  - apply bind_Some in H as (old & w0 & [_ <-]%deref_Some & H).
    apply bind_Some in H as (tn & w1 & H1%tyesde_new_kv & H).
    destruct tn as [tn|]; [| apply ret_Some in H as [_ <-]; done].
    apply bind_Some in H as (tn2 & w2 & H2%inflate_loop_kv & H).
    destruct tn2 as [tn2|]; [| apply ret_Some in H as [_ <-]; congruence].
    apply bind_Some in H as ([] & w3 & _ & H).
    by apply ret_Some in H as [? _].
  - apply bind_Some in H as (old & w0 & [_ <-]%deref_Some & H).
    apply bind_Some in H as (tn & w1 & H1%tyesde_new_kv & H).
    destruct tn as [tn|]; [| apply ret_Some in H as [_ <-]; done].
    apply bind_Some in H as (tn2 & w2 & H2%halve_loop_kv & H).
    destruct tn2 as [tn2|]; [| apply ret_Some in H as [_ <-]; congruence].
    apply bind_Some in H as ([] & w3 & _ & H).
    by apply ret_Some in H as [? _].
Qed.

(** [inflate] of the node of the two example routes when the allocator
    refuses the first request. *)
Lemma failed_inflate_and_halve_change_nothing_witness :
  let w := World [false] (kv (world_after example_two_routes)) in
  inflate resize [0] w = Some (false, World [] (kv w)) /\
  kv (World [] (kv w)) = kv w.
Proof.
  intros w.
  assert (H : inflate resize [0] w = Some (false, World [] (kv w)))
    by (vm_compute; reflexivity).
  split; [exact H |].
  exact (proj1 (failed_inflate_and_halve_change_nothing resize [0] w _) H).
Defined.


(** * The lookup *)

(** ** Vocabulary *)

(** The scan of step 3 on the leaf [n] for the flow [flp]: what
    [fib_table_lookup] returns from [n], or [None] when the scan falls
    through to the backtrace. *)
Definition leaf_answer (net : collaborators) (flp : flowi4) (flags : Z)
    (n : key_vector) : option (Z * option fib_result) :=
  lookup_leaf net flp flags n (Z.lxor (daddr flp) (kv_key n)) (kv_leaf n).

(** The same scan on the alias [fa] alone: what the body of the loop over
    the aliases decides for [fa]. *)
Definition alias_answer (net : collaborators) (flp : flowi4) (flags : Z)
    (n : key_vector) (fa : fib_alias) : option (Z * option fib_result) :=
  lookup_leaf net flp flags n (Z.lxor (daddr flp) (kv_key n)) [fa].

(** The number of bits set in [cindex]: the passes that strip a bit before
    the backtrace has to climb. *)
Fixpoint pos_popcount (p : positive) : nat :=
  match p with
  | xH => 1
  | xO p => pos_popcount p
  | xI p => S (pos_popcount p)
  end.

Definition popcount (c : Z) : nat :=
  match c with Zpos p => pos_popcount p | _ => O end.

(** The levels below the node behind [n]. *)
Definition height_at (t : key_vector) (n : ptr) : nat :=
  match get_yesde t n with Some nn => height nn | None => O end.

(** A bound on the passes still to come from a state of the lookup. *)
Definition lookup_cost (t : key_vector) (s : lookup_state) : nat :=
  let W := (height t + 2)%nat in
  let B pn c := (34 * length pn + popcount c)%nat in
  match s with
  | Descend n pn c => (34 * height t * W + 4 + height t + height_at t n)%nat
  | Inspect n pn c => (B pn c * W + 3 + height_at t n)%nat
  | Found n pn c => (B pn c * W + 2)%nat
  | Backtrace pn c => (B pn c * W + 1)%nat
  end.

(** [answers t p k]: the leaf behind [p], with key [k], has an answer for
    the flow. *)
Definition answers (net : collaborators) (flp : flowi4) (flags : Z)
    (t : key_vector) (p : ptr) (k : Z) : Prop :=
  exists s l, get_yesde t p = Some (Leaf k s l) /\
              leaf_answer net flp flags (Leaf k s l) <> None.

(** The bookmark [pn], [cindex] of the lookup: the key lies at or after
    slot [cindex] of [pn], within the block of slots that the bits
    stripped so far span. *)
Definition bookmark_ok (t : key_vector) (key : Z) (pn : ptr) (c : Z)
  : Prop :=
  exists pnn,
    get_yesde t pn = Some pnn /\ (pn = [] \/ IS_TNODE pnn = true) /\
    0 <= c < 2 ^ kv_bits pnn /\ slot_start pnn c <= key /\
    exists d, 0 <= d <= kv_bits pnn /\ c mod 2 ^ d = 0 /\
              key < slot_start pnn c + 2 ^ (kv_pos pnn + d).

(** The key [k] lies before slot [c] of [pn]. *)
Definition before_bookmark (t : key_vector) (pn : ptr) (c : Z) (k : Z)
  : Prop :=
  exists pnn, get_yesde t pn = Some pnn /\ k < slot_start pnn c.

(** What holds at the loop heads and labels of the lookup: every leaf
    with an answer is still ahead, under [n] or before the bookmark. *)
Definition lookup_inv (net : collaborators) (flp : flowi4) (flags : Z)
    (t : key_vector) (s : lookup_state) : Prop :=
  let key := daddr flp in
  let ahead n pn c :=
    forall p k, answers net flp flags t p k ->
                (exists q, p = q ++ n) \/ before_bookmark t pn c k in
  match s with
  | Descend n pn c =>
      bookmark_ok t key pn c /\
      (exists nn q, get_yesde t n = Some nn /\ n = q ++ c :: pn) /\
      ahead n pn c
  | Inspect n pn c =>
      bookmark_ok t key pn c /\
      (exists nn q, get_yesde t n = Some nn /\ n = q ++ c :: pn /\
                    ~ (kv_key nn <= key < range_end nn)) /\
      ahead n pn c
  | Found n pn c =>
      bookmark_ok t key pn c /\
      (exists k s l q, get_yesde t n = Some (Leaf k s l) /\
                       n = q ++ c :: pn) /\
      ahead n pn c
  | Backtrace pn c =>
      bookmark_ok t key pn c /\
      forall p k, answers net flp flags t p k -> before_bookmark t pn c k
  end.

(** What the lookup returns: the answer of the leaf with the largest key
    among those that have one, or [-EAGAIN] when none has. *)
Definition lookup_post (net : collaborators) (flp : flowi4) (flags : Z)
    (t : key_vector) (r : Z * option fib_result) : Prop :=
  (r = (- EAGAIN, None) /\ forall p k, ~ answers net flp flags t p k) \/
  (exists p k s l,
     get_yesde t p = Some (Leaf k s l) /\
     leaf_answer net flp flags (Leaf k s l) = Some r /\
     forall p' k', answers net flp flags t p' k' -> k' <= k).

(** ** Stripping the lowest bit *)

Lemma popcount_double c : 0 <= c -> popcount (2 * c) = popcount c.
Proof. by destruct c. Qed.

Lemma popcount_double_1 c : 0 <= c -> popcount (2 * c + 1) = S (popcount c).
Proof. destruct c; [done | done | lia]. Qed.

Lemma popcount_shift c m :
  0 <= c -> 0 <= m -> popcount (c * 2 ^ m) = popcount c.
Proof.
  intros Hc Hm. revert m Hm. apply natlike_ind.
  - by rewrite Z.mul_1_r.
  - intros m Hm IH. rewrite Z.pow_succ_r by done.
    replace (c * (2 * 2 ^ m)) with (2 * (c * 2 ^ m)) by lia.
    rewrite popcount_double; [done |]. apply Z.mul_nonneg_nonneg; lia.
Qed.

Lemma popcount_bound n c : 0 <= n -> 0 <= c < 2 ^ n -> (popcount c <= Z.to_nat n)%nat.
Proof.
  intros Hn. revert n Hn c. apply (natlike_ind (fun n => forall c, _ -> _)).
  - intros c Hc. assert (c = 0) as -> by lia. simpl. lia.
  - intros n Hn IH c Hc. rewrite Z.pow_succ_r in Hc by done.
    specialize (IH (c / 2)).
    assert (Hd : c = 2 * (c / 2) + c mod 2) by (apply Z.div_mod; lia).
    assert (Hm : c mod 2 = 0 \/ c mod 2 = 1).
    { pose proof (Z.mod_pos_bound c 2). lia. }
    assert (H2 : 0 <= c / 2 < 2 ^ n).
    { split; [apply Z.div_pos; lia |].
      apply Z.div_lt_upper_bound; lia. }
    specialize (IH H2).
    destruct Hm as [Hm|Hm]; rewrite Hd, Hm.
    + rewrite Z.add_0_r, popcount_double by lia. lia.
    + rewrite popcount_double_1 by lia. lia.
Qed.

(** A positive [c] is an odd number times a power of two. *)
Lemma lowest_bit c :
  0 < c -> exists m a, 0 <= m /\ 0 <= a /\ c = (2 * a + 1) * 2 ^ m.
Proof.
  intros Hc. assert (H0 : 0 <= c) by lia. revert Hc.
  pattern c. apply Z_lt_induction; [| done].
  clear. intros c IH Hc.
  assert (Hd : c = 2 * (c / 2) + c mod 2) by (apply Z.div_mod; lia).
  pose proof (Z.mod_pos_bound c 2 ltac:(lia)) as Hm.
  destruct (decide (c mod 2 = 0)) as [He|Ho].
  - destruct (IH (c / 2)) as (m & a & Hm0 & Ha & Heq); [lia | lia |].
    exists (m + 1), a. split; [lia |]. split; [done |].
    rewrite Z.pow_add_r, Z.pow_1_r by lia. lia.
  - exists 0, (c / 2). split; [done |]. split; [apply Z.div_pos; lia |].
    rewrite Z.pow_0_r. lia.
Qed.

(** [cindex &= cindex - 1] takes the lowest bit set away. *)
Lemma land_pred a m :
  0 <= a -> 0 <= m ->
  Z.land ((2 * a + 1) * 2 ^ m) ((2 * a + 1) * 2 ^ m - 1) = 2 * a * 2 ^ m.
Proof.
  intros Ha Hm.
  pose proof (Z.pow_pos_nonneg 2 m ltac:(lia) Hm) as Hp.
  replace ((2 * a + 1) * 2 ^ m - 1) with (2 * a * 2 ^ m + (2 ^ m - 1)) by lia.
  replace ((2 * a + 1) * 2 ^ m) with (2 * a * 2 ^ m + 2 ^ m) by lia.
  assert (Hal : (2 * a * 2 ^ m) mod 2 ^ m = 0) by (apply Z.mod_mul; lia).
  assert (Hal1 : (2 * a * 2 ^ m) mod 2 ^ (m + 1) = 0).
  { rewrite Z.pow_add_r, Z.pow_1_r by lia.
    replace (2 * a * 2 ^ m) with (a * (2 ^ m * 2)) by lia.
    apply Z.mod_mul. lia. }
  assert (H1 : 2 * a * 2 ^ m + (2 ^ m - 1)
               = Z.lor (2 * a * 2 ^ m) (2 ^ m - 1)).
  { rewrite <- Z.add_nocarry_lor; [done |].
    apply (land_aligned_small _ _ m); [done | done | lia]. }
  assert (H2 : 2 * a * 2 ^ m + 2 ^ m = Z.lor (2 * a * 2 ^ m) (2 ^ m)).
  { rewrite <- Z.add_nocarry_lor; [done |].
    apply (land_aligned_small _ _ (m + 1)); [lia | done |].
    rewrite Z.pow_add_r, Z.pow_1_r by lia. lia. }
  rewrite H1, H2, <- Z.lor_land_distr_r.
  assert (H3 : Z.land (2 ^ m) (2 ^ m - 1) = 0).
  { apply (land_aligned_small _ _ m); [done | apply Z.mod_same; lia | lia]. }
  by rewrite H3, Z.lor_0_r.
Qed.

Lemma strip_lowest_bit c :
  0 < c ->
  exists m a, 0 <= m /\ 0 <= a /\ c = (2 * a + 1) * 2 ^ m /\
              Z.land c (c - 1) = 2 * a * 2 ^ m /\
              popcount c = S (popcount (Z.land c (c - 1))).
Proof.
  intros (m & a & Hm & Ha & ->)%lowest_bit. exists m, a.
  rewrite land_pred by done. repeat split; try done.
  rewrite !popcount_shift, popcount_double_1, popcount_double; lia.
Qed.

(** ** The scan of a leaf *)

Section leaf_scan.
Context (net : collaborators) (flp : flowi4) (flags : Z).

Lemma lookup_leaf_cons n index fa rest :
  lookup_leaf net flp flags n index (fa :: rest) =
  match lookup_leaf net flp flags n index [fa] with
  | Some r => Some r
  | None => lookup_leaf net flp flags n index rest
  end.
Proof.
  cbn [lookup_leaf].
  repeat match goal with
         | |- context [if ?c then _ else _] => destruct c; try done
         | |- context [match ?c with Some _ => _ | None => _ end] =>
             destruct c as [[]|]; try done
         end.
Qed.

(** The scan answers with the first alias that answers by itself. *)
Lemma lookup_leaf_first n index l r :
  lookup_leaf net flp flags n index l = Some r ->
  exists l1 fa l2,
    l = l1 ++ fa :: l2 /\
    Forall (fun x => lookup_leaf net flp flags n index [x] = None) l1 /\
    lookup_leaf net flp flags n index [fa] = Some r.
Proof.
  induction l as [|fa rest IH]; [done |].
  rewrite lookup_leaf_cons.
  destruct (lookup_leaf net flp flags n index [fa]) as [r'|] eqn:Hfa.
  - intros [= ->]. by exists [], fa, rest.
  - intros (l1 & fa' & l2 & -> & Hl1 & Hfa')%IH.
    exists (fa :: l1), fa', l2. split; [done |]. split; [| done].
    by constructor.
Qed.

Lemma lookup_leaf_some n index l fa :
  fa ∈ l -> lookup_leaf net flp flags n index [fa] <> None ->
  lookup_leaf net flp flags n index l <> None.
Proof.
  induction l as [|fa' rest IH]; [by intros ?%elem_of_nil |].
  intros Hin Hfa. rewrite lookup_leaf_cons.
  apply elem_of_cons in Hin as [Heq|Hin].
  - subst fa'. by destruct (lookup_leaf net flp flags n index [fa]).
  - destruct (lookup_leaf net flp flags n index [fa']); [done | by apply IH].
Qed.

(** An alias answers only for an index below its suffix length. *)
Lemma lookup_leaf_index n index fa :
  lookup_leaf net flp flags n index [fa] <> None ->
  index < 2 ^ fa_slen fa.
Proof.
  cbn [lookup_leaf].
  change (KEYLENGTH <? BITS_PER_LONG) with true. cbn [orb andb].
  destruct (Z.leb_spec (2 ^ fa_slen fa) index); [done | lia].
Qed.

(** What an alias answers with. *)
Lemma lookup_leaf_result n index fa err res :
  lookup_leaf net flp flags n index [fa] = Some (err, Some res) ->
  res_prefix res = kv_key n /\
  res_prefixlen res = KEYLENGTH - fa_slen fa /\
  res_fi res = fa_info fa /\ res_type res = fa_type fa /\
  res_scope res = fib_scope (fa_info fa) /\
  err = fib_props_error net (fa_type fa) /\ 0 <= err /\
  (fa_tos fa = 0 \/ fa_tos fa = flowi4_tos flp) /\
  fib_dead (fa_info fa) = false /\
  flowi4_scope flp <= fib_scope (fa_info fa) /\
  lookup_nh flp flags 0 (fib_nhs (fa_info fa))
  = Some (res_nh_sel res, res_nhc res).
Proof.
  cbn [lookup_leaf].
  destruct (_ && (2 ^ _ <=? _)); [done |].
  destruct (Z.eqb_spec (fa_tos fa) 0) as [Ht0|Ht0];
    destruct (Z.eqb_spec (fa_tos fa) (flowi4_tos flp)) as [Ht|Ht];
    cbn [negb andb]; try done;
    (destruct (fib_dead (fa_info fa)) eqn:Hdead; [done |];
     destruct (Z.ltb_spec (fib_scope (fa_info fa)) (flowi4_scope flp));
       [done |];
     destruct (Z.ltb_spec (fib_props_error net (fa_type fa)) 0); [done |];
     destruct (flag_set _ _); [done |];
     destruct (fib_nh_blackhole _); [done |];
     destruct (lookup_nh _ _ _ _) as [[nhsel nhc]|] eqn:Hnh; [| done];
     intros [= <- <-]; cbn; repeat split; auto; lia).
Qed.
End leaf_scan.

(** ** Prefixes that cover the key *)

(** The test of the scan, [index < 2 ^ slen], says that the prefix of
    the alias covers the key. *)
Lemma index_covers key k m :
  0 <= m -> 0 <= k -> 0 <= key -> k mod 2 ^ m = 0 ->
  Z.lxor key k < 2 ^ m <-> k <= key < k + 2 ^ m.
Proof.
  intros Hm Hk Hkey Hal.
  rewrite <- (shiftr_lxor_range k key m) by done.
  symmetry. apply shiftr_eq0_iff; [| done]. by apply lxor_nonneg_2.
Qed.

(** A key covered by a prefix of the node's key passes
    [prefix_mismatch]. *)
Lemma prefix_mismatch_covered key n m :
  0 <= m <= 32 -> 0 <= kv_key n < 2 ^ 32 -> 0 <= key ->
  kv_key n mod 2 ^ m = 0 -> kv_key n <= key < kv_key n + 2 ^ m ->
  prefix_mismatch key n = 0.
Proof.
  intros Hm Hk Hkey Hal Hcov. unfold prefix_mismatch. cbn zeta.
  set (p := kv_key n) in *.
  pose proof (Z.pow_pos_nonneg 2 m ltac:(lia) ltac:(lia)) as Hp.
  rewrite (lxor_aligned p key m) by (done || lia).
  rewrite Z.land_comm. apply (land_aligned_small _ _ m); [lia | | lia].
  assert (Hu : u32 (- p) mod 2 ^ m = 0).
  { unfold u32. destruct (decide (p = 0)) as [->|Hp0]; [done |].
    rewrite Z.mod_opp_l_nz, (Z.mod_small p) by (rewrite ?Z.mod_small; lia).
    apply Z.mod_divide in Hal as [q Hq]; [| lia].
    apply Z.mod_divide; [lia |].
    pose proof (pow2_mod_pow2 32 m ltac:(lia)) as H32.
    apply Z.mod_divide in H32 as [q' Hq']; [| lia].
    exists (q' - q). lia. }
  apply Z.mod_divide in Hal as [q1 Hq1]; [| lia].
  apply Z.mod_divide in Hu as [q2 Hq2]; [| lia].
  rewrite Hq2, Hq1, <- !Z.shiftl_mul_pow2, <- Z.shiftl_lor by lia.
  rewrite Z.shiftl_mul_pow2 by lia. apply Z.mod_mul. lia.
Qed.

(** A covering prefix that starts in a block the key is not in is longer
    than the block and starts with it. *)
Lemma cover_from_outside key k m b M :
  0 <= m -> 0 <= M -> k mod 2 ^ m = 0 -> k <= key < k + 2 ^ m ->
  b mod 2 ^ M = 0 -> b <= k < b + 2 ^ M -> ~ (b <= key < b + 2 ^ M) ->
  M < m /\ k = b.
Proof.
  intros Hm HM Hal Hcov Hb Hin Hout.
  pose proof (Z.pow_pos_nonneg 2 m ltac:(lia) Hm) as Hpm.
  pose proof (Z.pow_pos_nonneg 2 M ltac:(lia) HM) as HpM.
  assert (HMm : M < m).
  { destruct (Z.lt_ge_cases M m) as [|Hle]; [done | exfalso].
    assert (Hend : (b + 2 ^ M) mod 2 ^ m = 0).
    { rewrite Z.add_mod, (mod_pow2_weaken b M m), (pow2_mod_pow2 M m)
        by (done || lia). done. }
    pose proof (aligned_next k (b + 2 ^ M) (2 ^ m) Hpm Hal Hend). lia. }
  split; [done |].
  assert (Hk : k mod 2 ^ M = 0) by (apply (mod_pow2_weaken k m M); [lia | done]).
  destruct (decide (k = b)) as [|Hne]; [done | exfalso].
  pose proof (aligned_next b k (2 ^ M) HpM Hb Hk). lia.
Qed.

(** Between the slot that was stripped to and the one stripped from, the
    only covering prefix starts at the former. *)
Lemma cover_after_strip key k m S' M :
  0 <= m -> 0 <= M -> k mod 2 ^ m = 0 -> k <= key < k + 2 ^ m ->
  S' mod 2 ^ (M + 1) = 0 -> S' + 2 ^ M <= key ->
  S' <= k < S' + 2 ^ M -> k = S'.
Proof.
  intros Hm HM Hal Hcov HS Hkey Hin.
  pose proof (Z.pow_pos_nonneg 2 m ltac:(lia) Hm) as Hpm.
  pose proof (Z.pow_pos_nonneg 2 M ltac:(lia) HM) as HpM.
  assert (HMm : M < m).
  { destruct (Z.lt_ge_cases M m) as [|Hle]; [done | exfalso].
    assert (Hend : (S' + 2 ^ M) mod 2 ^ m = 0).
    { rewrite Z.add_mod, (mod_pow2_weaken S' (M + 1) m),
        (pow2_mod_pow2 M m) by (done || lia). done. }
    pose proof (aligned_next k (S' + 2 ^ M) (2 ^ m) Hpm Hal Hend). lia. }
  assert (Hk : k mod 2 ^ (M + 1) = 0)
    by (apply (mod_pow2_weaken k m (M + 1)); [lia | done]).
  destruct (decide (k = S')) as [|Hne]; [done | exfalso].
  assert (Hp1 : 0 < 2 ^ (M + 1)) by (apply Z.pow_pos_nonneg; lia).
  pose proof (aligned_next S' k (2 ^ (M + 1)) Hp1 HS Hk).
  rewrite Z.pow_add_r, Z.pow_1_r in * by lia. lia.
Qed.

(** A covering prefix no longer than a slot lies in the slot of the
    key. *)
Lemma cover_in_slot key k m E P :
  0 <= m <= P -> k mod 2 ^ m = 0 -> k <= key < k + 2 ^ m ->
  E mod 2 ^ P = 0 -> k < E -> key < E.
Proof.
  intros Hm Hal Hcov HE Hlt.
  pose proof (Z.pow_pos_nonneg 2 m ltac:(lia) ltac:(lia)) as Hpm.
  assert (HE' : E mod 2 ^ m = 0) by (apply (mod_pow2_weaken E P m); [lia | done]).
  pose proof (aligned_next k E (2 ^ m) Hpm Hal HE'). lia.
Qed.

(** Of two covering prefixes, the one that starts later is longer. *)
Lemma cover_longer key k m k' m' :
  0 <= m -> 0 <= m' -> k mod 2 ^ m = 0 -> k <= key < k + 2 ^ m ->
  k' mod 2 ^ m' = 0 -> k' <= key < k' + 2 ^ m' -> k' < k -> m < m'.
Proof.
  intros Hm Hm' Hal Hcov Hal' Hcov' Hlt.
  destruct (Z.lt_ge_cases m m') as [|Hle]; [done | exfalso].
  pose proof (Z.pow_pos_nonneg 2 m' ltac:(lia) Hm') as Hpm.
  assert (Hk : k mod 2 ^ m' = 0) by (apply (mod_pow2_weaken k m m'); [lia | done]).
  pose proof (aligned_next k' k (2 ^ m') Hpm Hal' Hk). lia.
Qed.

(** ** What the trie gives the lookup *)

Lemma get_yesde_height t p n :
  get_yesde t p = Some n -> (length p + height n <= height t)%nat.
Proof.
  revert n. induction p as [|i p IH]; intros n; simpl.
  { intros [= ->]. lia. }
  destruct (get_yesde t p) as [pn|]; [| done]. intros Hc.
  specialize (IH pn eq_refl). apply height_child in Hc. lia.
Qed.

Lemma height_at_child t p i n :
  get_yesde t (i :: p) = Some n -> (height_at t (i :: p) < height_at t p)%nat.
Proof.
  intros Hn. unfold height_at. rewrite Hn. simpl in Hn.
  destruct (get_yesde t p) as [pn|]; [| done].
  by apply height_child in Hn.
Qed.

Lemma height_tyesde n : IS_TNODE n = true -> (1 <= height n)%nat.
Proof. destruct n; [done | simpl; lia]. Qed.

Section trie.
Context (t : key_vector) (Hwf : wf_trie t = true).

(** The suffix length of a node covers what is below it. *)
Lemma slen_under a an q x :
  get_yesde t a = Some an -> get_yesde t (q ++ a) = Some x ->
  kv_slen x <= kv_slen an.
Proof.
  intros Ha. revert x. induction q as [|i q IH]; intros x; simpl.
  { rewrite Ha. intros [= ->]. lia. }
  destruct (get_yesde t (q ++ a)) as [y|] eqn:Hy; [| done]. intros Hx.
  specialize (IH y eq_refl).
  destruct (wf_trie_covered t (q ++ a) y Hwf Hy) as (_ & _ & _ & Hc).
  specialize (Hc _ _ Hx). lia.
Qed.

(** A leaf under a node lies in its range. *)
Lemma leaf_under_range n nn q k s l :
  get_yesde t n = Some nn -> get_yesde t (q ++ n) = Some (Leaf k s l) ->
  (q = [] /\ nn = Leaf k s l \/
   exists q' j, q = q' ++ [j] /\ 0 <= j < 2 ^ kv_bits nn /\
                slot_start nn j <= k < slot_start nn (j + 1)) /\
  kv_key nn <= k < range_end nn.
Proof.
  intros Hn Hl.
  destruct (decide (q = [])) as [->|Hq].
  - simpl in Hl. rewrite Hn in Hl. injection Hl as ->.
    split; [by left |]. unfold range_end. simpl. lia.
  - destruct (exists_last Hq) as (q' & j & ->).
    rewrite <- app_assoc in Hl. simpl in Hl.
    destruct (wf_trie_in_slot t n nn q' j _ Hwf Hn Hl) as (Hj & Hlo & Hhi).
    pose proof (wf_trie_node_ok t n nn Hwf Hn) as (Hp & Hb & _).
    unfold range_end in Hhi. simpl in Hhi.
    assert (Hin : slot_start nn j <= k < slot_start nn (j + 1))
      by (simpl in Hlo; lia).
    split; [right; by exists q', j |].
    pose proof (slot_start_mono nn 0 j Hp ltac:(lia)).
    pose proof (slot_start_mono nn (j + 1) (2 ^ kv_bits nn) Hp ltac:(lia)).
    rewrite slot_start_0 in *. rewrite slot_start_end in * by done. lia.
Qed.

(** A key has one leaf at most. *)
Lemma leaf_unique p p' k s l s' l' :
  get_yesde t p = Some (Leaf k s l) ->
  get_yesde t p' = Some (Leaf k s' l') -> p = p'.
Proof.
  intros Hp Hp'.
  assert (Hk : 0 <= k < 2 ^ 32).
  { apply (wf_trie_leaf_key_bound t Hwf). by exists p, s, l. }
  destruct (fib_find_yesde_spec t k Hwf Hk) as (tp & r & _ & _ & Hall).
  pose proof (Hall _ _ _ Hp) as H1. pose proof (Hall _ _ _ Hp') as H2.
  congruence.
Qed.
End trie.

(** ** One pass of the lookup *)

Section lookup.
Context (net : collaborators) (flp : flowi4) (flags : Z) (t : key_vector).
Context (Hwf : wf_trie t = true) (Hkey : 0 <= daddr flp < 2 ^ 32).

(** A leaf that has an answer holds a prefix that covers the key, and
    the suffix length of every node above the leaf covers that prefix. *)
Lemma answers_cover p k :
  answers net flp flags t p k ->
  exists m, 0 <= m <= 32 /\ k mod 2 ^ m = 0 /\
            k <= daddr flp < k + 2 ^ m /\ 0 <= k < 2 ^ 32 /\
            forall a an q, get_yesde t a = Some an -> p = q ++ a ->
                           m <= kv_slen an.
Proof.
  intros (s & l & Hp & Hans). unfold leaf_answer in Hans.
  cbn [kv_key kv_leaf] in Hans.
  destruct (lookup_leaf _ _ _ _ _ l) as [r|] eqn:Hr; [| done].
  apply lookup_leaf_first in Hr as (l1 & fa & l2 & -> & _ & Hfa).
  assert (Hidx : Z.lxor (daddr flp) k < 2 ^ fa_slen fa).
  { eapply lookup_leaf_index. by rewrite Hfa. }
  assert (Hp0 : p <> []).
  { intros ->. pose proof Hwf as (e & f & c & Ht & _)%wf_trie_root.
    by rewrite Ht in Hp. }
  destruct (wf_trie_get t p _ Hwf Hp Hp0) as [Hw _].
  apply wf_yesde_leaf in Hw as (Hk & Hs & _ & Hall & _).
  destruct (Hall fa) as [Hsl Hal]; [apply elem_of_app; right; left |].
  unfold KEYLENGTH in *.
  exists (fa_slen fa). split; [lia |]. split; [done |].
  split; [apply index_covers; (done || lia) |]. split; [done |].
  intros a an q Ha ->. pose proof (slen_under t Hwf a an q _ Ha Hp) as Hu.
  simpl in Hu. lia.
Qed.

(** A pass leads to a state that keeps the invariant at a smaller cost,
    or returns what is asked for. *)
Definition lookup_progress (s : lookup_state) : Prop :=
  (exists s', lookup_step net t flp flags s = Some (inl s') /\
              lookup_inv net flp flags t s' /\
              (lookup_cost t s' < lookup_cost t s)%nat) \/
  (exists r, lookup_step net t flp flags s = Some (inr r) /\
             lookup_post net flp flags t r).

(** The bookmark is never deeper than the last internal node, and its
    index has 32 bits at most. *)
Lemma bookmark_cost pn c :
  bookmark_ok t (daddr flp) pn c ->
  (34 * length pn + popcount c + 2 <= 34 * height t)%nat.
Proof.
  intros (pnn & Hpn & Hint & Hc & _).
  pose proof (wf_trie_node_ok t pn pnn Hwf Hpn) as (Hp & Hb & Hpb & _).
  pose proof (popcount_bound (kv_bits pnn) c Hb Hc) as Hpop.
  pose proof (get_yesde_height t pn pnn Hpn) as Hh.
  assert (1 <= height pnn)%nat.
  { destruct Hint as [-> | Hint]; [| by apply height_tyesde].
    injection Hpn as <-.
    pose proof Hwf as (e & f & c' & -> & _)%wf_trie_root. simpl. lia. }
  unfold KEYLENGTH in *. lia.
Qed.

(** Nothing hangs in an empty slot. *)
Lemma empty_slot n nn j q x :
  get_yesde t n = Some nn -> get_child nn j = None ->
  get_yesde t (q ++ j :: n) = Some x -> False.
Proof.
  intros Hn Hc. by rewrite get_yesde_app, get_yesde_cons, Hn; simpl; rewrite Hc.
Qed.

(** A leaf under an internal node hangs in one of its slots. *)
Lemma under_tyesde n nn q p k :
  get_yesde t n = Some nn -> IS_TNODE nn = true ->
  answers net flp flags t p k -> p = q ++ n ->
  exists q' j, p = q' ++ j :: n /\ 0 <= j < 2 ^ kv_bits nn /\
               slot_start nn j <= k < slot_start nn (j + 1).
Proof.
  intros Hn Ht (s & l & Hp & _) ->.
  destruct (leaf_under_range t Hwf n nn q k s l Hn Hp)
    as [[[_ ->] | (q' & j & -> & Hj & Hin)] _]; [done |].
  exists q', j. by rewrite <- app_assoc.
Qed.

Lemma descend_step n pn c :
  lookup_inv net flp flags t (Descend n pn c) ->
  lookup_progress (Descend n pn c).
Proof.
  intros (Hbm & (nn & q & Hn & Hq) & Hahead).
  pose proof Hbm as (pnn & Hpn & Hint & Hc & Hlo & d & Hd & Hcd & Hhi).
  pose proof (bookmark_cost pn c Hbm) as Hcost.
  pose proof Hn as Hn'. rewrite Hq in Hn'.
  destruct (wf_trie_in_slot t pn pnn q c nn Hwf Hpn Hn') as (_ & Hnlo & Hnhi).
  clear Hn'.
  pose proof (wf_trie_node_ok t n nn Hwf Hn) as (Hp & Hb & Hpb & Hk & Hal & Hre).
  assert (Hn0 : n <> []) by (rewrite Hq; by destruct q).
  destruct (wf_trie_get t n nn Hwf Hn Hn0) as [Hwn _].
  pose proof (get_cindex_nonneg (daddr flp) nn ltac:(lia) Hk) as Hi0.
  pose proof (pow2_pos (kv_bits nn) Hb) as Hpb2.
  unfold lookup_progress. cbn [lookup_step]. rewrite Hn. cbn [mbind option_bind].
  destruct (Z.leb_spec (2 ^ kv_bits nn) (get_cindex (daddr flp) nn)) as [Hout|Hin].
  { (* the key is not under [n] *)
    left. eexists. split; [done |]. split.
    - split; [done |]. split; [| done]. exists nn, q. split; [done |].
      split; [done |]. intros Hrange.
      apply (shiftr_lxor_range (kv_key nn) (daddr flp)
               (kv_pos nn + kv_bits nn)) in Hrange; [| lia..| done].
      apply shiftr_index_small in Hrange; [| apply lxor_nonneg_2; lia | done..].
      unfold get_cindex in Hout. lia.
    - cbn [lookup_cost]. nia. }
  assert (Hslot : slot_start nn (get_cindex (daddr flp) nn) <= daddr flp
                  < slot_start nn (get_cindex (daddr flp) nn + 1)).
  { unfold slot_start.
    apply (shiftr_lxor_slot (kv_key nn) (daddr flp) (kv_pos nn) (kv_bits nn));
      (done || lia). }
  set (index := get_cindex (daddr flp) nn) in *.
  destruct (IS_LEAF nn) eqn:Hleaf.
  { (* a leaf with the key *)
    left. eexists. split; [done |]. split.
    - split; [done |]. split; [| done].
      destruct (wf_yesde_is_leaf nn Hwn) as (s & l & Hnn).
      { unfold IS_TNODE. unfold IS_LEAF in Hleaf. by rewrite Hleaf. }
      exists (kv_key nn), s, l, q. by rewrite <- Hnn.
    - cbn [lookup_cost]. nia. }
  assert (Htn : IS_TNODE nn = true).
  { unfold IS_TNODE. unfold IS_LEAF in Hleaf. by rewrite Hleaf. }
  pose proof (height_tyesde nn Htn) as Hh1.
  pose proof (get_yesde_height t n nn Hn) as Hhn.
  (* the leaves under [n] that have an answer *)
  assert (Hunder : forall p k q0,
    answers net flp flags t p k -> p = q0 ++ n ->
    exists q' j, p = q' ++ j :: n /\ 0 <= j <= index /\
                 slot_start nn j <= k < slot_start nn (j + 1) /\
                 (kv_slen nn <= kv_pos nn -> j = index)).
  { intros p k q0 Hans Hp0.
    destruct (under_tyesde n nn q0 p k Hn Htn Hans Hp0)
      as (q' & j & Hpj & Hj & Hkj).
    destruct (answers_cover p k Hans) as (m & Hm & Hmal & Hcov & Hk32 & Hsl).
    exists q', j. split; [done |].
    assert (Hji : j <= index).
    { destruct (Z.le_gt_cases j index) as [|Hgt]; [done | exfalso].
      pose proof (slot_start_mono nn (index + 1) j Hp ltac:(lia)). lia. }
    split; [lia |]. split; [done |]. intros Hslen.
    destruct (decide (j = index)) as [|Hne]; [done | exfalso].
    specialize (Hsl n nn (q' ++ [j]) Hn).
    rewrite <- app_assoc in Hsl. specialize (Hsl Hpj).
    assert (Hend : slot_start nn (j + 1) mod 2 ^ kv_pos nn = 0).
    { unfold slot_start.
      rewrite Z.add_mod, Z.mod_mul,
        (mod_pow2_weaken (kv_key nn) (kv_pos nn + kv_bits nn) (kv_pos nn))
        by (done || lia). done. }
    pose proof (cover_in_slot (daddr flp) k m _ (kv_pos nn) ltac:(lia)
                  Hmal Hcov Hend ltac:(lia)).
    pose proof (slot_start_mono nn (j + 1) index Hp ltac:(lia)). lia. }
  assert (Hu32 : u32 index = index).
  { unfold u32. apply Z.mod_small. split; [done |].
    pose proof (Z.pow_le_mono_r 2 (kv_bits nn) 32 ltac:(lia)).
    unfold KEYLENGTH in *. lia. }
  assert (Hbefore : forall k, before_bookmark t pn c k ->
                              k < slot_start nn index).
  { intros k (pnn' & Hpn' & Hlt). rewrite Hpn in Hpn'. injection Hpn' as <-.
    pose proof (slot_start_mono nn 0 index Hp ltac:(lia)).
    rewrite slot_start_0 in *. lia. }
  destruct (Z.ltb_spec (kv_pos nn) (kv_slen nn)) as [Hlong|Hshort].
  - (* the bookmark moves to [n] *)
    rewrite Hu32.
    assert (Hbm' : bookmark_ok t (daddr flp) n index).
    { exists nn. split; [done |]. split; [by right |]. split; [lia |].
      split; [lia |]. exists 0. split; [lia |].
      split; [by rewrite Z.mod_1_r |].
      rewrite Z.add_0_r, <- slot_start_step. lia. }
    pose proof (bookmark_cost n index Hbm') as Hcost'.
    destruct (get_child nn index) as [x|] eqn:Hx.
    + left. eexists. split; [done |]. split.
      * split; [done |]. split.
        { exists x, []. split; [| done]. by eapply child_ptr. }
        intros p k Hans. destruct (Hahead p k Hans) as [[q0 Hp0]|Hbf].
        -- destruct (Hunder p k q0 Hans Hp0) as (q' & j & Hpj & Hj & Hkj & _).
           destruct (decide (j = index)) as [->|Hne]; [left; by exists q' |].
           right. exists nn. split; [done |].
           pose proof (slot_start_mono nn (j + 1) index Hp ltac:(lia)). lia.
        -- right. exists nn. split; [done |]. by apply Hbefore.
      * cbn [lookup_cost].
        pose proof (height_at_child t n index x (child_ptr t n nn Hn _ _ Hx)).
        lia.
    + left. eexists. split; [done |]. split.
      * split; [done |]. intros p k Hans. exists nn. split; [done |].
        destruct (Hahead p k Hans) as [[q0 Hp0]|Hbf]; [| by apply Hbefore].
        destruct (Hunder p k q0 Hans Hp0) as (q' & j & Hpj & Hj & Hkj & _).
        destruct (decide (j = index)) as [->|Hne].
        { destruct Hans as (s & l & Hget & _). rewrite Hpj in Hget.
          by destruct (empty_slot n nn index q' _ Hn Hx Hget). }
        pose proof (slot_start_mono nn (j + 1) index Hp ltac:(lia)). lia.
      * cbn [lookup_cost]. nia.
  - (* the bookmark stays *)
    destruct (get_child nn index) as [x|] eqn:Hx.
    + left. eexists. split; [done |]. split.
      * split; [done |]. split.
        { exists x, (index :: q). split; [by eapply child_ptr |].
          by rewrite Hq. }
        intros p k Hans. destruct (Hahead p k Hans) as [[q0 Hp0]|Hbf];
          [| by right].
        destruct (Hunder p k q0 Hans Hp0) as (q' & j & Hpj & _ & _ & Hj).
        rewrite Hj in Hpj by lia. left. by exists q'.
      * cbn [lookup_cost].
        pose proof (height_at_child t n index x (child_ptr t n nn Hn _ _ Hx)).
        lia.
    + left. eexists. split; [done |]. split.
      * split; [done |]. intros p k Hans.
        destruct (Hahead p k Hans) as [[q0 Hp0]|Hbf]; [| done].
        destruct (Hunder p k q0 Hans Hp0) as (q' & j & Hpj & _ & _ & Hj).
        rewrite Hj in Hpj by lia.
        destruct Hans as (s & l & Hget & _). rewrite Hpj in Hget.
        by destruct (empty_slot n nn index q' _ Hn Hx Hget).
      * cbn [lookup_cost]. nia.
Qed.

Lemma inspect_step n pn c :
  lookup_inv net flp flags t (Inspect n pn c) ->
  lookup_progress (Inspect n pn c).
Proof.
  intros (Hbm & (nn & q & Hn & Hq & Hout) & Hahead).
  pose proof Hbm as (pnn & Hpn & Hint & Hc & Hlo & d & Hd & Hcd & Hhi).
  pose proof (wf_trie_node_ok t n nn Hwf Hn) as (Hp & Hb & Hpb & Hk & Hal & Hre).
  assert (Hn0 : n <> []) by (rewrite Hq; by destruct q).
  destruct (wf_trie_get t n nn Hwf Hn Hn0) as [Hwn _].
  pose proof (pow2_pos (kv_pos nn) Hp) as Hpp2.
  (* a leaf under [n] that has an answer *)
  assert (Hunder : forall p k q0,
    answers net flp flags t p k -> p = q0 ++ n ->
    k = kv_key nn /\ prefix_mismatch (daddr flp) nn = 0 /\
    kv_pos nn < kv_slen nn /\
    (IS_TNODE nn = true -> exists q', p = q' ++ 0 :: n)).
  { intros p k q0 Hans Hp0.
    destruct (answers_cover p k Hans) as (m & Hm & Hmal & Hcov & Hk32 & Hsl).
    pose proof Hans as (s & l & Hget & _). rewrite Hp0 in Hget.
    destruct (leaf_under_range t Hwf n nn q0 k s l Hn Hget) as [Hclass Hrange].
    unfold range_end in Hrange, Hout.
    destruct (cover_from_outside (daddr flp) k m (kv_key nn)
                (kv_pos nn + kv_bits nn)) as [HMm ->]; try (done || lia).
    split; [done |]. split.
    { apply (prefix_mismatch_covered _ _ m); (done || lia). }
    specialize (Hsl n nn q0 Hn Hp0). split; [lia |]. intros Htn.
    destruct Hclass as [[_ Heq] | (q' & j & -> & Hj & Hkj)];
      [by rewrite Heq in Htn |].
    exists q'. rewrite <- app_assoc in Hp0. simpl in Hp0.
    destruct (decide (j = 0)) as [->|Hne]; [done | exfalso].
    pose proof (slot_start_mono nn 1 j Hp ltac:(lia)) as Hmono.
    unfold slot_start in Hmono, Hkj. lia. }
  unfold lookup_progress. cbn [lookup_step]. rewrite Hn. cbn [mbind option_bind].
  destruct (negb (prefix_mismatch (daddr flp) nn =? 0)
            || (kv_slen nn =? kv_pos nn)) eqn:Htest.
  { (* nothing under [n] can match *)
    left. eexists. split; [done |]. split.
    - split; [done |]. intros p k Hans.
      destruct (Hahead p k Hans) as [[q0 Hp0]|Hbf]; [exfalso | done].
      destruct (Hunder p k q0 Hans Hp0) as (_ & Hpm & Hsl & _).
      rewrite Hpm in Htest. simpl in Htest. apply Z.eqb_eq in Htest. lia.
    - cbn [lookup_cost]. lia. }
  destruct (IS_LEAF nn) eqn:Hleaf.
  { left. eexists. split; [done |]. split.
    - split; [done |]. split; [| done].
      destruct (wf_yesde_is_leaf nn Hwn) as (s & l & Hnn).
      { unfold IS_TNODE. unfold IS_LEAF in Hleaf. by rewrite Hleaf. }
      exists (kv_key nn), s, l, q. by rewrite <- Hnn.
    - cbn [lookup_cost]. lia. }
  assert (Htn : IS_TNODE nn = true).
  { unfold IS_TNODE. unfold IS_LEAF in Hleaf. by rewrite Hleaf. }
  destruct (get_child nn 0) as [x|] eqn:Hx.
  - left. eexists. split; [done |]. split.
    + split; [done |]. split.
      { exists x, (0 :: q). split; [by eapply child_ptr |].
        split; [by rewrite Hq |].
        destruct (child_in_slot t Hwf n nn Hn 0 x Hx) as (_ & Hxlo & Hxhi).
        pose proof (wf_trie_node_ok t (0 :: n) x Hwf
                      (child_ptr t n nn Hn _ _ Hx)) as Hxok.
        pose proof (range_end_gt x Hxok) as Hxgt.
        pose proof (slot_start_mono nn 1 (2 ^ kv_bits nn) Hp
                      ltac:(pose proof (pow2_pos (kv_bits nn) Hb);
                            unfold IS_TNODE in Htn;
                            apply negb_true_iff, Z.eqb_neq in Htn; lia))
          as Hmono.
        rewrite slot_start_end in Hmono by done.
        rewrite slot_start_0 in Hxlo. change (0 + 1) with 1 in Hxhi. lia. }
      intros p k Hans. destruct (Hahead p k Hans) as [[q0 Hp0]|Hbf];
        [left | by right].
      destruct (Hunder p k q0 Hans Hp0) as (_ & _ & _ & Hq').
      destruct (Hq' Htn) as (q' & Hpq). by exists q'.
    + cbn [lookup_cost].
      pose proof (height_at_child t n 0 x (child_ptr t n nn Hn _ _ Hx)).
      lia.
  - left. eexists. split; [done |]. split.
    + split; [done |]. intros p k Hans.
      destruct (Hahead p k Hans) as [[q0 Hp0]|Hbf]; [exfalso | done].
      destruct (Hunder p k q0 Hans Hp0) as (_ & _ & _ & Hq').
      destruct (Hq' Htn) as (q' & Hpq).
      destruct Hans as (s & l & Hget & _). rewrite Hpq in Hget.
      by destruct (empty_slot n nn 0 q' _ Hn Hx Hget).
    + cbn [lookup_cost]. lia.
Qed.

Lemma found_step n pn c :
  lookup_inv net flp flags t (Found n pn c) ->
  lookup_progress (Found n pn c).
Proof.
  intros (Hbm & (k & s & l & q & Hn & Hq) & Hahead).
  pose proof Hbm as (pnn & Hpn & Hint & Hc & Hlo & _).
  pose proof Hn as Hn'. rewrite Hq in Hn'.
  destruct (wf_trie_in_slot t pn pnn q c _ Hwf Hpn Hn') as (_ & Hnlo & _).
  clear Hn'. cbn [kv_key] in Hnlo.
  assert (Hsame : forall p k' q0,
            answers net flp flags t p k' -> p = q0 ++ n -> p = n /\ k' = k).
  { intros p k' q0 (s' & l' & Hget & _) ->.
    pose proof Hget as Hget'.
    rewrite get_yesde_app, Hn in Hget'. simpl in Hget'.
    apply get_yesde_leaf in Hget' as ->. simpl in Hget.
    rewrite Hn in Hget. by injection Hget as -> _ _. }
  unfold lookup_progress. cbn [lookup_step]. rewrite Hn. cbn [mbind option_bind].
  change (lookup_leaf net flp flags (Leaf k s l)
            (Z.lxor (daddr flp) (kv_key (Leaf k s l))) (kv_leaf (Leaf k s l)))
    with (leaf_answer net flp flags (Leaf k s l)).
  destruct (leaf_answer net flp flags (Leaf k s l)) as [r|] eqn:Hr.
  - right. exists r. split; [done |]. right. exists n, k, s, l.
    split; [done |]. split; [done |]. intros p' k' Hans.
    destruct (Hahead p' k' Hans) as [[q0 Hp0]|(pnn' & Hpn' & Hlt)].
    + destruct (Hsame _ _ _ Hans Hp0) as [_ ->]. lia.
    + rewrite Hpn in Hpn'. injection Hpn' as <-. lia.
  - left. eexists. split; [done |]. split.
    + split; [done |]. intros p' k' Hans.
      destruct (Hahead p' k' Hans) as [[q0 Hp0]|Hbf]; [exfalso | done].
      destruct (Hsame _ _ _ Hans Hp0) as [-> ->].
      destruct Hans as (s' & l' & Hget & Hans). rewrite Hn in Hget.
      injection Hget as <- <-. by rewrite Hr in Hans.
    + cbn [lookup_cost]. lia.
Qed.

Lemma backtrace_step pn c :
  lookup_inv net flp flags t (Backtrace pn c) ->
  lookup_progress (Backtrace pn c).
Proof.
  intros (Hbm & Hbt).
  pose proof Hbm as (pnn & Hpn & Hint & Hc & Hlo & d & Hd & Hcd & Hhi).
  pose proof (wf_trie_node_ok t pn pnn Hwf Hpn)
    as (Hp & Hb & Hpb & Hk & Hal & Hre).
  assert (Hbt' : forall p k, answers net flp flags t p k ->
                             k < slot_start pnn c).
  { intros p k Hans. destruct (Hbt p k Hans) as (pnn' & Hpn' & Hlt).
    rewrite Hpn in Hpn'. by injection Hpn' as <-. }
  unfold lookup_progress. cbn [lookup_step]. rewrite Hpn.
  cbn [mbind option_bind].
  destruct (Z.eqb_spec c 0) as [->|Hc0].
  - (* no bit left to strip *)
    rewrite slot_start_0 in *.
    destruct (IS_TRIE pnn) eqn:Htrie.
    { right. eexists. split; [done |]. left. split; [done |].
      intros p k Hans. pose proof (Hbt' p k Hans) as Hlt.
      destruct (answers_cover p k Hans) as (_ & _ & _ & _ & Hk0 & _).
      apply (wf_trie_is_trie t Hwf pn pnn Hpn Hint) in Htrie as ->.
      injection Hpn as <-.
      pose proof Hwf as (e & f & c' & Ht & _)%wf_trie_root.
      rewrite Ht in Hlt. simpl in Hlt. lia. }
    destruct pn as [|i pp].
    { by rewrite (proj2 (wf_trie_is_trie t Hwf [] pnn Hpn Hint)) in Htrie. }
    destruct Hint as [|Hint]; [done |].
    pose proof Hpn as Hpn'. rewrite get_yesde_cons in Hpn'.
    destruct (get_yesde t pp) as [ppn|] eqn:Hpp; [| done].
    cbn [mbind option_bind] in Hpn'. cbn [mbind option_bind].
    pose proof (wf_trie_node_ok t pp ppn Hwf Hpp)
      as (Hpp0 & Hpb0 & Hppb & Hpk & Hpal & Hpre).
    destruct (wf_trie_in_slot t pp ppn [] i pnn Hwf Hpp Hpn)
      as (Hi & Hilo & Hihi).
    pose proof (range_end_gt pnn ltac:(by eapply wf_trie_node_ok)) as Hgt.
    assert (Hidx : get_index (kv_key pnn) ppn = i).
    { rewrite get_index_cindex. unfold get_cindex.
      apply (shiftr_lxor_slot _ _ _ (kv_bits ppn)); try (done || lia).
      unfold slot_start in Hilo, Hihi. lia. }
    assert (Hu32 : u32 i = i).
    { unfold u32. apply Z.mod_small.
      pose proof (Z.pow_le_mono_r 2 (kv_bits ppn) 32 ltac:(lia)).
      unfold KEYLENGTH in *. lia. }
    rewrite Hidx, Hu32.
    pose proof (wf_trie_parent_internal t pp ppn i pnn Hwf Hpp Hpn') as Hpint.
    assert (Hkey' : daddr flp < slot_start ppn (i + 1)).
    { pose proof (Z.pow_le_mono_r 2 (kv_pos pnn + d)
                    (kv_pos pnn + kv_bits pnn) ltac:(lia) ltac:(lia)).
      unfold range_end in Hihi. lia. }
    left. eexists. split; [done |]. split.
    + split.
      { exists ppn. split; [done |]. split; [done |]. split; [done |].
        split; [lia |]. exists 0. split; [lia |].
        split; [by rewrite Z.mod_1_r |].
        by rewrite Z.add_0_r, <- slot_start_step. }
      intros p k Hans. exists ppn. split; [done |].
      pose proof (Hbt' p k Hans) as Hlt.
      destruct (Z.lt_ge_cases k (slot_start ppn i)) as [|Hge]; [done |].
      exfalso. pose proof Hans as (s & l & Hget & _).
      destruct (wf_trie_under_slot t pp ppn p k s l i Hwf Hpp Hpint Hget Hi)
        as (q & ->); [lia |].
      destruct (leaf_under_range t Hwf (i :: pp) pnn q k s l Hpn Hget)
        as [_ Hr]. lia.
    + cbn [lookup_cost length].
      pose proof (popcount_bound (kv_bits ppn) i Hpb0 Hi) as Hpop.
      change (popcount 0) with O. unfold KEYLENGTH in *. nia.
  - (* strip the lowest bit *)
    destruct (strip_lowest_bit c ltac:(lia))
      as (m & a & Hm & Ha & Hceq & Hland & Hpop).
    set (c' := Z.land c (c - 1)) in *.
    pose proof (pow2_pos m Hm) as Hpm.
    pose proof (pow2_pos (kv_pos pnn) Hp) as Hpp2.
    assert (Hc' : c' = c - 2 ^ m) by lia.
    assert (Hmb : m < kv_bits pnn).
    { apply (Z.pow_lt_mono_r_iff 2); [lia | lia | nia]. }
    assert (Hdm : d <= m).
    { destruct (Z.le_gt_cases d m) as [|Hgt]; [done | exfalso].
      pose proof (mod_pow2_weaken c d (m + 1) ltac:(lia) Hcd) as Hw.
      rewrite Hceq, Z.pow_add_r, Z.pow_1_r in Hw by lia.
      replace ((2 * a + 1) * 2 ^ m) with (2 ^ m + a * (2 ^ m * 2)) in Hw
        by lia.
      rewrite Z.mod_add, Z.mod_small in Hw; lia. }
    assert (Hpow : 2 ^ (kv_pos pnn + m) = 2 ^ m * 2 ^ kv_pos pnn).
    { rewrite Z.pow_add_r by lia. lia. }
    assert (Hstart : slot_start pnn c
                     = slot_start pnn c' + 2 ^ (kv_pos pnn + m)).
    { unfold slot_start. rewrite Hpow, Hc'. lia. }
    assert (Hkey' : daddr flp < slot_start pnn c + 2 ^ (kv_pos pnn + m)).
    { pose proof (Z.pow_le_mono_r 2 (kv_pos pnn + d) (kv_pos pnn + m)
                    ltac:(lia) ltac:(lia)). lia. }
    assert (Hal' : slot_start pnn c' mod 2 ^ (kv_pos pnn + m + 1) = 0).
    { unfold slot_start.
      rewrite Z.add_mod,
        (mod_pow2_weaken (kv_key pnn) (kv_pos pnn + kv_bits pnn)
           (kv_pos pnn + m + 1)) by (done || lia).
      replace (c' * 2 ^ kv_pos pnn) with (a * 2 ^ (kv_pos pnn + m + 1)).
      - by rewrite Z.mod_mul by lia.
      - rewrite Hland, !Z.pow_add_r, Z.pow_1_r by lia. lia. }
    assert (Hbm' : bookmark_ok t (daddr flp) pn c').
    { exists pnn. split; [done |]. split; [done |]. split; [lia |].
      split; [lia |]. exists (m + 1). split; [lia |]. split.
      - rewrite Hland, Z.pow_add_r, Z.pow_1_r by lia.
        replace (2 * a * 2 ^ m) with (a * (2 ^ m * 2)) by lia.
        apply Z.mod_mul. lia.
      - replace (kv_pos pnn + (m + 1)) with (kv_pos pnn + m + 1) by lia.
        rewrite (Z.pow_add_r _ _ 1), Z.pow_1_r by lia. lia. }
    (* the leaves between the two slots *)
    assert (Hbetween : forall p k,
      answers net flp flags t p k -> slot_start pnn c' <= k ->
      exists q, p = q ++ c' :: pn).
    { intros p k Hans Hge. pose proof (Hbt' p k Hans) as Hlt.
      destruct (answers_cover p k Hans) as (mm & Hmm & Hmal & Hcov & _).
      assert (k = slot_start pnn c') as ->.
      { apply (cover_after_strip (daddr flp) k mm _ (kv_pos pnn + m));
          (done || lia). }
      destruct Hans as (s & l & Hget & _).
      apply (wf_trie_under_slot t pn pnn p _ s l c' Hwf Hpn Hint Hget);
        [lia |]. rewrite slot_start_step. lia. }
    destruct (get_child pnn c') as [x|] eqn:Hx.
    + left. eexists. split; [done |]. split.
      * split; [done |]. split.
        { exists x, []. split; [by eapply child_ptr |]. split; [done |].
          destruct (child_in_slot t Hwf pn pnn Hpn c' x Hx) as (_ & _ & Hxhi).
          pose proof (slot_start_mono pnn (c' + 1) c Hp ltac:(lia)). lia. }
        intros p k Hans.
        destruct (Z.lt_ge_cases k (slot_start pnn c')) as [Hlt|Hge].
        -- right. by exists pnn.
        -- left. by eapply Hbetween.
      * cbn [lookup_cost]. rewrite Hpop.
        pose proof (get_yesde_height t (c' :: pn) x
                      (child_ptr t pn pnn Hpn _ _ Hx)) as Hh.
        unfold height_at. rewrite (child_ptr t pn pnn Hpn _ _ Hx).
        cbn [length] in Hh. nia.
    + left. eexists. split; [done |]. split.
      * split; [done |]. intros p k Hans. exists pnn. split; [done |].
        destruct (Z.lt_ge_cases k (slot_start pnn c')) as [|Hge]; [done |].
        exfalso. destruct (Hbetween p k Hans Hge) as (q & ->).
        destruct Hans as (s & l & Hget & _).
        by destruct (empty_slot pn pnn c' q _ Hpn Hx Hget).
      * cbn [lookup_cost]. rewrite Hpop. nia.
Qed.

Lemma lookup_step_progress s :
  lookup_inv net flp flags t s -> lookup_progress s.
Proof.
  destruct s; [apply descend_step | apply inspect_step
               | apply backtrace_step | apply found_step].
Qed.

Lemma lookup_run_spec fuel s :
  lookup_inv net flp flags t s -> (lookup_cost t s <= fuel)%nat ->
  exists r, lookup_run net t flp flags fuel s = Some r /\
            lookup_post net flp flags t r.
Proof.
  revert s. induction fuel as [|fuel IH]; intros s Hinv Hcost.
  { destruct s; cbn [lookup_cost] in Hcost; lia. }
  cbn [lookup_run].
  destruct (lookup_step_progress s Hinv)
    as [(s' & -> & Hinv' & Hlt) | (r & -> & Hpost)].
  - apply IH; [done | lia].
  - by exists r.
Qed.

(** The lookup returns, and what it returns is the answer of the leaf
    with the largest key among those that have one. *)
Lemma fib_table_lookup_spec :
  exists r, fib_table_lookup net t flp flags = Some r /\
            lookup_post net flp flags t r.
Proof.
  pose proof Hwf as (e & f & c & Ht & _)%wf_trie_root.
  assert (Hroot : forall p n, get_yesde t p = Some n -> p <> [] ->
                              exists q, p = q ++ [0])
    by (intros p n; apply wf_trie_ptr_root; done).
  assert (Hleafp : forall p k, answers net flp flags t p k ->
                               exists q, p = q ++ [0]).
  { intros p k (s & l & Hp & _). apply (Hroot _ _ Hp).
    intros ->. by rewrite Ht in Hp. }
  unfold fib_table_lookup. destruct (get_child t 0) as [x|] eqn:Hx.
  - apply lookup_run_spec.
    + split; [| split].
      * exists t. split; [done |]. split; [by left |].
        rewrite Ht. unfold slot_start. simpl. split; [lia |].
        split; [lia |]. exists 0. change (32 + 0) with 32.
        split; [lia |]. split; [done | lia].
      * exists x, []. split; [| done]. by apply (child_ptr t [] t).
      * intros p k Hans. left. by eapply Hleafp.
    + cbn [lookup_cost]. unfold lookup_fuel, height_at.
      rewrite (child_ptr t [] t eq_refl _ _ Hx).
      pose proof (height_child _ _ _ Hx). nia.
  - eexists. split; [done |]. left. split; [done |].
    intros p k Hans. destruct (Hleafp p k Hans) as (q & ->).
    destruct Hans as (s & l & Hget & _).
    by destruct (empty_slot [] t 0 q _ eq_refl Hx Hget).
Qed.

(** An alias that answers covers the key with its prefix. *)
Lemma alias_cover p k s l fa :
  get_yesde t p = Some (Leaf k s l) -> fa ∈ l ->
  alias_answer net flp flags (Leaf k s l) fa <> None ->
  0 <= fa_slen fa <= 32 /\ k mod 2 ^ fa_slen fa = 0 /\
  k <= daddr flp < k + 2 ^ fa_slen fa /\ 0 <= k < 2 ^ 32.
Proof.
  intros Hp Hin Hans.
  apply lookup_leaf_index in Hans. cbn [kv_key] in Hans.
  assert (Hp0 : p <> []).
  { intros ->. pose proof Hwf as (e & f & c & Ht & _)%wf_trie_root.
    by rewrite Ht in Hp. }
  destruct (wf_trie_get t p _ Hwf Hp Hp0) as [Hw _].
  apply wf_yesde_leaf in Hw as (Hk & Hs & _ & Hall & _).
  destruct (Hall fa Hin) as [Hsl Hal]. unfold KEYLENGTH in *.
  split; [lia |]. split; [done |]. split; [| done].
  apply index_covers; (done || lia).
Qed.

Lemma alias_answers p k s l fa :
  get_yesde t p = Some (Leaf k s l) -> fa ∈ l ->
  alias_answer net flp flags (Leaf k s l) fa <> None ->
  answers net flp flags t p k.
Proof.
  intros Hp Hin Hans. exists s, l. split; [done |].
  by apply (lookup_leaf_some _ _ _ _ _ _ fa).
Qed.
End lookup.

(** ** What the lookup returns *)

(** The answer of the lookup is that of the first alias to answer in the
    leaf of the longest prefix that has one. *)
Lemma lookup_first_longest (net : collaborators)
    (t : key_vector) (flp : flowi4) (flags : Z) :
  wf_trie t = true -> 0 <= daddr flp < 2 ^ 32 ->
  exists r,
    fib_table_lookup net t flp flags = Some r /\
    ((exists p k s l l1 fa l2,
        get_yesde t p = Some (Leaf k s l) /\ l = l1 ++ fa :: l2 /\
        alias_answer net flp flags (Leaf k s l) fa = Some r /\
        Forall (fun x => alias_answer net flp flags (Leaf k s l) x = None)
               l1 /\
        forall p' k' s' l' fa',
          get_yesde t p' = Some (Leaf k' s' l') -> fa' ∈ l' ->
          alias_answer net flp flags (Leaf k' s' l') fa' <> None ->
          fa_slen fa <= fa_slen fa') \/
     (r = (- EAGAIN, None) /\
      forall p' k' s' l' fa',
        get_yesde t p' = Some (Leaf k' s' l') -> fa' ∈ l' ->
        alias_answer net flp flags (Leaf k' s' l') fa' = None)).
Proof.
  intros Hwf Hkey.
  destruct (fib_table_lookup_spec net flp flags t Hwf Hkey)
    as (r & Hr & [[-> Hnone] | (p & k & s & l & Hp & Hans & Hmax)]).
  - exists (- EAGAIN, None). split; [done |]. right. split; [done |].
    intros p' k' s' l' fa' Hp' Hin.
    destruct (alias_answer net flp flags (Leaf k' s' l') fa') eqn:Hfa;
      [exfalso | done].
    apply (Hnone p' k').
    apply (alias_answers net flp flags t p' k' s' l' fa'); [done.. |].
    by rewrite Hfa.
  - exists r. split; [done |]. left.
    apply lookup_leaf_first in Hans as (l1 & fa & l2 & Hl & Hl1 & Hfa).
    cbn [kv_leaf kv_key] in Hl, Hl1, Hfa.
    exists p, k, s, l, l1, fa, l2. split; [done |]. split; [done |].
    split; [done |]. split; [done |].
    intros p' k' s' l' fa' Hp' Hin' Hfa'.
    assert (Hin : fa ∈ l).
    { rewrite Hl. apply elem_of_app. right. left. }
    destruct (alias_cover net flp flags t Hwf Hkey p k s l fa Hp Hin)
      as (Hm & Hal & Hcov & _).
    { unfold alias_answer. cbn [kv_key]. by rewrite Hfa. }
    destruct (alias_cover net flp flags t Hwf Hkey p' k' s' l' fa' Hp' Hin'
                Hfa') as (Hm' & Hal' & Hcov' & _).
    pose proof (Hmax p' k'
                  (alias_answers net flp flags t p' k' s' l' fa' Hp' Hin'
                     Hfa')) as Hle.
    destruct (decide (k' = k)) as [->|Hne].
    + pose proof (leaf_unique t Hwf _ _ _ _ _ _ _ Hp Hp') as <-.
      rewrite Hp in Hp'. injection Hp' as <- <-.
      assert (Hp0 : p <> []).
      { intros ->. pose proof Hwf as (e & f & c & Ht & _)%wf_trie_root.
        by rewrite Ht in Hp. }
      destruct (wf_trie_get t p _ Hwf Hp Hp0) as [Hw _].
      apply wf_yesde_leaf in Hw as (_ & _ & _ & _ & Hsort).
      rewrite Hl in Hsort, Hin'.
      apply StronglySorted_app in Hsort as (_ & _ & Hs2).
      apply StronglySorted_inv in Hs2 as [_ Hall].
      apply elem_of_app in Hin' as [Hin'|Hin'].
      { eapply Forall_forall in Hl1; [| exact Hin'].
        unfold alias_answer in Hfa'. cbn [kv_key] in Hfa'. done. }
      apply elem_of_cons in Hin' as [->|Hin']; [lia |].
      eapply Forall_forall in Hall; [| exact Hin'].
      unfold alias_order in Hall. lia.
    + pose proof (cover_longer (daddr flp) k (fa_slen fa) k' (fa_slen fa')
                    ltac:(lia) ltac:(lia) Hal Hcov Hal' Hcov' ltac:(lia)).
      lia.
Qed.

(** X6: on a well-formed trie [fib_table_lookup] returns.  What it
    returns is the answer of an alias whose prefix is the longest among
    all the aliases of the table that answer the flow, and the first in
    its leaf's list to answer; or it is [-EAGAIN], when no alias of the
    table answers. *)
Theorem fib_table_lookup_longest_prefix (net : collaborators)
    (t : key_vector) (flp : flowi4) (flags : Z) :
  wf_trie t = true -> 0 <= daddr flp < 2 ^ 32 ->
  exists r,
    fib_table_lookup net t flp flags = Some r /\
    ((exists p k s l l1 fa l2,
        get_yesde t p = Some (Leaf k s l) /\ l = l1 ++ fa :: l2 /\
        alias_answer net flp flags (Leaf k s l) fa = Some r /\
        Forall (fun x => alias_answer net flp flags (Leaf k s l) x = None)
               l1 /\
        forall p' k' s' l' fa',
          get_yesde t p' = Some (Leaf k' s' l') -> fa' ∈ l' ->
          alias_answer net flp flags (Leaf k' s' l') fa' <> None ->
          fa_slen fa <= fa_slen fa') \/
     (r = (- EAGAIN, None) /\
      forall p' k' s' l' fa',
        get_yesde t p' = Some (Leaf k' s' l') -> fa' ∈ l' ->
        alias_answer net flp flags (Leaf k' s' l') fa' = None)).
Proof. exact (lookup_first_longest net t flp flags). Qed.

(** X7: when no prefix held in the (well-formed) trie covers the
    destination, [fib_table_lookup] returns [-EAGAIN] and no result. *)
Theorem fib_table_lookup_no_route (net : collaborators) (t : key_vector)
    (flp : flowi4) (flags : Z) :
  wf_trie t = true -> 0 <= daddr flp < 2 ^ 32 ->
  (forall p k s l fa,
     get_yesde t p = Some (Leaf k s l) -> fa ∈ l ->
     ~ (k <= daddr flp < k + 2 ^ fa_slen fa)) ->
  fib_table_lookup net t flp flags = Some (- EAGAIN, None).
Proof.
  intros Hwf Hkey Hnone.
  destruct (fib_table_lookup_spec net flp flags t Hwf Hkey)
    as (r & Hr & [[-> _] | (p & k & s & l & Hp & Hans & _)]); [done |].
  exfalso.
  apply lookup_leaf_first in Hans as (l1 & fa & l2 & Hl & _ & Hfa).
  cbn [kv_leaf kv_key] in Hl, Hfa.
  assert (Hin : fa ∈ l).
  { rewrite Hl. apply elem_of_app. right. left. }
  destruct (alias_cover net flp flags t Hwf Hkey p k s l fa Hp Hin)
    as (_ & _ & Hcov & _).
  { unfold alias_answer. cbn [kv_key]. by rewrite Hfa. }
  by apply (Hnone p k s l fa).
Qed.

(** The nexthop the scan of the nexthops takes. *)
Lemma lookup_nh_spec flp flags nhsel nhs sel nhc :
  lookup_nh flp flags nhsel nhs = Some (sel, nhc) ->
  exists i, sel = nhsel + Z.of_nat i /\ nhs !! i = Some nhc /\
            flag_set (nhc_flags nhc) RTNH_F_DEAD = false.
Proof.
  revert nhsel. induction nhs as [|nh rest IH]; intros nhsel; [done |].
  cbn [lookup_nh].
  assert (Hrec : lookup_nh flp flags (nhsel + 1) rest = Some (sel, nhc) ->
                 exists i, sel = nhsel + Z.of_nat i /\
                           (nh :: rest) !! i = Some nhc /\
                           flag_set (nhc_flags nhc) RTNH_F_DEAD = false).
  { intros (i & -> & Hi & Hd)%IH. exists (S i). split; [lia | done]. }
  destruct (flag_set (nhc_flags nh) RTNH_F_DEAD) eqn:Hdead; [done |].
  destruct (_ && _ && _); [done |].
  destruct (_ && _ && _); [done |].
  intros [= <- <-]. exists O. split; [lia | done].
Qed.

(** X8: a result of [fib_table_lookup] is taken from an alias of the
    table: its prefix is the key of the alias's leaf, it covers the
    destination, its length is that of the alias; the alias passes the
    tos and scope of the flow, its route is not dead and the nexthop
    returned is one of the route's that is not dead. *)
Theorem fib_table_lookup_result_covers (net : collaborators)
    (t : key_vector) (flp : flowi4) (flags : Z) (err : Z)
    (res : fib_result) :
  wf_trie t = true -> 0 <= daddr flp < 2 ^ 32 ->
  fib_table_lookup net t flp flags = Some (err, Some res) ->
  0 <= res_prefixlen res <= 32 /\
  res_prefix res mod 2 ^ (32 - res_prefixlen res) = 0 /\
  res_prefix res <= daddr flp
  < res_prefix res + 2 ^ (32 - res_prefixlen res) /\
  exists p s l fa,
    get_yesde t p = Some (Leaf (res_prefix res) s l) /\ fa ∈ l /\
    res_prefixlen res = 32 - fa_slen fa /\
    res_fi res = fa_info fa /\ res_type res = fa_type fa /\
    res_scope res = fib_scope (fa_info fa) /\
    err = fib_props_error net (fa_type fa) /\ 0 <= err /\
    (fa_tos fa = 0 \/ fa_tos fa = flowi4_tos flp) /\
    fib_dead (fa_info fa) = false /\
    flowi4_scope flp <= fib_scope (fa_info fa) /\
    fib_nhs (fa_info fa) !! Z.to_nat (res_nh_sel res) = Some (res_nhc res) /\
    flag_set (nhc_flags (res_nhc res)) RTNH_F_DEAD = false.
Proof.
  intros Hwf Hkey Hlook.
  destruct (fib_table_lookup_spec net flp flags t Hwf Hkey)
    as (r & Hr & Hpost).
  rewrite Hlook in Hr. injection Hr as <-.
  destruct Hpost as [[[=] _] | (p & k & s & l & Hp & Hans & _)].
  apply lookup_leaf_first in Hans as (l1 & fa & l2 & Hl & _ & Hfa).
  cbn [kv_leaf kv_key] in Hl.
  assert (Hin : fa ∈ l).
  { rewrite Hl. apply elem_of_app. right. left. }
  destruct (alias_cover net flp flags t Hwf Hkey p k s l fa Hp Hin)
    as (Hm & Hal & Hcov & _).
  { unfold alias_answer. by rewrite Hfa. }
  apply lookup_leaf_result in Hfa
    as (Hpre & Hlen & Hfi & Hty & Hsc & Herr & Herr0 & Htos & Hdead & Hscope
        & Hnh).
  cbn [kv_key] in Hpre. unfold KEYLENGTH in Hlen.
  apply lookup_nh_spec in Hnh as (i & Hsel & Hi & Hnd).
  replace (32 - res_prefixlen res) with (fa_slen fa) by lia.
  rewrite Hpre. split; [lia |]. split; [done |]. split; [done |].
  exists p, s, l, fa. repeat (split; [done || lia |]).
  split; [| done]. rewrite Hsel, Z.add_0_l, Nat2Z.id. done.
Qed.

(** The lookup of 10.1.2.3 in the table of the two example routes. *)
Lemma fib_table_lookup_longest_prefix_witness :
  exists r p k s l fa,
    fib_table_lookup example_net (kv (world_after example_two_routes))
      (example_flow (ipv4 10 1 2 3) 0) 0 = Some r /\
    get_yesde (kv (world_after example_two_routes)) p = Some (Leaf k s l) /\
    fa ∈ l /\
    alias_answer example_net (example_flow (ipv4 10 1 2 3) 0) 0
      (Leaf k s l) fa = Some r.
Proof.
  set (w := world_after example_two_routes).
  assert (Hwf : wf_trie (kv w) = true) by (vm_compute; reflexivity).
  assert (Hne : fib_table_lookup example_net (kv w)
                  (example_flow (ipv4 10 1 2 3) 0) 0
                <> Some (- EAGAIN, None)) by (vm_compute; discriminate).
  clearbody w.
  destruct (fib_table_lookup_longest_prefix example_net (kv w)
              (example_flow (ipv4 10 1 2 3) 0) 0 Hwf)
    as (r & Hr & [(p & k & s & l & l1 & fa & l2 & Hp & Hl & Hfa & _)
                 | [-> _]]); [by vm_compute | | done].
  exists r, p, k, s, l, fa. split; [exact Hr |]. split; [exact Hp |].
  split; [| exact Hfa]. rewrite Hl. apply elem_of_app. right. left.
Defined.

(** The lookup of 11.0.0.1 in the table of the two example routes. *)
Lemma fib_table_lookup_no_route_witness :
  fib_table_lookup example_net (kv (world_after example_two_routes))
    (example_flow (ipv4 11 0 0 1) 0) 0 = Some (- EAGAIN, None).
Proof.
  set (w := world_after example_two_routes).
  assert (Hwf : wf_trie (kv w) = true) by (vm_compute; reflexivity).
  assert (Hkeys : leaf_keys (kv w) = [ipv4 10 0 0 0; ipv4 10 1 0 0])
    by (vm_compute; reflexivity).
  assert (H1 : exists s l,
            get_yesde (kv w) [0; 0] = Some (Leaf (ipv4 10 0 0 0) s l) /\
            forallb (fun fa => fa_slen fa <=? 24) l = true)
    by (vm_compute; eexists _, _; split; reflexivity).
  assert (H2 : exists s l,
            get_yesde (kv w) [2; 0] = Some (Leaf (ipv4 10 1 0 0) s l) /\
            forallb (fun fa => fa_slen fa <=? 16) l = true)
    by (vm_compute; eexists _, _; split; reflexivity).
  clearbody w.
  apply (fib_table_lookup_no_route example_net (kv w)
           (example_flow (ipv4 11 0 0 1) 0) 0 Hwf); [by vm_compute |].
  intros p k s l fa Hp Hin Hcov.
  cbn [daddr example_flow] in Hcov.
  assert (Hpow : forall b, 0 <= b -> fa_slen fa <= b ->
                           2 ^ fa_slen fa <= 2 ^ b).
  { intros b Hb Hle. destruct (Z.neg_nonneg_cases (fa_slen fa)).
    - rewrite Z.pow_neg_r by done. pose proof (pow2_pos b Hb). lia.
    - apply Z.pow_le_mono_r; lia. }
  assert (Hk : k ∈ leaf_keys (kv w)) by (apply leaf_keys_spec; eauto).
  rewrite Hkeys in Hk.
  apply elem_of_cons in Hk as [->|Hk].
  - destruct H1 as (s1 & l1 & Hg & Hall).
    pose proof (leaf_unique (kv w) Hwf _ _ _ _ _ _ _ Hp Hg) as ->.
    rewrite Hp in Hg. injection Hg as <- <-.
    rewrite forallb_forall in Hall.
    apply list_elem_of_In, Hall, Z.leb_le in Hin.
    specialize (Hpow 24 ltac:(lia) Hin).
    assert (ipv4 10 0 0 0 + 2 ^ 24 <= ipv4 11 0 0 1) by by vm_compute.
    lia.
  - apply list_elem_of_singleton in Hk as ->.
    destruct H2 as (s1 & l1 & Hg & Hall).
    pose proof (leaf_unique (kv w) Hwf _ _ _ _ _ _ _ Hp Hg) as ->.
    rewrite Hp in Hg. injection Hg as <- <-.
    rewrite forallb_forall in Hall.
    apply list_elem_of_In, Hall, Z.leb_le in Hin.
    specialize (Hpow 16 ltac:(lia) Hin).
    assert (ipv4 10 1 0 0 + 2 ^ 16 <= ipv4 11 0 0 1) by by vm_compute.
    lia.
Defined.

(** The result for 10.1.2.3 in the table of the two example routes. *)
Lemma fib_table_lookup_result_covers_witness :
  exists err res,
    fib_table_lookup example_net (kv (world_after example_two_routes))
      (example_flow (ipv4 10 1 2 3) 0) 0 = Some (err, Some res) /\
    res_prefix res <= ipv4 10 1 2 3
    < res_prefix res + 2 ^ (32 - res_prefixlen res).
Proof.
  set (w := world_after example_two_routes).
  assert (Hwf : wf_trie (kv w) = true) by (vm_compute; reflexivity).
  assert (Hex : exists err res,
            fib_table_lookup example_net (kv w)
              (example_flow (ipv4 10 1 2 3) 0) 0 = Some (err, Some res))
    by (vm_compute; eexists _, _; reflexivity).
  clearbody w. destruct Hex as (err & res & Hlook).
  exists err, res. split; [exact Hlook |].
  destruct (fib_table_lookup_result_covers example_net (kv w)
              (example_flow (ipv4 10 1 2 3) 0) 0 err res Hwf)
    as (_ & _ & Hcov & _); [by vm_compute | exact Hlook |].
  exact Hcov.
Defined.


(** * The scan of [update_suffix] *)

(** The keys of the children of [tn] are multiples of the sizes of their
    longest suffixes. *)
Definition children_aligned (tn : key_vector) : Prop :=
  forall j c, get_child tn j = Some c -> kv_key c mod 2 ^ kv_slen c = 0.

(** The internal node of the table of the two example routes. *)
Definition example_inner : key_vector :=
  match get_yesde (kv (world_after example_two_routes)) [0] with
  | Some n => n
  | None => trie_empty
  end.

Lemma children_aligned_check tn :
  forallb (fun o => match o with
                    | Some c => kv_key c mod 2 ^ kv_slen c =? 0
                    | None => true
                    end) (kv_tyesde tn) = true ->
  children_aligned tn.
Proof.
  intros Hall j c Hc. unfold get_child in Hc.
  destruct (j <? 0); [done |].
  destruct (kv_tyesde tn !! Z.to_nat j) as [o|] eqn:Hl; [| done]. subst o.
  rewrite forallb_forall in Hall.
  apply list_elem_of_lookup_2, list_elem_of_In, Hall in Hl.
  by apply Z.eqb_eq.
Qed.

(** A child with a suffix longer than [pos] hangs in a slot whose index
    has as many low bits clear. *)
Lemma child_index_aligned_fields k p b s e f cs j c :
  wf_tyesde_fields k p b s cs -> child_ok k p s j c = true ->
  0 <= kv_key c ->
  get_child (Tyesde k p b s e f cs) j = Some c ->
  kv_key c mod 2 ^ kv_slen c = 0 -> p < kv_slen c ->
  0 <= j < 2 ^ b /\ j mod 2 ^ (kv_slen c - p) = 0.
Proof.
  intros [Hb Hp Ht Hk Hkl Hlen Hs] (Hbelow & Hidx & Hcs)%child_ok_spec Hck
    Hc Hal Hlong.
  pose proof (get_child_bound _ _ _ _ _ _ _ _ _ Hlen Hc) as Hj.
  split; [done |].
  apply (shiftr_lxor_slot k (kv_key c) p b j) in Hidx; try (done || lia).
  set (s' := Z.min (kv_slen c) (p + b)).
  pose proof (pow2_pos p Hp) as Hpp.
  assert (H1 : kv_key c mod 2 ^ s' = 0)
    by (apply (mod_pow2_weaken _ (kv_slen c)); [lia | done]).
  assert (H2 : k mod 2 ^ s' = 0)
    by (apply (mod_pow2_weaken _ (p + b)); [lia | done]).
  assert (H3 : (kv_key c - k) mod 2 ^ s' = 0).
  { rewrite Zminus_mod, H1, H2. done. }
  set (low := kv_key c - k - j * 2 ^ p) in *.
  assert (Hlow : 0 <= low < 2 ^ p) by (unfold low; lia).
  assert (H4 : (kv_key c - k) mod 2 ^ p = 0)
    by (apply (mod_pow2_weaken _ s'); [lia | done]).
  assert (Hl0 : low = 0).
  { replace (kv_key c - k) with (low + j * 2 ^ p) in H4 by (unfold low; lia).
    rewrite Z.mod_add, Z.mod_small in H4; lia. }
  assert (H5 : j mod 2 ^ (s' - p) = 0).
  { replace (kv_key c - k) with (j * 2 ^ p) in H3 by (unfold low in Hl0; lia).
    replace (2 ^ s') with (2 ^ (s' - p) * 2 ^ p) in H3.
    - rewrite Z.mul_mod_distr_r in H3;
        [| apply Z.pow_nonzero; lia | lia]. lia.
    - rewrite <- Z.pow_add_r by lia. f_equal. lia. }
  destruct (Z.le_gt_cases (kv_slen c) (p + b)) as [Hle|Hgt].
  - by replace s' with (kv_slen c) in H5 by lia.
  - replace s' with (p + b) in H5 by lia.
    replace (p + b - p) with b in H5 by lia.
    rewrite Z.mod_small in H5 by lia. subst j. apply Z.mod_0_l.
    apply Z.pow_nonzero; lia.
Qed.

Lemma child_index_aligned k p b s e f cs j c :
  wf_yesde (Tyesde k p b s e f cs) = true ->
  get_child (Tyesde k p b s e f cs) j = Some c ->
  kv_key c mod 2 ^ kv_slen c = 0 -> p < kv_slen c ->
  0 <= j < 2 ^ b /\ j mod 2 ^ (kv_slen c - p) = 0.
Proof.
  intros Hwf Hc Hal Hlong.
  apply wf_yesde_tyesde in Hwf as [Hf Hch].
  destruct (Hch _ _ Hc) as [Hok Hwc].
  pose proof (wf_yesde_key c Hwc) as Hck.
  apply (child_index_aligned_fields k p b s e f cs j c); (done || lia).
Qed.

Lemma update_suffix_scan_exact tn slen_max B :
  0 <= kv_pos tn -> 1 <= kv_bits tn <= KEYLENGTH -> B <= KEYLENGTH ->
  (forall i c, get_child tn i = Some c -> kv_slen c <= B) ->
  (forall j c, get_child tn j = Some c -> 0 <= j < 2 ^ kv_bits tn) ->
  (forall j c, get_child tn j = Some c -> kv_pos tn < kv_slen c ->
               j mod 2 ^ (kv_slen c - kv_pos tn) = 0) ->
  slen_max = Z.min (kv_pos tn + kv_bits tn - 1) B ->
  forall fuel i stride slen,
    kv_pos tn <= slen <= B ->
    stride = 2 ^ (slen - kv_pos tn + 1) ->
    0 <= i -> i mod stride = 0 ->
    child_length tn <= Z.of_nat fuel + i ->
    (forall j c, get_child tn j = Some c -> j < i -> kv_slen c <= slen) ->
    (slen = kv_pos tn \/
     exists j c, get_child tn j = Some c /\ kv_slen c = slen) ->
    exists r, update_suffix_scan fuel tn slen_max i stride slen = Some r /\
              slen <= r <= B /\
              (forall j c, get_child tn j = Some c -> kv_slen c <= r) /\
              (r = kv_pos tn \/
               exists j c, get_child tn j = Some c /\ kv_slen c = r).
Proof.
  intros Hpos Hbits HB Hc Hrange Hidx ->. unfold KEYLENGTH in *.
  assert (Hlen : child_length tn = 2 ^ kv_bits tn).
  { unfold child_length. destruct (Z.eqb_spec (kv_bits tn) 0); [lia | done]. }
  assert (Hlen32 : 2 ^ kv_bits tn <= 2 ^ 32) by (apply pow2_le_mono; lia).
  (* no child between two multiples of the stride has a longer suffix *)
  assert (Hskip : forall s i0 j c,
            kv_pos tn <= s -> i0 mod 2 ^ (s - kv_pos tn + 1) = 0 ->
            get_child tn j = Some c ->
            i0 < j < i0 + 2 ^ (s - kv_pos tn + 1) -> kv_slen c <= s).
  { intros s i0 j c Hs Hi0 Hj Hbetween.
    destruct (Z.le_gt_cases (kv_slen c) s) as [|Hgt]; [done | exfalso].
    pose proof (Hidx j c Hj ltac:(lia)) as Hjal.
    pose proof (pow2_pos (s - kv_pos tn + 1) ltac:(lia)) as Hp.
    assert (Hjs : j mod 2 ^ (s - kv_pos tn + 1) = 0)
      by (apply (mod_pow2_weaken _ (kv_slen c - kv_pos tn)); [lia | done]).
    pose proof (aligned_next i0 j _ Hp Hi0 Hjs). lia. }
  assert (Hdone : forall i slen,
            child_length tn <= i ->
            (forall j c, get_child tn j = Some c -> j < i ->
                         kv_slen c <= slen) ->
            forall j c, get_child tn j = Some c -> kv_slen c <= slen).
  { intros i slen Hi Hseen j c Hj. apply (Hseen j c Hj).
    pose proof (Hrange j c Hj). lia. }
  induction fuel as [|fuel IH];
    intros i stride slen Hs -> Hi Himod Hf Hseen Hfrom; simpl.
  { destruct (Z.leb_spec (child_length tn) i); [| lia].
    exists slen. split; [done |]. split; [lia |]. split; [| done].
    by apply (Hdone i). }
  destruct (Z.leb_spec (child_length tn) i) as [|Hlt].
  { exists slen. split; [done |]. split; [lia |]. split; [| done].
    by apply (Hdone i). }
  assert (Hstr : forall s, kv_pos tn <= s <= B ->
            2 <= 2 ^ (s - kv_pos tn + 1) <= 2 ^ 33).
  { intros s Hs'. split.
    - change 2 with (2 ^ 1) at 1. apply pow2_le_mono. lia.
    - apply pow2_le_mono. lia. }
  assert (Hnext : forall s i',
            kv_pos tn <= s <= B -> slen <= s -> i < i' ->
            i' <= 2 ^ 32 + 2 ^ 33 ->
            i' mod 2 ^ (s - kv_pos tn + 1) = 0 ->
            (forall j c, get_child tn j = Some c -> j < i' ->
                         kv_slen c <= s) ->
            (s = kv_pos tn \/
             exists j c, get_child tn j = Some c /\ kv_slen c = s) ->
            exists r, update_suffix_scan fuel tn
                        (Z.min (kv_pos tn + kv_bits tn - 1) B) (ulong i')
                        (2 ^ (s - kv_pos tn + 1)) s = Some r /\
                      slen <= r <= B /\
                      (forall j c, get_child tn j = Some c ->
                                   kv_slen c <= r) /\
                      (r = kv_pos tn \/
                       exists j c, get_child tn j = Some c /\
                                   kv_slen c = r)).
  { intros s i' Hs' Hle Hi' Hb Hmod' Hseen' Hfrom'. rewrite ulong_small.
    - destruct (IH i' _ s Hs' eq_refl) as (r & Hr & Hrb & Hall & Hfr);
        try (done || lia).
      exists r. split; [done |]. split; [lia | done].
    - change (2 ^ 64) with 18446744073709551616.
      change (2 ^ 32) with 4294967296 in *.
      change (2 ^ 33) with 8589934592 in *. lia. }
  pose proof (Hstr slen Hs) as Hst.
  assert (Hstep : i + 2 ^ (slen - kv_pos tn + 1) <= 2 ^ 32 + 2 ^ 33) by lia.
  assert (Hmodnext : (i + 2 ^ (slen - kv_pos tn + 1))
                     mod 2 ^ (slen - kv_pos tn + 1) = 0).
  { rewrite <- Z.add_mod_idemp_l, Himod, Z.add_0_l by lia.
    apply Z.mod_same. lia. }
  destruct (get_child tn i) as [n|] eqn:Hn.
  2:{ apply Hnext; try (done || lia).
      intros j c Hj Hlt'.
      destruct (Z.lt_trichotomy j i) as [?|[->|?]];
        [by eapply Hseen | congruence |].
      apply (Hskip slen i j c); (done || lia). }
  destruct (Z.leb_spec (kv_slen n) slen) as [|Hgt].
  { apply Hnext; try (done || lia).
    intros j c Hj Hlt'.
    destruct (Z.lt_trichotomy j i) as [?|[->|?]];
      [by eapply Hseen | congruence |].
    apply (Hskip slen i j c); (done || lia). }
  pose proof (Hc _ _ Hn) as HnB.
  assert (Hs' : kv_pos tn <= kv_slen n <= B) by lia.
  pose proof (Hstr _ Hs') as Hst'.
  assert (Hstride : ulong (Z.shiftl (2 ^ (slen - kv_pos tn + 1))
                             (kv_slen n - slen))
                    = 2 ^ (kv_slen n - kv_pos tn + 1)).
  { rewrite Z.shiftl_mul_pow2 by lia.
    rewrite <- Z.pow_add_r by lia.
    replace (slen - kv_pos tn + 1 + (kv_slen n - slen))
      with (kv_slen n - kv_pos tn + 1) by lia.
    apply ulong_small.
    change (2 ^ 64) with 18446744073709551616.
    change (2 ^ 33) with 8589934592 in *. lia. }
  rewrite Hstride.
  destruct (Z.leb_spec (Z.min (kv_pos tn + kv_bits tn - 1) B) (kv_slen n))
    as [Hmax|Hmax].
  { (* the largest value possible *)
    exists (kv_slen n). split; [done |]. split; [lia |].
    split; [| right; by exists i, n].
    intros j c Hj. pose proof (Hc j c Hj) as HcB.
    destruct (Z.le_gt_cases (kv_slen c) (kv_slen n)) as [|Hlong]; [done |].
    exfalso. pose proof (Hrange j c Hj) as Hjr.
    pose proof (Hidx j c Hj ltac:(lia)) as Hjal.
    destruct (Z.lt_trichotomy j i) as [Hji|[->|Hji]].
    - pose proof (Hseen j c Hj Hji). lia.
    - rewrite Hn in Hj. injection Hj as <-. lia.
    - assert (Hj0 : j <> 0) by lia.
      assert (Hb' : kv_pos tn + kv_bits tn - 1 < kv_slen c) by lia.
      pose proof (mod_pow2_weaken j (kv_slen c - kv_pos tn) (kv_bits tn)
                    ltac:(lia) Hjal) as Hjb.
      rewrite Z.mod_small in Hjb by lia. done. }
  rewrite land_lnot_pow2 by lia.
  pose proof (Z.mod_pos_bound i (2 ^ (kv_slen n - kv_pos tn + 1))
                ltac:(lia)) as Hmod.
  set (stride' := 2 ^ (kv_slen n - kv_pos tn + 1)) in *.
  assert (Hi'mod : (i - i mod stride') mod stride' = 0).
  { rewrite Zminus_mod, Z.mod_mod, Z.sub_diag by lia. apply Z.mod_0_l. lia. }
  apply Hnext; try (done || lia).
  - fold stride'. rewrite <- Z.add_mod_idemp_l, Hi'mod, Z.add_0_l by lia.
    apply Z.mod_same. lia.
  - intros j c Hj Hlt'.
    destruct (Z.lt_trichotomy j i) as [Hji|[->|Hji]].
    + pose proof (Hseen j c Hj Hji). lia.
    + rewrite Hn in Hj. injection Hj as <-. lia.
    + apply (Hskip (kv_slen n) (i - i mod stride') j c);
        (done || (fold stride'; lia)).
  - right. by exists i, n.
Qed.

(** What [update_suffix] returns. *)
Lemma update_suffix_fields k p b s e f cs :
  let tn := Tyesde k p b s e f cs in
  wf_tyesde_fields k p b s cs ->
  (forall j c, get_child tn j = Some c ->
     child_ok k p s j c = true /\ 0 <= kv_key c) ->
  children_aligned tn ->
  exists r,
    update_suffix tn = Some (set_slen r tn, r) /\
    kv_pos tn <= r <= kv_slen tn /\
    (forall j c, get_child tn j = Some c -> kv_slen c <= r) /\
    (r = kv_pos tn \/ exists j c, get_child tn j = Some c /\ kv_slen c = r).
Proof.
  intros tn Hf Hch Hal. subst tn.
  pose proof Hf as [Hb Hp Ht Hk Hkl Hlen Hs].
  unfold update_suffix. cbn [kv_pos kv_bits kv_slen].
  unfold KEYLENGTH in *.
  rewrite u8_small by (change (2 ^ 8) with 256; lia).
  destruct (update_suffix_scan_exact (Tyesde k p b s e f cs)
              (Z.min (p + b - 1) s) s) with
    (fuel := Z.to_nat (child_length (Tyesde k p b s e f cs)))
    (i := 0) (stride := 2) (slen := p)
    as (r & -> & Hr & Hall & Hfrom);
    cbn [kv_pos kv_bits kv_slen]; unfold KEYLENGTH; try (done || lia).
  - intros i c Hc. destruct (Hch _ _ Hc) as [(_ & _ & ?)%child_ok_spec _].
    done.
  - intros j c Hc. by eapply get_child_bound.
  - intros j c Hc Hlong. destruct (Hch _ _ Hc) as [Hok Hck].
    by destruct (child_index_aligned_fields k p b s e f cs j c Hf Hok Hck Hc
                   (Hal _ _ Hc) Hlong).
  - replace (p - p + 1) with 1 by lia. done.
  - intros j c Hc Hj. pose proof (get_child_bound _ _ _ _ _ _ _ _ _ Hlen Hc).
    lia.
  - exists r. split; [done |]. split; [lia |]. done.
Qed.

Lemma update_suffix_exact (tn : key_vector) :
  wf_yesde tn = true -> IS_TNODE tn = true -> children_aligned tn ->
  exists r,
    update_suffix tn = Some (set_slen r tn, r) /\
    kv_pos tn <= r <= kv_slen tn /\
    (forall j c, get_child tn j = Some c -> kv_slen c <= r) /\
    (r = kv_pos tn \/ exists j c, get_child tn j = Some c /\ kv_slen c = r).
Proof.
  intros Hwf Htn Hal.
  destruct tn as [|k p b s e f cs]; [done |].
  pose proof Hwf as [Hf Hch]%wf_yesde_tyesde.
  apply (update_suffix_fields k p b s e f cs); [done | | done].
  intros j c Hc. destruct (Hch _ _ Hc) as [Hok Hwc].
  split; [done |]. pose proof (wf_yesde_key c Hwc). lia.
Qed.

(** X9: [update_suffix] on a well-formed internal node whose children
    have keys that are multiples of the sizes of their longest suffixes:
    the scan, which steps over the slots that cannot hold a longer
    suffix, returns the longest suffix length among the children, or
    [pos] when none is longer, and stores it in the node. *)
Theorem update_suffix_is_longest (tn : key_vector) :
  wf_yesde tn = true -> IS_TNODE tn = true -> children_aligned tn ->
  exists r,
    update_suffix tn = Some (set_slen r tn, r) /\
    kv_pos tn <= r <= kv_slen tn /\
    (forall j c, get_child tn j = Some c -> kv_slen c <= r) /\
    (r = kv_pos tn \/ exists j c, get_child tn j = Some c /\ kv_slen c = r).
Proof. exact (update_suffix_exact tn). Qed.

(** [update_suffix] on the internal node of the two example routes. *)
Lemma update_suffix_is_longest_witness :
  exists r,
    update_suffix example_inner = Some (set_slen r example_inner, r) /\
    forall j c, get_child example_inner j = Some c -> kv_slen c <= r.
Proof.
  destruct (update_suffix_is_longest example_inner)
    as (r & Hr & _ & Hall & _).
  - vm_compute. reflexivity.
  - vm_compute. reflexivity.
  - apply children_aligned_check. vm_compute. reflexivity.
  - exists r. split; [exact Hr | exact Hall].
Defined.


(** * The invariant of the trie *)

(** ** Vocabulary *)

(** The key of [n] is a multiple of the size of its longest suffix. *)
Definition aligned (n : key_vector) : Prop :=
  kv_key n mod 2 ^ kv_slen n = 0.

(** The fields of a node by themselves. *)
Definition fields_shape (n : key_vector) : Prop :=
  match n with
  | Leaf k s l => 0 <= k < 2 ^ 32 /\ 0 <= s <= KEYLENGTH
  | Tyesde k p b s e f c => wf_tyesde_fields k p b s c
  end.

(** What the writers keep of a node whatever the routes are: its fields
    are in range, its key is aligned, the counters of an internal node
    are right, and each child belongs in its slot. *)
Definition node_shape (n : key_vector) : Prop :=
  fields_shape n /\ aligned n /\ (IS_TNODE n = true -> counters_ok n) /\
  forall i c, get_child n i = Some c ->
              child_ok (kv_key n) (kv_pos n) (kv_slen n) i c = true.

(** Every node at and below [n] has its shape. *)
Definition shape (n : key_vector) : Prop :=
  forall q x, get_yesde n q = Some x -> node_shape x.

(** The root of a table, and a table whose nodes have their shape. *)
Definition is_root (t : key_vector) : Prop :=
  exists e f c, t = Tyesde 0 32 0 32 e f [c].

Definition shape_trie (t : key_vector) : Prop :=
  is_root t /\ forall c, get_child t 0 = Some c -> shape c.

(** [x] is a leaf at or below [n]. *)
Definition leaf_of (n x : key_vector) : Prop :=
  (exists k s l, x = Leaf k s l) /\ exists q, get_yesde n q = Some x.

(** What a leaf keeps of its routes: it has one at least, their suffix
    lengths fit the leaf and its key, and they are in order. *)
Definition leaf_ok (x : key_vector) : Prop :=
  kv_leaf x <> [] /\
  (forall fa, fa ∈ kv_leaf x ->
     0 <= fa_slen fa <= kv_slen x /\ kv_key x mod 2 ^ fa_slen fa = 0) /\
  StronglySorted alias_order (kv_leaf x).

(** The invariant of a table. *)
Definition inv (t : key_vector) : Prop :=
  shape_trie t /\ forall x, leaf_of t x -> leaf_ok x.

(** ** Shapes *)

Lemma shape_child n i c : shape n -> get_child n i = Some c -> shape c.
Proof.
  intros Hn Hc q x Hx. apply (Hn (q ++ [i])).
  by rewrite get_yesde_snoc, Hc.
Qed.

Lemma shape_intro n :
  node_shape n -> (forall i c, get_child n i = Some c -> shape c) -> shape n.
Proof.
  intros Hg Hch q x Hx.
  destruct (decide (q = [])) as [->|Hq].
  - simpl in Hx. by injection Hx as <-.
  - destruct (exists_last Hq) as (q' & j & ->).
    rewrite get_yesde_snoc in Hx.
    destruct (get_child n j) as [c|] eqn:Hc; [| done].
    by apply (Hch j c Hc q').
Qed.

Lemma shape_self n : shape n -> node_shape n.
Proof. intros H. by apply (H []). Qed.

Lemma shape_under n q x : shape n -> get_yesde n q = Some x -> shape x.
Proof.
  intros Hn Hx q' y Hy. apply (Hn (q' ++ q)).
  by rewrite get_yesde_app, Hx.
Qed.

Lemma shape_leaf k s l :
  0 <= k < 2 ^ 32 -> 0 <= s <= KEYLENGTH -> k mod 2 ^ s = 0 ->
  shape (Leaf k s l).
Proof.
  intros Hk Hs Hal. apply shape_intro.
  - split; [done |]. split; [done |]. split; [done |].
    intros i c Hc. by rewrite get_child_leaf in Hc.
  - intros i c Hc. by rewrite get_child_leaf in Hc.
Qed.

(** The fields of a node that has its shape. *)
Lemma shape_bounds n :
  node_shape n ->
  0 <= kv_key n < 2 ^ 32 /\ 0 <= kv_pos n /\ 0 <= kv_bits n /\
  kv_pos n + kv_bits n <= KEYLENGTH /\ 0 <= kv_slen n <= KEYLENGTH /\
  kv_key n mod 2 ^ (kv_pos n + kv_bits n) = 0.
Proof.
  intros (Hf & _). destruct n as [k s l|k p b s e f cs]; simpl in *.
  - unfold KEYLENGTH in *. rewrite Z.mod_1_r. lia.
  - destruct Hf as [Hb Hp Ht Hk Hkl Hlen Hs]. unfold KEYLENGTH in *. lia.
Qed.

Lemma shape_is_leaf n :
  node_shape n -> IS_TNODE n = false -> exists s l, n = Leaf (kv_key n) s l.
Proof.
  intros (Hf & _) Hl. destruct n as [k s l|k p b s e f cs]; [by eauto |].
  destruct Hf as [Hb Hp Ht Hk Hkl Hlen Hs].
  unfold IS_TNODE in Hl. apply negb_false_iff, Z.eqb_eq in Hl.
  simpl in Hl. lia.
Qed.

Lemma shape_length n :
  node_shape n -> IS_TNODE n = true ->
  Z.of_nat (length (kv_tyesde n)) = 2 ^ kv_bits n.
Proof.
  intros (Hf & _) Hl. destruct n as [k s l|k p b s e f cs]; [done |].
  by destruct Hf as [Hb Hp Ht Hk Hkl Hlen Hs].
Qed.

Lemma shape_child_index n i c :
  node_shape n -> get_child n i = Some c -> 0 <= i < 2 ^ kv_bits n.
Proof.
  intros (Hf & _) Hc. destruct n as [k s l|k p b s e f cs];
    [by rewrite get_child_leaf in Hc |].
  destruct Hf as [Hb Hp Ht Hk Hkl Hlen Hs].
  by eapply get_child_bound.
Qed.

(** The key of a node is a multiple of the size of the longest suffix of
    each of its children. *)
Lemma parent_aligned k p b i ck cs :
  0 <= p -> 0 <= b -> 0 <= k -> 0 <= ck -> k mod 2 ^ (p + b) = 0 ->
  0 <= i < 2 ^ b -> Z.shiftr (Z.lxor ck k) p = i ->
  0 <= cs -> ck mod 2 ^ cs = 0 -> k mod 2 ^ cs = 0.
Proof.
  intros Hp Hb Hk Hck Hal Hi Hidx Hcs Hcal.
  destruct (Z.le_gt_cases cs (p + b)) as [Hle|Hgt].
  { apply (mod_pow2_weaken _ (p + b)); [lia | done]. }
  apply (shiftr_lxor_slot k ck p b i) in Hidx; try (done || lia).
  pose proof (pow2_pos p Hp) as Hpp. pose proof (pow2_pos (p + b)) as Hppb.
  assert (Hck' : ck mod 2 ^ (p + b) = 0)
    by (apply (mod_pow2_weaken _ cs); [lia | done]).
  assert (Hin : k <= ck < k + 2 ^ (p + b)).
  { rewrite Z.pow_add_r by lia. nia. }
  destruct (decide (ck = k)) as [->|Hne]; [done | exfalso].
  pose proof (aligned_next k ck (2 ^ (p + b)) ltac:(lia) Hal Hck'). lia.
Qed.

Lemma get_child_replicate k p b s e f n i :
  get_child (Tyesde k p b s e f (replicate n None)) i = None.
Proof.
  unfold get_child. simpl. destruct (i <? 0); [done |].
  destruct (replicate n None !! Z.to_nat i) as [o|] eqn:Ho; [| done].
  by apply lookup_replicate in Ho as [-> _].
Qed.

(** ** New nodes *)

(** [tyesde_new] returns, and the node it makes has its shape and is
    empty. *)
Lemma tyesde_new_shape key pos bits w :
  1 <= bits -> 0 <= pos -> pos + bits <= KEYLENGTH -> 0 <= key < 2 ^ 32 ->
  exists r w',
    tyesde_new key pos bits w = Some (r, w') /\ kv w' = kv w /\
    forall tn, r = Some tn ->
      shape tn /\ kv_key tn = key - key mod 2 ^ (pos + bits) /\
      kv_pos tn = pos /\ kv_bits tn = bits /\ kv_slen tn = pos /\
      forall i, get_child tn i = None.
Proof.
  intros Hb Hp Hpb Hkey. unfold KEYLENGTH in *.
  unfold tyesde_new, tyesde_alloc, TNODE_VMALLOC_MAX, KEYLENGTH.
  rewrite (u32_small (pos + bits)) by (change (2 ^ 32) with 4294967296; lia).
  destruct (Z.eqb_spec bits 0); [lia |].
  destruct (Z.ltb_spec 32 (pos + bits)); [lia |].
  destruct (Z.ltb_spec 60 bits); [lia |]. cbn [orb].
  destruct (kalloc_total w) as (ok & w' & Hk).
  pose proof (kalloc_Some _ _ _ Hk) as Hkv.
  unfold bind at 1. rewrite Hk.
  destruct ok; cbn [negb]; [| by exists None, w'].
  eexists _, w'. split; [reflexivity |]. split; [done |].
  intros tn [= <-].
  rewrite !u8_small by (change (2 ^ 8) with 256; lia).
  set (k := if pos + bits <? 32 then _ else 0).
  pose proof (pow2_pos (pos + bits) ltac:(lia)) as Hpp.
  pose proof (Z.mod_le key (2 ^ (pos + bits)) ltac:(lia) ltac:(lia)) as Hle.
  assert (Hk' : k = key - key mod 2 ^ (pos + bits)).
  { subst k. destruct (Z.ltb_spec (pos + bits) 32).
    - rewrite Z.shiftr_div_pow2, Z.shiftl_mul_pow2 by lia.
      pose proof (Z.div_mod key (2 ^ (pos + bits)) ltac:(lia)).
      pose proof (Z.mod_pos_bound key (2 ^ (pos + bits)) ltac:(lia)).
      rewrite u32_small; lia.
    - replace (pos + bits) with 32 by lia. rewrite Z.mod_small; lia. }
  pose proof (Z.mod_pos_bound key (2 ^ (pos + bits)) ltac:(lia)) as Hmod.
  assert (Hkal : k mod 2 ^ (pos + bits) = 0).
  { rewrite Hk', Zminus_mod, Z.mod_mod, Z.sub_diag by lia.
    apply Z.mod_0_l. lia. }
  cbn [kv_key kv_pos kv_bits kv_slen].
  split; [| split; [done |]; split; [done |]; split; [done |];
            split; [done |]; intros i; apply get_child_replicate].
  apply shape_intro.
  2:{ intros i c Hc. by rewrite get_child_replicate in Hc. }
  split; [| split; [| split]].
  - split; unfold KEYLENGTH; try (done || lia).
    rewrite length_replicate, Z2Nat.id; [done | lia].
  - unfold aligned. simpl.
    apply (mod_pow2_weaken _ (pos + bits)); [lia | done].
  - intros _. unfold counters_ok, null_slots, full_slots.
    cbn [kv_empty_children kv_full_children kv_tyesde].
    rewrite !count_slots_replicate. cbn [slot_null tyesde_full].
    rewrite Z2Nat.id by lia.
    destruct (Z.eqb_spec bits 32) as [->|Hne].
    + split; [done |]. exists 1. split; [by right | done].
    + assert (2 ^ bits <= 2 ^ 31) by (apply pow2_le_mono; lia).
      change (2 ^ 31) with 2147483648 in *.
      change (2 ^ 32) with 4294967296.
      split; [lia |]. exists 0. split; [by left | lia].
  - intros i x Hx. by rewrite get_child_replicate in Hx.
Qed.

(** ** Children put into a node *)

(** [c] belongs in slot [i] of [tn]. *)
Definition fits (tn : key_vector) (i : Z) (c : key_vector) : Prop :=
  shape c /\ kv_pos c + kv_bits c <= kv_pos tn /\
  Z.shiftr (Z.lxor (kv_key c) (kv_key tn)) (kv_pos tn) = i.

(** [put_child(tn, i, n)] for a slot of a node that has its shape and a
    child that belongs there: the node keeps its shape. *)
Lemma put_child_shape tn i n :
  shape tn -> IS_TNODE tn = true -> 0 <= i < 2 ^ kv_bits tn ->
  (forall c, n = Some c -> fits tn i c) ->
  exists tn',
    put_child tn i n = Some tn' /\ shape tn' /\
    kv_key tn' = kv_key tn /\ kv_pos tn' = kv_pos tn /\
    kv_bits tn' = kv_bits tn /\
    kv_slen tn' = match n with
                  | Some c => Z.max (kv_slen tn) (kv_slen c)
                  | None => kv_slen tn
                  end /\
    get_child tn' i = n /\
    forall j, j <> i -> get_child tn' j = get_child tn j.
Proof.
  intros Hg Htn Hi Hn.
  destruct tn as [|k p b s e f cs]; [done |].
  pose proof (shape_self _ Hg) as (Hf & Hal & Hcnt & Hch).
  pose proof Hf as [Hb Hp Ht Hk Hkl Hlen Hs].
  cbn [kv_key kv_pos kv_bits kv_slen] in *.
  assert (Hnb : forall c, n = Some c ->
            0 <= kv_key c < 2 ^ 32 /\ 0 <= kv_pos c /\ 0 <= kv_bits c /\
            0 <= kv_slen c <= KEYLENGTH /\ aligned c).
  { intros c Hc. destruct (Hn c Hc) as (Hsc & _ & _).
    pose proof (shape_self c Hsc) as Hc'.
    pose proof (shape_bounds c Hc'). destruct Hc' as (_ & ? & _).
    repeat split; (done || lia). }
  destruct (put_child_spec (Tyesde k p b s e f cs) i n) as [_ Hput];
    try done.
  { by apply Hcnt. }
  { intros c Hc. destruct (Hnb c Hc). split; lia. }
  destruct (Hput Hi) as (tn' & Hp' & Hcs' & Hcnt' & Hk' & Hpos' & Hb' & Hs').
  cbn [kv_key kv_pos kv_bits kv_slen kv_tyesde] in *.
  destruct tn' as [|k' p' b' s' e' f' cs']; [simpl in Hb'; lia |].
  cbn [kv_key kv_pos kv_bits kv_slen kv_tyesde] in *. subst k' p' b' cs'.
  assert (Hget : get_child (Tyesde k p b s' e' f' (<[Z.to_nat i := n]> cs)) i
                 = n).
  { unfold get_child. simpl. destruct (Z.ltb_spec i 0); [lia |].
    rewrite list_lookup_insert_eq; [done | lia]. }
  assert (Hother : forall j, j <> i ->
            get_child (Tyesde k p b s' e' f' (<[Z.to_nat i := n]> cs)) j
            = get_child (Tyesde k p b s e f cs) j).
  { intros j Hj. unfold get_child. simpl.
    destruct (Z.ltb_spec j 0); [done |].
    rewrite list_lookup_insert_ne; [done | lia]. }
  exists (Tyesde k p b s' e' f' (<[Z.to_nat i := n]> cs)).
  split; [done |].
  split; [| by repeat split].
  assert (Hss' : s <= s') by (destruct n; lia).
  apply shape_intro.
  2:{ intros j x Hx. destruct (decide (j = i)) as [->|Hj].
      - rewrite Hget in Hx. by destruct (Hn x Hx) as [? _].
      - rewrite (Hother j Hj) in Hx. exact (shape_child _ _ _ Hg Hx). }
  split; [| split; [| split]].
  - split; try done.
    + by rewrite length_insert.
    + split; [lia |]. destruct n as [c|]; [| lia].
      destruct (Hnb c eq_refl) as (_ & _ & _ & ? & _). lia.
  - unfold aligned in *. cbn [kv_key kv_slen] in *.
    destruct n as [c|]; [| by subst s'].
    destruct (Z.max_spec s (kv_slen c)) as [[Hlt Hm]|[Hge Hm]];
      rewrite Hs', Hm; [| done].
    destruct (Hn c eq_refl) as (Hsc & Hbelow & Hidx).
    cbn [kv_key kv_pos] in Hbelow, Hidx.
    destruct (Hnb c eq_refl) as (? & ? & ? & ? & Hcal).
    apply (parent_aligned k p b i (kv_key c)); (done || lia).
  - by intros _.
  - intros j x Hx. cbn [kv_key kv_pos kv_slen].
    destruct (decide (j = i)) as [->|Hj].
    + rewrite Hget in Hx. subst n. cbn beta iota in Hs'.
      destruct (Hn x eq_refl) as (Hgx & Hbelow & Hidx).
      cbn [kv_key kv_pos] in Hbelow, Hidx.
      apply child_ok_spec. lia.
    + rewrite (Hother j Hj) in Hx.
      pose proof (Hch j x Hx) as (H1 & H2 & H3)%child_ok_spec.
      apply child_ok_spec. lia.
Qed.

(** ** Well-formed tries and the invariant *)

Lemma leaf_of_leaf k s l x : leaf_of (Leaf k s l) x <-> x = Leaf k s l.
Proof.
  split.
  - intros [_ (q & Hq)]. pose proof Hq as ->%get_yesde_leaf.
    simpl in Hq. by injection Hq as <-.
  - intros ->. split; [by eauto |]. by exists [].
Qed.

Lemma leaf_of_child n i c x :
  get_child n i = Some c -> leaf_of c x -> leaf_of n x.
Proof.
  intros Hc [Hx (q & Hq)]. split; [done |]. exists (q ++ [i]).
  by rewrite get_yesde_snoc, Hc.
Qed.

Lemma leaf_of_inv n x :
  leaf_of n x ->
  n = x \/ exists i c, get_child n i = Some c /\ leaf_of c x.
Proof.
  intros [Hx (q & Hq)].
  destruct (decide (q = [])) as [->|Hne].
  - left. simpl in Hq. by injection Hq.
  - right. destruct (exists_last Hne) as (q' & j & ->).
    rewrite get_yesde_snoc in Hq.
    destruct (get_child n j) as [c|] eqn:Hc; [| done].
    exists j, c. split; [done |]. split; [done | by exists q'].
Qed.

(** A node that has its shape and whose leaves are in order is well
    formed. *)
Lemma shape_wf n :
  shape n -> (forall x, leaf_of n x -> leaf_ok x) -> wf_yesde n = true.
Proof.
  remember (height n) as h eqn:Hh. revert n Hh.
  induction h as [h IH] using lt_wf_ind. intros n -> Hs Hl.
  pose proof (shape_self n Hs) as (Hf & _ & _ & Hch).
  destruct n as [k s l|k p b s e f cs].
  - apply wf_yesde_leaf. simpl in Hf.
    destruct (Hl (Leaf k s l)) as (Hne & Hall & Hsort).
    { by apply leaf_of_leaf. }
    simpl in *. destruct Hf as [Hk Hs']. unfold KEYLENGTH in *.
    split; [done |]. split; [lia |]. split; [done |]. by split.
  - apply wf_yesde_tyesde. split; [done |].
    intros i x Hx. split; [by apply Hch |].
    apply (IH (height x)); [by eapply height_child | done | |].
    + by eapply shape_child.
    + intros y Hy. apply Hl. by eapply leaf_of_child.
Qed.

(** A well-formed node: its fields, its children and its leaves. *)
Lemma wf_fields_shape n :
  wf_yesde n = true ->
  fields_shape n /\
  forall i c, get_child n i = Some c ->
    child_ok (kv_key n) (kv_pos n) (kv_slen n) i c = true /\
    wf_yesde c = true.
Proof.
  destruct n as [k s l|k p b s e f cs].
  - intros Hw.
    apply wf_yesde_leaf in Hw as (Hk & Hs & Hne & Hall & _). split.
    + simpl. split; [done |]. split; [| done].
      destruct l as [|fa l]; [done |].
      destruct (Hall fa) as [? _]; [left | lia].
    + intros i c Hc. by rewrite get_child_leaf in Hc.
  - by intros [Hf Hch]%wf_yesde_tyesde.
Qed.

Lemma wf_leaf_ok n x : wf_yesde n = true -> leaf_of n x -> leaf_ok x.
Proof.
  intros Hw [(k & s & l & ->) (q & Hq)].
  assert (Hwx : wf_yesde (Leaf k s l) = true).
  { destruct (decide (q = [])) as [->|Hne].
    - simpl in Hq. by injection Hq as <-.
    - by destruct (wf_yesde_below n q _ Hw Hq Hne) as [? _]. }
  apply wf_yesde_leaf in Hwx as (_ & _ & Hne & Hall & Hsort).
  split; [done |]. by split.
Qed.

(** A well-formed node whose nodes are aligned and count their children
    right has its shape. *)
Lemma wf_shape n :
  wf_yesde n = true ->
  (forall q x, get_yesde n q = Some x ->
     aligned x /\ (IS_TNODE x = true -> counters_ok x)) ->
  shape n.
Proof.
  intros Hw Hall q x Hx.
  assert (Hwx : wf_yesde x = true).
  { destruct (decide (q = [])) as [->|Hne].
    - simpl in Hx. by injection Hx as <-.
    - by destruct (wf_yesde_below n q _ Hw Hx Hne) as [? _]. }
  destruct (wf_fields_shape x Hwx) as [Hf Hch].
  destruct (Hall q x Hx) as [Hal Hcnt].
  split; [done |]. split; [done |]. split; [done |].
  intros i c Hc. by destruct (Hch i c Hc).
Qed.

Lemma is_root_child t i c :
  is_root t -> get_child t i = Some c -> i = 0.
Proof.
  intros (e & f & c0 & ->) Hc. unfold get_child in Hc. simpl in Hc.
  destruct (Z.ltb_spec i 0); [done |].
  destruct (Z.to_nat i) as [|n] eqn:Hn; [lia |]. done.
Qed.

Lemma inv_wf t : inv t -> wf_trie t = true.
Proof.
  intros [[Hr Hs] Hl]. pose proof Hr as (e & f & c & ->).
  simpl. destruct c as [c|]; [| done].
  apply shape_wf.
  - by apply Hs.
  - intros x Hx. apply Hl. by apply (leaf_of_child _ 0 c).
Qed.

Lemma wf_trie_is_root t : wf_trie t = true -> is_root t.
Proof. intros (e & f & c & -> & _)%wf_trie_root. by exists e, f, c. Qed.

Lemma leaf_of_root t x :
  is_root t -> leaf_of t x ->
  exists c, get_child t 0 = Some c /\ leaf_of c x.
Proof.
  intros Hr Hx. destruct (leaf_of_inv t x Hx) as [->|(i & c & Hc & Hcx)].
  - destruct Hx as [(k & s & l & ->) _]. by destruct Hr as (e & f & c & ?).
  - pose proof (is_root_child t i c Hr Hc) as ->. by exists c.
Qed.

Lemma inv_empty : inv trie_empty.
Proof.
  split; [split |].
  - by exists 0, 0, None.
  - intros c Hc. done.
  - intros x Hx. apply (leaf_of_root trie_empty x) in Hx as (c & Hc & _).
    + done.
    + by exists 0, 0, None.
Qed.

(** The nodes of a table that keeps the invariant. *)
Lemma shape_trie_get t p x :
  shape_trie t -> get_yesde t p = Some x -> p <> [] -> shape x.
Proof.
  intros [Hr Hs] Hx Hp.
  destruct (exists_last Hp) as (q & j & ->).
  rewrite get_yesde_snoc in Hx.
  destruct (get_child t j) as [c|] eqn:Hc; [| done].
  pose proof (is_root_child t j c Hr Hc) as ->.
  by apply (shape_under c q x (Hs c Hc)).
Qed.


(** * Stores through a pointer *)

(** ** Vocabulary *)

(** [n] can stand where [old] stands: the same key, position and bits. *)
Definition same_place (old n : key_vector) : Prop :=
  kv_key n = kv_key old /\ kv_pos n = kv_pos old /\ kv_bits n = kv_bits old.

(** The suffix length that the parent of the node behind [a] allows. *)
Definition parent_slen (t : key_vector) (a : ptr) : Z :=
  match a with
  | _ :: (_ :: _) as tp =>
      match get_yesde t tp with Some tpn => kv_slen tpn | None => 0 end
  | _ => KEYLENGTH
  end.

(** [x] is a leaf of [t] that is not at or below [a]. *)
Definition leaf_outside (t : key_vector) (a : ptr) (x : key_vector) : Prop :=
  (exists k s l, x = Leaf k s l) /\
  exists p, get_yesde t p = Some x /\ ~ (exists q, p = q ++ a).

(** ** Pointers *)

(** Two pointers: one is at or below the other, or they part at a
    node. *)
Lemma prefix_trichotomy (a p : list Z) :
  (exists q, p = a ++ q) \/ (exists q, q <> [] /\ a = p ++ q) \/
  (exists c i j qa qp, i <> j /\ a = c ++ i :: qa /\ p = c ++ j :: qp).
Proof.
  revert p. induction a as [|x a IH]; intros p.
  { left. by exists p. }
  destruct p as [|y p].
  { right. left. by exists (x :: a). }
  destruct (decide (x = y)) as [->|Hne].
  - destruct (IH p) as [(q & ->)|[(q & Hq & ->)|
      (c & i & j & qa & qp & Hij & -> & ->)]].
    + left. by exists q.
    + right. left. exists q. by split.
    + right. right. exists (y :: c), i, j, qa, qp. by repeat split.
  - right. right. exists [], x, y, a, p. by repeat split.
Qed.

Lemma ptr_trichotomy (a p : ptr) :
  (exists q, p = q ++ a) \/ (exists q, q <> [] /\ a = q ++ p) \/
  (exists c i j qa qp, i <> j /\ a = qa ++ i :: c /\ p = qp ++ j :: c).
Proof.
  destruct (prefix_trichotomy (reverse a) (reverse p))
    as [(q & Hq)|[(q & Hne & Hq)|(c & i & j & qa & qp & Hij & Ha & Hp)]].
  - left. exists (reverse q). apply (f_equal reverse) in Hq.
    by rewrite reverse_involutive, reverse_app, reverse_involutive in Hq.
  - right. left. exists (reverse q). split.
    + intros H. apply Hne. apply (f_equal reverse) in H.
      by rewrite reverse_involutive in H.
    + apply (f_equal reverse) in Hq.
      by rewrite reverse_involutive, reverse_app, reverse_involutive in Hq.
  - right. right. exists (reverse c), i, j, (reverse qa), (reverse qp).
    split; [done |].
    apply (f_equal reverse) in Ha, Hp.
    rewrite reverse_involutive, reverse_app, reverse_cons, <- app_assoc
      in Ha, Hp.
    done.
Qed.

Lemma set_child_twice tn i x y :
  set_child (set_child tn i x) i y = set_child tn i y.
Proof.
  destruct tn as [|k p b s e f c]; [done |]. simpl.
  destruct (i <? 0) eqn:Hi; simpl; rewrite Hi; [done |].
  by rewrite list_insert_insert_eq.
Qed.

(** A store through a pointer undoes an earlier one through it. *)
Lemma set_yesde_twice t p old x y t1 :
  get_yesde t p = Some old -> set_yesde t p x = Some t1 ->
  set_yesde t1 p y = set_yesde t p y.
Proof.
  revert old x y t1. induction p as [|i p IH]; intros old x y t1 Hg Hs;
    [done |].
  rewrite get_yesde_cons in Hg. rewrite set_yesde_cons in Hs.
  destruct (get_yesde t p) as [tp|] eqn:Htp;
    cbn [mbind option_bind] in Hg, Hs; [| done].
  rewrite !set_yesde_cons, Htp. cbn [mbind option_bind].
  rewrite (get_set_same _ _ _ _ _ Htp Hs). cbn [mbind option_bind].
  rewrite set_child_twice. by eapply IH.
Qed.

(** A store below a pointer is undone by a store through the pointer. *)
Lemma set_yesde_below t q p m old x y t1 :
  get_yesde t p = Some m -> get_yesde t (q ++ p) = Some old ->
  set_yesde t (q ++ p) x = Some t1 ->
  set_yesde t1 p y = set_yesde t p y.
Proof.
  intros Hm Hold Hs.
  rewrite (set_yesde_app _ _ _ _ _ Hm) in Hs.
  destruct (set_yesde m q x) as [m'|] eqn:Hm'; simpl in Hs; [| done].
  by eapply set_yesde_twice.
Qed.

Lemma get_yesde_has_child m q x :
  get_yesde m q = Some x -> q <> [] -> kv_tyesde m <> [].
Proof.
  intros Hx Hq. destruct (exists_last Hq) as (q' & j & ->).
  rewrite get_yesde_snoc in Hx.
  destruct (get_child m j) as [c|] eqn:Hc; [| done].
  unfold get_child in Hc. destruct (j <? 0); [done |].
  intros Hnil. by rewrite Hnil in Hc.
Qed.

(** ** The leaves after a store *)

Lemma store_leaves t a old n t' :
  get_yesde t a = Some old -> set_yesde t a n = Some t' ->
  (forall x, leaf_of t x <-> leaf_of old x \/ leaf_outside t a x) /\
  (forall x, leaf_of t' x <-> leaf_of n x \/ leaf_outside t a x).
Proof.
  intros Hold Hset.
  assert (Habove : forall q p m x,
            q <> [] -> a = q ++ p -> get_yesde t p = Some m ->
            (exists k s l, x = Leaf k s l) ->
            (m = x \/ forall m', get_yesde t' p = Some m' -> m' = x) ->
            False).
  { intros q p m x Hq -> Hm (k & s & l & ->) Hcase.
    pose proof Hold as Hold'. rewrite get_yesde_app, Hm in Hold'.
    simpl in Hold'.
    pose proof (get_yesde_has_child _ _ _ Hold' Hq) as Hch.
    destruct Hcase as [->|Hm']; [done |].
    destruct (get_set_above _ _ _ _ _ _ Hold Hset)
      as (m0 & m' & Hm0 & Hs' & Hg').
    rewrite Hm in Hm0. injection Hm0 as <-.
    pose proof (set_yesde_same_header _ _ _ _ _ Hq Hold' Hs')
      as (_ & _ & _ & _ & _ & _ & _ & Hlen).
    rewrite (Hm' _ Hg') in Hlen. simpl in Hlen.
    by destruct (kv_tyesde m). }
  split; intros x; split.
  - intros [Hx (p & Hp)].
    destruct (decide (a `suffix_of` p)) as [(q & ->)|Hns].
    + left. split; [done |]. exists q.
      by rewrite get_yesde_app, Hold in Hp.
    + right. split; [done |]. by exists p.
  - intros [[Hx (q & Hq)]|[Hx (p & Hp & _)]]; (split; [done |]).
    + exists (q ++ a). by rewrite get_yesde_app, Hold.
    + by exists p.
  - intros [Hx (p & Hp)].
    destruct (ptr_trichotomy a p)
      as [(q & ->)|[(q & Hne & Hq)|(c & i & j & qa & qp & Hij & Ha & ->)]].
    + left. split; [done |]. exists q.
      by rewrite (get_set_below _ _ _ _ _ q Hold Hset) in Hp.
    + exfalso. subst a.
      destruct (get_set_above _ _ _ _ _ _ Hold Hset)
        as (m & m' & Hm & _ & Hg').
      apply (Habove q p m x Hne eq_refl Hm Hx). right.
      intros m0 Hm0. congruence.
    + right. split; [done |]. exists (qp ++ j :: c). subst a.
      rewrite (get_set_beside _ _ _ qp _ _ _ _ _ Hij Hold Hset) in Hp.
      split; [done |]. intros (q & Heq).
      replace (q ++ qa ++ i :: c) with ((q ++ qa) ++ i :: c) in Heq
        by by rewrite <- app_assoc.
      apply (f_equal reverse) in Heq.
      rewrite !reverse_app, !reverse_cons, <- !app_assoc in Heq.
      apply app_inv_head in Heq. simpl in Heq. congruence.
  - intros [[Hx (q & Hq)]|[Hx (p & Hp & Hns)]]; (split; [done |]).
    + exists (q ++ a). by rewrite (get_set_below _ _ _ _ _ q Hold Hset).
    + exists p.
      destruct (ptr_trichotomy a p)
        as [(q & ->)|[(q & Hne & Hq)|(c & i & j & qa & qp & Hij & Ha & ->)]].
      * destruct Hns. by exists q.
      * exfalso. apply (Habove q p x x Hne Hq Hp Hx). by left.
      * subst a.
        by rewrite (get_set_beside _ _ _ qp _ _ _ _ _ Hij Hold Hset).
Qed.

(** The nodes above a store keep their fields. *)
Lemma store_frame t a old n t' q p m :
  get_yesde t a = Some old -> set_yesde t a n = Some t' ->
  q <> [] -> a = q ++ p -> get_yesde t p = Some m ->
  exists m', get_yesde t' p = Some m' /\ same_header m m'.
Proof.
  intros Hold Hset Hq -> Hm.
  destruct (get_set_above _ _ _ _ _ _ Hold Hset) as (m0 & m' & Hm0 & Hs' & Hg').
  rewrite Hm in Hm0. injection Hm0 as <-.
  exists m'. split; [done |].
  rewrite get_yesde_app, Hm in Hold. simpl in Hold.
  by eapply set_yesde_same_header.
Qed.

(** ** The shape after a store *)

Lemma set_child_shape tpn i old n :
  shape tpn -> get_child tpn i = Some old -> shape n ->
  same_place old n -> kv_slen n <= kv_slen tpn ->
  shape (set_child tpn i (Some n)) /\ same_place tpn (set_child tpn i (Some n))
  /\ kv_slen (set_child tpn i (Some n)) = kv_slen tpn /\
  get_child (set_child tpn i (Some n)) i = Some n /\
  forall j, j <> i ->
    get_child (set_child tpn i (Some n)) j = get_child tpn j.
Proof.
  intros Hs Hold Hn (Hk & Hp & Hb) Hslen.
  pose proof (shape_self _ Hs) as (Hf & Hal & Hcnt & Hch).
  pose proof (shape_child_index _ _ _ (shape_self _ Hs) Hold) as Hi.
  destruct tpn as [|k p b s e f cs]; [by rewrite get_child_leaf in Hold |].
  pose proof Hf as [Hb1 Hp1 Ht1 Hk1 Hkl1 Hlen1 Hs1].
  cbn [kv_key kv_pos kv_bits kv_slen] in *.
  simpl. destruct (Z.ltb_spec i 0); [lia |].
  set (tn' := Tyesde k p b s e f (<[Z.to_nat i := Some n]> cs)).
  assert (Hlook : cs !! Z.to_nat i = Some (Some old)).
  { unfold get_child in Hold. simpl in Hold.
    destruct (Z.ltb_spec i 0); [lia |].
    destruct (cs !! Z.to_nat i) as [o|]; [by subst o | done]. }
  assert (Hget : get_child tn' i = Some n).
  { unfold get_child. simpl. destruct (Z.ltb_spec i 0); [lia |].
    rewrite list_lookup_insert_eq; [done | lia]. }
  assert (Hother : forall j, j <> i ->
            get_child tn' j = get_child (Tyesde k p b s e f cs) j).
  { intros j Hj. unfold get_child. simpl.
    destruct (Z.ltb_spec j 0); [done |].
    rewrite list_lookup_insert_ne; [done | lia]. }
  split; [| by repeat split].
  apply shape_intro.
  2:{ intros j x Hx. destruct (decide (j = i)) as [->|Hj].
      - rewrite Hget in Hx. by injection Hx as <-.
      - rewrite (Hother j Hj) in Hx. exact (shape_child _ _ _ Hs Hx). }
  split; [| split; [| split]].
  - split; try done. by rewrite length_insert.
  - done.
  - intros Htn. specialize (Hcnt Htn). clear Hget Hother. subst tn'.
    destruct Hcnt as (He & x & Hx & Hnull & Hfull).
    unfold counters_ok, null_slots, full_slots in *.
    cbn [kv_empty_children kv_full_children kv_tyesde] in *.
    split; [done |]. exists x. split; [done |].
    rewrite (count_slots_insert slot_null cs _ _ (Some n) Hlook).
    rewrite (count_slots_ext
               (tyesde_full (Tyesde k p b s e f (<[Z.to_nat i := Some n]> cs)))
               (tyesde_full (Tyesde k p b s e f cs)))
      by (intros o; by apply tyesde_full_pos).
    rewrite (count_slots_insert _ cs _ _ (Some n) Hlook).
    cbn [slot_null tyesde_full kv_pos]. unfold IS_TNODE.
    rewrite Hp, Hb. split; lia.
  - intros j x Hx. cbn [kv_key kv_pos kv_slen].
    destruct (decide (j = i)) as [->|Hj].
    + rewrite Hget in Hx. injection Hx as <-.
      pose proof (Hch i old Hold) as (H1 & H2 & H3)%child_ok_spec.
      apply child_ok_spec. rewrite Hk, Hp, Hb. subst tn'.
      cbn [kv_key kv_pos kv_slen]. lia.
    + rewrite (Hother j Hj) in Hx. subst tn'. by apply Hch.
Qed.

Lemma store_shape t a old n :
  shape_trie t -> get_yesde t a = Some old -> a <> [] -> shape n ->
  same_place old n -> kv_slen n <= parent_slen t a ->
  exists t', set_yesde t a n = Some t' /\ shape_trie t'.
Proof.
  intros Ht. revert old n.
  induction a as [|i tp IH]; intros old n Hold Ha Hn Hsame Hslen; [done |].
  rewrite get_yesde_cons in Hold. rewrite set_yesde_cons.
  destruct (get_yesde t tp) as [tpn|] eqn:Htp;
    cbn [mbind option_bind] in *; [| done].
  destruct tp as [|j tp'].
  - simpl in Htp. injection Htp as <-. simpl.
    pose proof (is_root_child t i old (proj1 Ht) Hold) as ->.
    destruct Ht as [(e & f & c & ->) Hs].
    eexists. split; [reflexivity |]. split; [by eexists _, _, _ |].
    intros c' [= <-]. done.
  - assert (Htps : shape tpn) by by eapply shape_trie_get.
    cbn [parent_slen] in Hslen. rewrite Htp in Hslen.
    destruct (set_child_shape tpn i old n Htps Hold Hn Hsame Hslen)
      as (Hs' & Hsame' & Hslen' & _).
    apply (IH tpn); try done.
    rewrite Hslen'.
    destruct tp' as [|j' tp''].
    + cbn [parent_slen].
      destruct (shape_bounds _ (shape_self _ Htps))
        as (_ & _ & _ & _ & ? & _). lia.
    + cbn [parent_slen]. pose proof Htp as Htp'.
      rewrite get_yesde_cons in Htp'.
      destruct (get_yesde t (j' :: tp'')) as [ppn|] eqn:Hpp;
        cbn [mbind option_bind] in Htp'; [| done].
      assert (Hpps : shape ppn) by by eapply shape_trie_get.
      destruct (shape_self _ Hpps) as (_ & _ & _ & Hch).
      pose proof (Hch j tpn Htp') as (_ & _ & ?)%child_ok_spec. done.
Qed.

(** ** The leaves around a slot *)

Lemma leaf_of_tyesde m x :
  (forall k s l, m <> Leaf k s l) ->
  leaf_of m x <-> exists j c, get_child m j = Some c /\ leaf_of c x.
Proof.
  intros Hm. split.
  - intros Hx. destruct (leaf_of_inv m x Hx) as [->|H]; [| done].
    destruct Hx as [(k & s & l & ->) _]. by destruct (Hm k s l).
  - intros (j & c & Hc & Hx). by eapply leaf_of_child.
Qed.

Lemma is_tyesde_not_leaf m :
  IS_TNODE m = true -> forall k s l, m <> Leaf k s l.
Proof. by intros Hm k s l ->. Qed.

Lemma is_root_not_leaf m : is_root m -> forall k s l, m <> Leaf k s l.
Proof. by intros (e & f & c & ->) k s l. Qed.

(** The leaves outside a slot are those outside the node and those in
    its other slots. *)
Lemma leaf_outside_slot t tp tpn i x :
  get_yesde t tp = Some tpn -> (forall k s l, tpn <> Leaf k s l) ->
  leaf_outside t (i :: tp) x <->
  leaf_outside t tp x \/
  exists j c, j <> i /\ get_child tpn j = Some c /\ leaf_of c x.
Proof.
  intros Htp Hnl. split.
  - intros [Hx (p & Hp & Hns)].
    destruct (decide (tp `suffix_of` p)) as [(q & ->)|Hnt].
    + right. rewrite get_yesde_app, Htp in Hp. simpl in Hp.
      destruct (decide (q = [])) as [->|Hq].
      { simpl in Hp. injection Hp as ->.
        destruct Hx as (k & s & l & ->). by destruct (Hnl k s l). }
      destruct (exists_last Hq) as (q' & j & ->).
      rewrite get_yesde_snoc in Hp.
      destruct (get_child tpn j) as [c|] eqn:Hc; [| done].
      exists j, c. split; [| split; [done |]; split; [done | by exists q']].
      intros ->. apply Hns. exists q'. by rewrite <- app_assoc.
    + left. split; [done |]. by exists p.
  - intros [[Hx (p & Hp & Hns)]|(j & c & Hj & Hc & [Hx (q & Hq)])];
      (split; [done |]).
    + exists p. split; [done |]. intros (q & ->). apply Hns.
      exists (q ++ [i]). by rewrite <- app_assoc.
    + exists (q ++ j :: tp). split.
      * rewrite get_yesde_app, get_yesde_cons, Htp. simpl. by rewrite Hc.
      * intros (q' & Heq). apply (f_equal reverse) in Heq.
        rewrite !reverse_app, !reverse_cons, <- !app_assoc in Heq.
        apply app_inv_head in Heq. simpl in Heq. congruence.
Qed.

(** The leaves before and after the node behind [tp] is stored with
    slot [i] changed. *)
Lemma store_slot_leaves t tp tpn tpn' t' i :
  get_yesde t tp = Some tpn -> set_yesde t tp tpn' = Some t' ->
  (forall k s l, tpn <> Leaf k s l) -> (forall k s l, tpn' <> Leaf k s l) ->
  (forall j, j <> i -> get_child tpn' j = get_child tpn j) ->
  (forall x, leaf_of t x <->
     (exists c, get_child tpn i = Some c /\ leaf_of c x) \/
     leaf_outside t (i :: tp) x) /\
  (forall x, leaf_of t' x <->
     (exists c, get_child tpn' i = Some c /\ leaf_of c x) \/
     leaf_outside t (i :: tp) x).
Proof.
  intros Htp Hset Hnl Hnl' Hother.
  destruct (store_leaves t tp tpn tpn' t' Htp Hset) as [H1 H2].
  split; intros x.
  - rewrite H1, (leaf_outside_slot t tp tpn i x Htp Hnl),
      (leaf_of_tyesde tpn x Hnl).
    split.
    + intros [(j & c & Hc & Hx)|Ho]; [| by right; left].
      destruct (decide (j = i)) as [->|Hj]; [left; by exists c |].
      right. right. by exists j, c.
    + intros [(c & Hc & Hx)|[Ho|(j & c & Hj & Hc & Hx)]];
        [left; by exists i, c | by right | left; by exists j, c].
  - rewrite H2, (leaf_outside_slot t tp tpn i x Htp Hnl),
      (leaf_of_tyesde tpn' x Hnl').
    split.
    + intros [(j & c & Hc & Hx)|Ho]; [| by right; left].
      destruct (decide (j = i)) as [->|Hj]; [left; by exists c |].
      right. right. exists j, c. by rewrite <- (Hother j Hj).
    + intros [(c & Hc & Hx)|[Ho|(j & c & Hj & Hc & Hx)]];
        [left; by exists i, c | by right |].
      left. exists j, c. by rewrite (Hother j Hj).
Qed.

(** ** [put_child_root] *)

(** [m'] stands where [m] stood, with its suffix length. *)
Definition same_frame (m m' : key_vector) : Prop :=
  same_place m m' /\ kv_slen m' = kv_slen m.

Lemma same_frame_refl m : same_frame m m.
Proof. by repeat split. Qed.

Lemma same_frame_trans m1 m2 m3 :
  same_frame m1 m2 -> same_frame m2 m3 -> same_frame m1 m3.
Proof.
  intros [(? & ? & ?) ?] [(? & ? & ?) ?]. repeat split; congruence.
Qed.

Lemma same_header_frame m m' : same_header m m' -> same_frame m m'.
Proof. intros (? & ? & ? & ? & _). by repeat split. Qed.

Lemma same_frame_tyesde m m' :
  same_frame m m' -> IS_TNODE m' = IS_TNODE m.
Proof. intros [(_ & _ & Hb) _]. unfold IS_TNODE. by rewrite Hb. Qed.

Lemma parent_slen_ok t a x :
  shape_trie t -> get_yesde t a = Some x -> a <> [] ->
  kv_slen x <= parent_slen t a.
Proof.
  intros Ht Hx Ha. destruct a as [|i tp]; [done |].
  assert (Hxs : shape x) by by eapply shape_trie_get.
  destruct tp as [|j tp'].
  - cbn [parent_slen].
    destruct (shape_bounds _ (shape_self _ Hxs)) as (_ & _ & _ & _ & ? & _).
    lia.
  - cbn [parent_slen]. rewrite get_yesde_cons in Hx.
    destruct (get_yesde t (j :: tp')) as [ppn|] eqn:Hpp;
      cbn [mbind option_bind] in Hx; [| done].
    assert (Hpps : shape ppn) by by eapply shape_trie_get.
    destruct (shape_self _ Hpps) as (_ & _ & _ & Hch).
    pose proof (Hch i x Hx) as (_ & _ & ?)%child_ok_spec. done.
Qed.

(** Only the root has [pos >= KEYLENGTH]. *)
Lemma shape_is_trie t tp tpn :
  shape_trie t -> get_yesde t tp = Some tpn ->
  tp = [] \/ IS_TNODE tpn = true -> IS_TRIE tpn = true <-> tp = [].
Proof.
  intros Ht Htp Hint. split.
  - intros Htrie. destruct (decide (tp = [])) as [|Hne]; [done | exfalso].
    destruct Hint as [|Hint]; [done |].
    pose proof (shape_trie_get t tp tpn Ht Htp Hne) as Hs.
    destruct (shape_bounds _ (shape_self _ Hs)) as (_ & Hp & Hb & Hpb & _).
    unfold IS_TRIE in Htrie. apply Z.leb_le in Htrie.
    unfold IS_TNODE in Hint. apply negb_true_iff, Z.eqb_neq in Hint.
    unfold KEYLENGTH in *. lia.
  - intros ->. destruct Ht as [(e & f & c & Ht) _].
    simpl in Htp. injection Htp as <-. by rewrite Ht.
Qed.

Lemma put_child_root_spec w tp tpn key n i :
  shape_trie (kv w) -> get_yesde (kv w) tp = Some tpn ->
  tp = [] \/ IS_TNODE tpn = true ->
  i = (if IS_TRIE tpn then 0 else get_index key tpn) ->
  (tp <> [] -> 0 <= i < 2 ^ kv_bits tpn) ->
  (forall c, n = Some c ->
     shape c /\
     (tp <> [] -> kv_pos c + kv_bits c <= kv_pos tpn /\
                  Z.shiftr (Z.lxor (kv_key c) (kv_key tpn)) (kv_pos tpn) = i /\
                  kv_slen c <= kv_slen tpn)) ->
  exists w' tpn',
    put_child_root tp key n w = Some (tt, w') /\ kmem w' = kmem w /\
    shape_trie (kv w') /\
    get_yesde (kv w') tp = Some tpn' /\ same_frame tpn tpn' /\
    get_child tpn' i = n /\
    (forall j, j <> i -> get_child tpn' j = get_child tpn j) /\
    (forall q p m, q <> [] -> tp = q ++ p -> get_yesde (kv w) p = Some m ->
       exists m', get_yesde (kv w') p = Some m' /\ same_header m m') /\
    (forall x, leaf_of (kv w') x <->
       (exists c, n = Some c /\ leaf_of c x) \/
       leaf_outside (kv w) (i :: tp) x) /\
    (forall x, leaf_of (kv w) x <->
       (exists c, get_child tpn i = Some c /\ leaf_of c x) \/
       leaf_outside (kv w) (i :: tp) x).
Proof.
  intros Ht Htp Hint Hi Hrange Hn.
  pose proof (shape_is_trie _ _ _ Ht Htp Hint) as Htrie.
  unfold put_child_root. bind_step (deref_eq _ _ _ Htp).
  destruct (IS_TRIE tpn) eqn:Hroot.
  - (* the root *)
    pose proof (proj1 Htrie eq_refl) as ->. simpl in Htp.
    injection Htp as <-. subst i.
    pose proof Ht as [(e & f & c0 & Hroot') Hs].
    unfold store. simpl. rewrite Hroot'. simpl.
    set (t' := Tyesde 0 32 0 32 e f [n]).
    exists (World (kmem w) t'), t'. split; [done |]. split; [done |].
    assert (Ht' : shape_trie t').
    { split; [by eexists _, _, _ |]. intros c Hc.
      apply Hn. unfold get_child in Hc. simpl in Hc. done. }
    split; [done |]. split; [done |].
    split; [by repeat split |]. split; [done |].
    assert (Hother : forall j, j <> 0 ->
              get_child t' j = get_child (Tyesde 0 32 0 32 e f [c0]) j).
    { intros j Hj. unfold get_child. simpl.
      destruct (Z.ltb_spec j 0); [done |].
      destruct (Z.to_nat j) as [|m] eqn:Hm; [lia | done]. }
    split; [done |].
    split; [intros q p m Hq Heq; by destruct q |].
    destruct (store_slot_leaves (kv w) [] (kv w) t' t' 0) as [H1 H2];
      try done.
    + rewrite Hroot'. by intros k s l.
    + by rewrite Hroot'.
    + rewrite <- Hroot'. split; [| done]. intros x. rewrite (H2 x).
      unfold get_child at 1. simpl. split.
      * intros [(c & -> & Hx)|Ho]; [left; by exists c | by right].
      * intros [(c & -> & Hx)|Ho]; [left; by exists c | by right].
  - (* an internal node *)
    assert (Hne : tp <> []).
    { intros ->. by pose proof (proj2 Htrie eq_refl). }
    destruct Hint as [|Hint]; [done |].
    pose proof (shape_trie_get _ _ _ Ht Htp Hne) as Hs.
    rewrite <- Hi.
    destruct (put_child_shape tpn i n Hs Hint (Hrange Hne))
      as (tpn' & Hput & Hs' & Hk' & Hp' & Hb' & Hsl' & Hget & Hother).
    { intros c Hc. destruct (Hn c Hc) as [Hsc Hfit].
      destruct (Hfit Hne) as (? & ? & ?). split; [done |]. by split. }
    bind_step (lift_eq _ _ w Hput).
    assert (Hslen : kv_slen tpn' = kv_slen tpn).
    { rewrite Hsl'. destruct n as [c|]; [| done].
      destruct (Hn c eq_refl) as [_ Hfit].
      destruct (Hfit Hne) as (_ & _ & ?). lia. }
    destruct (store_shape (kv w) tp tpn tpn' Ht Htp Hne Hs')
      as (t' & Hset & Ht'); [by repeat split | |].
    { rewrite Hslen. by apply parent_slen_ok. }
    unfold store. rewrite Hset.
    exists (World (kmem w) t'), tpn'. split; [done |]. split; [done |].
    split; [done |]. split; [by eapply get_set_same |].
    split; [by repeat split |]. split; [done |]. split; [done |].
    split.
    { intros q p m Hq Heq Hm.
      exact (store_frame _ _ _ _ _ q p m Htp Hset Hq Heq Hm). }
    assert (Hnl : forall m, IS_TNODE m = true -> forall k s l, m <> Leaf k s l)
      by (intros m Hm; by apply is_tyesde_not_leaf).
    destruct (store_slot_leaves (kv w) tp tpn tpn' t' i) as [H1 H2];
      try done.
    + by apply Hnl.
    + apply Hnl. unfold IS_TNODE in *. by rewrite Hb'.
    + split; [| done]. intros x. rewrite (H2 x), Hget. done.
Qed.


(** * The nodes that [inflate] and [halve] build *)

(** The leaves of a node after a child is put into an empty slot. *)
Lemma leaf_of_put tn tn' j n x :
  (forall k s l, tn <> Leaf k s l) -> (forall k s l, tn' <> Leaf k s l) ->
  get_child tn j = None -> get_child tn' j = n ->
  (forall j', j' <> j -> get_child tn' j' = get_child tn j') ->
  leaf_of tn' x <-> (exists c, n = Some c /\ leaf_of c x) \/ leaf_of tn x.
Proof.
  intros Hnl Hnl' Hnone Hget Hother.
  rewrite (leaf_of_tyesde tn x Hnl), (leaf_of_tyesde tn' x Hnl'). split.
  - intros (j' & c & Hc & Hx). destruct (decide (j' = j)) as [->|Hj].
    + left. exists c. by rewrite <- Hget.
    + right. exists j', c. by rewrite <- (Hother j' Hj).
  - intros [(c & -> & Hx)|(j' & c & Hc & Hx)].
    + by exists j, c.
    + exists j', c. split; [| done]. rewrite Hother; [done |].
      intros ->. by rewrite Hnone in Hc.
Qed.

(** The slot of a key in a node, from the range the key lies in. *)
Lemma slot_of_range k p b ck j :
  0 <= p -> 0 <= b -> 0 <= k -> k mod 2 ^ (p + b) = 0 ->
  0 <= j < 2 ^ b -> k + j * 2 ^ p <= ck < k + (j + 1) * 2 ^ p ->
  Z.shiftr (Z.lxor ck k) p = j.
Proof.
  intros Hp Hb Hk Hal Hj Hr.
  apply (shiftr_lxor_slot k ck p b j); (done || lia).
Qed.

Lemma range_of_slot k p b ck j :
  0 <= p -> 0 <= b -> 0 <= k -> 0 <= ck -> k mod 2 ^ (p + b) = 0 ->
  0 <= j < 2 ^ b -> Z.shiftr (Z.lxor ck k) p = j ->
  k + j * 2 ^ p <= ck < k + (j + 1) * 2 ^ p.
Proof.
  intros Hp Hb Hk Hck Hal Hj Hr.
  by apply (shiftr_lxor_slot k ck p b j).
Qed.

(** What is known of a child of a node that has its shape. *)
Lemma shape_child_facts tn i c :
  shape tn -> get_child tn i = Some c ->
  shape c /\ 0 <= i < 2 ^ kv_bits tn /\
  kv_pos c + kv_bits c <= kv_pos tn /\ kv_slen c <= kv_slen tn /\
  kv_key tn + i * 2 ^ kv_pos tn <= kv_key c
  < kv_key tn + (i + 1) * 2 ^ kv_pos tn.
Proof.
  intros Hs Hc.
  pose proof (shape_self _ Hs) as Hn.
  pose proof (shape_child_index _ _ _ Hn Hc) as Hi.
  destruct (shape_bounds _ Hn) as (Hk & Hp & Hb & Hpb & Hsl & Hal).
  destruct Hn as (_ & _ & _ & Hch).
  pose proof (Hch i c Hc) as (H1 & H2 & H3)%child_ok_spec.
  pose proof (shape_child _ _ _ Hs Hc) as Hsc.
  destruct (shape_bounds _ (shape_self _ Hsc)) as (Hck & _).
  split; [done |]. split; [done |]. split; [done |]. split; [done |].
  apply (range_of_slot _ _ (kv_bits tn)); (done || lia).
Qed.

(** A node under construction: it has its shape, the header it was made
    with, and a suffix length that its future parent can take. *)
Definition built (tn : key_vector) (k p b smax : Z) : Prop :=
  shape tn /\ IS_TNODE tn = true /\ kv_key tn = k /\ kv_pos tn = p /\
  kv_bits tn = b /\ kv_slen tn <= smax.

Lemma built_put tn k p b smax j n :
  built tn k p b smax -> 0 <= j < 2 ^ b -> get_child tn j = None ->
  (forall c, n = Some c ->
     shape c /\ kv_pos c + kv_bits c <= p /\ kv_slen c <= smax /\
     k + j * 2 ^ p <= kv_key c < k + (j + 1) * 2 ^ p) ->
  exists tn',
    put_child tn j n = Some tn' /\ built tn' k p b smax /\
    get_child tn' j = n /\
    (forall j', j' <> j -> get_child tn' j' = get_child tn j') /\
    (forall x, leaf_of tn' x <->
               (exists c, n = Some c /\ leaf_of c x) \/ leaf_of tn x).
Proof.
  intros (Hs & Ht & Hk & Hp & Hb & Hsl) Hj Hnone Hn.
  destruct (shape_bounds _ (shape_self _ Hs)) as (Hk0 & Hp0 & Hb0 & Hpb & _ & Hal).
  destruct (put_child_shape tn j n Hs Ht) as
    (tn' & Hput & Hs' & Hk' & Hp' & Hb' & Hsl' & Hget & Hother).
  { by rewrite Hb. }
  { intros c Hc. destruct (Hn c Hc) as (Hsc & Hpc & Hslc & Hr).
    split; [done |]. split; [by rewrite Hp |].
    rewrite Hk, Hp.
    apply (slot_of_range k p b); subst; (done || lia). }
  assert (Ht' : IS_TNODE tn' = true).
  { unfold IS_TNODE in *. by rewrite Hb'. }
  exists tn'. split; [done |]. split.
  { split; [done |]. split; [done |]. split; [congruence |].
    split; [congruence |]. split; [congruence |].
    rewrite Hsl'. destruct n as [c|]; [| done].
    destruct (Hn c eq_refl) as (_ & _ & Hslc & _). lia. }
  split; [done |]. split; [done |].
  intros x. apply (leaf_of_put tn tn' j n x); try done.
  - by apply is_tyesde_not_leaf.
  - by apply is_tyesde_not_leaf.
Qed.

(** A node that is being filled from the slots [off + j ..] of [src]. *)
Definition filled (tn src : key_vector) (off half j : Z) : Prop :=
  (forall jj, jj < j -> get_child tn jj = None) /\
  (forall x, leaf_of tn x <->
             exists jj c, j <= jj < half /\
               get_child src (jj + off) = Some c /\ leaf_of c x).

Lemma fill_step tn src k p b smax off j :
  built tn k p b smax -> filled tn src off (2 ^ b) (j + 1) ->
  0 <= j < 2 ^ b ->
  (forall c, get_child src (j + off) = Some c ->
     shape c /\ kv_pos c + kv_bits c <= p /\ kv_slen c <= smax /\
     k + j * 2 ^ p <= kv_key c < k + (j + 1) * 2 ^ p) ->
  exists tn',
    put_child tn j (get_child src (j + off)) = Some tn' /\
    built tn' k p b smax /\ filled tn' src off (2 ^ b) j.
Proof.
  intros Hbt (Hnone & Hlv) Hj Hc.
  destruct (built_put tn k p b smax j (get_child src (j + off)) Hbt Hj)
    as (tn' & Hput & Hbt' & Hget & Hother & Hlv'); [apply Hnone; lia | done |].
  exists tn'. split; [done |]. split; [done |]. split.
  - intros jj Hjj. rewrite Hother by lia. apply Hnone. lia.
  - intros x. rewrite Hlv', Hlv. split.
    + intros [(c & Hcc & Hx)|(jj & c & Hjj & Hcc & Hx)].
      * exists j, c. split; [lia |]. done.
      * exists jj, c. split; [lia |]. done.
    + intros (jj & c & Hjj & Hcc & Hx).
      destruct (decide (jj = j)) as [->|Hne].
      * left. by exists c.
      * right. exists jj, c. split; [lia |]. done.
Qed.

(** The inner loop of [inflate] deals the children of a full child out to
    the two new nodes. *)
Lemma inflate_split_spec iyesde smax :
  shape iyesde -> IS_TNODE iyesde = true -> 2 <= kv_bits iyesde ->
  kv_slen iyesde <= smax ->
  let half := 2 ^ (kv_bits iyesde - 1) in
  let key1 := kv_key iyesde + half * 2 ^ kv_pos iyesde in
  forall m yesde0 yesde1,
    2 * Z.of_nat m <= half ->
    built yesde0 (kv_key iyesde) (kv_pos iyesde) (kv_bits iyesde - 1) smax ->
    built yesde1 key1 (kv_pos iyesde) (kv_bits iyesde - 1) smax ->
    filled yesde0 iyesde 0 half (2 * Z.of_nat m) ->
    filled yesde1 iyesde half half (2 * Z.of_nat m) ->
    exists n0 n1,
      inflate_split (2 * m) (2 * Z.of_nat m + half) iyesde yesde0 yesde1
      = Some (n0, n1) /\
      built n0 (kv_key iyesde) (kv_pos iyesde) (kv_bits iyesde - 1) smax /\
      built n1 key1 (kv_pos iyesde) (kv_bits iyesde - 1) smax /\
      filled n0 iyesde 0 half 0 /\ filled n1 iyesde half half 0.
Proof.
  intros Hs Ht Hb Hsm half key1.
  assert (Hhalf2 : 2 ^ kv_bits iyesde = 2 * half).
  { unfold half. rewrite <- Z.pow_succ_r by lia. f_equal. lia. }
  assert (Hfit : forall off jj c,
            (off = 0 \/ off = half) -> 0 <= jj < half ->
            get_child iyesde (jj + off) = Some c ->
            shape c /\ kv_pos c + kv_bits c <= kv_pos iyesde /\
            kv_slen c <= smax /\
            (kv_key iyesde + off * 2 ^ kv_pos iyesde) + jj * 2 ^ kv_pos iyesde
            <= kv_key c
            < (kv_key iyesde + off * 2 ^ kv_pos iyesde)
              + (jj + 1) * 2 ^ kv_pos iyesde).
  { intros off jj c Hoff Hjj Hc.
    destruct (shape_child_facts _ _ _ Hs Hc) as (Hsc & Hi & Hpc & Hslc & Hr).
    split; [done |]. split; [done |]. split; [lia |]. lia. }
  induction m as [|m IH]; intros yesde0 yesde1 Hm Hb0 Hb1 Hf0 Hf1.
  { exists yesde0, yesde1. change (2 * Z.of_nat 0) with 0 in Hf0, Hf1.
    split; [done |]. split; [done |]. split; [done |]. by split. }
  replace (2 * S m)%nat with (S (S (2 * m)))%nat by lia.
  cbn [inflate_split].
  remember (2 * m)%nat as j' eqn:Hj'.
  assert (Hjz : Z.of_nat j' = 2 * Z.of_nat m) by lia.
  replace (2 * Z.of_nat (S m) + half - 1) with (Z.of_nat (S j') + half) by lia.
  replace (2 * Z.of_nat (S m) + half - 2) with (Z.of_nat j' + half) by lia.
  replace (2 * Z.of_nat (S m)) with (Z.of_nat (S j') + 1) in Hf0, Hf1 by lia.
  destruct (fill_step yesde1 iyesde key1 _ _ smax half (Z.of_nat (S j')) Hb1 Hf1)
    as (a1 & -> & Hba1 & Hfa1); [lia | |].
  { intros c Hc. apply (Hfit half); [by right | lia | done]. }
  cbn [mbind option_bind].
  pose proof Hf0 as Hf0'.
  destruct (fill_step yesde0 iyesde (kv_key iyesde) _ _ smax 0 (Z.of_nat (S j')) Hb0 Hf0)
    as (a0 & Hput0 & Hba0 & Hfa0); [lia | |].
  { intros c Hc.
    destruct (Hfit 0 (Z.of_nat (S j')) c (or_introl eq_refl) ltac:(lia) Hc)
      as (H1 & H2 & H3 & H4).
    split; [done |]. split; [done |]. split; [done |]. lia. }
  rewrite Z.add_0_r in Hput0. rewrite Hput0. cbn [mbind option_bind].
  replace (Z.of_nat (S j')) with (Z.of_nat j' + 1) in Hfa0, Hfa1 by lia.
  destruct (fill_step a1 iyesde key1 _ _ smax half (Z.of_nat j') Hba1 Hfa1)
    as (c1 & -> & Hbc1 & Hfc1); [lia | |].
  { intros c Hc. apply (Hfit half); [by right | lia | done]. }
  cbn [mbind option_bind].
  destruct (fill_step a0 iyesde (kv_key iyesde) _ _ smax 0 (Z.of_nat j') Hba0 Hfa0)
    as (c0 & Hput0' & Hbc0 & Hfc0); [lia | |].
  { intros c Hc.
    destruct (Hfit 0 (Z.of_nat j') c (or_introl eq_refl) ltac:(lia) Hc)
      as (H1 & H2 & H3 & H4).
    split; [done |]. split; [done |]. split; [done |]. lia. }
  rewrite Z.add_0_r in Hput0'. rewrite Hput0'. cbn [mbind option_bind].
  rewrite Hjz in Hfc0, Hfc1.
  replace (Z.of_nat j' + half) with (2 * Z.of_nat m + half) by lia.
  apply IH; (done || lia).
Qed.

(** Running a computation whose first step is a pure one. *)
Lemma lift_bind_run {A B} (o : option A) (k : A -> M B) a w :
  o = Some a -> bind (lift o) k w = k a w.
Proof. intros ->. done. Qed.

(** Two children put into the empty slots [2 * i + 1] and [2 * i]. *)
Lemma built_put2 tn k p b smax i n1 n0 :
  built tn k p b smax -> 0 <= i -> 2 * i + 1 < 2 ^ b ->
  (forall jj, jj < 2 * i + 2 -> get_child tn jj = None) ->
  (forall c, n1 = Some c ->
     shape c /\ kv_pos c + kv_bits c <= p /\ kv_slen c <= smax /\
     k + (2 * i + 1) * 2 ^ p <= kv_key c < k + (2 * i + 2) * 2 ^ p) ->
  (forall c, n0 = Some c ->
     shape c /\ kv_pos c + kv_bits c <= p /\ kv_slen c <= smax /\
     k + (2 * i) * 2 ^ p <= kv_key c < k + (2 * i + 1) * 2 ^ p) ->
  exists tn1 tn2,
    put_child tn (2 * i + 1) n1 = Some tn1 /\
    put_child tn1 (2 * i) n0 = Some tn2 /\
    built tn2 k p b smax /\
    get_child tn2 (2 * i + 1) = n1 /\ get_child tn2 (2 * i) = n0 /\
    (forall jj, jj < 2 * i -> get_child tn2 jj = None) /\
    (forall x, leaf_of tn2 x <->
               (exists c, n1 = Some c /\ leaf_of c x) \/
               (exists c, n0 = Some c /\ leaf_of c x) \/ leaf_of tn x).
Proof.
  intros Hbt Hi Hib Hnone Hn1 Hn0.
  destruct (built_put tn k p b smax (2 * i + 1) n1 Hbt)
    as (tn1 & Hput1 & Hbt1 & Hget1 & Hother1 & Hlv1);
    [lia | apply Hnone; lia | |].
  { intros c Hc. destruct (Hn1 c Hc) as (H1 & H2 & H3 & H4).
    split; [done |]. split; [done |]. split; [done |]. lia. }
  destruct (built_put tn1 k p b smax (2 * i) n0 Hbt1)
    as (tn2 & Hput2 & Hbt2 & Hget2 & Hother2 & Hlv2);
    [lia | rewrite Hother1 by lia; apply Hnone; lia | done |].
  exists tn1, tn2. split; [done |]. split; [done |]. split; [done |].
  split; [by rewrite Hother2 by lia |]. split; [done |]. split.
  - intros jj Hjj. rewrite Hother2, Hother1 by lia. apply Hnone. lia.
  - intros x. rewrite Hlv2, Hlv1. tauto.
Qed.

Lemma aligned_in_slot a c d i :
  0 < d -> a mod d = 0 -> c mod d = 0 ->
  a + i * d <= c < a + (i + 1) * d -> c = a + i * d.
Proof.
  intros Hd Ha Hc Hr.
  apply Z.mod_divide in Ha; [| lia]. apply Z.mod_divide in Hc; [| lia].
  destruct Ha as [x ->], Hc as [y ->].
  assert (y = x + i) by nia. subst. lia.
Qed.

Lemma lor_aligned a r m :
  0 <= m -> a mod 2 ^ m = 0 -> 0 <= r < 2 ^ m -> Z.lor a r = a + r.
Proof.
  intros Hm Ha Hr. symmetry. apply Z.add_nocarry_lor.
  by apply (land_aligned_small a r m).
Qed.

(** The leaves of a node with two slots. *)
Lemma leaf_of_two n x :
  shape n -> IS_TNODE n = true -> kv_bits n = 1 ->
  leaf_of n x <->
  (exists c, get_child n 1 = Some c /\ leaf_of c x) \/
  (exists c, get_child n 0 = Some c /\ leaf_of c x).
Proof.
  intros Hs Ht Hb.
  rewrite (leaf_of_tyesde n x (is_tyesde_not_leaf n Ht)). split.
  - intros (j & c & Hc & Hx).
    pose proof (shape_child_index _ _ _ (shape_self _ Hs) Hc) as Hj.
    rewrite Hb in Hj. change (2 ^ 1) with 2 in Hj.
    assert (j = 0 \/ j = 1) as [->| ->] by lia; [right | left]; by exists c.
  - intros [(c & Hc & Hx)|(c & Hc & Hx)]; by eexists _, c.
Qed.

(** ** The loop of [inflate] *)

(** The new node while the slots from [i] on of the old one have been
    dealt with. *)
Definition inflating (old tn : key_vector) (i : Z) : Prop :=
  built tn (kv_key old) (kv_pos old - 1) (kv_bits old + 1) (kv_slen old) /\
  (forall jj, jj < 2 * i -> get_child tn jj = None) /\
  (forall x, leaf_of tn x <->
             exists i' c, i <= i' /\ get_child old i' = Some c /\ leaf_of c x).

Lemma inflating_step old tn tn' i :
  inflating old tn (i + 1) ->
  built tn' (kv_key old) (kv_pos old - 1) (kv_bits old + 1) (kv_slen old) ->
  (forall jj, jj < 2 * i -> get_child tn' jj = None) ->
  (forall x, leaf_of tn' x <->
     (exists c, get_child old i = Some c /\ leaf_of c x) \/ leaf_of tn x) ->
  inflating old tn' i.
Proof.
  intros (_ & _ & Hlv) Hbt Hnone Hlv'.
  split; [done |]. split; [done |].
  intros x. rewrite Hlv', Hlv. split.
  - intros [(c & Hc & Hx)|(i' & c & Hi' & Hc & Hx)].
    + exists i, c. split; [lia |]. done.
    + exists i', c. split; [lia |]. done.
  - intros (i' & c & Hi' & Hc & Hx).
    destruct (decide (i' = i)) as [->|Hne].
    + left. by exists c.
    + right. exists i', c. split; [lia |]. done.
Qed.

Lemma tyesde_full_spec tn c :
  tyesde_full tn (Some c) = true <->
  kv_pos c + kv_bits c = kv_pos tn /\ IS_TNODE c = true.
Proof.
  unfold tyesde_full. by rewrite andb_true_iff, Z.eqb_eq.
Qed.

Lemma not_full_below tn c :
  shape c -> kv_pos c + kv_bits c <= kv_pos tn -> 1 <= kv_pos tn ->
  tyesde_full tn (Some c) = false -> kv_pos c + kv_bits c <= kv_pos tn - 1.
Proof.
  intros Hs Hle Hp Hfull.
  destruct (IS_TNODE c) eqn:Ht.
  - destruct (Z.eq_dec (kv_pos c + kv_bits c) (kv_pos tn)) as [Heq|]; [| lia].
    assert (tyesde_full tn (Some c) = true) by by apply tyesde_full_spec.
    congruence.
  - destruct (shape_is_leaf _ (shape_self _ Hs) Ht) as (s & l & ->).
    simpl. lia.
Qed.

Lemma shape_pos_slen n :
  node_shape n -> IS_TNODE n = true -> kv_pos n <= kv_slen n.
Proof.
  intros (Hf & _) Ht. destruct n as [k s l|k p b s e f cs]; [done |].
  destruct Hf as [Hb Hp Htop Hk Hkl Hlen Hs]. simpl. lia.
Qed.

Lemma inflate_loop_spec old :
  shape old -> IS_TNODE old = true -> 1 <= kv_pos old ->
  forall (i : nat) tn w,
    Z.of_nat i <= 2 ^ kv_bits old -> inflating old tn (Z.of_nat i) ->
    exists r w',
      inflate_loop i old tn w = Some (r, w') /\ kv w' = kv w /\
      forall tn', r = Some tn' -> inflating old tn' 0.
Proof.
  intros Hs Ht Hp.
  destruct (shape_bounds _ (shape_self _ Hs))
    as (Hk0 & _ & Hb0 & Hpb & Hsl0 & Hal).
  assert (Hb1 : 1 <= kv_bits old).
  { unfold IS_TNODE in Ht. apply negb_true_iff, Z.eqb_neq in Ht. lia. }
  pose proof (pow2_pos (kv_pos old - 1) ltac:(lia)) as Hpp.
  assert (Hp2 : 2 ^ kv_pos old = 2 * 2 ^ (kv_pos old - 1)).
  { rewrite <- Z.pow_succ_r by lia. f_equal. lia. }
  assert (Hb2 : 2 ^ (kv_bits old + 1) = 2 * 2 ^ kv_bits old).
  { rewrite Z.pow_add_r by lia. lia. }
  assert (Halp : kv_key old mod 2 ^ kv_pos old = 0).
  { apply (mod_pow2_weaken _ (kv_pos old + kv_bits old)); [lia | done]. }
  induction i as [|i IH]; intros tn w Hi Hinv.
  { exists (Some tn), w. split; [done |]. split; [done |]. by intros tn' [= <-]. }
  rewrite Nat2Z.inj_succ in Hi, Hinv. unfold Z.succ in Hi, Hinv.
  pose proof Hinv as (Hbt & Hnone & Hlv).
  pose proof Hbt as (Hst & Htt & Hkt & Hpt & Hbtt & Hslt).
  cbn [inflate_loop].
  destruct (get_child old (Z.of_nat i)) as [iyesde|] eqn:Hc.
  2: { apply IH; [lia |]. apply (inflating_step old tn tn _ Hinv); [done | |].
       - intros jj Hjj. apply Hnone. lia.
       - intros x. rewrite Hc. split; [tauto |].
         intros [(c & [=] & _)|H]; done. }
  destruct (shape_child_facts _ _ _ Hs Hc) as (Hsi & Hir & Hpi & Hsli & Hri).
  destruct (shape_bounds _ (shape_self _ Hsi))
    as (Hki0 & Hpi0 & Hbi0 & Hpbi & Hsli0 & Hali).
  destruct (tyesde_full old (Some iyesde)) eqn:Hfull; cbn [negb].
  - (* a full child *)
    apply tyesde_full_spec in Hfull as (Hpf & Hti).
    assert (Hbi1 : 1 <= kv_bits iyesde).
    { unfold IS_TNODE in Hti. apply negb_true_iff, Z.eqb_neq in Hti. lia. }
    pose proof (shape_pos_slen _ (shape_self _ Hsi) Hti) as Hpsi.
    assert (Hik : kv_key iyesde = kv_key old + Z.of_nat i * 2 ^ kv_pos old).
    { apply aligned_in_slot; [lia | done | by rewrite <- Hpf | done]. }
    destruct (Z.eqb_spec (kv_bits iyesde) 1) as [Hone|Hmore].
    + (* with two children, which move up *)
      assert (Hpi1 : kv_pos iyesde = kv_pos old - 1) by lia.
      destruct (built_put2 tn _ _ _ _ (Z.of_nat i) (get_child iyesde 1)
                  (get_child iyesde 0) Hbt)
        as (tn1 & tn2 & Hput1 & Hput2 & Hbt2 & _ & _ & Hnone2 & Hlv2);
        [lia | lia | by intros jj Hjj; apply Hnone; lia | | |].
      { intros c Hcc.
        destruct (shape_child_facts _ _ _ Hsi Hcc) as (H1 & H2 & H3 & H4 & H5).
        split; [done |]. split; [lia |]. split; [lia |].
        rewrite Hpi1 in H5. lia. }
      { intros c Hcc.
        destruct (shape_child_facts _ _ _ Hsi Hcc) as (H1 & H2 & H3 & H4 & H5).
        split; [done |]. split; [lia |]. split; [lia |].
        rewrite Hpi1 in H5. lia. }
      rewrite (lift_bind_run _ _ tn1) by done.
      rewrite (lift_bind_run _ _ tn2) by done.
      apply IH; [lia |]. apply (inflating_step old tn tn2 _ Hinv); [done | done |].
      intros x. rewrite Hlv2, Hc.
      pose proof (leaf_of_two iyesde x Hsi Hti Hone) as Htwo. split.
      * intros [H|[H|H]]; [left; exists iyesde | left; exists iyesde | by right];
          (split; [done |]); apply Htwo; tauto.
      * intros [(c & [= <-] & Hx)|H]; [| tauto].
        apply Htwo in Hx. tauto.
    + (* with more, which are dealt out to two new nodes *)
      assert (Hm : u32 (Z.shiftl 1 (kv_pos tn)) = 2 ^ (kv_pos old - 1)).
      { rewrite Hpt, Z.shiftl_1_l. apply u32_small.
        split; [lia |]. apply Z.pow_lt_mono_r; unfold KEYLENGTH in *; lia. }
      rewrite Hm.
      assert (Hlor : Z.lor (kv_key iyesde) (2 ^ (kv_pos old - 1))
                     = kv_key iyesde + 2 ^ (kv_pos old - 1)).
      { apply (lor_aligned _ _ (kv_pos old)); [lia | by rewrite <- Hpf | lia]. }
      rewrite Hlor.
      assert (Htop : kv_key iyesde + 2 ^ kv_pos old <= 2 ^ 32).
      { apply aligned_next; [lia | by rewrite <- Hpf | | lia].
        apply pow2_mod_pow2. unfold KEYLENGTH in *. lia. }
      destruct (tyesde_new_shape (kv_key iyesde + 2 ^ (kv_pos old - 1))
                  (kv_pos iyesde) (kv_bits iyesde - 1) w)
        as (r1 & w1 & Hnew1 & Hkv1 & Hr1); [lia | lia | lia | lia |].
      rewrite (bind_eq _ _ _ _ _ Hnew1).
      destruct r1 as [yesde1|]; [| by exists None, w1].
      destruct (tyesde_new_shape (kv_key iyesde)
                  (kv_pos iyesde) (kv_bits iyesde - 1) w1)
        as (r0 & w0 & Hnew0 & Hkv0 & Hr0); [lia | lia | lia | lia |].
      rewrite (bind_eq _ _ _ _ _ Hnew0).
      destruct r0 as [yesde0|];
        [| exists None, w0; split; [done |]; split; [congruence | done]].
      destruct (Hr1 _ eq_refl) as (Hs1 & Hk1 & Hp1 & Hbb1 & Hsl1 & He1).
      destruct (Hr0 _ eq_refl) as (Hs0 & Hk0' & Hp0 & Hbb0 & Hsl0' & He0).
      replace (kv_pos iyesde + (kv_bits iyesde - 1)) with (kv_pos old - 1)
        in Hk1, Hk0' by lia.
      assert (Hmod0 : kv_key iyesde mod 2 ^ (kv_pos old - 1) = 0).
      { apply (mod_pow2_weaken _ (kv_pos old)); [lia | by rewrite <- Hpf]. }
      rewrite Hmod0, Z.sub_0_r in Hk0'.
      assert (Hmod1 : (kv_key iyesde + 2 ^ (kv_pos old - 1))
                      mod 2 ^ (kv_pos old - 1) = 0).
      { rewrite <- Z.add_mod_idemp_l, Hmod0 by lia. simpl. apply Z.mod_same. lia. }
      rewrite Hmod1, Z.sub_0_r in Hk1.
      set (half := 2 ^ (kv_bits iyesde - 1)).
      assert (Hhalf : half = 2 * 2 ^ (kv_bits iyesde - 2)).
      { unfold half. rewrite <- Z.pow_succ_r by lia. f_equal. lia. }
      pose proof (pow2_pos (kv_bits iyesde - 2) ltac:(lia)) as Hq.
      assert (Hlen : child_length iyesde = 2 * half).
      { unfold child_length. destruct (Z.eqb_spec (kv_bits iyesde) 0); [lia |].
        unfold half. rewrite <- Z.pow_succ_r by lia. f_equal. lia. }
      assert (Hhp : half * 2 ^ kv_pos iyesde = 2 ^ (kv_pos old - 1)).
      { unfold half. rewrite <- Z.pow_add_r by lia. f_equal. lia. }
      assert (Hnl0 : forall x, ~ leaf_of yesde0 x).
      { intros x Hx. apply leaf_of_tyesde in Hx as (j & c & Hcc & _).
        - by rewrite He0 in Hcc.
        - apply is_tyesde_not_leaf. unfold IS_TNODE. rewrite Hbb0.
          apply negb_true_iff, Z.eqb_neq. lia. }
      assert (Hnl1 : forall x, ~ leaf_of yesde1 x).
      { intros x Hx. apply leaf_of_tyesde in Hx as (j & c & Hcc & _).
        - by rewrite He1 in Hcc.
        - apply is_tyesde_not_leaf. unfold IS_TNODE. rewrite Hbb1.
          apply negb_true_iff, Z.eqb_neq. lia. }
      destruct (inflate_split_spec iyesde (kv_slen iyesde) Hsi Hti ltac:(lia)
                  ltac:(lia) (Z.to_nat (2 ^ (kv_bits iyesde - 2))) yesde0 yesde1)
        as (n0 & n1 & Hsplit & Hbn0 & Hbn1 & Hfn0 & Hfn1).
      { fold half. lia. }
      { split; [done |]. split.
        { unfold IS_TNODE. rewrite Hbb0. apply negb_true_iff, Z.eqb_neq. lia. }
        split; [done |]. split; [done |]. split; [done |]. lia. }
      { split; [done |]. split.
        { unfold IS_TNODE. rewrite Hbb1. apply negb_true_iff, Z.eqb_neq. lia. }
        fold half. rewrite Hhp.
        split; [done |]. split; [done |]. split; [done |]. lia. }
      { split; [by intros |]. intros x. split; [by intros ?%Hnl0 |].
        fold half. intros (jj & c & Hjj & _). lia. }
      { split; [by intros |]. intros x. split; [by intros ?%Hnl1 |].
        fold half. intros (jj & c & Hjj & _). lia. }
      fold half in Hsplit, Hfn0, Hfn1, Hbn1.
      rewrite Hhp in Hbn1.
      replace (Z.to_nat (child_length iyesde / 2))
        with (2 * Z.to_nat (2 ^ (kv_bits iyesde - 2)))%nat
        by (rewrite Hlen, Z.mul_comm, Z.div_mul by lia; lia).
      replace (child_length iyesde)
        with (2 * Z.of_nat (Z.to_nat (2 ^ (kv_bits iyesde - 2))) + half) by lia.
      rewrite (lift_bind_run _ _ (n0, n1)) by done.
      destruct Hbn0 as (Hsn0 & Htn0 & Hkn0 & Hpn0 & Hbbn0 & Hsln0).
      destruct Hbn1 as (Hsn1 & Htn1 & Hkn1 & Hpn1 & Hbbn1 & Hsln1).
      destruct (built_put2 tn _ _ _ _ (Z.of_nat i) (Some n1) (Some n0) Hbt)
        as (tn1 & tn2 & Hput1 & Hput2 & Hbt2 & _ & _ & Hnone2 & Hlv2);
        [lia | lia | by intros jj Hjj; apply Hnone; lia | | |].
      { intros c [= <-]. split; [done |]. split; [lia |]. split; [lia |].
        rewrite Hkn1. lia. }
      { intros c [= <-]. split; [done |]. split; [lia |]. split; [lia |].
        rewrite Hkn0. lia. }
      rewrite (lift_bind_run _ _ tn1) by done.
      rewrite (lift_bind_run _ _ tn2) by done.
      destruct (IH tn2 w0) as (r & w' & Hrun & Hkv' & Hr); [lia | |].
      { apply (inflating_step old tn tn2 _ Hinv); [done | done |].
        intros x. rewrite Hlv2, Hc.
        destruct Hfn0 as (_ & Hl0), Hfn1 as (_ & Hl1).
        pose proof (leaf_of_tyesde iyesde x (is_tyesde_not_leaf _ Hti)) as Hli.
        split.
        - intros [(c & [= <-] & Hx)|[(c & [= <-] & Hx)|H]]; [| | by right].
          + apply Hl1 in Hx as (jj & c & Hjj & Hcc & Hx).
            left. exists iyesde. split; [done |]. apply Hli.
            by exists (jj + half), c.
          + apply Hl0 in Hx as (jj & c & Hjj & Hcc & Hx).
            left. exists iyesde. split; [done |]. apply Hli.
            by exists (jj + 0), c.
        - intros [(c' & [= <-] & Hx)|H]; [| tauto].
          apply Hli in Hx as (j & c & Hcc & Hx).
          pose proof (shape_child_index _ _ _ (shape_self _ Hsi) Hcc) as Hj.
          replace (2 ^ kv_bits iyesde) with (2 * half) in Hj
            by (unfold half; rewrite <- Z.pow_succ_r by lia; f_equal; lia).
          destruct (Z.lt_ge_cases j half).
          + right. left. exists n0. split; [done |]. apply Hl0.
            exists j, c. rewrite Z.add_0_r. split; [lia |]. done.
          + left. exists n1. split; [done |]. apply Hl1.
            exists (j - half), c. split; [lia |].
            by replace (j - half + half) with j by lia. }
      exists r, w'. split; [done |]. split; [congruence | done].
  - (* a child that is not full stays a child *)
    pose proof (not_full_below old iyesde Hsi Hpi Hp Hfull) as Hbelow.
    rewrite get_index_cindex. unfold get_cindex. rewrite Hkt, Hpt.
    set (j := Z.shiftr (Z.lxor (kv_key iyesde) (kv_key old)) (kv_pos old - 1)).
    assert (Hj : (j = 2 * Z.of_nat i \/ j = 2 * Z.of_nat i + 1) /\
                 kv_key old + j * 2 ^ (kv_pos old - 1) <= kv_key iyesde
                 < kv_key old + (j + 1) * 2 ^ (kv_pos old - 1)).
    { destruct (Z.lt_ge_cases (kv_key iyesde)
                  (kv_key old + (2 * Z.of_nat i + 1) * 2 ^ (kv_pos old - 1))).
      - assert (j = 2 * Z.of_nat i) as ->; [| split; [by left | lia]].
        apply (slot_of_range _ _ (kv_bits old + 1)); try lia.
        by replace (kv_pos old - 1 + (kv_bits old + 1))
          with (kv_pos old + kv_bits old) by lia.
      - assert (j = 2 * Z.of_nat i + 1) as ->; [| split; [by right | lia]].
        apply (slot_of_range _ _ (kv_bits old + 1)); try lia.
        by replace (kv_pos old - 1 + (kv_bits old + 1))
          with (kv_pos old + kv_bits old) by lia. }
    clearbody j. destruct Hj as (Hj & Hjr).
    destruct (built_put tn _ _ _ _ j (Some iyesde) Hbt)
      as (tn' & Hput & Hbt' & _ & Hother & Hlv');
      [lia | apply Hnone; lia | by intros c [= <-] |].
    rewrite (lift_bind_run _ _ tn') by done.
    apply IH; [lia |]. apply (inflating_step old tn tn' _ Hinv); [done | |].
    + intros jj Hjj. rewrite Hother by lia. apply Hnone. lia.
    + intros x. by rewrite Hlv', Hc.
Qed.

(** ** The loop of [halve] *)

Definition halving (old tn : key_vector) (i : Z) : Prop :=
  built tn (kv_key old) (kv_pos old + 1) (kv_bits old - 1)
        (Z.max (kv_slen old) (kv_pos old + 1)) /\
  (forall jj, jj < i -> get_child tn jj = None) /\
  (forall x, leaf_of tn x <->
             exists i' c, 2 * i <= i' /\ get_child old i' = Some c /\
                          leaf_of c x).

Lemma halving_step old tn tn' i :
  halving old tn (i + 1) ->
  built tn' (kv_key old) (kv_pos old + 1) (kv_bits old - 1)
        (Z.max (kv_slen old) (kv_pos old + 1)) ->
  (forall jj, jj < i -> get_child tn' jj = None) ->
  (forall x, leaf_of tn' x <->
     (exists c, get_child old (2 * i + 1) = Some c /\ leaf_of c x) \/
     (exists c, get_child old (2 * i) = Some c /\ leaf_of c x) \/
     leaf_of tn x) ->
  halving old tn' i.
Proof.
  intros (_ & _ & Hlv) Hbt Hnone Hlv'.
  split; [done |]. split; [done |].
  intros x. rewrite Hlv', Hlv. split.
  - intros [(c & Hc & Hx)|[(c & Hc & Hx)|(i' & c & Hi' & Hc & Hx)]].
    + exists (2 * i + 1), c. split; [lia |]. done.
    + exists (2 * i), c. split; [lia |]. done.
    + exists i', c. split; [lia |]. done.
  - intros (i' & c & Hi' & Hc & Hx).
    destruct (decide (i' = 2 * i)) as [->|Hne0]; [right; left; by exists c |].
    destruct (decide (i' = 2 * i + 1)) as [->|Hne1]; [left; by exists c |].
    right. right. exists i', c. split; [lia |]. done.
Qed.

Lemma floor_aligned a c d :
  0 < d -> a mod d = 0 -> a <= c < a + d -> c - c mod d = a.
Proof.
  intros Hd Ha Hc.
  apply Z.mod_divide in Ha; [| lia]. destruct Ha as [x ->].
  replace c with ((c - x * d) + x * d) at 2 by lia.
  rewrite Z.mod_add, Z.mod_small by lia. lia.
Qed.

Lemma halve_loop_spec old :
  shape old -> IS_TNODE old = true -> 2 <= kv_bits old ->
  forall (i : nat) tn w,
    2 * Z.of_nat i <= 2 ^ kv_bits old -> halving old tn (Z.of_nat i) ->
    exists r w',
      halve_loop i old tn w = Some (r, w') /\ kv w' = kv w /\
      forall tn', r = Some tn' -> halving old tn' 0.
Proof.
  intros Hs Ht Hb.
  destruct (shape_bounds _ (shape_self _ Hs))
    as (Hk0 & Hp0 & _ & Hpb & Hsl0 & Hal).
  pose proof (shape_pos_slen _ (shape_self _ Hs) Ht) as Hps.
  pose proof (pow2_pos (kv_pos old) Hp0) as Hpp.
  assert (Hp2 : 2 ^ (kv_pos old + 1) = 2 * 2 ^ kv_pos old).
  { rewrite Z.pow_add_r by lia. lia. }
  assert (Hb2 : 2 ^ kv_bits old = 2 * 2 ^ (kv_bits old - 1)).
  { rewrite <- Z.pow_succ_r by lia. f_equal. lia. }
  assert (Halp : kv_key old mod 2 ^ (kv_pos old + 1) = 0).
  { apply (mod_pow2_weaken _ (kv_pos old + kv_bits old)); [lia | done]. }
  induction i as [|i IH]; intros tn w Hi Hinv.
  { exists (Some tn), w. split; [done |]. split; [done |]. by intros tn' [= <-]. }
  rewrite Nat2Z.inj_succ in Hi, Hinv. unfold Z.succ in Hi, Hinv.
  pose proof Hinv as (Hbt & Hnone & Hlv).
  cbn [halve_loop].
  set (i1 := 2 * Z.of_nat i + 1). set (i0 := 2 * Z.of_nat i).
  assert (Hdiv : i0 / 2 = Z.of_nat i).
  { unfold i0. rewrite Z.mul_comm. apply Z.div_mul. lia. }
  rewrite Hdiv.
  assert (Hfit : forall j c, j = i0 \/ j = i1 -> get_child old j = Some c ->
            shape c /\ kv_pos c + kv_bits c <= kv_pos old /\
            kv_slen c <= kv_slen old /\
            kv_key old + j * 2 ^ kv_pos old <= kv_key c
            < kv_key old + (j + 1) * 2 ^ kv_pos old).
  { intros j c Hj Hc.
    destruct (shape_child_facts _ _ _ Hs Hc) as (H1 & H2 & H3 & H4 & H5).
    split; [done |]. split; [done |]. by split. }
  assert (Hone : forall n,
            (forall c, n = Some c -> exists j, (j = i0 \/ j = i1) /\
                                     get_child old j = Some c) ->
            (forall x, (exists c, n = Some c /\ leaf_of c x) <->
               (exists c, get_child old i1 = Some c /\ leaf_of c x) \/
               (exists c, get_child old i0 = Some c /\ leaf_of c x)) ->
            exists r w',
              (tn' <- lift (put_child tn (Z.of_nat i) n) ;;
               halve_loop i old tn') w = Some (r, w') /\ kv w' = kv w /\
              forall tn', r = Some tn' -> halving old tn' 0).
  { intros n Hn Hlvn.
    destruct (built_put tn _ _ _ _ (Z.of_nat i) n Hbt)
      as (tn' & Hput & Hbt' & _ & Hother & Hlv');
      [lia | apply Hnone; lia | |].
    { intros c Hc. destruct (Hn c Hc) as (j & Hj & Hcj).
      destruct (Hfit j c Hj Hcj) as (H1 & H2 & H3 & H4).
      split; [done |]. split; [lia |]. split; [lia |].
      unfold i0, i1 in Hj. destruct Hj as [-> | ->]; lia. }
    rewrite (lift_bind_run _ _ tn') by done.
    apply IH; [lia |]. apply (halving_step old tn tn' _ Hinv); [done | |].
    - intros jj Hjj. rewrite Hother by lia. apply Hnone. lia.
    - intros x. rewrite Hlv'. fold i1. fold i0. rewrite Hlvn. tauto. }
  destruct (get_child old i1) as [n1|] eqn:Hc1;
    destruct (get_child old i0) as [n0|] eqn:Hc0.
  - (* both children: a new node with one bit takes them *)
    destruct (Hfit i1 n1 (or_intror eq_refl) Hc1) as (Hs1 & Hpb1 & Hsl1 & Hr1).
    destruct (Hfit i0 n0 (or_introl eq_refl) Hc0) as (Hs0 & Hpb0 & Hsl0' & Hr0).
    destruct (shape_bounds _ (shape_self _ Hs0)) as (Hkn0 & _).
    destruct (tyesde_new_shape (kv_key n0) (kv_pos old) 1 w)
      as (r & w1 & Hnew & Hkv1 & Hr); [lia | lia | lia | lia |].
    rewrite (bind_eq _ _ _ _ _ Hnew).
    destruct r as [iyesde|]; [| by exists None, w1].
    destruct (Hr _ eq_refl) as (Hsi & Hki & Hpi & Hbi & Hsli & Hei).
    assert (Hki' : kv_key iyesde = kv_key old + Z.of_nat i * 2 ^ (kv_pos old + 1)).
    { rewrite Hki. apply floor_aligned; [lia | | unfold i0 in Hr0; lia].
      rewrite <- Z.add_mod_idemp_l, Halp by lia. simpl. apply Z.mod_mul. lia. }
    assert (Hti : IS_TNODE iyesde = true).
    { unfold IS_TNODE. by rewrite Hbi. }
    destruct (built_put2 iyesde (kv_key iyesde) (kv_pos old) 1 (kv_slen old)
                0 (Some n1) (Some n0))
      as (a1 & a2 & Hput1 & Hput2 & Hba & Hg1 & Hg0 & _ & Hlva);
      [| lia | done | by intros | | |].
    { split; [done |]. split; [done |]. split; [done |]. split; [done |].
      split; [done |]. lia. }
    { intros c [= <-]. split; [done |]. split; [done |]. split; [done |].
      unfold i1 in Hr1. lia. }
    { intros c [= <-]. split; [done |]. split; [done |]. split; [done |].
      unfold i0 in Hr0. lia. }
    change (2 * 0 + 1) with 1 in Hput1. change (2 * 0) with 0 in Hput2.
    rewrite (lift_bind_run _ _ a1) by done.
    rewrite (lift_bind_run _ _ a2) by done.
    destruct Hba as (Hsa & Hta & Hka & Hpa & Hba & Hsla).
    destruct (built_put tn _ _ _ _ (Z.of_nat i) (Some a2) Hbt)
      as (tn' & Hput & Hbt' & _ & Hother & Hlv');
      [lia | apply Hnone; lia | |].
    { intros c [= <-]. split; [done |]. split; [lia |]. split; [lia |]. lia. }
    rewrite (lift_bind_run _ _ tn') by done.
    destruct (IH tn' w1) as (r' & w' & Hrun & Hkv' & Hr'); [lia | |].
    { apply (halving_step old tn tn' _ Hinv); [done | |].
      - intros jj Hjj. rewrite Hother by lia. apply Hnone. lia.
      - intros x. rewrite Hlv'. fold i1. fold i0. rewrite Hc1, Hc0. split.
        + intros [(c & [= <-] & Hx)|H]; [| tauto].
          apply Hlva in Hx as [(c & [= <-] & Hx)|[(c & [= <-] & Hx)|Hx]].
          * left. by exists n1.
          * right. left. by exists n0.
          * apply leaf_of_tyesde in Hx as (j & c & Hcc & _);
              [| by apply is_tyesde_not_leaf].
            by rewrite Hei in Hcc.
        + intros [(c & [= <-] & Hx)|[(c & [= <-] & Hx)|H]]; [| | tauto].
          * left. exists a2. split; [done |]. apply Hlva. left. by exists n1.
          * left. exists a2. split; [done |]. apply Hlva. right. left.
            by exists n0. }
    exists r', w'. split; [done |]. split; [congruence | done].
  - (* only the upper child *)
    cbn [is_Some]. rewrite bool_decide_true by eauto.
    apply Hone.
    + intros c [= <-]. exists i1. split; [by right | done].
    + intros x. split; [tauto |].
      intros [H|(c & [=] & _)]; done.
  - (* only the lower child *)
    rewrite bool_decide_false by (by intros [? ?]).
    apply Hone.
    + intros c [= <-]. exists i0. split; [by left | done].
    + intros x. split; [tauto |].
      intros [(c & [=] & _)|H]; done.
  - (* no child *)
    rewrite bool_decide_false by (by intros [? ?]).
    apply Hone.
    + by intros c [=].
    + intros x. split; [by intros (c & [=] & _) |].
      intros [(c & [=] & _)|(c & [=] & _)].
Qed.


(** * Resizing keeps the table and its routes *)

(** What is known of the node behind a pointer and of its parent. *)
Lemma slot_facts t c tp x :
  shape_trie t -> get_yesde t (c :: tp) = Some x ->
  exists tpn,
    get_yesde t tp = Some tpn /\ get_child tpn c = Some x /\ shape x /\
    (tp = [] \/ IS_TNODE tpn = true) /\
    c = (if IS_TRIE tpn then 0 else get_index (kv_key x) tpn) /\
    (tp <> [] ->
       0 <= c < 2 ^ kv_bits tpn /\
       kv_pos x + kv_bits x <= kv_pos tpn /\ kv_slen x <= kv_slen tpn /\
       kv_pos tpn <= kv_slen tpn /\
       Z.shiftr (Z.lxor (kv_key x) (kv_key tpn)) (kv_pos tpn) = c /\
       kv_key tpn + c * 2 ^ kv_pos tpn <= kv_key x
       < kv_key tpn + (c + 1) * 2 ^ kv_pos tpn).
Proof.
  intros Ht Hx. pose proof Hx as Hx'. rewrite get_yesde_cons in Hx'.
  destruct (get_yesde t tp) as [tpn|] eqn:Htp; [| done].
  cbn [mbind option_bind] in Hx'.
  assert (Hsx : shape x) by by apply (shape_trie_get t (c :: tp) x).
  assert (Hint : tp = [] \/ IS_TNODE tpn = true).
  { destruct (decide (tp = [])) as [|Hne]; [by left | right].
    pose proof (shape_trie_get _ _ _ Ht Htp Hne) as Hs.
    destruct (IS_TNODE tpn) eqn:Hl; [done |].
    destruct (shape_is_leaf _ (shape_self _ Hs) Hl) as (s & l & Heq).
    rewrite Heq in Hx'. by rewrite get_child_leaf in Hx'. }
  pose proof (shape_is_trie _ _ _ Ht Htp Hint) as Htrie.
  exists tpn. split; [done |]. split; [done |]. split; [done |].
  split; [done |].
  assert (Hin : tp <> [] ->
       0 <= c < 2 ^ kv_bits tpn /\
       kv_pos x + kv_bits x <= kv_pos tpn /\ kv_slen x <= kv_slen tpn /\
       kv_pos tpn <= kv_slen tpn /\
       Z.shiftr (Z.lxor (kv_key x) (kv_key tpn)) (kv_pos tpn) = c /\
       kv_key tpn + c * 2 ^ kv_pos tpn <= kv_key x
       < kv_key tpn + (c + 1) * 2 ^ kv_pos tpn).
  { intros Hne. destruct Hint as [|Hint]; [done |].
    pose proof (shape_trie_get _ _ _ Ht Htp Hne) as Hs.
    destruct (shape_child_facts _ _ _ Hs Hx') as (_ & H1 & H2 & H3 & H4).
    pose proof (shape_pos_slen _ (shape_self _ Hs) Hint).
    destruct (shape_self _ Hs) as (_ & _ & _ & Hch).
    pose proof (Hch c x Hx') as (_ & H5 & _)%child_ok_spec.
    split; [done |]. split; [done |]. split; [done |]. split; [done |].
    by split. }
  split; [| done].
  destruct (IS_TRIE tpn) eqn:Hroot.
  - pose proof (proj1 Htrie eq_refl) as ->. simpl in Htp.
    injection Htp as <-. destruct Ht as [Hr _].
    by apply (is_root_child t c x).
  - assert (Hne : tp <> []).
    { intros ->. by pose proof (proj2 Htrie eq_refl). }
    destruct (Hin Hne) as (_ & _ & _ & _ & H5 & _).
    by rewrite get_index_cindex.
Qed.

(** The table after a node below [tp] was rebuilt: it has its shape and
    the same leaves, and the nodes from [tp] up are in place. *)
Definition rebuilt (w w' : world) (tp : ptr) : Prop :=
  shape_trie (kv w') /\
  (forall x, leaf_of (kv w') x <-> leaf_of (kv w) x) /\
  (forall q p m, tp = q ++ p -> get_yesde (kv w) p = Some m ->
     exists m', get_yesde (kv w') p = Some m' /\ same_frame m m').

Lemma rebuilt_refl w tp : shape_trie (kv w) -> rebuilt w w tp.
Proof.
  intros Ht. split; [done |]. split; [done |].
  intros q p m _ Hm. exists m. split; [done |]. apply same_frame_refl.
Qed.

Lemma rebuilt_same w w' tp :
  shape_trie (kv w) -> kv w' = kv w -> rebuilt w w' tp.
Proof.
  intros Ht Hkv. unfold rebuilt. rewrite Hkv. by apply rebuilt_refl.
Qed.

Lemma rebuilt_trans w1 w2 w3 tp :
  rebuilt w1 w2 tp -> rebuilt w2 w3 tp -> rebuilt w1 w3 tp.
Proof.
  intros (_ & Hl1 & Hf1) (Ht & Hl2 & Hf2).
  split; [done |]. split.
  - intros x. by rewrite Hl2.
  - intros q p m Heq Hm.
    destruct (Hf1 q p m Heq Hm) as (m2 & Hm2 & Hfr2).
    destruct (Hf2 q p m2 Heq Hm2) as (m3 & Hm3 & Hfr3).
    exists m3. split; [done |]. by apply (same_frame_trans m m2 m3).
Qed.

Lemma rebuilt_up w w' c tp : rebuilt w w' (c :: tp) -> rebuilt w w' tp.
Proof.
  intros (Ht & Hl & Hf). split; [done |]. split; [done |].
  intros q p m -> Hm. by apply (Hf (c :: q) p m).
Qed.

Lemma rebuilt_here w w' tp m :
  rebuilt w w' tp -> get_yesde (kv w) tp = Some m ->
  exists m', get_yesde (kv w') tp = Some m' /\ same_frame m m'.
Proof. intros (_ & _ & Hf) Hm. by apply (Hf [] tp m). Qed.

(** What [resize] is to do for the nodes with [pos + bits] below a
    bound. *)
Definition resize_ok (R : ptr -> M unit) (bound : Z) : Prop :=
  forall w c tp tnn,
    shape_trie (kv w) -> get_yesde (kv w) (c :: tp) = Some tnn ->
    IS_TNODE tnn = true -> kv_pos tnn + kv_bits tnn < bound ->
    exists w', R (c :: tp) w = Some (tt, w') /\ rebuilt w w' tp.

Lemma child_length_is_tyesde n :
  IS_TNODE n = true -> child_length n = 2 ^ kv_bits n.
Proof.
  unfold IS_TNODE, child_length. by destruct (kv_bits n =? 0).
Qed.

(** ** The child that [collapse] keeps *)

Lemma shape_countable tn : shape tn -> IS_TNODE tn = true -> countable tn.
Proof.
  intros Hs Ht. pose proof (shape_self _ Hs) as Hn.
  destruct (shape_bounds _ Hn) as (_ & Hp & Hb & Hpb & _).
  pose proof (shape_length _ Hn Ht) as Hlen.
  destruct Hn as (_ & _ & Hcnt & _).
  split; [| split; [done | split; [done | split; [done | split]]]].
  - unfold IS_TNODE in Ht. apply negb_true_iff, Z.eqb_neq in Ht. lia.
  - apply Forall_lookup. intros i o Ho. destruct o as [ch|]; [| done].
    assert (Hch : get_child tn (Z.of_nat i) = Some ch).
    { by rewrite get_child_of_nat, Ho. }
    pose proof (shape_child _ _ _ Hs Hch) as Hsc.
    destruct (shape_bounds _ (shape_self _ Hsc)) as (_ & ? & ? & _).
    by split.
  - by apply Hcnt.
Qed.

Lemma collapse_scan_found i old c :
  collapse_scan i old = Some c ->
  exists j, 0 <= j < Z.of_nat i /\ get_child old j = Some c.
Proof.
  induction i as [|i IH]; [done |]. cbn [collapse_scan].
  destruct (get_child old (Z.of_nat i)) as [n|] eqn:Hn.
  - intros [= <-]. exists (Z.of_nat i). split; [lia | done].
  - intros H. destruct (IH H) as (j & Hj & Hc). exists j. split; [lia | done].
Qed.

Lemma collapse_scan_none i old :
  collapse_scan i old = None ->
  forall j, 0 <= j < Z.of_nat i -> get_child old j = None.
Proof.
  induction i as [|i IH]; [intros; lia |]. cbn [collapse_scan].
  destruct (get_child old (Z.of_nat i)) as [n|] eqn:Hn; [done |].
  intros H j Hj. destruct (decide (j = Z.of_nat i)) as [->|Hne]; [done |].
  apply (IH H). lia.
Qed.

Lemma two_children tn j a j' b :
  get_child tn j = Some a -> get_child tn j' = Some b -> j <> j' ->
  2 <= child_count tn.
Proof.
  intros [Hj Ha]%get_child_Some [Hj' Hb]%get_child_Some Hne.
  unfold child_count.
  pose proof (count_slots_insert (fun o => negb (slot_null o))
                (kv_tyesde tn) (Z.to_nat j) (Some a) None Ha) as Hins.
  cbn [slot_null negb] in Hins.
  assert (Hb' : <[Z.to_nat j := None]> (kv_tyesde tn) !! Z.to_nat j'
                = Some (Some b)).
  { rewrite list_lookup_insert_ne by lia. done. }
  pose proof (count_slots_lookup (fun o => negb (slot_null o)) _ _ _ Hb'
                eq_refl).
  lia.
Qed.

Lemma collapse_only old :
  shape old -> IS_TNODE old = true -> should_collapse old = true ->
  (forall x, leaf_of old x <->
     exists c, collapse_scan (Z.to_nat (child_length old)) old = Some c /\
               leaf_of c x) /\
  (forall c, collapse_scan (Z.to_nat (child_length old)) old = Some c ->
     exists j, get_child old j = Some c).
Proof.
  intros Hs Ht Hsc.
  apply (should_collapse_spec old (shape_countable old Hs Ht)) in Hsc.
  rewrite child_length_is_tyesde by done.
  pose proof (pow2_pos (kv_bits old)) as Hpp.
  split.
  - intros x. rewrite (leaf_of_tyesde old x (is_tyesde_not_leaf _ Ht)). split.
    + intros (j & c & Hc & Hx). exists c. split; [| done].
      pose proof (shape_child_index _ _ _ (shape_self _ Hs) Hc) as Hj.
      destruct (collapse_scan (Z.to_nat (2 ^ kv_bits old)) old) as [c'|] eqn:Hscan.
      * destruct (collapse_scan_found _ _ _ Hscan) as (j' & Hj' & Hc').
        destruct (decide (j = j')) as [->|Hne]; [congruence |].
        pose proof (two_children old j c j' c' Hc Hc' Hne). lia.
      * rewrite (collapse_scan_none _ _ Hscan j) in Hc; [done | lia].
    + intros (c & Hscan & Hx).
      destruct (collapse_scan_found _ _ _ Hscan) as (j & _ & Hc).
      by exists j, c.
  - intros c Hscan.
    destruct (collapse_scan_found _ _ _ Hscan) as (j & _ & Hc). by exists j.
Qed.

Section ResizeSpec.
Variable R : ptr -> M unit.
Variable bound : Z.
Hypothesis HR : resize_ok R bound.

(** The last loop of [replace]: the full children of the new node are
    resized, and the new node stays where it is. *)
Lemma replace_loop_spec (i : nat) w0 w c tp new0 :
  get_yesde (kv w0) (c :: tp) = Some new0 -> IS_TNODE new0 = true ->
  kv_pos new0 < bound -> rebuilt w0 w (c :: tp) ->
  exists w', replace_loop R i (c :: tp) w = Some (tt, w') /\
             rebuilt w0 w' (c :: tp).
Proof.
  intros Hnew Ht Hb. revert w.
  induction i as [|i IH]; intros w Hre; [by exists w |].
  cbn [replace_loop].
  destruct (rebuilt_here _ _ _ _ Hre Hnew) as (m & Hm & Hfr).
  bind_step (deref_eq _ _ _ Hm).
  destruct (tyesde_full m (get_child m (Z.of_nat i))) eqn:Hfull.
  - destruct (get_child m (Z.of_nat i)) as [ch|] eqn:Hch; [| done].
    apply tyesde_full_spec in Hfull as (Hpf & Htc).
    destruct Hfr as [(_ & Hp & _) _].
    destruct (HR w (Z.of_nat i) (c :: tp) ch) as (w1 & Hrun & Hre1);
      [by destruct Hre | by rewrite get_yesde_cons, Hm | done | lia |].
    bind_step Hrun. apply IH. by apply (rebuilt_trans w0 w w1).
  - bind_step (eq_refl : ret tt w = Some (tt, w)). by apply IH.
Qed.

(** [replace] puts a node that holds the leaves of the old one in its
    place. *)
Lemma replace_spec w c tp old new :
  shape_trie (kv w) -> get_yesde (kv w) (c :: tp) = Some old ->
  shape new -> IS_TNODE new = true -> kv_key new = kv_key old ->
  kv_pos new + kv_bits new = kv_pos old + kv_bits old ->
  kv_slen new <= Z.max (kv_slen old) (kv_pos old + kv_bits old) ->
  kv_pos new < bound ->
  (forall x, leaf_of new x <-> leaf_of old x) ->
  exists w', replace R (c :: tp) new w = Some (tt, w') /\
             rebuilt w w' tp /\
             exists m, get_yesde (kv w') (c :: tp) = Some m /\
                       same_frame new m.
Proof.
  intros Ht Hold Hs Htn Hk Hmu Hsl Hb Hlv.
  destruct (slot_facts _ _ _ _ Ht Hold)
    as (tpn & Htp & Hc & Hso & Hint & Hidx & Hin).
  unfold replace. bind_step (deref_eq _ _ _ Htp).
  rewrite Hk. rewrite <- Hidx.
  destruct (put_child_root_spec w tp tpn (kv_key old) (Some new) c Ht Htp Hint)
    as (w1 & tpn' & Hput & _ & Ht1 & Htp1 & Hfr & Hget & _ & Hanc & Hl1 & Hl0).
  { done. }
  { intros Hne. by destruct (Hin Hne). }
  { intros n [= <-]. split; [done |]. intros Hne.
    destruct (Hin Hne) as (_ & H1 & H2 & H3 & H4 & _).
    split; [lia |]. split; [by rewrite Hk |]. lia. }
  bind_step Hput.
  assert (Hre1 : rebuilt w w1 tp).
  { split; [done |]. split.
    - intros x. rewrite Hl1, Hl0, Hc. split.
      + intros [(n & [= <-] & Hx)|Ho]; [| by right].
        left. exists old. split; [done |]. by apply Hlv.
      + intros [(n & [= <-] & Hx)|Ho]; [| by right].
        left. exists new. split; [done |]. by apply Hlv.
    - intros q p m Heq Hm. destruct (decide (q = [])) as [->|Hq].
      + simpl in Heq. subst p. exists tpn'. split; [done |]. congruence.
      + destruct (Hanc q p m Hq Heq Hm) as (m' & Hm' & Hh).
        exists m'. split; [done |]. by apply same_header_frame. }
  assert (Hnew1 : get_yesde (kv w1) (c :: tp) = Some new).
  { by rewrite get_yesde_cons, Htp1. }
  destruct (replace_loop_spec (Z.to_nat (child_length new)) w1 w1 c tp new
              Hnew1 Htn Hb (rebuilt_refl _ _ Ht1)) as (w' & Hrun & Hre).
  exists w'. split; [done |]. split.
  - apply (rebuilt_trans w w1 w'); [done |]. by apply (rebuilt_up _ _ c).
  - by apply (rebuilt_here w1 w' (c :: tp) new).
Qed.

Lemma rebuilt_from w0 w w' tp : kv w = kv w0 -> rebuilt w w' tp -> rebuilt w0 w' tp.
Proof. unfold rebuilt. by intros ->. Qed.

Lemma no_leaf_of_empty tn x :
  IS_TNODE tn = true -> (forall i, get_child tn i = None) -> ~ leaf_of tn x.
Proof.
  intros Ht He Hx.
  apply leaf_of_tyesde in Hx as (j & c & Hcc & _);
    [| by apply is_tyesde_not_leaf].
  by rewrite He in Hcc.
Qed.

Lemma leaf_of_children old x :
  shape old -> IS_TNODE old = true ->
  leaf_of old x <->
  exists i c, 0 <= i /\ get_child old i = Some c /\ leaf_of c x.
Proof.
  intros Hs Ht. rewrite (leaf_of_tyesde old x (is_tyesde_not_leaf _ Ht)).
  split.
  - intros (i & c & Hc & Hx). exists i, c. split; [| done].
    pose proof (shape_child_index _ _ _ (shape_self _ Hs) Hc). lia.
  - intros (i & c & _ & Hc & Hx). by exists i, c.
Qed.

(** [inflate] returns; the node it leaves behind the pointer is an
    internal one with the same [pos + bits]. *)
Lemma inflate_spec w c tp old :
  shape_trie (kv w) -> get_yesde (kv w) (c :: tp) = Some old ->
  IS_TNODE old = true -> 1 <= kv_pos old ->
  kv_pos old + kv_bits old <= bound ->
  exists ok w',
    inflate R (c :: tp) w = Some (ok, w') /\ rebuilt w w' tp /\
    exists m, get_yesde (kv w') (c :: tp) = Some m /\ IS_TNODE m = true /\
              kv_pos m + kv_bits m = kv_pos old + kv_bits old /\
              (ok = true -> kv_pos m = kv_pos old - 1) /\
              (ok = false -> kv w' = kv w).
Proof.
  intros Ht Hold Hto Hp Hb.
  assert (Hs : shape old) by by apply (shape_trie_get (kv w) (c :: tp) old).
  destruct (shape_bounds _ (shape_self _ Hs))
    as (Hk0 & _ & Hb0 & Hpb & Hsl0 & Hal).
  pose proof (shape_pos_slen _ (shape_self _ Hs) Hto) as Hps.
  assert (Hb1 : 1 <= kv_bits old).
  { unfold IS_TNODE in Hto. apply negb_true_iff, Z.eqb_neq in Hto. lia. }
  unfold inflate. bind_step (deref_eq _ _ _ Hold).
  destruct (tyesde_new_shape (kv_key old) (kv_pos old - 1) (kv_bits old + 1) w)
    as (r & w1 & Hnew & Hkv1 & Hr); [lia | lia | lia | done |].
  bind_step Hnew.
  destruct r as [tn0|].
  2: { exists false, w1. split; [done |]. split; [by apply rebuilt_same |].
       exists old. rewrite Hkv1. split; [done |]. split; [done |].
       split; [done |]. by split. }
  destruct (Hr _ eq_refl) as (Hs0 & Hk0' & Hp0 & Hbb0 & Hsl0' & He0).
  replace (kv_pos old - 1 + (kv_bits old + 1))
    with (kv_pos old + kv_bits old) in Hk0' by lia.
  rewrite Hal, Z.sub_0_r in Hk0'.
  assert (Ht0 : IS_TNODE tn0 = true).
  { unfold IS_TNODE. rewrite Hbb0. apply negb_true_iff, Z.eqb_neq. lia. }
  destruct (inflate_loop_spec old Hs Hto Hp (Z.to_nat (child_length old)) tn0 w1)
    as (r' & w2 & Hloop & Hkv2 & Hr').
  { rewrite child_length_is_tyesde by done. lia. }
  { split; [| split].
    - split; [done |]. split; [done |]. split; [done |]. split; [done |].
      split; [done |]. lia.
    - by intros.
    - intros x. split; [by intros ?%no_leaf_of_empty |].
      intros (i' & ch & Hi' & Hch & _).
      pose proof (shape_child_index _ _ _ (shape_self _ Hs) Hch).
      rewrite child_length_is_tyesde in Hi' by done. lia. }
  bind_step Hloop.
  destruct r' as [tn1|].
  2: { exists false, w2. split; [done |]. split.
       - apply rebuilt_same; [done | congruence].
       - exists old. rewrite Hkv2, Hkv1. split; [done |]. split; [done |].
         split; [done |]. by split. }
  destruct (Hr' _ eq_refl) as ((Hs1 & Ht1 & Hk1 & Hp1 & Hbb1 & Hsl1) & _ & Hlv1).
  assert (Hkv : kv w2 = kv w) by congruence.
  destruct (replace_spec w2 c tp old tn1) as (w' & Hrep & Hre & m & Hm & Hfr);
    try (done || lia || by rewrite Hkv).
  { intros x. rewrite Hlv1. symmetry. by apply leaf_of_children. }
  bind_step Hrep.
  exists true, w'. split; [done |]. split; [by apply (rebuilt_from w w2) |].
  exists m. split; [done |].
  split; [by rewrite (same_frame_tyesde _ _ Hfr) |].
  destruct Hfr as [(_ & Hpm & Hbm) _].
  split; [lia |]. split; [intros _; lia | done].
Qed.

(** [halve] likewise. *)
Lemma halve_spec w c tp old :
  shape_trie (kv w) -> get_yesde (kv w) (c :: tp) = Some old ->
  IS_TNODE old = true -> 2 <= kv_bits old ->
  kv_pos old + kv_bits old <= bound ->
  exists ok w',
    halve R (c :: tp) w = Some (ok, w') /\ rebuilt w w' tp /\
    exists m, get_yesde (kv w') (c :: tp) = Some m /\ IS_TNODE m = true /\
              kv_pos m + kv_bits m = kv_pos old + kv_bits old /\
              (ok = true -> kv_pos m = kv_pos old + 1) /\
              (ok = false -> kv w' = kv w).
Proof.
  intros Ht Hold Hto Hb2 Hb.
  assert (Hs : shape old) by by apply (shape_trie_get (kv w) (c :: tp) old).
  destruct (shape_bounds _ (shape_self _ Hs))
    as (Hk0 & Hp0 & Hb0 & Hpb & Hsl0 & Hal).
  pose proof (shape_pos_slen _ (shape_self _ Hs) Hto) as Hps.
  unfold halve. bind_step (deref_eq _ _ _ Hold).
  destruct (tyesde_new_shape (kv_key old) (kv_pos old + 1) (kv_bits old - 1) w)
    as (r & w1 & Hnew & Hkv1 & Hr); [lia | lia | lia | done |].
  bind_step Hnew.
  destruct r as [tn0|].
  2: { exists false, w1. split; [done |]. split; [by apply rebuilt_same |].
       exists old. rewrite Hkv1. split; [done |]. split; [done |].
       split; [done |]. by split. }
  destruct (Hr _ eq_refl) as (Hs0 & Hk0' & Hp0' & Hbb0 & Hsl0' & He0).
  replace (kv_pos old + 1 + (kv_bits old - 1))
    with (kv_pos old + kv_bits old) in Hk0' by lia.
  rewrite Hal, Z.sub_0_r in Hk0'.
  assert (Ht0 : IS_TNODE tn0 = true).
  { unfold IS_TNODE. rewrite Hbb0. apply negb_true_iff, Z.eqb_neq. lia. }
  assert (Hpow : 2 ^ kv_bits old = 2 * 2 ^ (kv_bits old - 1)).
  { rewrite <- Z.pow_succ_r by lia. f_equal. lia. }
  pose proof (pow2_pos (kv_bits old - 1) ltac:(lia)) as Hpp.
  assert (Hhalf : child_length old / 2 = 2 ^ (kv_bits old - 1)).
  { rewrite child_length_is_tyesde, Hpow, Z.mul_comm by done.
    apply Z.div_mul. lia. }
  destruct (halve_loop_spec old Hs Hto Hb2
              (Z.to_nat (child_length old / 2)) tn0 w1)
    as (r' & w2 & Hloop & Hkv2 & Hr').
  { rewrite Hhalf. lia. }
  { split; [| split].
    - split; [done |]. split; [done |]. split; [done |]. split; [done |].
      split; [done |]. lia.
    - by intros.
    - intros x. split; [by intros ?%no_leaf_of_empty |].
      intros (i' & ch & Hi' & Hch & _).
      pose proof (shape_child_index _ _ _ (shape_self _ Hs) Hch).
      rewrite Hhalf in Hi'. lia. }
  bind_step Hloop.
  destruct r' as [tn1|].
  2: { exists false, w2. split; [done |]. split.
       - apply rebuilt_same; [done | congruence].
       - exists old. rewrite Hkv2, Hkv1. split; [done |]. split; [done |].
         split; [done |]. by split. }
  destruct (Hr' _ eq_refl) as ((Hs1 & Ht1 & Hk1 & Hp1 & Hbb1 & Hsl1) & _ & Hlv1).
  assert (Hkv : kv w2 = kv w) by congruence.
  destruct (replace_spec w2 c tp old tn1) as (w' & Hrep & Hre & m & Hm & Hfr);
    try (done || lia || by rewrite Hkv).
  { intros x. rewrite Hlv1. symmetry.
    rewrite (leaf_of_children old x Hs Hto). split.
    - intros (i & ch & Hi & H). exists i, ch. split; [lia | done].
    - intros (i & ch & Hi & H). exists i, ch. split; [lia | done]. }
  bind_step Hrep.
  exists true, w'. split; [done |]. split; [by apply (rebuilt_from w w2) |].
  exists m. split; [done |].
  split; [by rewrite (same_frame_tyesde _ _ Hfr) |].
  destruct Hfr as [(_ & Hpm & Hbm) _].
  split; [lia |]. split; [intros _; lia | done].
Qed.

(** The loop of [resize] that inflates. *)
Lemma resize_inflate_spec (max_work : nat) w c tp tnn :
  shape_trie (kv w) -> get_yesde (kv w) (c :: tp) = Some tnn ->
  IS_TNODE tnn = true -> kv_pos tnn + kv_bits tnn <= bound ->
  exists n w',
    resize_inflate R max_work tp (c :: tp) w = Some (n, w') /\
    rebuilt w w' tp /\
    exists m, get_yesde (kv w') (c :: tp) = Some m /\ IS_TNODE m = true /\
              kv_pos m + kv_bits m = kv_pos tnn + kv_bits tnn.
Proof.
  revert w tnn. induction max_work as [|mw IH]; intros w tnn Ht Htn Hint Hb.
  - destruct (slot_facts _ _ _ _ Ht Htn) as (tpn & Htp & _).
    cbn [resize_inflate]. bind_step (deref_eq _ _ _ Htp).
    bind_step (deref_eq _ _ _ Htn).
    exists O, w. split; [done |]. split; [by apply rebuilt_refl |].
    by exists tnn.
  - destruct (slot_facts _ _ _ _ Ht Htn) as (tpn & Htp & _).
    cbn [resize_inflate]. bind_step (deref_eq _ _ _ Htp).
    bind_step (deref_eq _ _ _ Htn).
    destruct (should_inflate tpn tnn) eqn:Hsi.
    2: { exists (S mw), w. split; [done |]. split; [by apply rebuilt_refl |].
         by exists tnn. }
    assert (Hp : 1 <= kv_pos tnn).
    { unfold should_inflate in Hsi.
      apply andb_true_iff in Hsi as [Hsi _].
      apply andb_true_iff in Hsi as [_ Hsi].
      apply negb_true_iff, Z.eqb_neq in Hsi.
      pose proof (shape_trie_get _ _ _ Ht Htn ltac:(done)) as Hs.
      destruct (shape_bounds _ (shape_self _ Hs)) as (_ & ? & _). lia. }
    destruct (inflate_spec w c tp tnn Ht Htn Hint Hp Hb)
      as (ok & w1 & Hrun & Hre & m & Hm & Htm & Hmu & _).
    bind_step Hrun. destruct ok.
    + destruct (IH w1 m) as (n & w' & Hrun' & Hre' & m' & Hm' & Htm' & Hmu');
        [by destruct Hre | done | done | lia |].
      exists n, w'. split; [done |].
      split; [by apply (rebuilt_trans w w1 w') |].
      exists m'. split; [done |]. split; [done | lia].
    + exists (S mw), w1. split; [done |]. split; [done |]. by exists m.
Qed.

(** The loop of [resize] that halves. *)
Lemma resize_halve_spec (max_work : nat) w c tp tnn :
  shape_trie (kv w) -> get_yesde (kv w) (c :: tp) = Some tnn ->
  IS_TNODE tnn = true -> kv_pos tnn + kv_bits tnn <= bound ->
  exists n w',
    resize_halve R max_work tp (c :: tp) w = Some (n, w') /\
    rebuilt w w' tp /\
    exists m, get_yesde (kv w') (c :: tp) = Some m /\ IS_TNODE m = true /\
              kv_pos m + kv_bits m = kv_pos tnn + kv_bits tnn.
Proof.
  revert w tnn. induction max_work as [|mw IH]; intros w tnn Ht Htn Hint Hb.
  - destruct (slot_facts _ _ _ _ Ht Htn) as (tpn & Htp & _).
    cbn [resize_halve]. bind_step (deref_eq _ _ _ Htp).
    bind_step (deref_eq _ _ _ Htn).
    exists (O, false), w. split; [done |]. split; [by apply rebuilt_refl |].
    by exists tnn.
  - destruct (slot_facts _ _ _ _ Ht Htn) as (tpn & Htp & _).
    cbn [resize_halve]. bind_step (deref_eq _ _ _ Htp).
    bind_step (deref_eq _ _ _ Htn).
    destruct (should_halve tpn tnn) eqn:Hsi.
    2: { exists (S mw, false), w. split; [done |].
         split; [by apply rebuilt_refl |]. by exists tnn. }
    assert (Hp : 2 <= kv_bits tnn).
    { unfold should_halve in Hsi.
      apply andb_true_iff in Hsi as [Hsi _].
      apply andb_true_iff in Hsi as [_ Hsi].
      apply Z.ltb_lt in Hsi. lia. }
    destruct (halve_spec w c tp tnn Ht Htn Hint Hp Hb)
      as (ok & w1 & Hrun & Hre & m & Hm & Htm & Hmu & _).
    bind_step Hrun. destruct ok.
    + destruct (IH w1 m) as (n & w' & Hrun' & Hre' & m' & Hm' & Htm' & Hmu');
        [by destruct Hre | done | done | lia |].
      exists n, w'. split; [done |].
      split; [by apply (rebuilt_trans w w1 w') |].
      exists m'. split; [done |]. split; [done | lia].
    + exists (S mw, true), w1. split; [done |]. split; [done |]. by exists m.
Qed.

(** [collapse] takes the only child left, or none, into the slot of the
    node. *)
Lemma collapse_spec w c tp old :
  shape_trie (kv w) -> get_yesde (kv w) (c :: tp) = Some old ->
  IS_TNODE old = true -> should_collapse old = true ->
  exists w', collapse (c :: tp) w = Some (tt, w') /\ rebuilt w w' tp.
Proof.
  intros Ht Hold Hto Hsc.
  destruct (slot_facts _ _ _ _ Ht Hold)
    as (tpn & Htp & Hc & Hso & Hint & Hidx & Hin).
  destruct (collapse_only old Hso Hto Hsc) as (Hlv & Hfrom).
  unfold collapse. bind_step (deref_eq _ _ _ Hold).
  set (n := collapse_scan (Z.to_nat (child_length old)) old) in *.
  destruct (put_child_root_spec w tp tpn (kv_key old) n c Ht Htp Hint)
    as (w1 & tpn' & Hput & _ & Ht1 & Htp1 & Hfr & Hget & _ & Hanc & Hl1 & Hl0).
  { done. }
  { intros Hne. by destruct (Hin Hne). }
  { intros ch Hch. destruct (Hfrom ch Hch) as (j & Hj).
    destruct (shape_child_facts _ _ _ Hso Hj) as (Hsch & Hjr & Hpb & Hsl & Hr).
    split; [done |]. intros Hne.
    destruct (Hin Hne) as (Hcr & H1 & H2 & H3 & H4 & H5).
    pose proof (shape_trie_get _ _ _ Ht Htp Hne) as Hstp.
    destruct (shape_bounds _ (shape_self _ Hstp))
      as (Hk0 & Hp0 & Hb0 & Hpb0 & _ & Hal0).
    destruct (shape_bounds _ (shape_self _ Hso))
      as (Hk1 & Hp1 & Hb1 & Hpb1 & _ & Hal1).
    split; [lia |]. split; [| lia].
    apply (slot_of_range _ _ (kv_bits tpn)); try (done || lia).
    pose proof (pow2_pos (kv_pos old) Hp1) as Hpp.
    pose proof (pow2_pos (kv_pos old + kv_bits old) ltac:(lia)) as Hpm.
    assert (Hpow : 2 ^ (kv_pos old + kv_bits old)
                   = 2 ^ kv_pos old * 2 ^ kv_bits old)
      by (apply Z.pow_add_r; lia).
    assert (Hend : kv_key old + 2 ^ (kv_pos old + kv_bits old)
                   <= kv_key tpn + (c + 1) * 2 ^ kv_pos tpn).
    { apply aligned_next; [lia | done | | lia].
      rewrite <- Z.add_mod_idemp_l by lia.
      rewrite (mod_pow2_weaken (kv_key tpn) (kv_pos tpn + kv_bits tpn)
                 (kv_pos old + kv_bits old)) by (done || lia).
      rewrite Z.add_0_l, <- Z.mul_mod_idemp_r by lia.
      rewrite pow2_mod_pow2 by lia. by rewrite Z.mul_0_r. }
    nia. }
  exists w1. split; [done |]. split; [done |]. split.
  - intros x. rewrite Hl1, Hl0, Hc. split.
    + intros [H|Ho]; [| by right].
      left. exists old. split; [done |]. by apply Hlv.
    + intros [(o & [= <-] & Hx)|Ho]; [| by right].
      left. by apply Hlv.
  - intros q p m Heq Hm. destruct (decide (q = [])) as [->|Hq].
    + simpl in Heq. subst p. exists tpn'. split; [done |]. congruence.
    + destruct (Hanc q p m Hq Heq Hm) as (m' & Hm' & Hh).
      exists m'. split; [done |]. by apply same_header_frame.
Qed.

(** One pass of [resize] over a node. *)
Lemma resize_body_spec w c tp tnn :
  shape_trie (kv w) -> get_yesde (kv w) (c :: tp) = Some tnn ->
  IS_TNODE tnn = true -> kv_pos tnn + kv_bits tnn <= bound ->
  exists w', resize_body R (c :: tp) w = Some (tt, w') /\ rebuilt w w' tp.
Proof.
  intros Ht Htn Hint Hb.
  destruct (slot_facts _ _ _ _ Ht Htn)
    as (tpn & Htp & Hc & Hso & Hintp & Hidx & Hin).
  unfold resize_body. bind_step (deref_eq _ _ _ Htp).
  bind_step (deref_eq _ _ _ Htn).
  assert (Hci : get_index (kv_key tnn) tpn = c).
  { destruct (IS_TRIE tpn) eqn:Hroot; [| done].
    pose proof (proj1 (shape_is_trie _ _ _ Ht Htp Hintp) Hroot) as ->.
    simpl in Htp. injection Htp as <-.
    destruct Ht as [(e & f & c0 & Hr) _]. rewrite Hr, Hidx.
    rewrite get_index_cindex. unfold get_cindex. simpl.
    destruct (shape_bounds _ (shape_self _ Hso)) as (Hk & _).
    rewrite Z.lxor_0_r. apply Z.shiftr_eq_0; [lia |].
    destruct (Z.eq_dec (kv_key tnn) 0) as [->|]; [done |].
    apply Z.log2_lt_pow2; lia. }
  rewrite Hci, Z.eqb_refl. cbn [negb].
  destruct (resize_inflate_spec MAX_WORK w c tp tnn Ht Htn Hint Hb)
    as (n & w1 & Hrun & Hre & m & Hm & Htm & Hmu).
  bind_step Hrun.
  destruct (Nat.eqb n MAX_WORK); cbn [negb]; [| by exists w1].
  destruct (resize_halve_spec n w1 c tp m) as
    (n2 & w2 & Hrun2 & Hre2 & m2 & Hm2 & Htm2 & Hmu2);
    [by destruct Hre | done | done | lia |].
  bind_step Hrun2. bind_step (deref_eq _ _ _ Hm2).
  pose proof (rebuilt_trans _ _ _ _ Hre Hre2) as Hre12.
  destruct (should_collapse m2) eqn:Hsc; [| by exists w2].
  destruct (collapse_spec w2 c tp m2) as (w3 & Hrun3 & Hre3);
    [by destruct Hre2 | done | done | done |].
  exists w3. split; [done |]. by apply (rebuilt_trans w w2 w3).
Qed.

End ResizeSpec.

(** [resize] at a nesting depth that covers the node. *)
Lemma resize_depth_ok (d : nat) : resize_ok (resize_depth d) (Z.of_nat d).
Proof.
  induction d as [|d IH]; intros w c tp tnn Ht Htn Hint Hb.
  - pose proof (shape_trie_get _ _ _ Ht Htn ltac:(done)) as Hs.
    destruct (shape_bounds _ (shape_self _ Hs)) as (_ & ? & ? & _).
    unfold IS_TNODE in Hint. apply negb_true_iff, Z.eqb_neq in Hint. lia.
  - cbn [resize_depth].
    apply (resize_body_spec (resize_depth d) (Z.of_nat d) IH w c tp tnn);
      try done.
    lia.
Qed.

(** [resize] returns on every internal node of a table; the table keeps
    its shape and its leaves, and the nodes above stay in place. *)
Lemma resize_spec w c tp tnn :
  shape_trie (kv w) -> get_yesde (kv w) (c :: tp) = Some tnn ->
  IS_TNODE tnn = true ->
  exists w', resize (c :: tp) w = Some (tt, w') /\ rebuilt w w' tp.
Proof.
  intros Ht Htn Hint. unfold resize.
  apply (resize_depth_ok (S (Z.to_nat KEYLENGTH)) w c tp tnn); try done.
  pose proof (shape_trie_get _ _ _ Ht Htn ltac:(done)) as Hs.
  destruct (shape_bounds _ (shape_self _ Hs)) as (_ & _ & _ & ? & _).
  unfold KEYLENGTH in *. lia.
Qed.

(** [trie_rebalance] resizes the nodes from [tn] up to the root. *)
Lemma trie_rebalance_spec tn : forall w n,
  shape_trie (kv w) -> get_yesde (kv w) tn = Some n ->
  tn = [] \/ IS_TNODE n = true ->
  exists w', trie_rebalance tn w = Some (tt, w') /\
             shape_trie (kv w') /\
             forall x, leaf_of (kv w') x <-> leaf_of (kv w) x.
Proof.
  induction tn as [|c tp IH]; intros w n Ht Hn Hint.
  - cbn [trie_rebalance]. bind_step (deref_eq _ _ _ Hn).
    rewrite (proj2 (shape_is_trie _ _ _ Ht Hn Hint) eq_refl).
    by exists w.
  - cbn [trie_rebalance]. bind_step (deref_eq _ _ _ Hn).
    destruct Hint as [|Hint]; [done |].
    destruct (IS_TRIE n) eqn:Hroot.
    { by pose proof (proj1 (shape_is_trie _ _ _ Ht Hn (or_intror Hint)) Hroot). }
    destruct (resize_spec w c tp n Ht Hn Hint) as (w1 & Hrun & Hre).
    bind_step Hrun.
    destruct (slot_facts _ _ _ _ Ht Hn) as (tpn & Htp & _ & _ & Hintp & _).
    destruct (rebuilt_here _ _ _ _ Hre Htp) as (tpn' & Htp' & Hfr).
    destruct Hre as (Ht1 & Hl1 & _).
    destruct (IH w1 tpn' Ht1 Htp') as (w' & Hrun' & Ht' & Hl').
    { destruct Hintp as [|Hintp]; [by left | right].
      by rewrite (same_frame_tyesde _ _ Hfr). }
    exists w'. split; [done |]. split; [done |].
    intros x. by rewrite Hl'.
Qed.


(** * Suffix lengths pushed up and pulled down *)

Lemma set_slen_same n : set_slen (kv_slen n) n = n.
Proof. by destruct n. Qed.

Lemma get_child_set_slen s n i : get_child (set_slen s n) i = get_child n i.
Proof. by destruct n. Qed.

Lemma set_slen_set_child s n i x :
  set_slen s (set_child n i x) = set_child (set_slen s n) i x.
Proof. destruct n; [done |]. simpl. by destruct (i <? 0). Qed.

Lemma same_place_set_slen s n : same_place n (set_slen s n).
Proof. by destruct n. Qed.

Lemma is_tyesde_set_slen s n : IS_TNODE (set_slen s n) = IS_TNODE n.
Proof. by destruct n. Qed.

Lemma kv_slen_set_slen s n : kv_slen (set_slen s n) = s.
Proof. by destruct n. Qed.

Lemma leaf_of_set_slen s n x :
  IS_TNODE n = true -> leaf_of (set_slen s n) x <-> leaf_of n x.
Proof.
  intros Ht.
  rewrite (leaf_of_tyesde n x (is_tyesde_not_leaf _ Ht)).
  rewrite (leaf_of_tyesde (set_slen s n) x).
  - by setoid_rewrite get_child_set_slen.
  - apply is_tyesde_not_leaf. by rewrite is_tyesde_set_slen.
Qed.

(** An internal node takes any suffix length that covers its children
    and that its key is a multiple of. *)
Lemma set_slen_shape s n :
  shape n -> IS_TNODE n = true -> kv_pos n <= s <= KEYLENGTH ->
  kv_key n mod 2 ^ s = 0 ->
  (forall i c, get_child n i = Some c -> kv_slen c <= s) ->
  shape (set_slen s n).
Proof.
  intros Hs Ht Hr Hal Hc.
  destruct n as [|k p b s0 e f cs]; [done |].
  pose proof (shape_self _ Hs) as (Hf & _ & Hcnt & Hch).
  apply shape_intro.
  - split; [| split; [done | split]].
    + destruct Hf as [Hb Hp Htop Hk Hkl Hlen Hsl]. by split.
    + intros _. by apply Hcnt.
    + intros i c Hci. cbn [set_slen kv_key kv_pos kv_slen] in *.
      change (get_child (Tyesde k p b s0 e f cs) i = Some c) in Hci.
      pose proof (Hch i c Hci) as (H1 & H2 & H3)%child_ok_spec.
      apply child_ok_spec. split; [done |]. split; [done |]. by apply (Hc i).
  - intros i c Hci. by apply (shape_child _ i c Hs).
Qed.

(** ** Pushing *)

(** The parent of a node whose suffix length was raised to [slen]: it is
    in shape once its own suffix length is raised as far. *)
Lemma pending_parent t0 c tp old tpn0 N slen :
  shape_trie t0 -> get_yesde t0 (c :: tp) = Some old ->
  get_yesde t0 tp = Some tpn0 -> shape N -> same_place old N ->
  kv_slen N = slen -> slen <= KEYLENGTH ->
  let np := set_child tpn0 c (Some N) in
  same_frame tpn0 np /\ get_child np c = Some N /\
  (tp = [] -> shape_trie np) /\
  (tp <> [] -> IS_TNODE np = true /\
               shape (set_slen (Z.max (kv_slen np) slen) np)).
Proof.
  intros Ht0 Hold Htp0' HsN HNp HNs Hslen np.
  destruct (slot_facts _ _ _ _ Ht0 Hold)
    as (tpn0' & Htp0 & Hc0 & Hso & Hint & Hidx & Hslot).
  rewrite Htp0' in Htp0. injection Htp0 as <-.
  split; [apply same_header_frame, same_header_set_child |].
  split; [unfold np; by apply (get_child_set_child_eq tpn0 c old) |].
  split.
  - intros ->. simpl in Htp0'. injection Htp0' as <-.
    destruct Ht0 as [(e & f & c0 & Hr) Hch].
    assert (c = 0) as ->.
    { apply (is_root_child t0 c old); [by exists e, f, c0 | done]. }
    unfold np. rewrite Hr. split; [by eexists _, _, _ |].
    intros ch Hch'. unfold get_child in Hch'. simpl in Hch'.
    by injection Hch' as <-.
  - intros Hne. destruct Hint as [|Hint]; [done |].
    assert (Hnpt : IS_TNODE np = true).
    { unfold np. destruct tpn0; [done |]. simpl. by destruct (c <? 0). }
    split; [done |].
    assert (Hnps : kv_slen np = kv_slen tpn0).
    { unfold np. destruct tpn0; [done |]. simpl. by destruct (c <? 0). }
    rewrite Hnps. set (s' := Z.max (kv_slen tpn0) slen).
    unfold np. rewrite set_slen_set_child.
    pose proof (shape_trie_get _ _ _ Ht0 Htp0' Hne) as Hstp.
    destruct (Hslot Hne) as (Hcr & Hpb & Hsl & Hps & Hix & Hrange).
    destruct (shape_bounds _ (shape_self _ Hstp))
      as (Hk0 & Hp0 & Hb0 & Hpb0 & Hsl0 & Hal0).
    destruct (shape_bounds _ (shape_self _ Hso)) as (Hko & _).
    destruct (shape_bounds _ (shape_self _ HsN)) as (_ & _ & _ & _ & HslN & _).
    apply (set_child_shape (set_slen s' tpn0) c old N); try done.
    + apply set_slen_shape; try done.
      * unfold s'. lia.
      * unfold s'. destruct (Z.max_spec (kv_slen tpn0) slen) as [[_ ->]|[_ ->]].
        -- apply (parent_aligned _ (kv_pos tpn0) (kv_bits tpn0) c (kv_key old));
             try (done || lia).
           destruct HNp as (<- & _ & _).
           pose proof (shape_self _ HsN) as (_ & HalN & _).
           unfold aligned in HalN. by rewrite HNs in HalN.
        -- by destruct (shape_self _ Hstp) as (_ & ? & _).
      * intros i ch Hch.
        destruct (shape_child_facts _ _ _ Hstp Hch) as (_ & _ & _ & ? & _).
        unfold s'. lia.
    + by rewrite get_child_set_slen.
    + rewrite kv_slen_set_slen, HNs. unfold s'. lia.
Qed.

(** [yesde_push_suffix] on a table that is in shape but for the suffix
    lengths from [tn] up, which may be too short for what hangs below:
    the lengths are raised to [slen] as far up as needed, and the table is
    in shape again. *)
Lemma push_spec slen :
  0 <= slen <= KEYLENGTH ->
  forall tn w t0 old n,
    shape_trie t0 -> get_yesde t0 tn = Some old ->
    set_yesde t0 tn n = Some (kv w) -> same_frame old n ->
    (tn = [] -> shape_trie n) ->
    (tn <> [] -> IS_TNODE n = true /\
                 shape (set_slen (Z.max (kv_slen n) slen) n)) ->
    exists w',
      yesde_push_suffix tn slen w = Some (tt, w') /\ kmem w' = kmem w /\
      shape_trie (kv w') /\
      (forall x, leaf_of (kv w') x <-> leaf_of (kv w) x) /\
      get_yesde (kv w') tn = Some (set_slen (Z.max (kv_slen n) slen) n).
Proof.
  intros Hslen.
  induction tn as [|c tp IH]; intros w t0 old n Ht0 Hold Hset Hfr Hroot Hin.
  - simpl in Hold, Hset. injection Hold as <-. injection Hset as Hn.
    pose proof (Hroot eq_refl) as Htrie.
    destruct Htrie as [(e & f & c0 & Hr) Hch].
    rewrite yesde_push_suffix_unfold.
    bind_step (deref_eq [] n w ltac:(by rewrite <- Hn)).
    assert (Hs32 : kv_slen n = KEYLENGTH) by by rewrite Hr.
    destruct (Z.ltb_spec (kv_slen n) slen); [lia |].
    exists w. split; [done |]. split; [done |].
    rewrite <- Hn. split; [by split; [exists e, f, c0 |] |]. split; [done |].
    simpl. by rewrite Z.max_l, set_slen_same by lia.
  - pose proof (get_set_same _ _ _ _ _ Hold Hset) as Hget.
    destruct (Hin ltac:(done)) as [Htn Hshape].
    rewrite yesde_push_suffix_unfold.
    bind_step (deref_eq _ _ _ Hget).
    destruct (Z.ltb_spec (kv_slen n) slen) as [Hlt|Hge].
    2: { rewrite Z.max_l, set_slen_same in Hshape |- * by lia.
         exists w. split; [done |]. split; [done |].
         split; [| by split].
         destruct (store_shape t0 (c :: tp) old n Ht0 Hold ltac:(done) Hshape)
           as (t' & Hset' & Ht'); [by destruct Hfr | |].
         - destruct Hfr as [_ ->]. by apply parent_slen_ok.
         - congruence. }
    rewrite Z.max_r in Hshape |- * by lia.
    set (N := set_slen slen n) in *.
    destruct (slot_facts _ _ _ _ Ht0 Hold)
      as (tpn0 & Htp0 & Hc0 & Hso & Hint & Hidx & Hslot).
    set (np := set_child tpn0 c (Some N)).
    destruct (set_yesde_valid t0 tp tpn0 np Htp0) as (t2 & Hset2 & Hget2).
    assert (HsetN : set_yesde (kv w) (c :: tp) N = Some t2).
    { rewrite (set_yesde_twice _ _ _ _ N _ Hold Hset).
      rewrite set_yesde_cons, Htp0. done. }
    bind_step (store_eq _ _ _ _ HsetN).
    set (w2 := World (kmem w) t2).
    assert (HN : same_place old N /\ kv_slen N = slen).
    { destruct Hfr as [(H1 & H2 & H3) _]. unfold N.
      destruct n; simpl in *; by repeat split. }
    destruct HN as [HNp HNs].
    destruct (pending_parent t0 c tp old tpn0 N slen Ht0 Hold Htp0 Hshape HNp
                HNs ltac:(lia)) as (Hfrp & HgetN & Hrootp & Hinp).
    fold np in Hfrp, HgetN, Hrootp, Hinp.
    destruct (IH w2 t0 tpn0 np Ht0 Htp0 Hset2 Hfrp Hrootp Hinp)
      as (w' & Hrun & Hkm & Ht' & Hlv & Hget').
    exists w'. split; [done |]. split; [done |]. split; [done |]. split.
    + intros x. rewrite Hlv. change (kv w2) with t2.
      destruct (store_leaves (kv w) (c :: tp) n N t2 Hget HsetN) as [H1 H2].
      rewrite (H1 x), (H2 x). unfold N. by rewrite leaf_of_set_slen.
    + rewrite get_yesde_cons, Hget'. cbn [mbind option_bind].
      by rewrite get_child_set_slen.
Qed.

(** ** Pulling *)

(** [update_suffix] on an internal node of a table in shape. *)
Lemma update_suffix_shape n :
  shape n -> IS_TNODE n = true ->
  exists r,
    update_suffix n = Some (set_slen r n, r) /\
    kv_pos n <= r <= kv_slen n /\
    (forall j c, get_child n j = Some c -> kv_slen c <= r) /\
    shape (set_slen r n).
Proof.
  intros Hs Ht.
  pose proof (shape_self _ Hs) as Hn.
  destruct (shape_bounds _ Hn) as (Hk & Hp & Hb & Hpb & Hsl & _).
  pose proof Hn as (Hf & Hal & _ & Hch).
  destruct n as [|k p b s e f cs]; [done |].
  destruct (update_suffix_fields k p b s e f cs Hf) as (r & Hu & Hr & Hall & _).
  { intros j c Hc. split; [by apply Hch |].
    pose proof (shape_child _ _ _ Hs Hc) as Hsc.
    by destruct (shape_bounds _ (shape_self _ Hsc)) as ((? & _) & _). }
  { intros j c Hc. pose proof (shape_child _ _ _ Hs Hc) as Hsc.
    by destruct (shape_self _ Hsc) as (_ & ? & _). }
  exists r. split; [done |]. split; [done |]. split; [done |].
  apply set_slen_shape; try done.
  - lia.
  - apply (mod_pow2_weaken _ (kv_slen (Tyesde k p b s e f cs))); [| done].
    cbn [kv_pos kv_slen] in *. lia.
Qed.

(** [yesde_pull_suffix] returns and keeps the table in shape; only
    suffix lengths of the nodes from [tn] up change. *)
Lemma pull_spec tn : forall w slen n,
  shape_trie (kv w) -> get_yesde (kv w) tn = Some n ->
  tn = [] \/ IS_TNODE n = true ->
  exists w',
    yesde_pull_suffix tn slen w = Some (tt, w') /\ kmem w' = kmem w /\
    shape_trie (kv w') /\
    (forall x, leaf_of (kv w') x <-> leaf_of (kv w) x) /\
    exists s', get_yesde (kv w') tn = Some (set_slen s' n).
Proof.
  induction tn as [|c tp IH]; intros w slen n Ht Hn Hint.
  - rewrite yesde_pull_suffix_unfold. bind_step (deref_eq _ _ _ Hn).
    simpl in Hn. injection Hn as <-.
    assert (Hcond : (kv_pos (kv w) <? kv_slen (kv w)) = false).
    { destruct Ht as [(e & f & c0 & ->) _]. done. }
    cbv zeta. rewrite Hcond. cbn [andb].
    exists w. split; [done |]. split; [done |]. split; [done |].
    split; [done |]. exists (kv_slen (kv w)). by rewrite set_slen_same.
  - destruct Hint as [|Hint]; [done |].
    rewrite yesde_pull_suffix_unfold. bind_step (deref_eq _ _ _ Hn).
    cbv zeta.
    destruct ((kv_pos n <? kv_slen n) && (slen <? kv_slen n)) eqn:Hcond.
    2: { exists w. split; [done |]. split; [done |]. split; [done |].
         split; [done |]. exists (kv_slen n). by rewrite set_slen_same. }
    pose proof (shape_trie_get _ _ _ Ht Hn ltac:(done)) as Hs.
    destruct (update_suffix_shape n Hs Hint) as (r & Hu & Hr & Hall & Hsr).
    bind_step (lift_eq _ _ w Hu). cbv beta iota.
    destruct (store_shape (kv w) (c :: tp) n (set_slen r n) Ht Hn
                ltac:(done) Hsr) as (t1 & Hset & Ht1).
    { apply same_place_set_slen. }
    { rewrite kv_slen_set_slen.
      pose proof (parent_slen_ok _ _ _ Ht Hn ltac:(done)). lia. }
    bind_step (store_eq _ _ _ _ Hset).
    set (w1 := World (kmem w) t1).
    assert (Hlv1 : forall x, leaf_of t1 x <-> leaf_of (kv w) x).
    { intros x.
      destruct (store_leaves (kv w) (c :: tp) n _ t1 Hn Hset) as [H1 H2].
      rewrite (H1 x), (H2 x). by rewrite leaf_of_set_slen. }
    pose proof (get_set_same _ _ _ _ _ Hn Hset) as Hget1.
    destruct (Z.eqb_spec (kv_slen n) r) as [Heq|Hne].
    { exists w1. split; [done |]. split; [done |]. split; [done |].
      split; [done |]. by exists r. }
    destruct (slot_facts t1 c tp _ Ht1 Hget1)
      as (tpn1 & Htp1 & Hc1 & _ & Hint1 & _).
    destruct (IH w1 r tpn1 Ht1 Htp1 Hint1)
      as (w' & Hrun & Hkm & Ht' & Hlv & s' & Hget').
    exists w'. split; [done |]. split; [done |]. split; [done |]. split.
    + intros x. rewrite Hlv. apply Hlv1.
    + exists r. rewrite get_yesde_cons, Hget'. cbn [mbind option_bind].
      by rewrite get_child_set_slen.
Qed.


(** * The place of a new alias in the list of its leaf *)

#[global] Instance alias_order_trans : Transitive alias_order.
Proof. unfold alias_order. intros a b c ? ?. lia. Qed.

Lemma sorted_order_add_at i new l :
  StronglySorted alias_order l ->
  Forall (fun x => alias_order x new) (take i l) ->
  Forall (alias_order new) (drop i l) ->
  StronglySorted alias_order (hlist_add_at i new l).
Proof.
  intros Hs Hl Hr. unfold hlist_add_at.
  rewrite <- (take_drop i l) in Hs.
  apply StronglySorted_app in Hs as (H12 & Hs1 & Hs2).
  apply StronglySorted_app. split; [| split; [done |]].
  - intros x1 x2 Hx1 [->|Hx2]%elem_of_cons.
    + by eapply Forall_forall in Hl.
    + by apply H12.
  - by constructor.
Qed.

(** The alias [new] is one of the route [(slen, tb, tos, prio)]. *)
Definition of_route (new : fib_alias) (slen tb tos prio : Z) : Prop :=
  fa_slen new = slen /\ tb_id new = tb /\ fa_tos new = tos /\
  fib_priority (fa_info new) = prio.

(** Where [fib_find_alias] stops, the aliases before are in order before
    the new one and those from there on in order after it. *)
Lemma find_some_place new slen tb tos prio l :
  of_route new slen tb tos prio -> StronglySorted alias_order l ->
  forall j i, fib_find_alias_from j l slen tos prio tb = Some i ->
    (j <= i)%nat /\
    Forall (fun x => alias_order x new) (take (i - j) l) /\
    Forall (alias_order new) (drop (i - j) l).
Proof.
  intros (Hs & Ht & Ho & Hp) Hsorted.
  induction Hsorted as [|fa rest Hsorted IH Hall]; intros j i; simpl; [done |].
  intros H.
  assert (Hrec : alias_order fa new ->
            fib_find_alias_from (S j) rest slen tos prio tb = Some i ->
            (j <= i)%nat /\
            Forall (fun x => alias_order x new) (take (i - j) (fa :: rest)) /\
            Forall (alias_order new) (drop (i - j) (fa :: rest))).
  { intros Hfa (Hle & H1 & H2)%IH.
    replace (i - j)%nat with (S (i - S j)) by lia. simpl.
    split; [lia |]. split; [by constructor | done]. }
  destruct (Z.ltb_spec (fa_slen fa) slen).
  { apply Hrec; [| done]. unfold alias_order. lia. }
  destruct (Z.eqb_spec (fa_slen fa) slen); simpl in H; [| done].
  destruct (Z.ltb_spec tb (tb_id fa)).
  { apply Hrec; [| done]. unfold alias_order. lia. }
  destruct (Z.eqb_spec (tb_id fa) tb); simpl in H; [| done].
  destruct (Z.ltb_spec tos (fa_tos fa)).
  { apply Hrec; [| done]. unfold alias_order. lia. }
  destruct (Z.leb_spec prio (fib_priority (fa_info fa)));
    destruct (Z.ltb_spec (fa_tos fa) tos); simpl in H;
    try (injection H as <-; rewrite Nat.sub_diag; simpl;
         split; [lia |]; split; [constructor |];
         assert (Hnf : alias_order new fa) by (unfold alias_order; lia);
         constructor; [done |];
         eapply Forall_impl; [exact Hall |]; intros x Hx; by etrans).
  apply Hrec; [| done]. unfold alias_order. lia.
Qed.

(** When [fib_find_alias] finds nothing, the scan of [fib_insert_alias]
    stops at the place of the new alias. *)
Lemma find_none_place new slen tb tos prio l :
  of_route new slen tb tos prio -> StronglySorted alias_order l ->
  forall j, fib_find_alias_from j l slen tos prio tb = None ->
    Forall (fun x => alias_order x new)
           (take (fib_insert_alias_scan new l) l) /\
    Forall (alias_order new) (drop (fib_insert_alias_scan new l) l).
Proof.
  intros (Hs & Ht & Ho & Hp) Hsorted.
  induction Hsorted as [|fa rest Hsorted IH Hall]; intros j; simpl;
    [by split |].
  intros H.
  assert (Hstop : alias_order new fa ->
            Forall (alias_order new) (fa :: rest)).
  { intros Hnf. constructor; [done |].
    eapply Forall_impl; [exact Hall |]. intros x Hx. by etrans. }
  assert (Hrec : alias_order fa new ->
            (fa_slen fa < slen \/ (fa_slen fa = slen /\ tb <= tb_id fa)) ->
            fib_find_alias_from (S j) rest slen tos prio tb = None ->
            Forall (fun x => alias_order x new)
              (take (if fa_slen new <? fa_slen fa then O
                     else if (fa_slen new =? fa_slen fa)
                             && (tb_id fa <? tb_id new) then O
                     else S (fib_insert_alias_scan new rest)) (fa :: rest)) /\
            Forall (alias_order new)
              (drop (if fa_slen new <? fa_slen fa then O
                     else if (fa_slen new =? fa_slen fa)
                             && (tb_id fa <? tb_id new) then O
                     else S (fib_insert_alias_scan new rest)) (fa :: rest))).
  { intros Hfa Hkeys [H1 H2]%IH.
    destruct (Z.ltb_spec (fa_slen new) (fa_slen fa)); [lia |].
    destruct (Z.eqb_spec (fa_slen new) (fa_slen fa));
      destruct (Z.ltb_spec (tb_id fa) (tb_id new)); simpl;
      try lia; (split; [by constructor | done]). }
  destruct (Z.ltb_spec (fa_slen fa) slen).
  { apply Hrec; [unfold alias_order; lia | lia | done]. }
  destruct (Z.eqb_spec (fa_slen fa) slen); simpl in H.
  2: { destruct (Z.ltb_spec (fa_slen new) (fa_slen fa)); [| lia]. simpl.
       split; [constructor |]. apply Hstop. unfold alias_order. lia. }
  destruct (Z.ltb_spec tb (tb_id fa)).
  { apply Hrec; [unfold alias_order; lia | lia | done]. }
  destruct (Z.eqb_spec (tb_id fa) tb); simpl in H.
  2: { destruct (Z.ltb_spec (fa_slen new) (fa_slen fa)); [lia |].
       destruct (Z.eqb_spec (fa_slen new) (fa_slen fa)); [| lia].
       destruct (Z.ltb_spec (tb_id fa) (tb_id new)); [| lia]. simpl.
       split; [constructor |]. apply Hstop. unfold alias_order. lia. }
  destruct (Z.ltb_spec tos (fa_tos fa)).
  { apply Hrec; [unfold alias_order; lia | lia | done]. }
  destruct (Z.leb_spec prio (fib_priority (fa_info fa)));
    destruct (Z.ltb_spec (fa_tos fa) tos); simpl in H; try done.
  apply Hrec; [unfold alias_order; lia | lia | done].
Qed.

(** Behind aliases that all come before the new one in order, the scan
    runs to the end. *)
Lemma scan_all new l :
  Forall (fun x => alias_order x new) l ->
  fib_insert_alias_scan new l = length l.
Proof.
  induction 1 as [|fa rest Hfa _ IH]; simpl; [done |].
  unfold alias_order in Hfa.
  destruct (Z.ltb_spec (fa_slen new) (fa_slen fa)); [lia |].
  destruct (Z.eqb_spec (fa_slen new) (fa_slen fa));
    destruct (Z.ltb_spec (tb_id fa) (tb_id new)); simpl; try lia;
    by rewrite IH.
Qed.

(** The loop of [fib_table_insert] that runs off the end of the list has
    passed only aliases of the route. *)
Lemma fib_insert_match_from_end i l slen tb tos fi type :
  fib_insert_match_from i l slen tb tos fi type = (None, None) ->
  Forall (fun fa => of_route fa slen tb tos (fib_priority fi)) l.
Proof.
  revert i. induction l as [|fa rest IH]; intros i; simpl; [done |].
  destruct (Z.eqb_spec (fa_slen fa) slen); simpl; [| done].
  destruct (Z.eqb_spec (tb_id fa) tb); simpl; [| done].
  destruct (Z.eqb_spec (fa_tos fa) tos); simpl; [| done].
  destruct (Z.eqb_spec (fib_priority (fa_info fa)) (fib_priority fi)); simpl;
    [| done].
  destruct (_ && _); [done |].
  intros H%IH. by constructor.
Qed.

Lemma of_route_order a b slen tb tos prio :
  of_route a slen tb tos prio -> of_route b slen tb tos prio ->
  alias_order a b.
Proof. unfold of_route, alias_order. lia. Qed.

(** ** The list after [fib_insert_alias] *)

Section place.
Context (new : fib_alias) (slen tb tos prio : Z).
Context (Hnew : of_route new slen tb tos prio).
Context (l : list fib_alias) (Hsorted : StronglySorted alias_order l).

(** Before the alias that [fib_find_alias] returns. *)
Lemma insert_sorted_some i :
  fib_find_alias l slen tos prio tb = Some i ->
  StronglySorted alias_order (fib_insert_alias_list new (Some i) l).
Proof.
  intros Hfind.
  destruct (find_some_place new slen tb tos prio l Hnew Hsorted O i Hfind)
    as (_ & H1 & H2).
  rewrite Nat.sub_0_r in H1, H2. by apply sorted_order_add_at.
Qed.

(** Where the scan of [fib_insert_alias] stops, when [fib_find_alias]
    returns nothing. *)
Lemma insert_sorted_none :
  fib_find_alias l slen tos prio tb = None ->
  StronglySorted alias_order (fib_insert_alias_list new None l).
Proof.
  intros Hfind.
  destruct (find_none_place new slen tb tos prio l Hnew Hsorted O Hfind)
    as (H1 & H2).
  by apply sorted_order_add_at.
Qed.

(** Behind the aliases of the route, where the loop of
    [fib_table_insert] is left, under [NLM_F_APPEND]. *)
Lemma insert_sorted_exit i fi type fa_exit :
  prio = fib_priority fi ->
  fib_find_alias l slen tos prio tb = Some i ->
  fib_insert_match_from i (drop i l) slen tb tos fi type = (None, fa_exit) ->
  StronglySorted alias_order (fib_insert_alias_list new fa_exit l).
Proof.
  intros Hprio Hfind Hmatch.
  destruct (find_some_place new slen tb tos prio l Hnew Hsorted O i Hfind)
    as (_ & H1 & H2).
  rewrite Nat.sub_0_r in H1, H2.
  destruct fa_exit as [j|].
  - destruct (fib_insert_match_from_exit _ _ _ _ _ _ _ _ Hmatch) as (Hij & Hmid).
    apply sorted_order_add_at; [done | |].
    + apply Forall_forall. intros x Hx.
      apply list_elem_of_lookup in Hx as (k & Hk).
      apply lookup_take_Some in Hk as [Hk Hkj].
      destruct (Nat.lt_ge_cases k i) as [Hlt|Hge].
      * eapply Forall_forall in H1; [exact H1 |].
        apply list_elem_of_lookup. exists k. by rewrite lookup_take_lt.
      * destruct (Hmid k ltac:(lia)) as (fa & Hfa & Hr1 & Hr2 & Hr3 & Hr4).
        rewrite lookup_drop in Hfa.
        replace (i + (k - i))%nat with k in Hfa by lia.
        rewrite Hk in Hfa. injection Hfa as ->.
        apply (of_route_order _ _ slen tb tos prio); [| done].
        unfold of_route. by rewrite Hprio.
    + replace j with (i + (j - i))%nat by lia. rewrite <- drop_drop.
      by apply Forall_drop.
  - pose proof (fib_insert_match_from_end _ _ _ _ _ _ _ Hmatch) as Hall.
    assert (Hbefore : Forall (fun x => alias_order x new) l).
    { rewrite <- (take_drop i l). apply Forall_app. split; [done |].
      eapply Forall_impl; [exact Hall |]. intros x Hx.
      apply (of_route_order _ _ slen tb tos prio); [| done].
      by rewrite Hprio. }
    unfold fib_insert_alias_list. rewrite (scan_all new l Hbefore).
    apply sorted_order_add_at; [done | |].
    + by rewrite firstn_all.
    + by rewrite drop_all.
Qed.
End place.

(** An alias of the same route in the place of another. *)
Lemma sorted_order_replace i new fa l slen tb tos prio :
  StronglySorted alias_order l -> l !! i = Some fa ->
  of_route fa slen tb tos prio -> of_route new slen tb tos prio ->
  StronglySorted alias_order (hlist_replace i new l).
Proof.
  intros Hs Hi Hfa Hnew. unfold hlist_replace.
  assert (Hlen : (i < length l)%nat) by by eapply lookup_lt_Some.
  rewrite insert_take_drop by done.
  rewrite <- (take_drop_middle l i fa Hi) in Hs.
  apply StronglySorted_app in Hs as (H12 & H1 & H2).
  apply StronglySorted_inv in H2 as [H2 Hall].
  assert (Hl : forall x, alias_order x fa -> alias_order x new).
  { intros x. unfold alias_order, of_route in *. lia. }
  assert (Hr : forall x, alias_order fa x -> alias_order new x).
  { intros x. unfold alias_order, of_route in *. lia. }
  apply StronglySorted_app. split; [| split; [done |]].
  - intros x1 x2 Hx1 [->|Hx2]%elem_of_cons.
    + apply Hl, H12; [done | left].
    + apply H12; [done | by right].
  - constructor; [done |].
    eapply Forall_impl; [exact Hall |]. intros x. apply Hr.
Qed.


(** * Insertion keeps the table in shape *)

(** ** The bit at which two keys part *)

Lemma lxor_bound a b n :
  0 <= n -> 0 <= a < 2 ^ n -> 0 <= b < 2 ^ n -> 0 <= Z.lxor a b < 2 ^ n.
Proof.
  intros Hn Ha Hb.
  assert (H0 : 0 <= Z.lxor a b) by (apply Z.lxor_nonneg; lia).
  split; [done |].
  destruct (Z.eq_dec (Z.lxor a b) 0) as [->|Hne]; [by apply pow2_pos |].
  apply Z.log2_lt_pow2; [lia |].
  pose proof (Z.log2_lxor a b ltac:(lia) ltac:(lia)) as Hl.
  assert (Hn0 : 0 < n).
  { destruct (Z.eq_dec n 0) as [->|]; [| lia].
    change (2 ^ 0) with 1 in Ha, Hb.
    assert (a = 0) as -> by lia. assert (b = 0) as -> by lia. done. }
  assert (Z.log2 a < n).
  { destruct (Z.eq_dec a 0) as [->|]; [simpl; lia |].
    apply Z.log2_lt_pow2; lia. }
  assert (Z.log2 b < n).
  { destruct (Z.eq_dec b 0) as [->|]; [simpl; lia |].
    apply Z.log2_lt_pow2; lia. }
  lia.
Qed.

(** Two keys agree above bit [m] exactly when they have the same
    multiple of [2 ^ m] below them. *)
Lemma shiftr_lxor_floor a b m :
  0 <= m -> 0 <= a -> 0 <= b ->
  Z.shiftr (Z.lxor a b) m = 0 <-> a - a mod 2 ^ m = b - b mod 2 ^ m.
Proof.
  intros Hm Ha Hb. pose proof (pow2_pos m Hm) as Hp.
  rewrite Z.shiftr_lxor, Z.lxor_eq_0_iff, !Z.shiftr_div_pow2 by done.
  pose proof (Z.div_mod a (2 ^ m)). pose proof (Z.div_mod b (2 ^ m)).
  split; intros; nia.
Qed.

Lemma floor_range a m :
  0 <= m -> 0 <= a ->
  (a - a mod 2 ^ m) mod 2 ^ m = 0 /\ 0 <= a - a mod 2 ^ m <= a /\
  a < a - a mod 2 ^ m + 2 ^ m.
Proof.
  intros Hm Ha. pose proof (pow2_pos m Hm) as Hp.
  pose proof (Z.mod_pos_bound a (2 ^ m) Hp).
  pose proof (Z.mod_le a (2 ^ m) Ha Hp).
  split; [| lia].
  rewrite Zminus_mod, Z.mod_mod, Z.sub_diag by lia. done.
Qed.

(** The node that [fib_insert_yesde] makes for two keys that part at bit
    [P]: one key in each of its two slots. *)
Lemma split_bit a b :
  0 <= a < 2 ^ 32 -> 0 <= b < 2 ^ 32 -> a <> b ->
  let P := Z.log2 (Z.lxor a b) in
  let K := a - a mod 2 ^ (P + 1) in
  0 <= P < 32 /\
  exists ja, (ja = 0 \/ ja = 1) /\
    Z.shiftr (Z.lxor a K) P = ja /\ Z.lxor ja 1 = 1 - ja /\
    K + ja * 2 ^ P <= a < K + (ja + 1) * 2 ^ P /\
    K + (1 - ja) * 2 ^ P <= b < K + (2 - ja) * 2 ^ P.
Proof.
  intros Ha Hb Hne P K.
  pose proof (lxor_bound a b 32 ltac:(lia) Ha Hb) as Hd.
  assert (Hd0 : 0 < Z.lxor a b).
  { destruct (Z.eq_dec (Z.lxor a b) 0) as [H0|]; [| lia].
    by apply Z.lxor_eq in H0. }
  pose proof (Z.log2_spec _ Hd0) as Hlog. fold P in Hlog.
  pose proof (Z.log2_nonneg (Z.lxor a b)) as HP0. fold P in HP0.
  assert (HP : P < 32).
  { apply Z.log2_lt_pow2; lia. }
  split; [lia |].
  pose proof (pow2_pos P HP0) as Hpp.
  assert (Hp2 : 2 ^ (P + 1) = 2 * 2 ^ P) by (rewrite Z.pow_add_r; lia).
  destruct (floor_range a (P + 1) ltac:(lia) ltac:(lia)) as (HKal & HK & HKa).
  fold K in HKal, HK, HKa.
  assert (HKb : K = b - b mod 2 ^ (P + 1)).
  { apply shiftr_lxor_floor; [lia | lia | lia |].
    apply Z.shiftr_eq_0; [lia |]. fold P. lia. }
  destruct (floor_range b (P + 1) ltac:(lia) ltac:(lia)) as (_ & HKb1 & HKb2).
  rewrite <- HKb in HKb1, HKb2.
  assert (Hslot : forall x, K <= x < K + 2 ^ (P + 1) ->
            exists j, (j = 0 \/ j = 1) /\
                      K + j * 2 ^ P <= x < K + (j + 1) * 2 ^ P).
  { intros x Hx. destruct (Z.lt_ge_cases x (K + 2 ^ P)).
    - exists 0. split; [by left | lia].
    - exists 1. split; [by right | lia]. }
  destruct (Hslot a ltac:(lia)) as (ja & Hja & Hra).
  destruct (Hslot b ltac:(lia)) as (jb & Hjb & Hrb).
  assert (Hdiff : ja <> jb).
  { intros <-.
    assert (Hbase : (K + ja * 2 ^ P) mod 2 ^ P = 0).
    { rewrite Z.mod_add by lia.
      apply (mod_pow2_weaken _ (P + 1)); [lia | done]. }
    assert (H1 : Z.shiftr (Z.lxor a (K + ja * 2 ^ P)) P = 0).
    { apply shiftr_lxor_range; (done || lia). }
    assert (H2 : Z.shiftr (Z.lxor b (K + ja * 2 ^ P)) P = 0).
    { apply shiftr_lxor_range; (done || lia). }
    assert (H3 : Z.shiftr (Z.lxor a b) P = 0).
    { rewrite (lxor_split a (K + ja * 2 ^ P) b), Z.shiftr_lxor, H1.
      rewrite (Z.lxor_comm _ b), H2. done. }
    rewrite Z.shiftr_div_pow2 in H3 by done.
    apply Z.div_small_iff in H3; lia. }
  exists ja. split; [done |]. split.
  { apply (slot_of_range K P 1); (done || lia). }
  split; [by destruct Hja as [-> | ->] |].
  split; [done |].
  assert (jb = 1 - ja) as -> by lia.
  replace (2 - ja) with (1 - ja + 1) by lia. done.
Qed.

(** The keys under the prefix of a node. *)
Definition in_range (key : Z) (n : key_vector) : Prop :=
  kv_key n <= key < kv_key n + 2 ^ (kv_pos n + kv_bits n).

(** A key outside the range of a node parts from the key of the node at
    or above the top of the node. *)
Lemma split_below a n :
  shape n -> 0 <= a < 2 ^ 32 -> ~ in_range a n ->
  a <> kv_key n /\ kv_pos n + kv_bits n <= Z.log2 (Z.lxor a (kv_key n)).
Proof.
  intros Hs Ha Hout.
  destruct (shape_bounds _ (shape_self _ Hs)) as (Hk & Hp & Hb & _ & _ & Hal).
  pose proof (pow2_pos (kv_pos n + kv_bits n) ltac:(lia)) as Hpp.
  assert (Hne : a <> kv_key n).
  { intros ->. apply Hout. unfold in_range. lia. }
  split; [done |].
  destruct (Z.le_gt_cases (kv_pos n + kv_bits n)
              (Z.log2 (Z.lxor a (kv_key n)))) as [|Hlt]; [done | exfalso].
  apply Hout. unfold in_range.
  apply (shiftr_lxor_range (kv_key n) a); try (done || lia).
  apply Z.shiftr_eq_0; [| done].
  apply Z.lxor_nonneg. lia.
Qed.

(** Two keys in a range of [2 ^ q] keys part below bit [q], and the node
    made for them lies in that range. *)
Lemma split_above a b S q :
  0 <= a < 2 ^ 32 -> 0 <= b < 2 ^ 32 -> a <> b ->
  0 <= q -> 0 <= S -> S mod 2 ^ q = 0 ->
  S <= a < S + 2 ^ q -> S <= b < S + 2 ^ q ->
  let P := Z.log2 (Z.lxor a b) in
  P + 1 <= q /\ S <= a - a mod 2 ^ (P + 1).
Proof.
  intros Ha Hb Hne Hq HS HSal Hra Hrb P.
  pose proof (lxor_bound a b 32 ltac:(lia) Ha Hb) as Hd.
  assert (Hd0 : 0 < Z.lxor a b).
  { destruct (Z.eq_dec (Z.lxor a b) 0) as [H0|]; [| lia].
    by apply Z.lxor_eq in H0. }
  pose proof (Z.log2_spec _ Hd0) as Hlog. fold P in Hlog.
  pose proof (Z.log2_nonneg (Z.lxor a b)) as HP0. fold P in HP0.
  assert (H3 : Z.shiftr (Z.lxor a b) q = 0).
  { rewrite (lxor_split a S b), Z.shiftr_lxor.
    rewrite (proj2 (shiftr_lxor_range S a q Hq HS ltac:(lia) HSal) Hra).
    rewrite (Z.lxor_comm S b).
    rewrite (proj2 (shiftr_lxor_range S b q Hq HS ltac:(lia) HSal) Hrb).
    done. }
  assert (HPq : P + 1 <= q).
  { destruct (Z.le_gt_cases (P + 1) q); [done | exfalso].
    rewrite Z.shiftr_div_pow2 in H3 by done.
    apply Z.div_small_iff in H3; [| pose proof (pow2_pos q Hq); lia].
    pose proof (pow2_le_mono q P ltac:(lia)). lia. }
  split; [done |].
  pose proof (pow2_pos (P + 1) ltac:(lia)) as Hpp.
  assert (HSp : S mod 2 ^ (P + 1) = 0).
  { apply (mod_pow2_weaken _ q); [lia | done]. }
  apply Z.mod_divide in HSp; [| lia]. destruct HSp as [x ->].
  pose proof (Z.div_mod a (2 ^ (P + 1)) ltac:(lia)).
  pose proof (Z.mod_pos_bound a (2 ^ (P + 1)) Hpp).
  assert (x <= a / 2 ^ (P + 1)) by (apply Z.div_le_lower_bound; lia).
  nia.
Qed.

(** The key of a node is a multiple of every power of two that a key in
    its range is a multiple of. *)
Lemma range_aligned base key m s :
  0 <= m -> 0 <= s -> 0 <= base -> base mod 2 ^ m = 0 ->
  base <= key < base + 2 ^ m -> key mod 2 ^ s = 0 -> base mod 2 ^ s = 0.
Proof.
  intros Hm Hs Hb Hal Hr Hk.
  destruct (Z.le_gt_cases s m) as [Hle|Hgt].
  - by apply (mod_pow2_weaken _ m).
  - assert (Hkm : key mod 2 ^ m = 0)
      by (apply (mod_pow2_weaken _ s); [lia | done]).
    pose proof (pow2_pos m Hm).
    assert (key = base + 0 * 2 ^ m); [| by replace base with key by lia].
    apply (aligned_in_slot base key (2 ^ m) 0); (done || lia).
Qed.

(** ** A new leaf *)

Lemma bind_ret_l {A B} (a : A) (k : A -> M B) w : bind (ret a) k w = k a w.
Proof. done. Qed.

Lemma bind_assoc {A B C} (m : M A) (k1 : A -> M B) (k2 : B -> M C) w :
  bind (bind m k1) k2 w = bind m (fun a => bind (k1 a) k2) w.
Proof. unfold bind. by destruct (m w) as [[a w1]|]. Qed.

Lemma set_yesde_same t p n : get_yesde t p = Some n -> set_yesde t p n = Some t.
Proof.
  revert n. induction p as [|i p IH]; intros n Hn.
  - simpl in *. congruence.
  - rewrite get_yesde_cons in Hn. rewrite set_yesde_cons.
    destruct (get_yesde t p) as [tp|] eqn:Htp; [| done].
    cbn [mbind option_bind] in *.
    replace (set_child tp i (Some n)) with tp; [by apply IH |].
    apply get_child_Some in Hn as [Hi Hl].
    destruct tp as [|k q b s e f c]; [done |]. simpl in *.
    destruct (Z.ltb_spec i 0); [done |].
    by rewrite list_insert_id.
Qed.

(** The slot of a key in a node whose range holds the key. *)
Lemma in_range_index key n :
  shape n -> IS_TNODE n = true -> 0 <= key < 2 ^ 32 -> in_range key n ->
  0 <= get_index key n < 2 ^ kv_bits n /\
  Z.shiftr (Z.lxor key (kv_key n)) (kv_pos n) = get_index key n.
Proof.
  intros Hs Ht Hk Hr.
  destruct (shape_bounds _ (shape_self _ Hs)) as (Hk0 & Hp & Hb & _ & _ & Hal).
  rewrite get_index_cindex. unfold get_cindex. split; [| done].
  apply shiftr_index_small; try done.
  - apply Z.lxor_nonneg. lia.
  - apply shiftr_lxor_range; (done || lia).
Qed.

Lemma get_index_root key t :
  is_root t -> 0 <= key < 2 ^ 32 -> get_index key t = 0.
Proof.
  intros (e & f & c & ->) Hk. rewrite get_index_cindex. unfold get_cindex.
  simpl. rewrite Z.lxor_0_r. apply Z.shiftr_eq_0; [lia |].
  destruct (Z.eq_dec key 0) as [->|]; [done |].
  apply Z.log2_lt_pow2; lia.
Qed.

(** The last steps of [fib_insert_yesde]: the suffix length of the new
    route is pushed up from [tp], the leaf is put into its empty slot,
    and the table is rebalanced. *)
Lemma attach_leaf w tp tpn key slen l :
  shape_trie (kv w) -> get_yesde (kv w) tp = Some tpn ->
  tp = [] \/ IS_TNODE tpn = true -> (tp <> [] -> in_range key tpn) ->
  0 <= key < 2 ^ 32 -> 0 <= slen <= KEYLENGTH -> key mod 2 ^ slen = 0 ->
  get_child tpn (get_index key tpn) = None ->
  exists w',
    (yesde_push_suffix tp slen ;;;
     put_child_root tp key (Some (Leaf key slen l)) ;;;
     trie_rebalance tp ;;; ret 0) w = Some (0, w') /\
    shape_trie (kv w') /\
    forall x, leaf_of (kv w') x <-> x = Leaf key slen l \/ leaf_of (kv w) x.
Proof.
  intros Ht Htp Hint Hr Hk Hsl Hal Hnone.
  destruct (push_spec slen Hsl tp w (kv w) tpn tpn Ht Htp)
    as (w1 & Hrun1 & _ & Ht1 & Hlv1 & Htp1).
  { by apply set_yesde_same. }
  { apply same_frame_refl. }
  { intros ->. simpl in Htp. by injection Htp as <-. }
  { intros Hne. destruct Hint as [|Hint]; [done |]. split; [done |].
    pose proof (shape_trie_get _ _ _ Ht Htp Hne) as Hs.
    destruct (shape_bounds _ (shape_self _ Hs))
      as (Hk0 & Hp0 & Hb0 & Hpb0 & Hsl0 & Hal0).
    pose proof (shape_pos_slen _ (shape_self _ Hs) Hint) as Hps.
    apply set_slen_shape; try done.
    - lia.
    - destruct (Z.max_spec (kv_slen tpn) slen) as [[_ ->]|[_ ->]].
      + apply (range_aligned _ key (kv_pos tpn + kv_bits tpn));
          try (done || lia). by apply Hr.
      + by destruct (shape_self _ Hs) as (_ & ? & _).
    - intros i c Hc.
      destruct (shape_child_facts _ _ _ Hs Hc) as (_ & _ & _ & ? & _). lia. }
  bind_step Hrun1.
  set (tpn1 := set_slen (Z.max (kv_slen tpn) slen) tpn) in *.
  assert (Hint1 : tp = [] \/ IS_TNODE tpn1 = true).
  { destruct Hint as [|Hint]; [by left | right].
    unfold tpn1. by rewrite is_tyesde_set_slen. }
  assert (Hidx : get_index key tpn1 = get_index key tpn).
  { unfold tpn1. by destruct tpn. }
  assert (Htrie : IS_TRIE tpn1 = true -> get_index key tpn1 = 0).
  { intros Hroot.
    pose proof (proj1 (shape_is_trie _ _ _ Ht1 Htp1 Hint1) Hroot) as ->.
    simpl in Htp1. injection Htp1 as Heq.
    apply get_index_root; [| done]. rewrite <- Heq. by destruct Ht1. }
  set (i := get_index key tpn1).
  destruct (put_child_root_spec w1 tp tpn1 key (Some (Leaf key slen l)) i
              Ht1 Htp1 Hint1)
    as (w2 & tpn2 & Hrun2 & _ & Ht2 & Htp2 & Hfr2 & _ & _ & _ & Hlv2 & Hlv2').
  { unfold i. destruct (IS_TRIE tpn1) eqn:Hroot; [| done].
    by rewrite Htrie. }
  { intros Hne. destruct Hint as [|Hint]; [done |].
    pose proof (shape_trie_get _ _ _ Ht Htp Hne) as Hs.
    unfold i. rewrite Hidx.
    replace (kv_bits tpn1) with (kv_bits tpn) by (by destruct tpn).
    by destruct (in_range_index key tpn Hs Hint Hk (Hr Hne)). }
  { intros c [= <-]. split.
    - apply shape_leaf; (done || lia).
    - intros Hne. destruct Hint as [|Hint]; [done |].
      pose proof (shape_trie_get _ _ _ Ht Htp Hne) as Hs.
      destruct (shape_bounds _ (shape_self _ Hs)) as (_ & Hp0 & _).
      cbn [kv_pos kv_bits kv_key kv_slen].
      split; [by unfold tpn1; destruct tpn; simpl in *; lia |].
      split; [done |].
      unfold tpn1. rewrite kv_slen_set_slen. lia. }
  bind_step Hrun2.
  destruct (trie_rebalance_spec tp w2 tpn2 Ht2 Htp2)
    as (w3 & Hrun3 & Ht3 & Hlv3).
  { destruct Hint1 as [|Hint1]; [by left | right].
    by rewrite (same_frame_tyesde _ _ Hfr2). }
  bind_step Hrun3.
  exists w3. split; [done |]. split; [done |].
  intros x. rewrite Hlv3, Hlv2, <- Hlv1, (Hlv2' x).
  assert (Hn1 : get_child tpn1 i = None).
  { unfold i, tpn1. rewrite get_child_set_slen. fold tpn1. by rewrite Hidx. }
  rewrite Hn1. split.
  - intros [(c & [= <-] & Hx)|Ho]; [left; by apply leaf_of_leaf | by right; right].
  - intros [->|[(c & [=] & _)|Ho]]; [left | by right].
    eexists. split; [done |]. by apply leaf_of_leaf.
Qed.

(** [fib_insert_yesde]: the table gets the leaf of the new route, or
    stays as it is when memory runs out. *)
Lemma fib_insert_yesde_spec w tp tpn new key :
  shape_trie (kv w) -> get_yesde (kv w) tp = Some tpn ->
  tp = [] \/ IS_TNODE tpn = true -> (tp <> [] -> in_range key tpn) ->
  0 <= key < 2 ^ 32 -> 0 <= fa_slen new <= KEYLENGTH ->
  key mod 2 ^ fa_slen new = 0 ->
  (forall c, get_child tpn (get_index key tpn) = Some c -> ~ in_range key c) ->
  exists e w',
    fib_insert_yesde tp new key w = Some (e, w') /\ shape_trie (kv w') /\
    ((e = 0 /\
      forall x, leaf_of (kv w') x <->
                x = Leaf key (fa_slen new) [new] \/ leaf_of (kv w) x) \/
     (e = - ENOMEM /\ kv w' = kv w)).
Proof.
  intros Ht Htp Hint Hr Hk Hsl Hal Hout.
  unfold fib_insert_yesde.
  destruct (kalloc_total w) as (ok & w1 & Hka).
  pose proof (kalloc_Some _ _ _ Hka) as Hkv1.
  assert (Hleaf : leaf_new key new w
                  = Some (if ok then Some (Leaf key (fa_slen new) [new])
                          else None, w1)).
  { unfold leaf_new. rewrite (bind_eq _ _ _ _ _ Hka). by destruct ok. }
  bind_step Hleaf.
  destruct ok.
  2: { exists (- ENOMEM), w1. split; [done |].
       split; [by rewrite Hkv1 |]. by right. }
  rewrite <- Hkv1 in Ht, Htp.
  bind_step (deref_eq _ _ _ Htp).
  set (i := get_index key tpn) in *.
  assert (Hi : (if IS_TRIE tpn then 0 else i) = i).
  { destruct (IS_TRIE tpn) eqn:Hroot; [| done].
    pose proof (proj1 (shape_is_trie _ _ _ Ht Htp Hint) Hroot) as ->.
    simpl in Htp. injection Htp as Heq. symmetry.
    apply get_index_root; [| done]. rewrite <- Heq. by destruct Ht. }
  destruct (get_child tpn i) as [nn|] eqn:Hnn; cbv beta iota.
  2: { (* an empty slot *)
    rewrite bind_ret_l.
    destruct (attach_leaf w1 tp tpn key (fa_slen new) [new] Ht Htp Hint Hr
                Hk Hsl Hal Hnn) as (w' & Hrun & Ht' & Hlv).
    exists 0, w'. split; [done |]. split; [done |]. left. split; [done |].
    intros x. by rewrite Hlv, Hkv1. }
  (* a node in the slot: a new internal node takes it and the leaf *)
  assert (Hnc : get_yesde (kv w1) (i :: tp) = Some nn).
  { by rewrite get_yesde_cons, Htp. }
  pose proof (shape_trie_get _ _ _ Ht Hnc ltac:(done)) as Hsn.
  destruct (shape_bounds _ (shape_self _ Hsn))
    as (Hkn & Hpn & Hbn & Hpbn & Hsln & Haln).
  destruct (split_below key nn Hsn Hk (Hout nn eq_refl)) as (Hne & Hlow).
  destruct (split_bit key (kv_key nn) Hk Hkn Hne)
    as (HP & ja & Hja & Hidx & Hxor & Hra & Hrb).
  unfold __fls.
  set (P := Z.log2 (Z.lxor key (kv_key nn))) in *.
  set (K := key - key mod 2 ^ (P + 1)) in *.
  pose proof (pow2_pos P ltac:(lia)) as Hpp.
  assert (Hp2 : 2 ^ (P + 1) = 2 * 2 ^ P) by (rewrite Z.pow_add_r; lia).
  destruct (floor_range key (P + 1) ltac:(lia) ltac:(lia))
    as (HKal & HK & HKa). fold K in HKal, HK, HKa.
  destruct (tyesde_new_shape key P 1 w1) as (r & w2 & Hnew & Hkv2 & Hrn);
    [lia | lia | unfold KEYLENGTH; lia | done |].
  rewrite bind_assoc. bind_step Hnew.
  destruct r as [tn|].
  2: { rewrite bind_ret_l.
       exists (- ENOMEM), w2. split; [done |].
       split; [by rewrite Hkv2 |]. right. split; [done | congruence]. }
  destruct (Hrn _ eq_refl) as (Hstn & Hktn & Hptn & Hbtn & Hsltn & Hetn).
  fold K in Hktn.
  assert (Httn : IS_TNODE tn = true) by (unfold IS_TNODE; by rewrite Hbtn).
  assert (Hgi : get_index key tn = ja).
  { rewrite get_index_cindex. unfold get_cindex. by rewrite Hktn, Hptn. }
  rewrite bind_assoc, Hgi, Hxor.
  destruct (built_put tn K P 1 (Z.max P (kv_slen nn)) (1 - ja) (Some nn))
    as (tn' & Hput & Hbt & Hget & Hother & Hlvt).
  { split; [done |]. split; [done |]. split; [done |]. split; [done |].
    split; [done |]. lia. }
  { change (2 ^ 1) with 2. lia. }
  { apply Hetn. }
  { intros c [= <-]. split; [done |]. split; [lia |]. split; [lia |].
    replace (1 - ja + 1) with (2 - ja) by lia. done. }
  destruct Hbt as (Hstn' & Httn' & Hktn' & Hptn' & Hbtn' & Hsltn').
  rewrite <- Hkv2 in Ht, Htp.
  destruct (put_child_root_spec w2 tp tpn key (Some tn') i Ht Htp Hint)
    as (w3 & tpn3 & Hrun3 & _ & Ht3 & Htp3 & Hfr3 & Hget3 & _ & _ & Hlv3 & Hlv3').
  { done. }
  { intros Hne'. destruct Hint as [|Hint]; [done |].
    pose proof (shape_trie_get _ _ _ Ht Htp Hne') as Hs.
    by destruct (in_range_index key tpn Hs Hint Hk (Hr Hne')). }
  { intros c [= <-]. split; [done |]. intros Hne'.
    destruct Hint as [|Hint]; [done |].
    pose proof (shape_trie_get _ _ _ Ht Htp Hne') as Hs.
    destruct (shape_bounds _ (shape_self _ Hs))
      as (Hk0 & Hp0 & Hb0 & Hpb0 & Hsl0 & Hal0).
    pose proof (shape_pos_slen _ (shape_self _ Hs) Hint) as Hps.
    destruct (in_range_index key tpn Hs Hint Hk (Hr Hne')) as (Hir & Hix).
    fold i in Hir, Hix.
    pose proof (range_of_slot (kv_key tpn) (kv_pos tpn) (kv_bits tpn) key i
                  Hp0 Hb0 ltac:(lia) ltac:(lia) Hal0 Hir Hix) as Hrk.
    destruct (shape_child_facts _ _ _ Hs Hnn) as (_ & _ & _ & Hslnn & Hrnn).
    pose proof (pow2_pos (kv_pos tpn) Hp0) as Hpq.
    destruct (split_above key (kv_key nn) (kv_key tpn + i * 2 ^ kv_pos tpn)
                (kv_pos tpn) Hk Hkn Hne Hp0) as (HPq & HSK);
      [ nia | | lia | lia |].
    { rewrite Z.mod_add by lia.
      apply (mod_pow2_weaken _ (kv_pos tpn + kv_bits tpn)); [lia | done]. }
    fold P in HPq, HSK. fold K in HSK.
    rewrite Hptn', Hbtn', Hktn'.
    split; [lia |]. split; [| lia].
    apply (slot_of_range _ _ (kv_bits tpn)); try (done || lia). }
  rewrite (lift_bind_run _ _ tn') by done.
  rewrite bind_assoc. bind_step Hrun3.
  rewrite bind_ret_l, Hi.
  assert (Htn3 : get_yesde (kv w3) (i :: tp) = Some tn').
  { by rewrite get_yesde_cons, Htp3. }
  destruct (attach_leaf w3 (i :: tp) tn' key (fa_slen new) [new] Ht3 Htn3)
    as (w' & Hrun & Ht' & Hlv); try done.
  { by right. }
  { intros _. unfold in_range. rewrite Hktn', Hptn', Hbtn'. lia. }
  { rewrite get_index_cindex. unfold get_cindex.
    rewrite Hktn', Hptn', Hidx, Hother by lia. apply Hetn. }
  exists 0, w'. split; [done |]. split; [done |]. left. split; [done |].
  intros x. rewrite Hlv, Hlv3, <- Hkv1, <- Hkv2, (Hlv3' x), Hnn.
  split.
  - intros [->|[(c & [= <-] & Hx)|Ho]]; [by left | | by right; right].
    apply Hlvt in Hx as [(c & [= <-] & Hx)|Hx].
    + right. left. by exists nn.
    + by apply no_leaf_of_empty in Hx.
  - intros [->|[(c & [= <-] & Hx)|Ho]]; [by left | | by right; right].
    right. left. exists tn'. split; [done |]. apply Hlvt. left. by exists nn.
Qed.

(** ** A new alias in the leaf of the key *)

(** [fib_insert_alias] on the leaf of the key: the leaf gets the new
    alias and a suffix length that covers it, which is pushed up. *)
Lemma fib_insert_alias_leaf_spec w c tp key s lst new fa :
  shape_trie (kv w) -> get_yesde (kv w) (c :: tp) = Some (Leaf key s lst) ->
  0 <= fa_slen new <= KEYLENGTH -> key mod 2 ^ fa_slen new = 0 ->
  exists w',
    fib_insert_alias tp (Some (c :: tp)) new fa key w = Some (0, w') /\
    shape_trie (kv w') /\
    forall x, leaf_of (kv w') x <->
              x = Leaf key (Z.max s (fa_slen new))
                       (fib_insert_alias_list new fa lst) \/
              leaf_outside (kv w) (c :: tp) x.
Proof.
  intros Ht Hl Hsl Hal.
  pose proof (shape_trie_get _ _ _ Ht Hl ltac:(done)) as Hsl0.
  destruct (shape_bounds _ (shape_self _ Hsl0)) as (Hk & _ & _ & _ & Hs & _).
  pose proof (shape_self _ Hsl0) as (_ & Hal0 & _).
  unfold aligned in Hal0. cbn [kv_key kv_slen] in Hal0, Hk, Hs.
  unfold fib_insert_alias. bind_step (deref_eq _ _ _ Hl).
  cbn [kv_leaf set_leaf kv_slen]. cbv zeta.
  set (lst' := fib_insert_alias_list new fa lst).
  destruct (store_shape (kv w) (c :: tp) (Leaf key s lst) (Leaf key s lst')
              Ht Hl ltac:(done)) as (t1 & Hset1 & Ht1).
  { by apply shape_leaf. }
  { done. }
  { by apply (parent_slen_ok _ _ _ Ht Hl). }
  bind_step (store_eq _ _ _ _ Hset1).
  set (w1 := World (kmem w) t1).
  destruct (Z.ltb_spec s (fa_slen new)) as [Hlt|Hge].
  2: { rewrite bind_ret_l. exists w1. split; [done |]. split; [done |].
       intros x. rewrite Z.max_l by lia.
       destruct (store_leaves _ _ _ _ _ Hl Hset1) as [_ H2].
       change (kv w1) with t1. by rewrite (H2 x), leaf_of_leaf. }
  rewrite Z.max_r by lia. cbn [set_slen].
  set (N := Leaf key (fa_slen new) lst').
  destruct (slot_facts _ _ _ _ Ht Hl) as (tpn & Htp & _).
  assert (HsN : shape N) by by apply shape_leaf.
  destruct (pending_parent (kv w) c tp _ tpn N (fa_slen new) Ht Hl Htp HsN)
    as (Hfrp & HgetN & Hrootp & Hinp); [done | done | lia |].
  set (np := set_child tpn c (Some N)) in *.
  destruct (set_yesde_valid (kv w) tp tpn np Htp) as (t2 & Hset2 & Hget2).
  assert (HsetN0 : set_yesde (kv w) (c :: tp) N = Some t2).
  { by rewrite set_yesde_cons, Htp. }
  assert (HsetN : set_yesde (kv w1) (c :: tp) N = Some t2).
  { change (kv w1) with t1.
    by rewrite (set_yesde_twice _ _ _ _ N _ Hl Hset1). }
  rewrite bind_assoc. bind_step (store_eq _ _ _ _ HsetN).
  set (w2 := World (kmem w1) t2).
  destruct (push_spec (fa_slen new) Hsl tp w2 (kv w) tpn np Ht Htp Hset2
              Hfrp Hrootp Hinp) as (w3 & Hrun & _ & Ht3 & Hlv3 & _).
  bind_step Hrun.
  exists w3. split; [done |]. split; [done |].
  intros x. rewrite Hlv3. change (kv w2) with t2.
  destruct (store_leaves _ _ _ _ _ Hl HsetN0) as [_ H2].
  rewrite (H2 x). unfold N. by rewrite leaf_of_leaf.
Qed.

(** ** What the search for the key leaves to [fib_table_insert] *)

Lemma key_matches_range key n :
  shape n -> 0 <= key < 2 ^ 32 ->
  key_matches key n = true <-> in_range key n.
Proof.
  intros Hs Hk.
  destruct (shape_bounds _ (shape_self _ Hs)) as (Hk0 & Hp & Hb & _ & _ & Hal).
  unfold key_matches, in_range, get_cindex. rewrite Z.ltb_lt.
  assert (Hx : 0 <= Z.lxor key (kv_key n)) by (apply Z.lxor_nonneg; lia).
  rewrite <- (shiftr_lxor_range (kv_key n) key (kv_pos n + kv_bits n))
    by (done || lia).
  split.
  - intros Hlt. apply shiftr_index_zero; try done.
    split; [by apply Z.shiftr_nonneg | done].
  - intros H0. by apply shiftr_index_small.
Qed.

Lemma find_facts t key :
  inv t -> 0 <= key < 2 ^ 32 ->
  exists tp r tpn,
    fib_find_yesde t key = Some (tp, r) /\ get_yesde t tp = Some tpn /\
    (tp = [] \/ IS_TNODE tpn = true) /\ (tp <> [] -> in_range key tpn) /\
    (r = None ->
       (forall c, get_child tpn (get_index key tpn) = Some c ->
                  ~ in_range key c) /\
       (forall x, leaf_of t x -> kv_key x <> key)) /\
    (forall lp, r = Some lp ->
       exists s l, lp = get_index key tpn :: tp /\
                   get_yesde t lp = Some (Leaf key s l)).
Proof.
  intros Hinv Hk. pose proof (inv_wf t Hinv) as Hwf.
  destruct Hinv as [Ht Hleaves].
  pose proof Ht as [(e & f & c0 & Hroot) Hch].
  destruct (fib_find_yesde_loop_spec t key Hwf Hk (S (height t)) [] 0 t)
    as (tp & r & Hfind & Hleaf & Hall & Hpath & Hdeep); try done.
  { symmetry. apply get_index_root; [by exists e, f, c0 | done]. }
  { lia. }
  { intros p s l Hp.
    destruct p as [|i p] using rev_ind; [by rewrite Hroot in Hp |].
    exists p. rewrite get_yesde_app in Hp. simpl in Hp.
    destruct (get_child t i) as [x|] eqn:Hx; [| done].
    by rewrite (is_root_child t i x (proj1 Ht) Hx). }
  assert (Htpn : exists tpn, get_yesde t tp = Some tpn /\
            (tp = [] \/ IS_TNODE tpn = true) /\
            (tp <> [] -> in_range key tpn)).
  { destruct tp as [|i q].
    - exists t. split; [done |]. split; [by left | done].
    - destruct Hpath as (_ & nq & n & Hnq & -> & Hn & Hm & Htn).
      exists n. split; [by rewrite get_yesde_cons, Hnq |].
      split; [by right |]. intros _.
      apply key_matches_range; [| done | done].
      apply (shape_trie_get t (get_index key nq :: q)); [done | | done].
      by rewrite get_yesde_cons, Hnq. }
  destruct Htpn as (tpn & Htp & Hint & Hr).
  exists tp, r, tpn. split; [done |]. split; [done |]. split; [done |].
  split; [done |]. split.
  - intros ->. split.
    + intros c Hc Hin.
      assert (Hgc : get_yesde t (get_index key tpn :: tp) = Some c).
      { by rewrite get_yesde_cons, Htp. }
      pose proof (shape_trie_get _ _ _ Ht Hgc ltac:(done)) as Hsc.
      destruct (IS_TNODE c) eqn:Htc.
      * apply (Hdeep (get_index key tpn)). split; [done |].
        exists tpn, c. split; [done |]. split; [done |]. split; [done |].
        split; [| done]. by apply key_matches_range.
      * destruct (shape_is_leaf _ (shape_self _ Hsc) Htc) as (s & l & Hcl).
        rewrite Hcl in Hin. unfold in_range in Hin. simpl in Hin.
        assert (kv_key c = key) as Hkc by lia.
        rewrite Hcl, Hkc in Hgc. by specialize (Hall _ _ _ Hgc).
    + intros x [(k & s & l & ->) (p & Hp)] Hkx. simpl in Hkx. subst k.
      by specialize (Hall _ _ _ Hp).
  - intros lp Hlp. destruct (Hleaf lp Hlp) as (i & s & l & -> & Hl).
    exists s, l. split; [| done]. f_equal.
    destruct (slot_facts _ _ _ _ Ht Hl) as (tpn' & Htp' & _ & _ & _ & Hi & _).
    rewrite Htp in Htp'. injection Htp' as <-.
    cbn [kv_key] in Hi. rewrite Hi.
    destruct (IS_TRIE tpn) eqn:Htrie; [| done].
    pose proof (proj1 (shape_is_trie _ _ _ Ht Htp Hint) Htrie) as ->.
    simpl in Htp. injection Htp as <-. symmetry.
    apply get_index_root; [by exists e, f, c0 | done].
Qed.

(** ** The table after an insertion *)

(** The leaves of [t'] are those of [t] but for the leaf of [key], which
    is [L']. *)
Definition leaf_replaced (t t' : key_vector) (key : Z) (L' : key_vector)
  : Prop :=
  forall x, leaf_of t' x <-> x = L' \/ (leaf_of t x /\ kv_key x <> key).

Lemma leaf_replaced_inv t t' key L' :
  inv t -> shape_trie t' -> leaf_replaced t t' key L' -> leaf_ok L' ->
  inv t'.
Proof.
  intros [_ Hl] Ht' Hrep Hok. split; [done |].
  intros x [->|[Hx _]]%Hrep; [done | by apply Hl].
Qed.

(** The leaves elsewhere than behind the pointer to the leaf of [key] are
    the leaves of the other keys. *)
Lemma leaf_outside_key t lp key s l x :
  wf_trie t = true -> get_yesde t lp = Some (Leaf key s l) ->
  leaf_outside t lp x <-> leaf_of t x /\ kv_key x <> key.
Proof.
  intros Hwf Hl. split.
  - intros [Hx (p & Hp & Hns)]. split; [split; [done | by exists p] |].
    intros Hk. destruct Hx as (k' & s' & l' & ->). simpl in Hk. subst k'.
    apply Hns. exists []. simpl.
    by apply (leaf_unique t Hwf p lp key s' l' s l).
  - intros [[Hx (p & Hp)] Hk]. split; [done |]. exists p. split; [done |].
    intros (q & ->). rewrite get_yesde_app, Hl in Hp. simpl in Hp.
    pose proof Hp as ->%get_yesde_leaf. simpl in Hp. injection Hp as <-.
    done.
Qed.

Lemma elem_of_hlist_add_at i new l x :
  x ∈ hlist_add_at i new l <-> x = new \/ x ∈ l.
Proof.
  unfold hlist_add_at. rewrite elem_of_app, elem_of_cons.
  rewrite <- (take_drop i l) at 3. rewrite elem_of_app. tauto.
Qed.

Lemma elem_of_insert_alias_list new fa l x :
  x ∈ fib_insert_alias_list new fa l <-> x = new \/ x ∈ l.
Proof. destruct fa; apply elem_of_hlist_add_at. Qed.

(** The list [l'] that the leaf of [key] holds after an insert of [new]
    with the netlink flags [flags] into the table [t]: [new] alone when
    [t] had no leaf of the key; otherwise the list of that leaf with
    [new] added at some place -- both under [NLM_F_CREATE] only --, or,
    under [NLM_F_REPLACE] only, with [new] in the place of one alias or
    as it was (the route is there already). *)
Definition list_after_insert (t : key_vector) (key flags : Z)
    (new : fib_alias) (l' : list fib_alias) : Prop :=
  ((forall x, leaf_of t x -> kv_key x <> key) /\ l' = [new] /\
   flag_set flags NLM_F_CREATE = true) \/
  exists s lst,
    leaf_of t (Leaf key s lst) /\
    ((exists i, l' = hlist_add_at i new lst /\
                flag_set flags NLM_F_CREATE = true) \/
     (exists i, (i < length lst)%nat /\ l' = hlist_replace i new lst /\
                flag_set flags NLM_F_REPLACE = true) \/
     (l' = lst /\ flag_set flags NLM_F_REPLACE = true)).

Section insert_new.
Context (net : collaborators) (tb : fib_table) (cfg : fib_config).
Context (fi : fib_info).

Let key := fc_dst cfg.
Let slen := u8 (KEYLENGTH - fc_dst_len cfg).

(** What a return of 0 from [fib_table_insert] says of the table: the
    leaf of the key holds an alias of the route with the info of the
    request, and the other leaves are as they were. *)
Definition inserted (t t' : key_vector) : Prop :=
  exists L' new,
    kv_key L' = key /\ new ∈ kv_leaf L' /\
    of_route new slen (tb_tb_id tb) (fc_tos cfg) (fib_priority fi) /\
    fa_info new = fi /\ fa_type new = fc_type cfg /\
    leaf_replaced t t' key L' /\
    list_after_insert t key (fc_nlflags cfg) new (kv_leaf L').

Lemma fib_table_insert_new_spec tp l event fa w tpn :
  inv (kv w) -> 0 <= key < 2 ^ 32 -> 0 <= slen <= KEYLENGTH ->
  key mod 2 ^ slen = 0 ->
  get_yesde (kv w) tp = Some tpn -> tp = [] \/ IS_TNODE tpn = true ->
  (tp <> [] -> in_range key tpn) ->
  (l = None ->
     (forall c, get_child tpn (get_index key tpn) = Some c ->
                ~ in_range key c) /\
     (forall x, leaf_of (kv w) x -> kv_key x <> key)) ->
  (forall lp, l = Some lp ->
     exists s lst, lp = get_index key tpn :: tp /\
       get_yesde (kv w) lp = Some (Leaf key s lst) /\
       forall new,
         of_route new slen (tb_tb_id tb) (fc_tos cfg) (fib_priority fi) ->
         StronglySorted alias_order (fib_insert_alias_list new fa lst)) ->
  exists e tb' w',
    fib_table_insert_new net tb cfg fi tp l event fa w = Some ((e, tb'), w') /\
    inv (kv w') /\
    ((e <> 0 /\ kv w' = kv w) \/ (e = 0 /\ inserted (kv w) (kv w'))).
Proof.
  intros Hinv Hk Hsl Hal Htp Hint Hr Hnone Hsome.
  unfold fib_table_insert_new. fold key slen.
  destruct (flag_set (fc_nlflags cfg) NLM_F_CREATE) eqn:Hcreate; cbn [negb].
  2: { exists (- ENOENT), tb, w. split; [done |]. split; [done |]. by left. }
  destruct (kalloc_total w) as (ok & w1 & Hka).
  pose proof (kalloc_Some _ _ _ Hka) as Hkv1.
  bind_step Hka. destruct ok; cbn [negb].
  2: { exists (- ENOBUFS), tb, w1. split; [done |].
       split; [by rewrite Hkv1 |]. by left. }
  set (new_fa := {| fa_info := fi; fa_tos := fc_tos cfg;
                    fa_type := fc_type cfg; fa_state := 0; fa_slen := slen;
                    tb_id := tb_tb_id tb; fa_default := -1 |}).
  assert (Hroute : of_route new_fa slen (tb_tb_id tb) (fc_tos cfg)
                     (fib_priority fi)) by done.
  destruct (Z.eqb_spec (call_fib_entry_yestifiers net event key
                          (fc_dst_len cfg) new_fa) 0) as [_|Herr];
    cbn [negb].
  2: { eexists _, tb, w1. split; [done |]. split; [by rewrite Hkv1 |].
       by left. }
  rewrite <- Hkv1 in Hinv, Htp, Hnone, Hsome |- *.
  pose proof Hinv as [Ht Hleaves].
  destruct l as [lp|].
  - (* the leaf of the key gets the alias *)
    destruct (Hsome lp eq_refl) as (s & lst & -> & Hl & Hsorted).
    destruct (fib_insert_alias_leaf_spec w1 _ tp key s lst new_fa fa Ht Hl)
      as (w2 & Hrun & Ht2 & Hlv2); [done | done |].
    bind_step Hrun. rewrite Z.eqb_refl. cbn [negb].
    set (L' := Leaf key (Z.max s (fa_slen new_fa))
                    (fib_insert_alias_list new_fa fa lst)) in *.
    assert (Hrep : leaf_replaced (kv w1) (kv w2) key L').
    { intros x. rewrite (Hlv2 x).
      by rewrite (leaf_outside_key _ _ _ _ _ x (inv_wf _ Hinv) Hl). }
    assert (Hok : leaf_ok L').
    { assert (Hold : leaf_ok (Leaf key s lst)).
      { apply Hleaves. split; [by eauto |]. by eexists. }
      destruct Hold as (_ & Hb & _). cbn [kv_leaf kv_slen kv_key] in Hb.
      split; [| split].
      - unfold L'. cbn [kv_leaf]. destruct fa; unfold fib_insert_alias_list,
          hlist_add_at; by destruct (take _ lst).
      - intros x [->|Hx]%elem_of_insert_alias_list;
          cbn [kv_slen kv_key L' fa_slen new_fa].
        + split; [lia | done].
        + destruct (Hb x Hx). split; [lia | done].
      - by apply Hsorted. }
    eexists 0, _, w2. split; [done |].
    split; [by apply (leaf_replaced_inv (kv w1) _ key L') |].
    right. split; [done |]. exists L', new_fa.
    split; [done |]. split; [apply elem_of_insert_alias_list; by left |].
    split; [done |]. split; [done |]. split; [done |]. split; [done |].
    right. exists s, lst. split; [split; [by eauto | by eexists] |].
    left. unfold L'. cbn [kv_leaf]. destruct fa; by eexists.
  - (* a new leaf *)
    destruct (Hnone eq_refl) as (Hout & Hfresh).
    cbn [fib_insert_alias].
    destruct (fib_insert_yesde_spec w1 tp tpn new_fa key Ht Htp Hint Hr Hk)
      as (e & w2 & Hrun & Ht2 & Hres); [done | done | done |].
    bind_step Hrun.
    destruct Hres as [[-> Hlv2]|[-> Hkv2]].
    + rewrite Z.eqb_refl. cbn [negb].
      set (L' := Leaf key (fa_slen new_fa) [new_fa]) in *.
      assert (Hrep : leaf_replaced (kv w1) (kv w2) key L').
      { intros x. rewrite (Hlv2 x). split.
        - intros [->|Hx]; [by left | right]. split; [done | by apply Hfresh].
        - intros [->|[Hx _]]; [by left | by right]. }
      assert (Hok : leaf_ok L').
      { split; [done |]. split.
        - intros x ->%list_elem_of_singleton.
          cbn [kv_slen kv_key L' fa_slen new_fa]. split; [lia | done].
        - repeat constructor. }
      eexists 0, _, w2. split; [done |].
      split; [by apply (leaf_replaced_inv (kv w1) _ key L') |].
      right. split; [done |]. exists L', new_fa.
      split; [done |]. split; [by apply list_elem_of_singleton |].
      split; [done |]. split; [done |]. split; [done |]. split; [done |].
      left. by repeat split.
    + exists (- ENOMEM), tb, w2. split; [done |].
      split; [by rewrite Hkv2 |]. left. split; [done | by rewrite Hkv2].
Qed.
End insert_new.

(** A valid key and prefix length: the suffix length is in range and the
    key is a multiple of the size of the suffix. *)
Lemma valid_key_facts key plen :
  0 <= key < 2 ^ 32 -> 0 <= plen -> fib_valid_key_len key plen = true ->
  u8 (KEYLENGTH - plen) = KEYLENGTH - plen /\
  0 <= KEYLENGTH - plen <= KEYLENGTH /\
  key mod 2 ^ (KEYLENGTH - plen) = 0.
Proof.
  intros Hk Hp. unfold fib_valid_key_len, KEYLENGTH.
  destruct (Z.ltb_spec 32 plen); [done |].
  assert (Hu : u8 (32 - plen) = 32 - plen).
  { apply u8_small. change (2 ^ 8) with 256. lia. }
  destruct (Z.ltb_spec plen 32) as [Hlt|Hge]; cbn [andb].
  - destruct (Z.eqb_spec (u32 (Z.shiftl key plen)) 0) as [H0|]; [| done].
    intros _. split; [done |]. split; [lia |].
    unfold u32 in H0. rewrite Z.shiftl_mul_pow2 in H0 by done.
    replace (2 ^ 32) with (2 ^ (32 - plen) * 2 ^ plen) in H0
      by (rewrite <- Z.pow_add_r by lia; f_equal; lia).
    pose proof (pow2_pos plen Hp). pose proof (pow2_pos (32 - plen)).
    rewrite Z.mul_mod_distr_r in H0 by lia. nia.
  - intros _. split; [done |]. split; [lia |].
    replace (32 - plen) with 0 by lia. apply Z.mod_1_r.
Qed.

Lemma fib_insert_match_from_match i l slen tb tos fi type m x :
  fib_insert_match_from i l slen tb tos fi type = (Some m, x) ->
  (i <= m)%nat /\
  exists fa, l !! (m - i)%nat = Some fa /\
             of_route fa slen tb tos (fib_priority fi) /\ fa_info fa = fi /\
             fa_type fa = type.
Proof.
  revert i. induction l as [|fa rest IH]; intros i; simpl; [done |].
  destruct (Z.eqb_spec (fa_slen fa) slen); simpl; [| done].
  destruct (Z.eqb_spec (tb_id fa) tb); simpl; [| done].
  destruct (Z.eqb_spec (fa_tos fa) tos); simpl; [| done].
  destruct (Z.eqb_spec (fib_priority (fa_info fa)) (fib_priority fi)); simpl;
    [| done].
  destruct (Z.eqb_spec (fa_type fa) type); simpl.
  - destruct (bool_decide_reflect (fa_info fa = fi)).
    + intros [= <- _]. split; [lia |]. exists fa. rewrite Nat.sub_diag.
      by repeat split.
    + intros (Hle & fa' & Hfa' & H)%IH. split; [lia |]. exists fa'.
      split; [| done]. by replace (m - i)%nat with (S (m - S i)) by lia.
  - intros (Hle & fa' & Hfa' & H)%IH. split; [lia |]. exists fa'.
    split; [| done]. by replace (m - i)%nat with (S (m - S i)) by lia.
Qed.

Section insert.
Context (net : collaborators) (tb : fib_table) (cfg : fib_config).

Let key := fc_dst cfg.
Let slen := u8 (KEYLENGTH - fc_dst_len cfg).

(** The leaf of the key is the only leaf of the key. *)
Lemma leaf_replaced_same t lp s lst :
  wf_trie t = true -> get_yesde t lp = Some (Leaf key s lst) ->
  leaf_replaced t t key (Leaf key s lst).
Proof.
  intros Hwf Hl x. split.
  - intros Hx. destruct (decide (kv_key x = key)) as [Hk|Hk]; [left | by right].
    destruct Hx as [(k' & s' & l' & ->) (p & Hp)]. simpl in Hk. subst k'.
    pose proof (leaf_unique t Hwf p lp key s' l' s lst Hp Hl) as ->.
    congruence.
  - intros [->|[Hx _]]; [| done]. split; [by eauto |]. by exists lp.
Qed.

(** The branch of [fib_table_insert] under [NLM_F_REPLACE]. *)
Lemma fib_table_insert_replace_spec fi lp i fa_first fa_match w s lst :
  inv (kv w) -> get_yesde (kv w) lp = Some (Leaf key s lst) -> lp <> [] ->
  lst !! i = Some fa_first ->
  of_route fa_first slen (tb_tb_id tb) (fc_tos cfg) (fib_priority fi) ->
  (forall m, fa_match = Some m ->
     exists fa, lst !! m = Some fa /\
       of_route fa slen (tb_tb_id tb) (fc_tos cfg) (fib_priority fi) /\
       fa_info fa = fi /\ fa_type fa = fc_type cfg) ->
  flag_set (fc_nlflags cfg) NLM_F_REPLACE = true ->
  exists e tb' w',
    fib_table_insert_replace net tb cfg fi lp i fa_first fa_match w
    = Some ((e, tb'), w') /\
    inv (kv w') /\
    ((e <> 0 /\ kv w' = kv w) \/ (e = 0 /\ inserted tb cfg fi (kv w) (kv w'))).
Proof.
  intros Hinv Hl Hlp Hi Hfirst Hmatch Hreplace.
  pose proof (inv_wf _ Hinv) as Hwf.
  unfold fib_table_insert_replace.
  destruct fa_match as [m|].
  { destruct (Hmatch m eq_refl) as (fa & Hfa & Hroute & Hinfo & Htype).
    destruct (Nat.eqb_spec i m) as [->|Hne].
    - exists 0, tb, w. split; [done |]. split; [done |]. right.
      split; [done |]. exists (Leaf key s lst), fa.
      split; [done |]. split; [by eapply list_elem_of_lookup_2 |].
      split; [done |]. split; [done |]. split; [done |].
      split; [by apply (leaf_replaced_same _ lp) |].
      right. exists s, lst. split; [split; [by eauto | by eexists] |].
      right. right. by split.
    - exists (- EEXIST), tb, w. split; [done |]. split; [done |]. by left. }
  destruct (kalloc_total w) as (ok & w1 & Hka).
  pose proof (kalloc_Some _ _ _ Hka) as Hkv1.
  bind_step Hka. destruct ok; cbn [negb].
  2: { exists (- ENOBUFS), tb, w1. split; [done |].
       split; [by rewrite Hkv1 |]. by left. }
  set (new_fa := {| fa_info := fi; fa_tos := fa_tos fa_first;
                    fa_type := fc_type cfg;
                    fa_state := Z.land (fa_state fa_first)
                                       (Z.lnot FA_S_ACCESSED);
                    fa_slen := fa_slen fa_first; tb_id := tb_tb_id tb;
                    fa_default := -1 |}).
  destruct (Z.eqb_spec (call_fib_entry_yestifiers net FIB_EVENT_ENTRY_REPLACE
                          (fc_dst cfg) (fc_dst_len cfg) new_fa) 0)
    as [_|Herr]; cbn [negb].
  2: { eexists _, tb, w1. split; [done |]. split; [by rewrite Hkv1 |].
       by left. }
  rewrite <- Hkv1 in Hinv, Hl, Hwf |- *.
  pose proof Hinv as [Ht Hleaves].
  bind_step (deref_eq _ _ _ Hl). cbn [kv_leaf set_leaf].
  set (L' := Leaf key s (hlist_replace i new_fa lst)).
  destruct lp as [|c tp]; [done |].
  destruct (store_shape (kv w1) (c :: tp) _ L' Ht Hl ltac:(done))
    as (t2 & Hset & Ht2).
  { pose proof (shape_trie_get _ _ _ Ht Hl ltac:(done)) as Hs0.
    destruct (shape_bounds _ (shape_self _ Hs0)) as (? & _ & _ & _ & ? & _).
    destruct (shape_self _ Hs0) as (_ & ? & _). by apply shape_leaf. }
  { done. }
  { by apply (parent_slen_ok _ _ _ Ht Hl). }
  bind_step (store_eq _ _ _ _ Hset).
  assert (Hnew : of_route new_fa slen (tb_tb_id tb) (fc_tos cfg)
                   (fib_priority fi)).
  { destruct Hfirst as (H1 & H2 & H3 & H4). by repeat split. }
  assert (Hold : leaf_ok (Leaf key s lst)).
  { apply Hleaves. split; [by eauto |]. by eexists. }
  destruct Hold as (Hne & Hb & Hsorted). cbn [kv_leaf kv_slen kv_key] in *.
  assert (Hlen : (i < length lst)%nat) by by eapply lookup_lt_Some.
  assert (Hrep : leaf_replaced (kv w1) t2 key L').
  { intros x. destruct (store_leaves _ _ _ _ _ Hl Hset) as [_ H2].
    rewrite (H2 x). unfold L'. rewrite leaf_of_leaf.
    by rewrite (leaf_outside_key _ _ _ _ _ x Hwf Hl). }
  assert (Hok : leaf_ok L').
  { split; [| split]; cbn [kv_leaf kv_slen kv_key L'].
    - unfold hlist_replace. intros Hnil.
      apply (f_equal length) in Hnil. rewrite length_insert in Hnil.
      simpl in Hnil. lia.
    - intros x Hx. unfold hlist_replace in Hx.
      apply list_elem_of_lookup in Hx as (j & Hj).
      destruct (decide (j = i)) as [->|Hji].
      + rewrite list_lookup_insert_eq in Hj by done. injection Hj as <-.
        cbn [fa_slen new_fa]. apply Hb. by eapply list_elem_of_lookup_2.
      + rewrite list_lookup_insert_ne in Hj by done.
        apply Hb. by eapply list_elem_of_lookup_2.
    - by apply (sorted_order_replace i new_fa fa_first lst slen (tb_tb_id tb)
                  (fc_tos cfg) (fib_priority fi)). }
  eexists 0, tb, _. split; [done |]. cbn [kv].
  split; [by apply (leaf_replaced_inv (kv w1) _ key L') |].
  right. split; [done |]. exists L', new_fa.
  split; [done |]. split.
  { cbn [kv_leaf L']. unfold hlist_replace.
    apply list_elem_of_lookup. exists i. by rewrite list_lookup_insert_eq. }
  split; [done |]. split; [done |]. split; [done |]. split; [done |].
  right. exists s, lst. split; [split; [by eauto | by eexists] |].
  right. left. by exists i.
Qed.
End insert.

Lemma insert_outcome tb cfg fi (t t' : key_vector) (e : Z) :
  (e <> 0 /\ t' = t) \/ (e = 0 /\ inserted tb cfg fi t t') ->
  (e <> 0 -> t' = t) /\
  (forall fi', (inr fi : Z + fib_info) = inr fi' -> e = 0 ->
               inserted tb cfg fi' t t').
Proof.
  intros [[Hne ->]|[-> Hins]].
  - split; [done |]. by intros.
  - split; [done |]. by intros fi' [= <-] _.
Qed.

(** [fib_table_insert] on a table that keeps the invariant: it returns,
    the table keeps the invariant, is as it was unless 0 is returned,
    and then has the route. *)
Lemma fib_table_insert_spec net tb cfg w :
  inv (kv w) -> 0 <= fc_dst cfg < 2 ^ 32 -> 0 <= fc_dst_len cfg ->
  exists e tb' w',
    fib_table_insert net tb cfg w = Some ((e, tb'), w') /\ inv (kv w') /\
    (e <> 0 -> kv w' = kv w) /\
    (forall fi, fib_create_info net cfg = inr fi -> e = 0 ->
                inserted tb cfg fi (kv w) (kv w')).
Proof.
  intros Hinv Hk Hplen. unfold fib_table_insert.
  destruct (fib_valid_key_len (fc_dst cfg) (fc_dst_len cfg)) eqn:Hv;
    cbn [negb].
  2: { exists (- EINVAL), tb, w. split; [done |]. split; [done |].
       split; [done |]. by intros. }
  destruct (valid_key_facts _ _ Hk Hplen Hv) as (Hu & Hsl & Hal).
  destruct (fib_create_info net cfg) as [err|fi] eqn:Hfi.
  { exists err, tb, w. split; [done |]. split; [done |].
    split; [done |]. by intros. }
  bind_step (get_trie_eq w).
  destruct (find_facts (kv w) (fc_dst cfg) Hinv Hk)
    as (tp & r & tpn & Hfind & Htp & Hint & Hr & Hnone & Hsome).
  bind_step (lift_eq _ _ w Hfind). cbv beta iota.
  assert (Hnew : forall l event fa,
            (l = None -> r = None) ->
            (forall lp, l = Some lp -> r = Some lp /\
               forall s lst, get_yesde (kv w) lp = Some (Leaf (fc_dst cfg) s lst) ->
               forall new,
                 of_route new (u8 (KEYLENGTH - fc_dst_len cfg)) (tb_tb_id tb)
                   (fc_tos cfg) (fib_priority fi) ->
                 StronglySorted alias_order
                   (fib_insert_alias_list new fa lst)) ->
            exists e tb' w',
              fib_table_insert_new net tb cfg fi tp l event fa w
              = Some ((e, tb'), w') /\ inv (kv w') /\
              (e <> 0 -> kv w' = kv w) /\
              (forall fi', (inr fi : Z + fib_info) = inr fi' -> e = 0 ->
                           inserted tb cfg fi' (kv w) (kv w'))).
  { intros l event fa Hln Hls.
    destruct (fib_table_insert_new_spec net tb cfg fi tp l event fa w tpn)
      as (e & tb' & w' & Hrun & Hinv' & Hres); try done.
    - by rewrite Hu.
    - by rewrite Hu.
    - intros ->. apply Hnone. by apply Hln.
    - intros lp ->. destruct (Hls lp eq_refl) as [Hrl Hsorted].
      destruct (Hsome lp Hrl) as (s & lst & -> & Hl).
      exists s, lst. split; [done |]. split; [done |].
      exact (Hsorted s lst Hl).
    - exists e, tb', w'. split; [done |]. split; [done |].
      by apply (insert_outcome tb cfg fi). }
  destruct r as [lp|].
  2: { apply Hnew; [done | by intros ? [=]]. }
  destruct (Hsome lp eq_refl) as (s & lst & Hlp & Hl).
  bind_step (deref_eq _ _ _ Hl). cbn [kv_leaf].
  assert (Hok : leaf_ok (Leaf (fc_dst cfg) s lst)).
  { destruct Hinv as [_ Hleaves]. apply Hleaves.
    split; [by eauto |]. by eexists. }
  destruct Hok as (_ & _ & Hsorted). cbn [kv_leaf] in Hsorted.
  set (slen := u8 (KEYLENGTH - fc_dst_len cfg)) in *.
  assert (Hl' : forall s' lst',
            get_yesde (kv w) lp = Some (Leaf (fc_dst cfg) s' lst') ->
            lst' = lst).
  { intros s' lst' Hl2. congruence. }
  destruct (fib_find_alias lst slen (fc_tos cfg) (fib_priority fi)
              (tb_tb_id tb)) as [i|] eqn:Hfa.
  2: { apply Hnew; [done |]. intros lp' [= <-]. split; [done |].
       intros s' lst' ->%Hl' new Hroute.
       by apply (insert_sorted_none new slen (tb_tb_id tb) (fc_tos cfg)
                   (fib_priority fi)). }
  destruct (fib_find_alias_section _ _ _ _ _ _ Hfa)
    as (fa_first & Hi & Hfs & Hft).
  bind_step (lift_eq _ _ w Hi).
  assert (Hadd : forall l event,
            l = Some lp ->
            exists e tb' w',
              fib_table_insert_new net tb cfg fi tp l event (Some i) w
              = Some ((e, tb'), w') /\ inv (kv w') /\
              (e <> 0 -> kv w' = kv w) /\
              (forall fi', (inr fi : Z + fib_info) = inr fi' -> e = 0 ->
                           inserted tb cfg fi' (kv w) (kv w'))).
  { intros l event ->. apply Hnew; [done |]. intros lp' [= <-].
    split; [done |]. intros s' lst' ->%Hl' new Hroute.
    by apply (insert_sorted_some new slen (tb_tb_id tb) (fc_tos cfg)
                (fib_priority fi)). }
  destruct ((fa_tos fa_first =? fc_tos cfg)
            && (fib_priority (fa_info fa_first) =? fib_priority fi)) eqn:Hc.
  2: { by apply Hadd. }
  apply andb_true_iff in Hc as [Hto%Z.eqb_eq Hpr%Z.eqb_eq].
  destruct (flag_set (fc_nlflags cfg) NLM_F_EXCL).
  { exists (- EEXIST), tb, w. split; [done |]. split; [done |].
    split; [done |]. by intros. }
  destruct (fib_insert_match_from i (drop i lst) slen (tb_tb_id tb)
              (fc_tos cfg) fi (fc_type cfg)) as [fa_match fa_exit] eqn:Hm.
  destruct (flag_set (fc_nlflags cfg) NLM_F_REPLACE) eqn:Hreplace.
  { destruct (fib_table_insert_replace_spec net tb cfg fi lp i fa_first
                fa_match w s lst Hinv Hl)
      as (e & tb' & w' & Hrun & Hinv' & Hres); try done.
    - by rewrite Hlp.
    - intros m ->.
      destruct (fib_insert_match_from_match _ _ _ _ _ _ _ _ _ Hm)
        as (Hle & fa & Hfa' & Hroute & Hinfo & Htype).
      exists fa. split; [| done]. rewrite lookup_drop in Hfa'.
      by replace (i + (m - i))%nat with m in Hfa' by lia.
    - exists e, tb', w'. split; [done |]. split; [done |].
      by apply (insert_outcome tb cfg fi). }
  destruct fa_match as [m|].
  { exists (- EEXIST), tb, w. split; [done |]. split; [done |].
    split; [done |]. by intros. }
  destruct (flag_set (fc_nlflags cfg) NLM_F_APPEND); [| by apply Hadd].
  apply Hnew; [done |]. intros lp' [= <-]. split; [done |].
  intros s' lst' ->%Hl' new Hroute.
  by apply (insert_sorted_exit new slen (tb_tb_id tb) (fc_tos cfg)
              (fib_priority fi) Hroute lst Hsorted i fi (fc_type cfg)).
Qed.


(** * Deletion keeps the table in shape *)

(** ** One leaf for a key *)

(** The range of a child lies in its slot. *)
Lemma child_range n j c :
  shape n -> get_child n j = Some c ->
  kv_key n + j * 2 ^ kv_pos n <= kv_key c /\
  kv_key c + 2 ^ (kv_pos c + kv_bits c)
  <= kv_key n + (j + 1) * 2 ^ kv_pos n /\
  0 <= j < 2 ^ kv_bits n.
Proof.
  intros Hs Hc.
  destruct (shape_child_facts _ _ _ Hs Hc) as (Hsc & Hj & Hpb & _ & Hr).
  destruct (shape_bounds _ (shape_self _ Hs)) as (Hk & Hp & Hb & _ & _ & Hal).
  destruct (shape_bounds _ (shape_self _ Hsc))
    as (Hkc & Hpc & Hbc & _ & _ & Halc).
  split; [lia |]. split; [| done].
  pose proof (pow2_pos (kv_pos n) Hp) as Hpp.
  pose proof (pow2_pos (kv_pos c + kv_bits c) ltac:(lia)) as Hpm.
  apply aligned_next; [lia | done | | lia].
  rewrite <- Z.add_mod_idemp_l by lia.
  rewrite (mod_pow2_weaken (kv_key n) (kv_pos n + kv_bits n)
             (kv_pos c + kv_bits c)) by (done || lia).
  rewrite Z.add_0_l, <- Z.mul_mod_idemp_r by lia.
  rewrite pow2_mod_pow2 by lia. by rewrite Z.mul_0_r.
Qed.

(** The range of a node lies in the range of every node above it. *)
Lemma shape_range n q x :
  shape n -> get_yesde n q = Some x ->
  kv_key n <= kv_key x /\
  kv_key x + 2 ^ (kv_pos x + kv_bits x)
  <= kv_key n + 2 ^ (kv_pos n + kv_bits n).
Proof.
  intros Hs. revert x. induction q as [|j q IH]; intros x Hx.
  - simpl in Hx. injection Hx as <-. lia.
  - rewrite get_yesde_cons in Hx.
    destruct (get_yesde n q) as [m|] eqn:Hm; [| done].
    cbn [mbind option_bind] in Hx.
    destruct (IH m eq_refl) as (H1 & H2).
    pose proof (shape_under _ _ _ Hs Hm) as Hsm.
    destruct (child_range m j x Hsm Hx) as (H3 & H4 & Hj).
    destruct (shape_bounds _ (shape_self _ Hsm)) as (_ & Hp & Hb & _).
    pose proof (pow2_pos (kv_pos m) Hp) as Hpp.
    assert (Hpow : 2 ^ (kv_pos m + kv_bits m)
                   = 2 ^ kv_pos m * 2 ^ kv_bits m)
      by (apply Z.pow_add_r; lia).
    nia.
Qed.

Lemma shape_leaf_unique_under n : forall q q' k s l s' l',
  shape n -> get_yesde n q = Some (Leaf k s l) ->
  get_yesde n q' = Some (Leaf k s' l') -> q = q'.
Proof.
  intros q. revert n. induction q as [|j q0 IH] using rev_ind;
    intros n q' k s l s' l' Hs Hq Hq'.
  - simpl in Hq. injection Hq as ->.
    by apply get_yesde_leaf in Hq' as ->.
  - destruct q' as [|j' q0' _] using rev_ind.
    { simpl in Hq'. injection Hq' as ->.
      by apply get_yesde_leaf, app_nil in Hq as [_ ?]. }
    rewrite get_yesde_snoc in Hq, Hq'.
    destruct (get_child n j) as [c|] eqn:Hc; [| done].
    destruct (get_child n j') as [c'|] eqn:Hc'; [| done].
    cbn [mbind option_bind] in Hq, Hq'.
    pose proof (shape_child _ _ _ Hs Hc) as Hsc.
    pose proof (shape_child _ _ _ Hs Hc') as Hsc'.
    destruct (shape_range c q0 _ Hsc Hq) as (H1 & H2).
    destruct (shape_range c' q0' _ Hsc' Hq') as (H1' & H2').
    destruct (child_range n j c Hs Hc) as (H3 & H4 & _).
    destruct (child_range n j' c' Hs Hc') as (H3' & H4' & _).
    cbn [kv_key kv_pos kv_bits] in *. change (2 ^ (0 + 0)) with 1 in *.
    destruct (shape_bounds _ (shape_self _ Hs)) as (_ & Hp & _).
    pose proof (pow2_pos (kv_pos n) Hp) as Hpp.
    assert (j = j') as <- by nia.
    rewrite Hc in Hc'. injection Hc' as <-.
    by rewrite (IH c q0' k s l s' l' Hsc Hq Hq').
Qed.

(** In a table in shape, the leaf of a key is behind one pointer. *)
Lemma shape_leaf_unique t p p' k s l s' l' :
  shape_trie t -> get_yesde t p = Some (Leaf k s l) ->
  get_yesde t p' = Some (Leaf k s' l') -> p = p'.
Proof.
  intros [Hr Hch] Hp Hp'.
  destruct p as [|j q _] using rev_ind.
  { simpl in Hp. injection Hp as ->. by destruct Hr as (? & ? & ? & ?). }
  destruct p' as [|j' q' _] using rev_ind.
  { simpl in Hp'. injection Hp' as ->. by destruct Hr as (? & ? & ? & ?). }
  rewrite get_yesde_snoc in Hp, Hp'.
  destruct (get_child t j) as [c|] eqn:Hc; [| done].
  destruct (get_child t j') as [c'|] eqn:Hc'; [| done].
  pose proof (is_root_child t j c Hr Hc) as ->.
  pose proof (is_root_child t j' c' Hr Hc') as ->.
  rewrite Hc in Hc'. injection Hc' as <-.
  cbn [mbind option_bind] in Hp, Hp'.
  by rewrite (shape_leaf_unique_under c q q' k s l s' l' (Hch c Hc) Hp Hp').
Qed.

Lemma leaf_outside_key_shape t lp key s l x :
  shape_trie t -> get_yesde t lp = Some (Leaf key s l) ->
  leaf_outside t lp x <-> leaf_of t x /\ kv_key x <> key.
Proof.
  intros Ht Hl. split.
  - intros [Hx (p & Hp & Hns)]. split; [split; [done | by exists p] |].
    intros Hk. destruct Hx as (k' & s' & l' & ->). simpl in Hk. subst k'.
    apply Hns. exists []. simpl.
    by apply (shape_leaf_unique t p lp key s' l' s l).
  - intros [[Hx (p & Hp)] Hk]. split; [done |]. exists p. split; [done |].
    intros (q & ->). rewrite get_yesde_app, Hl in Hp. simpl in Hp.
    pose proof Hp as ->%get_yesde_leaf. simpl in Hp. injection Hp as <-.
    done.
Qed.

(** ** The alias list after a removal *)

Lemma sorted_order_delete i l :
  StronglySorted alias_order l -> StronglySorted alias_order (delete i l).
Proof.
  intros Hs. revert i. induction Hs as [|a l Hs IH Hall]; intros i.
  - destruct i; constructor.
  - destruct i as [|i]; simpl; [done |].
    constructor; [apply IH |].
    apply Forall_forall. intros x Hx.
    eapply Forall_forall in Hall; [done |].
    by eapply list_elem_of_delete_inv.
Qed.

(** In a sorted list no suffix length is above that of the last
    alias. *)
Lemma sorted_last_slen l fa x :
  StronglySorted alias_order l -> l !! pred (length l) = Some fa ->
  x ∈ l -> fa_slen x <= fa_slen fa.
Proof.
  intros Hs Hlast Hx.
  apply list_elem_of_lookup in Hx as (j & Hj).
  pose proof (lookup_lt_Some _ _ _ Hj) as Hlt.
  destruct (decide (j = pred (length l))) as [->|Hne].
  { rewrite Hlast in Hj. injection Hj as <-. lia. }
  rewrite <- (take_drop (S j) l) in Hs.
  apply StronglySorted_app in Hs as (H12 & _ & _).
  assert (Hfa : alias_order x fa).
  { apply H12.
    - apply list_elem_of_lookup. exists j. by rewrite lookup_take_lt by lia.
    - apply list_elem_of_lookup. exists (pred (length l) - S j)%nat.
      rewrite lookup_drop. by replace (S j + (pred (length l) - S j))%nat
        with (pred (length l)) by lia. }
  unfold alias_order in Hfa. lia.
Qed.

Lemma leaf_ok_delete key s lst old :
  leaf_ok (Leaf key s lst) -> delete old lst <> [] ->
  leaf_ok (Leaf key s (delete old lst)).
Proof.
  intros (_ & Hb & Hs) Hne. split; [done |]. split.
  - intros x Hx. apply Hb. by eapply list_elem_of_delete_inv.
  - by apply sorted_order_delete.
Qed.

(** ** [fib_remove_alias] *)

(** The leaves of [t'] are those of [t] without the leaf of [key]. *)
Definition leaf_removed (t t' : key_vector) (key : Z) : Prop :=
  forall x, leaf_of t' x <-> leaf_of t x /\ kv_key x <> key.

Lemma fib_remove_alias_spec w c tp key s lst old :
  inv (kv w) -> get_yesde (kv w) (c :: tp) = Some (Leaf key s lst) ->
  (old < length lst)%nat ->
  exists w',
    fib_remove_alias tp (c :: tp) old w = Some (tt, w') /\ inv (kv w') /\
    (delete old lst = [] -> leaf_removed (kv w) (kv w') key) /\
    (delete old lst <> [] ->
       exists s', leaf_replaced (kv w) (kv w') key
                    (Leaf key s' (delete old lst))).
Proof.
  intros Hinv Hl Hold.
  pose proof (inv_wf _ Hinv) as Hwf. pose proof Hinv as [Ht Hleaves].
  assert (Hok : leaf_ok (Leaf key s lst)).
  { apply Hleaves. split; [by eauto |]. by eexists. }
  pose proof (shape_trie_get _ _ _ Ht Hl ltac:(done)) as Hs0.
  destruct (shape_bounds _ (shape_self _ Hs0)) as (Hk & _ & _ & _ & Hs & _).
  pose proof (shape_self _ Hs0) as (_ & Hal0 & _).
  unfold aligned in Hal0. cbn [kv_key kv_slen] in Hal0, Hk, Hs.
  unfold fib_remove_alias. bind_step (deref_eq _ _ _ Hl).
  cbn [kv_leaf set_leaf kv_slen kv_key]. cbv zeta.
  set (lst' := delete old lst).
  set (E := Leaf key s lst').
  destruct (store_shape (kv w) (c :: tp) _ E Ht Hl ltac:(done))
    as (t1 & Hset1 & Ht1).
  { by apply shape_leaf. }
  { done. }
  { by apply (parent_slen_ok _ _ _ Ht Hl). }
  bind_step (store_eq _ _ _ _ Hset1).
  set (w1 := World (kmem w) t1).
  pose proof (get_set_same _ _ _ _ _ Hl Hset1) as HE.
  assert (Hlv1 : forall x, leaf_of t1 x <->
                           x = E \/ (leaf_of (kv w) x /\ kv_key x <> key)).
  { intros x. destruct (store_leaves _ _ _ _ _ Hl Hset1) as [_ H2].
    rewrite (H2 x). unfold E. rewrite leaf_of_leaf.
    by rewrite (leaf_outside_key _ _ _ _ _ x Hwf Hl). }
  destruct (slot_facts t1 c tp E Ht1 HE)
    as (tpn1 & Htp1 & Hc1 & _ & Hint1 & Hidx1 & Hin1).
  destruct lst' as [|a rest] eqn:Hlst'.
  - (* the leaf is empty and leaves the table *)
    change (kv w1) with t1 in *.
    bind_step (deref_eq tp tpn1 w1 Htp1).
    assert (Hpull : exists w2 s2,
              (if kv_slen tpn1 =? s
               then yesde_pull_suffix tp (kv_pos tpn1) else ret tt) w1
              = Some (tt, w2) /\ shape_trie (kv w2) /\
              (forall x, leaf_of (kv w2) x <-> leaf_of t1 x) /\
              get_yesde (kv w2) tp = Some (set_slen s2 tpn1)).
    { destruct (kv_slen tpn1 =? s).
      - destruct (pull_spec tp w1 (kv_pos tpn1) tpn1 Ht1 Htp1 Hint1)
          as (w2 & Hrun & _ & Ht2 & Hlv2 & s2 & Hget2).
        by exists w2, s2.
      - exists w1, (kv_slen tpn1). rewrite set_slen_same.
        split; [done |]. split; [done |]. by split. }
    destruct Hpull as (w2 & s2 & Hrun2 & Ht2 & Hlv2 & Htp2).
    bind_step Hrun2.
    set (tpn2 := set_slen s2 tpn1) in *.
    assert (Hint2 : tp = [] \/ IS_TNODE tpn2 = true).
    { destruct Hint1 as [|H]; [by left | right].
      unfold tpn2. by rewrite is_tyesde_set_slen. }
    assert (Hc2 : get_child tpn2 c = Some E).
    { unfold tpn2. by rewrite get_child_set_slen. }
    destruct (put_child_root_spec w2 tp tpn2 key None c Ht2 Htp2 Hint2)
      as (w3 & tpn3 & Hrun3 & _ & Ht3 & Htp3 & Hfr3 & _ & _ & _ & Hlv3 & _).
    { rewrite Hidx1. unfold tpn2. by destruct tpn1. }
    { intros Hne. destruct (Hin1 Hne) as (? & _).
      unfold tpn2. by destruct tpn1. }
    { by intros ? [=]. }
    bind_step Hrun3.
    destruct (trie_rebalance_spec tp w3 tpn3 Ht3 Htp3)
      as (w4 & Hrun4 & Ht4 & Hlv4).
    { destruct Hint2 as [|H]; [by left | right].
      by rewrite (same_frame_tyesde _ _ Hfr3). }
    exists w4. split; [done |].
    assert (HE2 : get_yesde (kv w2) (c :: tp) = Some E).
    { by rewrite get_yesde_cons, Htp2. }
    assert (Hrem : leaf_removed (kv w) (kv w4) key).
    { intros x. rewrite Hlv4, Hlv3.
      rewrite (leaf_outside_key_shape _ _ _ _ _ x Ht2 HE2).
      rewrite Hlv2, Hlv1. split.
      - intros [(c0 & [=] & _)|[[->|H] Hk']]; [done | done].
      - intros H. right. split; [by right | by destruct H]. }
    split; [| split; [done | done]].
    split; [done |]. intros x [Hx _]%Hrem. by apply Hleaves.
  - (* the leaf stays *)
    subst lst'.
    assert (Hne : delete old lst <> []) by by rewrite Hlst'.
    pose proof (leaf_ok_delete key s lst old Hok Hne) as HokE.
    rewrite Hlst' in HokE.
    assert (Hlen : length lst = S (length (a :: rest))).
    { rewrite <- Hlst'. rewrite length_delete by (by apply lookup_lt_is_Some_2).
      lia. }
    destruct (Nat.ltb_spec old (length (a :: rest))) as [Hmid|Hlast].
    + exists w1. split; [done |].
      assert (Hrep : leaf_replaced (kv w) (kv w1) key E) by exact Hlv1.
      split; [by apply (leaf_replaced_inv (kv w) _ key E) |].
      split; [done |]. intros _. by exists s.
    + (* the last alias went: the suffix length is that of the one
         before *)
      assert (Hpo : pred old = pred (length (a :: rest))) by lia.
      destruct (lookup_lt_is_Some_2 (a :: rest) (pred old)) as [fa Hfa];
        [simpl in *; lia |].
      rewrite Hfa.
      destruct HokE as (_ & HbE & HsE). cbn [kv_leaf kv_slen kv_key] in HbE, HsE.
      destruct (HbE fa (list_elem_of_lookup_2 _ _ _ Hfa)) as (Hfs & Hfal).
      set (E2 := Leaf key (fa_slen fa) (a :: rest)).
      cbn [set_slen].
      destruct (store_shape t1 (c :: tp) E E2 Ht1 HE ltac:(done))
        as (t2 & Hset2 & Ht2).
      { apply shape_leaf; (done || lia). }
      { done. }
      { pose proof (parent_slen_ok _ _ _ Ht1 HE ltac:(done)) as Hps.
        unfold E in Hps. unfold E2. cbn [kv_slen] in *. lia. }
      change (kv w1) with t1. 
      bind_step (store_eq (c :: tp) E2 t2 w1 Hset2).
      set (w2 := World (kmem w1) t2).
      pose proof (get_set_same _ _ _ _ _ HE Hset2) as HE2.
      destruct (slot_facts t2 c tp E2 Ht2 HE2)
        as (tpn2 & Htp2 & _ & _ & Hint2 & _).
      destruct (pull_spec tp w2 (fa_slen fa) tpn2 Ht2 Htp2 Hint2)
        as (w3 & Hrun3 & _ & Ht3 & Hlv3 & _).
      exists w3. split; [done |].
      assert (Hset20 : set_yesde (kv w) (c :: tp) E2 = Some t2).
      { by rewrite <- (set_yesde_twice _ _ _ _ E2 _ Hl Hset1). }
      assert (Hrep : leaf_replaced (kv w) (kv w3) key E2).
      { intros x. rewrite Hlv3. change (kv w2) with t2.
        destruct (store_leaves _ _ _ _ _ Hl Hset20) as [_ H2].
        rewrite (H2 x). unfold E2. rewrite leaf_of_leaf.
        by rewrite (leaf_outside_key _ _ _ _ _ x Hwf Hl). }
      assert (HokE2 : leaf_ok E2).
      { split; [done |]. split; [| done].
        intros x Hx. cbn [kv_slen kv_key E2].
        destruct (HbE x Hx) as ((Hx0 & _) & Hxal). split; [| done].
        split; [done |].
        apply (sorted_last_slen (a :: rest)); try done.
        by rewrite <- Hpo. }
      split; [by apply (leaf_replaced_inv (kv w) _ key E2) |].
      split; [done |]. intros _. by exists (fa_slen fa).
Qed.

(** ** [fib_table_delete] *)

(** What a return of 0 from [fib_table_delete] says of the table: the
    leaf of the key held an alias of the suffix length, table and tos of
    the request, which is gone; a leaf left without aliases is gone with
    it; the other leaves are as they were. *)
Definition deleted (tb : fib_table) (cfg : fib_config) (t t' : key_vector)
  : Prop :=
  exists lp s lst d fa,
    get_yesde t lp = Some (Leaf (fc_dst cfg) s lst) /\ lst !! d = Some fa /\
    fa_slen fa = u8 (KEYLENGTH - fc_dst_len cfg) /\
    tb_id fa = tb_tb_id tb /\ fa_tos fa = fc_tos cfg /\
    (delete d lst = [] -> leaf_removed t t' (fc_dst cfg)) /\
    (delete d lst <> [] ->
       exists s', leaf_replaced t t' (fc_dst cfg)
                    (Leaf (fc_dst cfg) s' (delete d lst))).

Lemma fib_table_delete_spec net tb cfg w :
  inv (kv w) -> 0 <= fc_dst cfg < 2 ^ 32 ->
  exists e tb' w',
    fib_table_delete net tb cfg w = Some ((e, tb'), w') /\ inv (kv w') /\
    (e <> 0 -> kv w' = kv w /\ tb' = tb) /\
    (e = 0 -> deleted tb cfg (kv w) (kv w')).
Proof.
  intros Hinv Hk. unfold fib_table_delete.
  destruct (fib_valid_key_len (fc_dst cfg) (fc_dst_len cfg)); cbn [negb].
  2: { exists (- EINVAL), tb, w. split; [done |]. split; [done |].
       split; [done |]. by intros. }
  bind_step (get_trie_eq w).
  destruct (find_facts (kv w) (fc_dst cfg) Hinv Hk)
    as (tp & r & tpn & Hfind & Htp & Hint & Hr & Hnone & Hsome).
  bind_step (lift_eq _ _ w Hfind). cbv beta iota.
  destruct r as [lp|].
  2: { exists (- ESRCH), tb, w. split; [done |]. split; [done |].
       split; [done |]. by intros. }
  destruct (Hsome lp eq_refl) as (s & lst & Hlp & Hl).
  bind_step (deref_eq _ _ _ Hl). cbn [kv_leaf].
  destruct (fib_find_alias lst _ _ 0 _) as [i|] eqn:Hfa.
  2: { exists (- ESRCH), tb, w. split; [done |]. split; [done |].
       split; [done |]. by intros. }
  destruct (fib_delete_match_from net i (drop i lst) _ _ _ cfg) as [d|] eqn:Hd.
  2: { exists (- ESRCH), tb, w. split; [done |]. split; [done |].
       split; [done |]. by intros. }
  destruct (fib_delete_match_from_section _ _ _ _ _ _ _ _ Hd)
    as (fa & Hid & Hfa' & Hfs & Hft & Hfo).
  rewrite lookup_drop in Hfa'.
  replace (i + (d - i))%nat with d in Hfa' by lia.
  rewrite Hlp in Hl |- *.
  destruct (fib_remove_alias_spec w _ tp _ s lst d Hinv Hl)
    as (w' & Hrun & Hinv' & Hempty & Hrest).
  { by eapply lookup_lt_Some. }
  bind_step Hrun.
  eexists 0, _, w'. split; [done |]. split; [done |]. split; [done |].
  intros _. exists (get_index (fc_dst cfg) tpn :: tp), s, lst, d, fa.
  split; [done |]. split; [done |]. split; [done |]. split; [done |].
  split; [done |]. by split.
Qed.

(** ** Every table a writer can reach *)

(** The fields of a request are those of the kernel's: a 32-bit key and
    a prefix length that is not negative. *)
Definition request_ok (r : request) : Prop :=
  match r with
  | Insert _ cfg => 0 <= fc_dst cfg < 2 ^ 32 /\ 0 <= fc_dst_len cfg
  | Delete _ cfg => 0 <= fc_dst cfg < 2 ^ 32
  end.

Lemma run_requests_spec net rs : forall w,
  inv (kv w) -> Forall request_ok rs ->
  exists es w', run_requests net rs w = Some (es, w') /\ inv (kv w') /\
                length es = length rs.
Proof.
  induction rs as [|r rs IH]; intros w Hinv Hok.
  { by exists [], w. }
  apply Forall_cons in Hok as [Hr Hrs].
  cbn [run_requests].
  assert (Hone : exists e w1,
            match r with
            | Insert tb cfg =>
                r <- fib_table_insert net (example_table tb) cfg ;; ret r.1
            | Delete tb cfg =>
                r <- fib_table_delete net (example_table tb) cfg ;; ret r.1
            end w = Some (e, w1) /\ inv (kv w1)).
  { destruct r as [tb cfg|tb cfg]; simpl in Hr.
    - destruct Hr as [Hk Hp].
      destruct (fib_table_insert_spec net (example_table tb) cfg w Hinv Hk Hp)
        as (e & tb' & w1 & Hrun & Hinv1 & _).
      exists e, w1. by rewrite (bind_eq _ _ _ _ _ Hrun).
    - destruct (fib_table_delete_spec net (example_table tb) cfg w Hinv Hr)
        as (e & tb' & w1 & Hrun & Hinv1 & _).
      exists e, w1. by rewrite (bind_eq _ _ _ _ _ Hrun). }
  destruct Hone as (e & w1 & Hrun1 & Hinv1).
  bind_step Hrun1.
  destruct (IH w1 Hinv1 Hrs) as (es & w' & Hrun & Hinv' & Hlen).
  bind_step Hrun.
  exists (e :: es), w'. split; [done |]. split; [done |]. simpl. by rewrite Hlen.
Qed.


(** * What the operations keep *)

(** The invariant [inv] of a table: the root is the root of a table; every
    node below it has fields in range, a key that is a multiple of
    [2 ^ (pos + bits)] and of [2 ^ slen], child counters that count, and
    children that hang in their slots with [pos + bits] and [slen] not
    above the parent's [pos] and [slen]; every leaf has a list of aliases
    that is not empty, is in the order of [alias_order], and holds only
    suffix lengths up to [slen] that the key is a multiple of. *)

Lemma rebuilt_inv w w' tp :
  inv (kv w) -> rebuilt w w' tp ->
  inv (kv w') /\ forall x, leaf_of (kv w') x <-> leaf_of (kv w) x.
Proof.
  intros [_ Hl] (Ht & Hlv & _). split; [| done].
  split; [done |]. intros x Hx%Hlv. by apply Hl.
Qed.

Lemma same_leaves_inv t t' :
  inv t -> shape_trie t' -> (forall x, leaf_of t' x <-> leaf_of t x) -> inv t'.
Proof.
  intros [_ Hl] Ht Hlv. split; [done |]. intros x Hx%Hlv. by apply Hl.
Qed.

Lemma resize_ok_resize bound : resize_ok resize bound.
Proof. intros w c tp tnn Ht Htn Hint _. by apply (resize_spec w c tp tnn). Qed.

(** The tables that requests make from the empty one keep the
    invariant. *)
Lemma inv_world_after rs : Forall request_ok rs -> inv (kv (world_after rs)).
Proof.
  intros Hok.
  destruct (run_requests_spec example_net rs world_empty inv_empty Hok)
    as (es & w' & Hrun & Hinv & _).
  unfold world_after. by rewrite Hrun.
Qed.

Lemma example_two_routes_ok : Forall request_ok example_two_routes.
Proof. repeat constructor; by vm_compute. Qed.

(** X10: [inflate] on an internal node with [pos >= 1] of a table that
    keeps the invariant returns.  When it returns a parent, the node
    behind the pointer has its position one lower and spans the same bits
    up to [pos + bits]; when it returns NULL for want of memory, the trie
    is as it was.  Either way the table keeps the invariant and has the
    leaves it had. *)
Theorem inflate_keeps_leaves (w : world) (c : Z) (tp : ptr)
    (old : key_vector) :
  inv (kv w) -> get_yesde (kv w) (c :: tp) = Some old ->
  IS_TNODE old = true -> 1 <= kv_pos old ->
  exists ok w',
    inflate resize (c :: tp) w = Some (ok, w') /\ inv (kv w') /\
    (forall x, leaf_of (kv w') x <-> leaf_of (kv w) x) /\
    exists m, get_yesde (kv w') (c :: tp) = Some m /\ IS_TNODE m = true /\
              kv_pos m + kv_bits m = kv_pos old + kv_bits old /\
              (ok = true -> kv_pos m = kv_pos old - 1) /\
              (ok = false -> kv w' = kv w).
Proof.
  intros Hinv Hold Ht Hp. pose proof Hinv as [Hs _].
  destruct (inflate_spec resize (kv_pos old + kv_bits old)
              (resize_ok_resize _) w c tp old Hs Hold Ht Hp ltac:(lia))
    as (ok & w' & Hrun & Hre & Hm).
  destruct (rebuilt_inv w w' tp Hinv Hre) as [Hinv' Hlv].
  by exists ok, w'.
Qed.

(** Inflating the internal node of the table of the two example
    routes. *)
Lemma inflate_keeps_leaves_witness :
  exists ok w',
    inflate resize [0] (world_after example_two_routes) = Some (ok, w') /\
    inv (kv w') /\
    forall x, leaf_of (kv w') x
              <-> leaf_of (kv (world_after example_two_routes)) x.
Proof.
  destruct (inflate_keeps_leaves (world_after example_two_routes) 0 []
              example_inner)
    as (ok & w' & Hrun & Hinv & Hlv & _).
  - exact (inv_world_after _ example_two_routes_ok).
  - vm_compute. reflexivity.
  - vm_compute. reflexivity.
  - vm_compute. discriminate.
  - exists ok, w'. split; [exact Hrun |]. split; [exact Hinv | exact Hlv].
Defined.

(** X11: [halve] on an internal node with more than one bit of a table
    that keeps the invariant returns.  When it returns a parent, the node
    behind the pointer has its position one higher and spans the same
    bits up to [pos + bits]; when it returns NULL for want of memory, the
    trie is as it was.  Either way the table keeps the invariant and has
    the leaves it had. *)
Theorem halve_keeps_leaves (w : world) (c : Z) (tp : ptr)
    (old : key_vector) :
  inv (kv w) -> get_yesde (kv w) (c :: tp) = Some old ->
  IS_TNODE old = true -> 2 <= kv_bits old ->
  exists ok w',
    halve resize (c :: tp) w = Some (ok, w') /\ inv (kv w') /\
    (forall x, leaf_of (kv w') x <-> leaf_of (kv w) x) /\
    exists m, get_yesde (kv w') (c :: tp) = Some m /\ IS_TNODE m = true /\
              kv_pos m + kv_bits m = kv_pos old + kv_bits old /\
              (ok = true -> kv_pos m = kv_pos old + 1) /\
              (ok = false -> kv w' = kv w).
Proof.
  intros Hinv Hold Ht Hb. pose proof Hinv as [Hs _].
  destruct (halve_spec resize (kv_pos old + kv_bits old)
              (resize_ok_resize _) w c tp old Hs Hold Ht Hb ltac:(lia))
    as (ok & w' & Hrun & Hre & Hm).
  destruct (rebuilt_inv w w' tp Hinv Hre) as [Hinv' Hlv].
  by exists ok, w'.
Qed.

(** Halving the internal node of the table of the two example routes. *)
Lemma halve_keeps_leaves_witness :
  exists ok w',
    halve resize [0] (world_after example_two_routes) = Some (ok, w') /\
    inv (kv w') /\
    forall x, leaf_of (kv w') x
              <-> leaf_of (kv (world_after example_two_routes)) x.
Proof.
  destruct (halve_keeps_leaves (world_after example_two_routes) 0 []
              example_inner)
    as (ok & w' & Hrun & Hinv & Hlv & _).
  - exact (inv_world_after _ example_two_routes_ok).
  - vm_compute. reflexivity.
  - vm_compute. reflexivity.
  - vm_compute. discriminate.
  - exists ok, w'. split; [exact Hrun |]. split; [exact Hinv | exact Hlv].
Defined.

(** X12: [resize] on an internal node of a table that keeps the
    invariant returns -- none of its [BUG_ON]s fires and the nesting of
    [resize] inside [replace] ends -- and the table keeps the invariant
    and has the leaves it had: inflating, halving and collapsing move
    leaves but neither lose nor add one. *)
Theorem resize_keeps_leaves (w : world) (c : Z) (tp : ptr)
    (tnn : key_vector) :
  inv (kv w) -> get_yesde (kv w) (c :: tp) = Some tnn ->
  IS_TNODE tnn = true ->
  exists w',
    resize (c :: tp) w = Some (tt, w') /\ inv (kv w') /\
    forall x, leaf_of (kv w') x <-> leaf_of (kv w) x.
Proof.
  intros Hinv Htn Ht. pose proof Hinv as [Hs _].
  destruct (resize_spec w c tp tnn Hs Htn Ht) as (w' & Hrun & Hre).
  destruct (rebuilt_inv w w' tp Hinv Hre) as [Hinv' Hlv].
  by exists w'.
Qed.

(** Resizing the internal node of the table of the two example
    routes. *)
Lemma resize_keeps_leaves_witness :
  exists w',
    resize [0] (world_after example_two_routes) = Some (tt, w') /\
    inv (kv w') /\
    forall x, leaf_of (kv w') x
              <-> leaf_of (kv (world_after example_two_routes)) x.
Proof.
  apply (resize_keeps_leaves (world_after example_two_routes) 0 []
           example_inner).
  - exact (inv_world_after _ example_two_routes_ok).
  - vm_compute. reflexivity.
  - vm_compute. reflexivity.
Defined.

(** X13: [trie_rebalance] from the root or from an internal node of a
    table that keeps the invariant returns, and the table keeps the
    invariant and has the leaves it had. *)
Theorem trie_rebalance_keeps_leaves (w : world) (tn : ptr)
    (n : key_vector) :
  inv (kv w) -> get_yesde (kv w) tn = Some n ->
  tn = [] \/ IS_TNODE n = true ->
  exists w',
    trie_rebalance tn w = Some (tt, w') /\ inv (kv w') /\
    forall x, leaf_of (kv w') x <-> leaf_of (kv w) x.
Proof.
  intros Hinv Hn Hint. pose proof Hinv as [Hs _].
  destruct (trie_rebalance_spec tn w n Hs Hn Hint) as (w' & Hrun & Ht' & Hlv).
  exists w'. split; [done |]. split; [| done].
  by apply (same_leaves_inv (kv w)).
Qed.

(** Rebalancing from the internal node of the table of the two example
    routes. *)
Lemma trie_rebalance_keeps_leaves_witness :
  exists w',
    trie_rebalance [0] (world_after example_two_routes) = Some (tt, w') /\
    inv (kv w') /\
    forall x, leaf_of (kv w') x
              <-> leaf_of (kv (world_after example_two_routes)) x.
Proof.
  apply (trie_rebalance_keeps_leaves (world_after example_two_routes) [0]
           example_inner).
  - exact (inv_world_after _ example_two_routes_ok).
  - vm_compute. reflexivity.
  - right. vm_compute. reflexivity.
Defined.

(** X14: [yesde_push_suffix] from the root or an internal node of a
    table that keeps the invariant, with a suffix length up to 32 that
    the key of the node is a multiple of when it is longer than the
    node's: the call returns, the node has the longer of the two suffix
    lengths, and the table keeps the invariant -- so every node above has
    a suffix length that covers it -- and has the leaves it had. *)
Theorem yesde_push_suffix_raises (w : world) (tn : ptr) (n : key_vector)
    (slen : Z) :
  inv (kv w) -> get_yesde (kv w) tn = Some n ->
  tn = [] \/ IS_TNODE n = true -> 0 <= slen <= KEYLENGTH ->
  (kv_slen n < slen -> kv_key n mod 2 ^ slen = 0) ->
  exists w',
    yesde_push_suffix tn slen w = Some (tt, w') /\ inv (kv w') /\
    (forall x, leaf_of (kv w') x <-> leaf_of (kv w) x) /\
    get_yesde (kv w') tn = Some (set_slen (Z.max (kv_slen n) slen) n).
Proof.
  intros Hinv Hn Hint Hslen Hal. pose proof Hinv as [Hs _].
  destruct (push_spec slen Hslen tn w (kv w) n n Hs Hn)
    as (w' & Hrun & _ & Ht' & Hlv & Hget).
  - by apply set_yesde_same.
  - apply same_frame_refl.
  - intros ->. simpl in Hn. by injection Hn as <-.
  - intros Hne. destruct Hint as [|Hint]; [done |]. split; [done |].
    pose proof (shape_trie_get _ _ _ Hs Hn Hne) as Hsn.
    destruct (shape_bounds _ (shape_self _ Hsn)) as (_ & _ & _ & _ & Hsl & _).
    pose proof (shape_pos_slen _ (shape_self _ Hsn) Hint) as Hps.
    apply set_slen_shape; try done.
    + lia.
    + destruct (Z.max_spec (kv_slen n) slen) as [[Hlt ->]|[_ ->]].
      * by apply Hal.
      * by destruct (shape_self _ Hsn) as (_ & ? & _).
    + intros i ch Hch.
      destruct (shape_child_facts _ _ _ Hsn Hch) as (_ & _ & _ & ? & _). lia.
  - exists w'. split; [done |]. split; [| done].
    by apply (same_leaves_inv (kv w)).
Qed.

(** Pushing the suffix length 25 up from the internal node of the table
    of the two example routes, whose suffix length is 24. *)
Lemma yesde_push_suffix_raises_witness :
  exists w',
    yesde_push_suffix [0] 25 (world_after example_two_routes)
    = Some (tt, w') /\
    inv (kv w') /\
    get_yesde (kv w') [0] = Some (set_slen 25 example_inner).
Proof.
  destruct (yesde_push_suffix_raises (world_after example_two_routes) [0]
              example_inner 25)
    as (w' & Hrun & Hinv & _ & Hget).
  - exact (inv_world_after _ example_two_routes_ok).
  - vm_compute. reflexivity.
  - right. vm_compute. reflexivity.
  - by vm_compute.
  - intros _. vm_compute. reflexivity.
  - exists w'. split; [exact Hrun |]. split; [exact Hinv | exact Hget].
Defined.

(** X15: [yesde_pull_suffix] from the root or an internal node of a
    table that keeps the invariant returns; the node keeps its children
    and changes at most its suffix length, and the table keeps the
    invariant -- no suffix length falls below that of a child -- and has
    the leaves it had. *)
Theorem yesde_pull_suffix_keeps (w : world) (tn : ptr) (n : key_vector)
    (slen : Z) :
  inv (kv w) -> get_yesde (kv w) tn = Some n ->
  tn = [] \/ IS_TNODE n = true ->
  exists w',
    yesde_pull_suffix tn slen w = Some (tt, w') /\ inv (kv w') /\
    (forall x, leaf_of (kv w') x <-> leaf_of (kv w) x) /\
    exists s', get_yesde (kv w') tn = Some (set_slen s' n).
Proof.
  intros Hinv Hn Hint. pose proof Hinv as [Hs _].
  destruct (pull_spec tn w slen n Hs Hn Hint)
    as (w' & Hrun & _ & Ht' & Hlv & Hget).
  exists w'. split; [done |]. split; [| done].
  by apply (same_leaves_inv (kv w)).
Qed.

(** Pulling from the internal node of the table of the two example
    routes. *)
Lemma yesde_pull_suffix_keeps_witness :
  exists w',
    yesde_pull_suffix [0] 15 (world_after example_two_routes)
    = Some (tt, w') /\
    inv (kv w').
Proof.
  destruct (yesde_pull_suffix_keeps (world_after example_two_routes) [0]
              example_inner 15)
    as (w' & Hrun & Hinv & _).
  - exact (inv_world_after _ example_two_routes_ok).
  - vm_compute. reflexivity.
  - right. vm_compute. reflexivity.
  - exists w'. split; [exact Hrun | exact Hinv].
Defined.

(** X16: [fib_table_insert] of a request with a 32-bit key and a prefix
    length that is not negative, on a table that keeps the invariant:
    the call returns, whatever the flags, the collaborators and the
    allocator do; the table keeps the invariant, so it is well formed;
    and unless 0 is returned the trie is as it was. *)
Theorem fib_table_insert_keeps_inv (net : collaborators) (tb : fib_table)
    (cfg : fib_config) (w : world) :
  inv (kv w) -> 0 <= fc_dst cfg < 2 ^ 32 -> 0 <= fc_dst_len cfg ->
  exists e tb' w',
    fib_table_insert net tb cfg w = Some ((e, tb'), w') /\
    inv (kv w') /\ wf_trie (kv w') = true /\
    (e <> 0 -> kv w' = kv w).
Proof.
  intros Hinv Hk Hp.
  destruct (fib_table_insert_spec net tb cfg w Hinv Hk Hp)
    as (e & tb' & w' & Hrun & Hinv' & Hsame & _).
  exists e, tb', w'. split; [done |]. split; [done |].
  split; [by apply inv_wf | done].
Qed.

(** Inserting 10.2.0.0/16 into the table of the two example routes. *)
Lemma fib_table_insert_keeps_inv_witness :
  exists e tb' w',
    fib_table_insert example_net (example_table 254)
      (example_route (ipv4 10 2 0 0) 16 0 3 NLM_F_CREATE)
      (world_after example_two_routes)
    = Some ((e, tb'), w') /\
    inv (kv w') /\ wf_trie (kv w') = true.
Proof.
  destruct (fib_table_insert_keeps_inv example_net (example_table 254)
              (example_route (ipv4 10 2 0 0) 16 0 3 NLM_F_CREATE)
              (world_after example_two_routes))
    as (e & tb' & w' & Hrun & Hinv & Hwf & _).
  - exact (inv_world_after _ example_two_routes_ok).
  - by vm_compute.
  - by vm_compute.
  - exists e, tb', w'. split; [exact Hrun |]. split; [exact Hinv | exact Hwf].
Defined.

(** X17: when [fib_create_info] gives an info and [fib_table_insert]
    returns 0, the table has a leaf of the key that holds an alias with
    the suffix length, table id and tos of the request and with that
    info, and the leaves of the other keys are exactly those it had. *)
Theorem fib_table_insert_adds_route (net : collaborators) (tb : fib_table)
    (cfg : fib_config) (fi : fib_info) (w : world) (tb' : fib_table)
    (w' : world) :
  inv (kv w) -> 0 <= fc_dst cfg < 2 ^ 32 -> 0 <= fc_dst_len cfg ->
  fib_create_info net cfg = inr fi ->
  fib_table_insert net tb cfg w = Some ((0, tb'), w') ->
  exists L' new,
    leaf_of (kv w') L' /\ kv_key L' = fc_dst cfg /\ new ∈ kv_leaf L' /\
    fa_slen new = u8 (KEYLENGTH - fc_dst_len cfg) /\
    tb_id new = tb_tb_id tb /\ fa_tos new = fc_tos cfg /\
    fa_info new = fi /\
    forall x, kv_key x <> fc_dst cfg ->
              (leaf_of (kv w') x <-> leaf_of (kv w) x).
Proof.
  intros Hinv Hk Hp Hfi Hrun.
  destruct (fib_table_insert_spec net tb cfg w Hinv Hk Hp)
    as (e & tb1 & w1 & Hrun1 & _ & _ & Hins).
  rewrite Hrun in Hrun1. injection Hrun1 as <- <- <-.
  destruct (Hins fi Hfi eq_refl)
    as (L' & new & HkL & Hnew & (H1 & H2 & H3 & _) & Hinfo & _ & Hrep & _).
  exists L', new. split; [apply Hrep; by left |].
  split; [done |]. split; [done |]. split; [done |]. split; [done |].
  split; [done |]. split; [done |].
  intros x Hx. rewrite (Hrep x). split.
  - intros [->|[H _]]; [done | done].
  - intros H. by right.
Qed.

(** Inserting 10.2.0.0/16 into the table of the two example routes. *)
Definition example_third_route : fib_config :=
  example_route (ipv4 10 2 0 0) 16 0 3 NLM_F_CREATE.

Lemma fib_table_insert_adds_route_witness :
  exists L' new,
    leaf_of (kv (world_after
                   (example_two_routes ++ [Insert 254 example_third_route])))
            L' /\
    kv_key L' = ipv4 10 2 0 0 /\ new ∈ kv_leaf L' /\ fa_slen new = 16.
Proof.
  destruct (fib_table_insert_adds_route example_net (example_table 254)
              example_third_route (example_fi 3)
              (world_after example_two_routes) (example_table 254)
              (world_after
                 (example_two_routes ++ [Insert 254 example_third_route])))
    as (L' & new & HL & Hk & Hin & Hs & _).
  - exact (inv_world_after _ example_two_routes_ok).
  - by vm_compute.
  - by vm_compute.
  - reflexivity.
  - vm_compute. reflexivity.
  - exists L', new. split; [exact HL |]. split; [exact Hk |].
    split; [exact Hin | exact Hs].
Defined.

(** X18: insert, then find.  When [fib_create_info] gives an info and
    [fib_table_insert] returns 0, [fib_find_yesde] on the table it leaves
    returns a leaf of the key, and that leaf holds an alias with the
    suffix length, table id and tos of the request and with that
    info. *)
Theorem fib_table_insert_then_find (net : collaborators) (tb : fib_table)
    (cfg : fib_config) (fi : fib_info) (w : world) (tb' : fib_table)
    (w' : world) :
  inv (kv w) -> 0 <= fc_dst cfg < 2 ^ 32 -> 0 <= fc_dst_len cfg ->
  fib_create_info net cfg = inr fi ->
  fib_table_insert net tb cfg w = Some ((0, tb'), w') ->
  exists tp lp s l new,
    fib_find_yesde (kv w') (fc_dst cfg) = Some (tp, Some lp) /\
    get_yesde (kv w') lp = Some (Leaf (fc_dst cfg) s l) /\ new ∈ l /\
    fa_slen new = u8 (KEYLENGTH - fc_dst_len cfg) /\
    tb_id new = tb_tb_id tb /\ fa_tos new = fc_tos cfg /\
    fa_info new = fi.
Proof.
  intros Hinv Hk Hp Hfi Hrun.
  destruct (fib_table_insert_spec net tb cfg w Hinv Hk Hp)
    as (e & tb1 & w1 & Hrun1 & Hinv' & _ & Hins).
  rewrite Hrun in Hrun1. injection Hrun1 as <- <- <-.
  destruct (Hins fi Hfi eq_refl)
    as (L' & new & HkL & Hnew & (H1 & H2 & H3 & _) & Hinfo & _ & Hrep & _).
  assert (HL : leaf_of (kv w') L') by (apply Hrep; by left).
  destruct (find_facts (kv w') (fc_dst cfg) Hinv' Hk)
    as (tp & r & tpn & Hfind & _ & _ & _ & Hnone & Hsome).
  destruct r as [lp|].
  2: { destruct (Hnone eq_refl) as [_ Hfresh]. by destruct (Hfresh L' HL). }
  destruct (Hsome lp eq_refl) as (s & l & _ & Hl).
  destruct HL as [(k' & s' & l' & ->) (p & Hp')]. simpl in HkL. subst k'.
  pose proof (shape_leaf_unique _ _ _ _ _ _ _ _ (proj1 Hinv') Hp' Hl) as ->.
  rewrite Hl in Hp'. injection Hp' as <- <-.
  exists tp, lp, s, l, new. by repeat split.
Qed.

Lemma fib_table_insert_then_find_witness :
  exists tp lp,
    fib_find_yesde
      (kv (world_after
             (example_two_routes ++ [Insert 254 example_third_route])))
      (ipv4 10 2 0 0)
    = Some (tp, Some lp).
Proof.
  destruct (fib_table_insert_then_find example_net (example_table 254)
              example_third_route (example_fi 3)
              (world_after example_two_routes) (example_table 254)
              (world_after
                 (example_two_routes ++ [Insert 254 example_third_route])))
    as (tp & lp & s & l & new & Hfind & _).
  - exact (inv_world_after _ example_two_routes_ok).
  - by vm_compute.
  - by vm_compute.
  - reflexivity.
  - vm_compute. reflexivity.
  - exists tp, lp. exact Hfind.
Defined.

(** X19: [fib_table_delete] of a request with a 32-bit key, on a table
    that keeps the invariant: the call returns; the table keeps the
    invariant, so it is well formed; and unless 0 is returned the trie
    and the table are as they were. *)
Theorem fib_table_delete_keeps_inv (net : collaborators) (tb : fib_table)
    (cfg : fib_config) (w : world) :
  inv (kv w) -> 0 <= fc_dst cfg < 2 ^ 32 ->
  exists e tb' w',
    fib_table_delete net tb cfg w = Some ((e, tb'), w') /\
    inv (kv w') /\ wf_trie (kv w') = true /\
    (e <> 0 -> kv w' = kv w /\ tb' = tb).
Proof.
  intros Hinv Hk.
  destruct (fib_table_delete_spec net tb cfg w Hinv Hk)
    as (e & tb' & w' & Hrun & Hinv' & Hsame & _).
  exists e, tb', w'. split; [done |]. split; [done |].
  split; [by apply inv_wf | done].
Qed.

(** Deleting 10.1.0.0/16 from the table of the two example routes. *)
Definition example_second_route : fib_config :=
  example_route (ipv4 10 1 0 0) 16 0 2 0.

Lemma fib_table_delete_keeps_inv_witness :
  exists e tb' w',
    fib_table_delete example_net (example_table 254) example_second_route
      (world_after example_two_routes)
    = Some ((e, tb'), w') /\
    inv (kv w') /\ wf_trie (kv w') = true.
Proof.
  destruct (fib_table_delete_keeps_inv example_net (example_table 254)
              example_second_route (world_after example_two_routes))
    as (e & tb' & w' & Hrun & Hinv & Hwf & _).
  - exact (inv_world_after _ example_two_routes_ok).
  - by vm_compute.
  - exists e, tb', w'. split; [exact Hrun |]. split; [exact Hinv | exact Hwf].
Defined.

(** X20: when [fib_table_delete] returns 0, the leaf of the key held an
    alias with the suffix length, table id and tos of the request, at
    some position [d] of its list.  If it was the only alias, the table
    has no leaf of the key any more; otherwise the leaf of the key holds
    the list without position [d].  The leaves of the other keys are
    exactly those the table had. *)
Theorem fib_table_delete_removes_alias (net : collaborators)
    (tb : fib_table) (cfg : fib_config) (w : world) (tb' : fib_table)
    (w' : world) :
  inv (kv w) -> 0 <= fc_dst cfg < 2 ^ 32 ->
  fib_table_delete net tb cfg w = Some ((0, tb'), w') ->
  exists lp s lst d fa,
    get_yesde (kv w) lp = Some (Leaf (fc_dst cfg) s lst) /\
    lst !! d = Some fa /\
    fa_slen fa = u8 (KEYLENGTH - fc_dst_len cfg) /\
    tb_id fa = tb_tb_id tb /\ fa_tos fa = fc_tos cfg /\
    (delete d lst = [] ->
       forall x, leaf_of (kv w') x <->
                 leaf_of (kv w) x /\ kv_key x <> fc_dst cfg) /\
    (delete d lst <> [] ->
       exists s',
         forall x, leaf_of (kv w') x <->
                   x = Leaf (fc_dst cfg) s' (delete d lst) \/
                   (leaf_of (kv w) x /\ kv_key x <> fc_dst cfg)).
Proof.
  intros Hinv Hk Hrun.
  destruct (fib_table_delete_spec net tb cfg w Hinv Hk)
    as (e & tb1 & w1 & Hrun1 & _ & _ & Hdel).
  rewrite Hrun in Hrun1. injection Hrun1 as <- <- <-.
  exact (Hdel eq_refl).
Qed.

Lemma fib_table_delete_removes_alias_witness :
  exists lp s lst,
    get_yesde (kv (world_after example_two_routes)) lp
    = Some (Leaf (ipv4 10 1 0 0) s lst).
Proof.
  destruct (fib_table_delete_removes_alias example_net (example_table 254)
              example_second_route (world_after example_two_routes)
              (example_table 254)
              (world_after
                 (example_two_routes ++ [Delete 254 example_second_route])))
    as (lp & s & lst & d & fa & Hl & _).
  - exact (inv_world_after _ example_two_routes_ok).
  - by vm_compute.
  - vm_compute. reflexivity.
  - exists lp, s, lst. exact Hl.
Defined.

(** X21: delete, then find.  When the leaf of the key holds one alias
    and [fib_table_delete] returns 0, [fib_find_yesde] on the table it
    leaves returns no leaf for the key. *)
Theorem fib_table_delete_then_find (net : collaborators) (tb : fib_table)
    (cfg : fib_config) (w : world) (tb' : fib_table) (w' : world)
    (lp : ptr) (s : Z) (fa : fib_alias) :
  inv (kv w) -> 0 <= fc_dst cfg < 2 ^ 32 ->
  get_yesde (kv w) lp = Some (Leaf (fc_dst cfg) s [fa]) ->
  fib_table_delete net tb cfg w = Some ((0, tb'), w') ->
  exists tp, fib_find_yesde (kv w') (fc_dst cfg) = Some (tp, None).
Proof.
  intros Hinv Hk Hl Hrun.
  destruct (fib_table_delete_spec net tb cfg w Hinv Hk)
    as (e & tb1 & w1 & Hrun1 & Hinv' & _ & Hdel).
  rewrite Hrun in Hrun1. injection Hrun1 as <- <- <-.
  destruct (Hdel eq_refl)
    as (lp' & s' & lst & d & fa' & Hl' & Hd & _ & _ & _ & Hempty & _).
  pose proof (shape_leaf_unique _ _ _ _ _ _ _ _ (proj1 Hinv) Hl Hl') as <-.
  rewrite Hl in Hl'. injection Hl' as <- <-.
  destruct d as [|d]; [| done].
  specialize (Hempty eq_refl).
  destruct (find_facts (kv w') (fc_dst cfg) Hinv' Hk)
    as (tp & r & tpn & Hfind & _ & _ & _ & _ & Hsome).
  destruct r as [lp2|]; [| by exists tp].
  destruct (Hsome lp2 eq_refl) as (s2 & l2 & _ & Hl2).
  assert (Hx : leaf_of (kv w') (Leaf (fc_dst cfg) s2 l2)).
  { split; [by eauto |]. by exists lp2. }
  by apply Hempty in Hx as [_ ?].
Qed.

Lemma fib_table_delete_then_find_witness :
  exists tp,
    fib_find_yesde
      (kv (world_after
             (example_two_routes ++ [Delete 254 example_second_route])))
      (ipv4 10 1 0 0)
    = Some (tp, None).
Proof.
  assert (Hl : exists s fa,
             get_yesde (kv (world_after example_two_routes)) [2; 0]
             = Some (Leaf (fc_dst example_second_route) s [fa])).
  { vm_compute. do 2 eexists. reflexivity. }
  destruct Hl as (s & fa & Hget).
  apply (fib_table_delete_then_find example_net (example_table 254)
           example_second_route (world_after example_two_routes)
           (example_table 254)
           (world_after
              (example_two_routes ++ [Delete 254 example_second_route]))
           [2; 0] s fa).
  - exact (inv_world_after _ example_two_routes_ok).
  - clear Hget. by vm_compute.
  - exact Hget.
  - clear Hget. vm_compute. reflexivity.
Defined.

(** X22: every sequence of inserts and deletes with 32-bit keys and
    prefix lengths that are not negative, run on the empty table, runs to
    the end -- no [BUG_ON] fires and no NULL pointer is followed,
    whatever the flags, the collaborators and the allocator do -- and
    leaves a table that keeps the invariant and is well formed. *)
Theorem reachable_tables_keep_inv (net : collaborators)
    (rs : list request) (kmem0 : list bool) :
  Forall request_ok rs ->
  exists es w',
    run_requests net rs (World kmem0 trie_empty) = Some (es, w') /\
    length es = length rs /\ inv (kv w') /\ wf_trie (kv w') = true.
Proof.
  intros Hok.
  destruct (run_requests_spec net rs (World kmem0 trie_empty) inv_empty Hok)
    as (es & w' & Hrun & Hinv & Hlen).
  exists es, w'. split; [done |]. split; [done |]. split; [done |].
  by apply inv_wf.
Qed.

(** The two example routes, the second allocation failing. *)
Lemma reachable_tables_keep_inv_witness :
  exists es w',
    run_requests example_net example_two_routes
      (World [true; false] trie_empty) = Some (es, w') /\
    wf_trie (kv w') = true.
Proof.
  destruct (reachable_tables_keep_inv example_net example_two_routes
              [true; false])
    as (es & w' & Hrun & _ & _ & Hwf).
  - repeat constructor; by vm_compute.
  - exists es, w'. split; [exact Hrun | exact Hwf].
Defined.

(** * Round trips *)

(** The lookup reads the leaves only: two well-formed tables with the
    same leaves answer every flow alike, however their internal nodes
    are laid out. *)
Lemma lookup_same_leaves net t t' flp flags :
  wf_trie t = true -> wf_trie t' = true -> 0 <= daddr flp < 2 ^ 32 ->
  (forall x, leaf_of t x <-> leaf_of t' x) ->
  fib_table_lookup net t flp flags = fib_table_lookup net t' flp flags.
Proof.
  intros Hwf Hwf' Hkey Hlv.
  assert (Hmove : forall t1 t2 p k,
            (forall x, leaf_of t1 x <-> leaf_of t2 x) ->
            answers net flp flags t1 p k ->
            exists p', answers net flp flags t2 p' k).
  { intros t1 t2 p k H12 (s & l & Hp & Hans).
    assert (Hx : leaf_of t1 (Leaf k s l)).
    { split; [by eauto |]. by exists p. }
    apply H12 in Hx as [_ (q & Hq)]. exists q, s, l. by split. }
  assert (Hvl : forall x, leaf_of t' x <-> leaf_of t x)
    by (intros x; by rewrite Hlv).
  destruct (fib_table_lookup_spec net flp flags t Hwf Hkey)
    as (r & Hr & Hpost).
  destruct (fib_table_lookup_spec net flp flags t' Hwf' Hkey)
    as (r' & Hr' & Hpost').
  rewrite Hr, Hr'. f_equal.
  destruct Hpost as [[-> Hnone] | (p & k & s & l & Hp & Hans & Hmax)];
    destruct Hpost' as [[-> Hnone'] | (p' & k' & s' & l' & Hp' & Hans' & Hmax')].
  - done.
  - exfalso.
    assert (Ha : answers net flp flags t' p' k').
    { exists s', l'. split; [done |]. by rewrite Hans'. }
    destruct (Hmove t' t p' k' Hvl Ha) as (q & Hq). by apply (Hnone q k').
  - exfalso.
    assert (Ha : answers net flp flags t p k).
    { exists s, l. split; [done |]. by rewrite Hans. }
    destruct (Hmove t t' p k Hlv Ha) as (q & Hq). by apply (Hnone' q k).
  - assert (Ha : answers net flp flags t p k).
    { exists s, l. split; [done |]. by rewrite Hans. }
    assert (Ha' : answers net flp flags t' p' k').
    { exists s', l'. split; [done |]. by rewrite Hans'. }
    destruct (Hmove t t' p k Hlv Ha) as (q & Hq).
    destruct (Hmove t' t p' k' Hvl Ha') as (q' & Hq').
    pose proof (Hmax q' k' Hq'). pose proof (Hmax' q k Hq).
    assert (k' = k) as -> by lia.
    assert (Hx : leaf_of t' (Leaf k s' l')).
    { split; [by eauto |]. by exists p'. }
    apply Hvl in Hx as [_ (p2 & Hp2)].
    pose proof (leaf_unique t Hwf _ _ _ _ _ _ _ Hp Hp2) as <-.
    rewrite Hp in Hp2. injection Hp2 as <- <-. congruence.
Qed.

(** A leaf of a key is the leaf of the key. *)
Lemma leaf_of_key_unique t x y :
  shape_trie t -> leaf_of t x -> leaf_of t y -> kv_key x = kv_key y -> x = y.
Proof.
  intros Ht [(k & s & l & ->) (p & Hp)] [(k' & s' & l' & ->) (q & Hq)] Hk.
  simpl in Hk. subst k'.
  pose proof (shape_leaf_unique _ _ _ _ _ _ _ _ Ht Hp Hq) as ->. congruence.
Qed.

(** [fib_find_yesde] returns no leaf for a key that no leaf of the table
    has. *)
Lemma find_none_fresh t key tp :
  inv t -> 0 <= key < 2 ^ 32 -> fib_find_yesde t key = Some (tp, None) ->
  forall x, leaf_of t x -> kv_key x <> key.
Proof.
  intros Hinv Hk Hfind.
  destruct (find_facts t key Hinv Hk)
    as (tp' & r & tpn & Hfind' & _ & _ & _ & Hnone & _).
  rewrite Hfind in Hfind'. injection Hfind' as <- <-.
  by destruct (Hnone eq_refl).
Qed.

(** The scan of a leaf reads the suffix length, the tos, the type and the
    info of an alias, and the key of the leaf. *)
Lemma alias_answer_fields net flp flags k s l s' l' fa fa' :
  fa_slen fa' = fa_slen fa -> fa_tos fa' = fa_tos fa ->
  fa_type fa' = fa_type fa -> fa_info fa' = fa_info fa ->
  alias_answer net flp flags (Leaf k s' l') fa'
  = alias_answer net flp flags (Leaf k s l) fa.
Proof.
  intros H1 H2 H3 H4. unfold alias_answer. cbn [lookup_leaf kv_key].
  by rewrite H1, H2, H3, H4.
Qed.

(** The alias that [fib_table_insert] fills in for a request: the info
    made for it, the tos and the type of the request, the suffix length of
    its prefix and the id of the table. *)
Definition request_alias (tb : fib_table) (cfg : fib_config) (fi : fib_info)
  : fib_alias :=
  {| fa_info := fi; fa_tos := fc_tos cfg; fa_type := fc_type cfg;
     fa_state := 0; fa_slen := u8 (KEYLENGTH - fc_dst_len cfg);
     tb_id := tb_tb_id tb; fa_default := -1 |}.

Lemma insert_then_delete_spec net tb cfg fi w tb1 w1 tp net2 tb2 cfg2 tb3 w2 :
  inv (kv w) -> 0 <= fc_dst cfg < 2 ^ 32 -> 0 <= fc_dst_len cfg ->
  fib_find_yesde (kv w) (fc_dst cfg) = Some (tp, None) ->
  fib_create_info net cfg = inr fi ->
  fib_table_insert net tb cfg w = Some ((0, tb1), w1) ->
  fc_dst cfg2 = fc_dst cfg ->
  fib_table_delete net2 tb2 cfg2 w1 = Some ((0, tb3), w2) ->
  inv (kv w2) /\ forall x, leaf_of (kv w2) x <-> leaf_of (kv w) x.
Proof.
  intros Hinv Hk Hp Hfind Hfi Hins Hdst Hdel.
  pose proof (find_none_fresh _ _ _ Hinv Hk Hfind) as Hfresh.
  destruct (fib_table_insert_spec net tb cfg w Hinv Hk Hp)
    as (e & tbx & wx & Hrun1 & Hinv1 & _ & Hi).
  rewrite Hins in Hrun1. injection Hrun1 as <- <- <-.
  destruct (Hi fi Hfi eq_refl)
    as (L' & new & HkL & Hnew & _ & _ & _ & Hrep & Hlist).
  destruct Hlist as [(_ & Hone & _) | (s & lst & Hold & _)];
    [| by destruct (Hfresh _ Hold)].
  assert (Hk2 : 0 <= fc_dst cfg2 < 2 ^ 32) by by rewrite Hdst.
  destruct (fib_table_delete_spec net2 tb2 cfg2 w1 Hinv1 Hk2)
    as (e2 & tb4 & w4 & Hrun2 & Hinv2 & _ & Hd).
  rewrite Hdel in Hrun2. injection Hrun2 as <- <- <-.
  destruct (Hd eq_refl)
    as (lp & s & lst & d & fa & Hl & Hdl & _ & _ & _ & Hempty & _).
  rewrite Hdst in Hl, Hempty.
  assert (HL : Leaf (fc_dst cfg) s lst = L').
  { apply (leaf_of_key_unique (kv w1)); [by destruct Hinv1 | | | done].
    - split; [by eauto |]. by exists lp.
    - apply Hrep. by left. }
  subst L'. cbn [kv_leaf] in Hone. subst lst.
  destruct d as [|d]; [| done].
  specialize (Hempty eq_refl). split; [done |].
  intros x. rewrite (Hempty x), (Hrep x). split.
  - by intros [[->|[Hx _]] Hne].
  - intros Hx. pose proof (Hfresh x Hx). split; [by right | done].
Qed.

(** X23: when [fib_create_info] gives an info and [fib_table_insert]
    returns 0, the list of the leaf of the key differs from what it was
    by one alias at most, the one with that info.  If the table had no
    leaf of the key, the leaf holds that alias alone; otherwise it holds
    the list it held with the alias added at one place -- both only
    under [NLM_F_CREATE] --, or, only under [NLM_F_REPLACE], with the
    alias in the place of one it held, or the list as it was. *)
Theorem fib_table_insert_changes_one_alias (net : collaborators)
    (tb : fib_table) (cfg : fib_config) (fi : fib_info) (w : world)
    (tb' : fib_table) (w' : world) :
  inv (kv w) -> 0 <= fc_dst cfg < 2 ^ 32 -> 0 <= fc_dst_len cfg ->
  fib_create_info net cfg = inr fi ->
  fib_table_insert net tb cfg w = Some ((0, tb'), w') ->
  exists L' new,
    leaf_of (kv w') L' /\ kv_key L' = fc_dst cfg /\ fa_info new = fi /\
    fa_type new = fc_type cfg /\
    (((forall x, leaf_of (kv w) x -> kv_key x <> fc_dst cfg) /\
      kv_leaf L' = [new] /\
      flag_set (fc_nlflags cfg) NLM_F_CREATE = true) \/
     exists s lst,
       leaf_of (kv w) (Leaf (fc_dst cfg) s lst) /\
       ((exists i, kv_leaf L' = take i lst ++ new :: drop i lst /\
                   flag_set (fc_nlflags cfg) NLM_F_CREATE = true) \/
        (exists i, (i < length lst)%nat /\ kv_leaf L' = <[i := new]> lst /\
                   flag_set (fc_nlflags cfg) NLM_F_REPLACE = true) \/
        (kv_leaf L' = lst /\
         flag_set (fc_nlflags cfg) NLM_F_REPLACE = true))).
Proof.
  intros Hinv Hk Hp Hfi Hrun.
  destruct (fib_table_insert_spec net tb cfg w Hinv Hk Hp)
    as (e & tb1 & w1 & Hrun1 & _ & _ & Hins).
  rewrite Hrun in Hrun1. injection Hrun1 as <- <- <-.
  destruct (Hins fi Hfi eq_refl)
    as (L' & new & HkL & _ & _ & Hinfo & Htype & Hrep & Hlist).
  exists L', new. split; [apply Hrep; by left |].
  split; [done |]. split; [done |]. split; [done |]. exact Hlist.
Qed.

Lemma fib_table_insert_changes_one_alias_witness :
  exists L' new,
    leaf_of (kv (world_after
                   (example_two_routes ++ [Insert 254 example_third_route])))
            L' /\
    kv_key L' = ipv4 10 2 0 0 /\ fa_info new = example_fi 3.
Proof.
  destruct (fib_table_insert_changes_one_alias example_net (example_table 254)
              example_third_route (example_fi 3)
              (world_after example_two_routes) (example_table 254)
              (world_after
                 (example_two_routes ++ [Insert 254 example_third_route])))
    as (L' & new & HL & Hk & Hi & _).
  - exact (inv_world_after _ example_two_routes_ok).
  - by vm_compute.
  - by vm_compute.
  - reflexivity.
  - vm_compute. reflexivity.
  - exists L', new. split; [exact HL |]. split; [exact Hk | exact Hi].
Defined.

(** X24: insert, then delete.  When [fib_find_yesde] finds no leaf for
    the key, [fib_create_info] gives an info and [fib_table_insert]
    returns 0, and a [fib_table_delete] for the same key on the table it
    leaves returns 0, then the table has the leaves it had before the
    insert, and [fib_table_lookup] returns for every flow what it
    returned before the insert. *)
Theorem insert_then_delete_restores (net : collaborators) (tb : fib_table)
    (cfg : fib_config) (fi : fib_info) (w : world) (tb1 : fib_table)
    (w1 : world) (tp : ptr) (net2 : collaborators) (tb2 : fib_table)
    (cfg2 : fib_config) (tb3 : fib_table) (w2 : world) :
  inv (kv w) -> 0 <= fc_dst cfg < 2 ^ 32 -> 0 <= fc_dst_len cfg ->
  fib_find_yesde (kv w) (fc_dst cfg) = Some (tp, None) ->
  fib_create_info net cfg = inr fi ->
  fib_table_insert net tb cfg w = Some ((0, tb1), w1) ->
  fc_dst cfg2 = fc_dst cfg ->
  fib_table_delete net2 tb2 cfg2 w1 = Some ((0, tb3), w2) ->
  (forall x, leaf_of (kv w2) x <-> leaf_of (kv w) x) /\
  forall net3 flp flags,
    0 <= daddr flp < 2 ^ 32 ->
    fib_table_lookup net3 (kv w2) flp flags
    = fib_table_lookup net3 (kv w) flp flags.
Proof.
  intros Hinv Hk Hp Hfind Hfi Hins Hdst Hdel.
  destruct (insert_then_delete_spec net tb cfg fi w tb1 w1 tp net2 tb2 cfg2
              tb3 w2 Hinv Hk Hp Hfind Hfi Hins Hdst Hdel) as [Hinv2 Hlv].
  split; [done |]. intros net3 flp flags Hd.
  apply lookup_same_leaves; [by apply inv_wf | by apply inv_wf | done | done].
Qed.

(** Deleting 10.2.0.0/16 again. *)
Definition example_third_delete : fib_config :=
  example_route (ipv4 10 2 0 0) 16 0 3 0.

Lemma insert_then_delete_restores_witness :
  fib_table_lookup example_net
    (kv (world_after
           (example_two_routes ++ [Insert 254 example_third_route;
                                   Delete 254 example_third_delete])))
    (example_flow (ipv4 10 1 2 3) 0) 0
  = fib_table_lookup example_net (kv (world_after example_two_routes))
      (example_flow (ipv4 10 1 2 3) 0) 0.
Proof.
  refine (proj2 (insert_then_delete_restores example_net (example_table 254)
                   example_third_route (example_fi 3)
                   (world_after example_two_routes) (example_table 254)
                   (world_after
                      (example_two_routes
                       ++ [Insert 254 example_third_route]))
                   [] example_net (example_table 254) example_third_delete
                   (example_table 254)
                   (world_after
                      (example_two_routes
                       ++ [Insert 254 example_third_route;
                           Delete 254 example_third_delete]))
                   _ _ _ _ _ _ _ _)
            example_net (example_flow (ipv4 10 1 2 3) 0) 0 _).
  - exact (inv_world_after _ example_two_routes_ok).
  - by vm_compute.
  - by vm_compute.
  - vm_compute. reflexivity.
  - reflexivity.
  - vm_compute. reflexivity.
  - reflexivity.
  - vm_compute. reflexivity.
  - by vm_compute.
Defined.

(** X25: [fib_table_lookup] reads the leaves only.  Two well-formed
    tables with the same leaves return the same for every flow, however
    their internal nodes are laid out. *)
Theorem lookup_depends_on_leaves (net : collaborators) (t t' : key_vector)
    (flp : flowi4) (flags : Z) :
  wf_trie t = true -> wf_trie t' = true -> 0 <= daddr flp < 2 ^ 32 ->
  (forall x, leaf_of t x <-> leaf_of t' x) ->
  fib_table_lookup net t flp flags = fib_table_lookup net t' flp flags.
Proof. exact (lookup_same_leaves net t t' flp flags). Qed.

(** The table of the two example routes, before and after its internal
    node is inflated. *)
Lemma lookup_depends_on_leaves_witness :
  exists ok w',
    inflate resize [0] (world_after example_two_routes) = Some (ok, w') /\
    fib_table_lookup example_net (kv (world_after example_two_routes))
      (example_flow (ipv4 10 1 2 3) 0) 0
    = fib_table_lookup example_net (kv w')
        (example_flow (ipv4 10 1 2 3) 0) 0.
Proof.
  pose proof (inv_world_after _ example_two_routes_ok) as Hinv.
  destruct (inflate_spec resize (15 + 2) (resize_ok_resize _)
              (world_after example_two_routes) 0 [] example_inner)
    as (ok & w' & Hrun & Hre & _).
  - by destruct Hinv.
  - vm_compute. reflexivity.
  - vm_compute. reflexivity.
  - vm_compute. discriminate.
  - vm_compute. discriminate.
  - destruct (rebuilt_inv _ _ _ Hinv Hre) as [Hinv' Hlv].
    exists ok, w'. split; [exact Hrun |].
    apply (lookup_depends_on_leaves example_net
             (kv (world_after example_two_routes)) (kv w')
             (example_flow (ipv4 10 1 2 3) 0) 0).
    + by apply inv_wf.
    + by apply inv_wf.
    + clear. by vm_compute.
    + intros x. symmetry. apply Hlv.
Defined.

(** X26: rebalancing does not show in a lookup.  [resize] on an internal
    node of a table that keeps the invariant returns, and
    [fib_table_lookup] returns on the table it leaves what it returned
    before, for every flow. *)
Theorem resize_keeps_lookups (w : world) (c : Z) (tp : ptr)
    (tnn : key_vector) :
  inv (kv w) -> get_yesde (kv w) (c :: tp) = Some tnn ->
  IS_TNODE tnn = true ->
  exists w',
    resize (c :: tp) w = Some (tt, w') /\
    forall net flp flags,
      0 <= daddr flp < 2 ^ 32 ->
      fib_table_lookup net (kv w') flp flags
      = fib_table_lookup net (kv w) flp flags.
Proof.
  intros Hinv Htn Hint. pose proof Hinv as [Hs _].
  destruct (resize_spec w c tp tnn Hs Htn Hint) as (w' & Hrun & Hre).
  destruct (rebuilt_inv w w' tp Hinv Hre) as [Hinv' Hlv].
  exists w'. split; [done |]. intros net flp flags Hd.
  apply lookup_same_leaves; [by apply inv_wf | by apply inv_wf | done | done].
Qed.

Lemma resize_keeps_lookups_witness :
  exists w',
    resize [0] (world_after example_two_routes) = Some (tt, w') /\
    fib_table_lookup example_net (kv w') (example_flow (ipv4 10 1 2 3) 0) 0
    = fib_table_lookup example_net (kv (world_after example_two_routes))
        (example_flow (ipv4 10 1 2 3) 0) 0.
Proof.
  destruct (resize_keeps_lookups (world_after example_two_routes) 0 []
              example_inner)
    as (w' & Hrun & Hsame).
  - exact (inv_world_after _ example_two_routes_ok).
  - vm_compute. reflexivity.
  - vm_compute. reflexivity.
  - exists w'. split; [exact Hrun |]. apply Hsame. clear. by vm_compute.
Defined.

(** X27: insert, then look up.  When [fib_create_info] gives an info and
    [fib_table_insert] returns 0, every flow that the scan of a leaf
    answers from the alias of the request gets an answer from
    [fib_table_lookup] on the table the insert leaves: that of an alias
    of the table whose prefix is as long as that of the request at
    least. *)
Theorem fib_table_insert_then_lookup (net : collaborators) (tb : fib_table)
    (cfg : fib_config) (fi : fib_info) (w : world) (tb' : fib_table)
    (w' : world) (flp : flowi4) (flags : Z) :
  inv (kv w) -> 0 <= fc_dst cfg < 2 ^ 32 -> 0 <= fc_dst_len cfg ->
  fib_create_info net cfg = inr fi ->
  fib_table_insert net tb cfg w = Some ((0, tb'), w') ->
  0 <= daddr flp < 2 ^ 32 ->
  alias_answer net flp flags (Leaf (fc_dst cfg) 0 [])
    (request_alias tb cfg fi) <> None ->
  exists r p k s l fa,
    fib_table_lookup net (kv w') flp flags = Some r /\
    get_yesde (kv w') p = Some (Leaf k s l) /\ fa ∈ l /\
    alias_answer net flp flags (Leaf k s l) fa = Some r /\
    fa_slen fa <= u8 (KEYLENGTH - fc_dst_len cfg).
Proof.
  intros Hinv Hk Hp Hfi Hrun Hd Hans.
  destruct (fib_table_insert_spec net tb cfg w Hinv Hk Hp)
    as (e & tb1 & w1 & Hrun1 & Hinv' & _ & Hins).
  rewrite Hrun in Hrun1. injection Hrun1 as <- <- <-.
  destruct (Hins fi Hfi eq_refl)
    as (L' & new & HkL & Hnew & (H1 & _ & H3 & _) & Hinfo & Htype & Hrep & _).
  assert (HL : leaf_of (kv w') L') by (apply Hrep; by left).
  destruct HL as [(k' & s' & l' & ->) (p' & Hp')].
  cbn [kv_key kv_leaf] in HkL, Hnew. subst k'.
  assert (Hans' : alias_answer net flp flags (Leaf (fc_dst cfg) s' l') new
                  <> None).
  { by rewrite (alias_answer_fields net flp flags (fc_dst cfg) 0 [] s' l'
                  (request_alias tb cfg fi) new). }
  destruct (lookup_first_longest net (kv w') flp flags (inv_wf _ Hinv') Hd)
    as (r & Hr & [(p & k & s & l & l1 & fa & l2 & Hpl & Hl & Hfa & _ & Hmin)
                 | [_ Hnone]]).
  - exists r, p, k, s, l, fa. split; [done |]. split; [done |].
    split; [rewrite Hl; apply elem_of_app; right; left |].
    split; [done |]. rewrite <- H1.
    by apply (Hmin p' (fc_dst cfg) s' l' new).
  - by destruct (Hans' (Hnone p' (fc_dst cfg) s' l' new Hp' Hnew)).
Qed.

(** A flow to 10.2.3.4 after the insert of 10.2.0.0/16. *)
Lemma fib_table_insert_then_lookup_witness :
  exists r p k s l fa,
    fib_table_lookup example_net
      (kv (world_after
             (example_two_routes ++ [Insert 254 example_third_route])))
      (example_flow (ipv4 10 2 3 4) 0) 0 = Some r /\
    get_yesde
      (kv (world_after
             (example_two_routes ++ [Insert 254 example_third_route])))
      p = Some (Leaf k s l) /\
    fa ∈ l /\ fa_slen fa <= 16.
Proof.
  destruct (fib_table_insert_then_lookup example_net (example_table 254)
              example_third_route (example_fi 3)
              (world_after example_two_routes) (example_table 254)
              (world_after
                 (example_two_routes ++ [Insert 254 example_third_route]))
              (example_flow (ipv4 10 2 3 4) 0) 0)
    as (r & p & k & s & l & fa & Hr & Hp & Hin & _ & Hle).
  - exact (inv_world_after _ example_two_routes_ok).
  - by vm_compute.
  - by vm_compute.
  - reflexivity.
  - vm_compute. reflexivity.
  - by vm_compute.
  - vm_compute. discriminate.
  - exists r, p, k, s, l, fa. split; [exact Hr |]. split; [exact Hp |].
    split; [exact Hin | exact Hle].
Defined.

